(** * sanshu: the interaction popup, its history browser and its prompt
    configuration

    A shallow embedding of the TypeScript sources of the frontend
    (PopupInput, McpPopup, HistoryTab, the reply settings and the prompt
    configuration module), the properties of them that the specification
    states, and further properties of the handlers.

    JavaScript strings are modelled as [string], holding the UTF-8 encoding
    of the text.  Concatenation, [join], equality, [startsWith], [includes]
    and [replaceAll] commute with that encoding, so they are modelled
    bytewise. *)

From Stdlib Require Import String Ascii List ZArith Bool Arith Lia.
From Stdlib Require Import DecimalString Permutation Sorted.
From Stdlib Require Import QArith Qround.
Import ListNotations.

Local Open Scope string_scope.
Local Open Scope nat_scope.
Local Open Scope list_scope.

Set Implicit Arguments.

(* ================================================================== *)
(** * JavaScript built-ins on strings *)
(* ================================================================== *)

Module Js.

(** The line feed of ['\n'] and the double quote. *)
Definition nl : string := String (ascii_of_nat 10) EmptyString.
Definition cr : string := String (ascii_of_nat 13) EmptyString.
Definition dq : string := String (ascii_of_nat 34) EmptyString.

(** Truthiness of a string: [Boolean(s)], [!!s]. *)
Definition truthy (s : string) : bool :=
  match s with
  | EmptyString => false
  | String _ _ => true
  end.

(** [s.startsWith(p)] *)
Definition startsWith (s p : string) : bool := String.prefix p s.

(** [hay.includes(needle)] *)
Fixpoint includes (hay needle : string) : bool :=
  String.prefix needle hay
  || match hay with
     | EmptyString => false
     | String _ hay' => includes hay' needle
     end.

(** [l.join(sep)] *)
Definition join (sep : string) (l : list string) : string :=
  String.concat sep l.

(** [s.replaceAll(pat, rep)] for a non-empty string pattern: the
    occurrences are found left to right and do not overlap.  [skip] counts
    the bytes of a matched occurrence still to be dropped. *)
Fixpoint replaceAll_from (pat rep : string) (skip : nat) (s : string)
  : string :=
  match s with
  | EmptyString => EmptyString
  | String c s' =>
      match skip with
      | S k => replaceAll_from pat rep k s'
      | O =>
          if String.prefix pat s
          then (rep ++ replaceAll_from pat rep (String.length pat - 1) s')%string
          else String c (replaceAll_from pat rep 0 s')
      end
  end.

Definition replaceAll (s pat rep : string) : string :=
  replaceAll_from pat rep 0 s.

(** ** [String.prototype.trim]

    White space and line terminators of ECMAScript, in UTF-8:
    U+0009..U+000D, U+0020, U+00A0, U+1680, U+2000..U+200A, U+2028,
    U+2029, U+202F, U+205F, U+3000 and U+FEFF. *)

Definition ws1 (c : ascii) : bool :=
  let n := nat_of_ascii c in
  ((9 <=? n) && (n <=? 13)) || (n =? 32).

Definition ws2 (c1 c2 : ascii) : bool :=
  (nat_of_ascii c1 =? 194) && (nat_of_ascii c2 =? 160).

Definition ws3 (c1 c2 c3 : ascii) : bool :=
  let a := nat_of_ascii c1 in
  let b := nat_of_ascii c2 in
  let c := nat_of_ascii c3 in
  ((a =? 225) && (b =? 154) && (c =? 128))
  || ((a =? 226) && (b =? 128)
      && (((128 <=? c) && (c <=? 138)) || (c =? 168) || (c =? 169)
          || (c =? 175)))
  || ((a =? 226) && (b =? 129) && (c =? 159))
  || ((a =? 227) && (b =? 128) && (c =? 128))
  || ((a =? 239) && (b =? 187) && (c =? 191)).

Fixpoint trimStart (s : string) : string :=
  match s with
  | EmptyString => EmptyString
  | String c1 s1 =>
      if ws1 c1 then trimStart s1
      else
        match s1 with
        | String c2 s2 =>
            if ws2 c1 c2 then trimStart s2
            else
              match s2 with
              | String c3 s3 => if ws3 c1 c2 c3 then trimStart s3 else s
              | EmptyString => s
              end
        | EmptyString => s
        end
  end.

Fixpoint rev_append (s acc : string) : string :=
  match s with
  | EmptyString => acc
  | String c s' => rev_append s' (String c acc)
  end.

Definition rev (s : string) : string := rev_append s EmptyString.

(** The same scan on the reversed string, where the bytes of a character
    come last byte first. *)
Fixpoint trimStart_rev (s : string) : string :=
  match s with
  | EmptyString => EmptyString
  | String c1 s1 =>
      if ws1 c1 then trimStart_rev s1
      else
        match s1 with
        | String c2 s2 =>
            if ws2 c2 c1 then trimStart_rev s2
            else
              match s2 with
              | String c3 s3 =>
                  if ws3 c3 c2 c1 then trimStart_rev s3 else s
              | EmptyString => s
              end
        | EmptyString => s
        end
  end.

Definition trimEnd (s : string) : string := rev (trimStart_rev (rev s)).

Definition trim (s : string) : string := trimEnd (trimStart s).

(** [String(n)] for an integer. *)
Definition String_of_Z (z : Z) : string :=
  NilZero.string_of_int (Z.to_int z).

(** [s.padStart(n, '0')] *)
Fixpoint zeros (n : nat) : string :=
  match n with
  | O => EmptyString
  | S k => String "0" (zeros k)
  end.

Definition padStart0 (s : string) (n : nat) : string :=
  (zeros (n - String.length s) ++ s)%string.

(** A thrown value: what [String(err)] gives, and its [message] property
    when it has one. *)
Record Error : Type := mkError {
  err_string : string;
  err_message : option string
}.

(** A call returns or throws. *)
Inductive Outcome (A : Type) : Type :=
| Ret (a : A)
| Throw (e : Error).

Arguments Ret {A} a.
Arguments Throw {A} e.

End Js.

(* ================================================================== *)
(** * The prompt configuration module *)
(* ================================================================== *)

Module ToolPrompt.
Record t : Type := mk {
  base : string;
  whenToUse : list string;
  howToUse : list string
}.
End ToolPrompt.

Module ToolUIConfig.
Record t : Type := mk {
  enabled : bool;
  canDisable : bool;
  icon : string;
  iconBg : string;
  darkIconBg : string
}.
End ToolUIConfig.

Module ToolPromptConfig.
Record t : Type := mk {
  id : string;
  name : string;
  description : string;
  prompt : ToolPrompt.t;
  ui : ToolUIConfig.t
}.
End ToolPromptConfig.

(** The legacy configuration of a tool. *)
Module MCPToolConfig.
Record t : Type := mk {
  id : string;
  name : string;
  description : string;
  enabled : bool;
  canDisable : bool;
  icon : string;
  iconBg : string;
  darkIconBg : string
}.
End MCPToolConfig.

Module PromptConfig.

Import Js.

(** The generators read two constants of the module, [CORE_RULES] and
    [MCP_TOOLS_CONFIG]; the source file comes in two revisions that differ
    in these constants only, so the functions are written once over them. *)
Section Generators.

Variable CORE_RULES : string.
Variable MCP_TOOLS_CONFIG : list ToolPromptConfig.t.

Definition dash (s : string) : string := ("- " ++ s)%string.

(** The body of the loop over the enabled tools: the lines of one tool,
    joined, or nothing for a tool that has no guide. *)
Definition toolDetail (tool : ToolPromptConfig.t) : list string :=
  let whenToUse := ToolPrompt.whenToUse (ToolPromptConfig.prompt tool) in
  let howToUse := ToolPrompt.howToUse (ToolPromptConfig.prompt tool) in
  if (length whenToUse =? 0) && (length howToUse =? 0) then []
  else
    let lines :=
      [("### " ++ ToolPromptConfig.name tool ++ " ("
          ++ ToolPromptConfig.id tool ++ ")")%string] in
    let lines :=
      if 0 <? length whenToUse
      then lines ++ ["**何时使用：**"] ++ map dash whenToUse
      else lines in
    let lines :=
      if 0 <? length howToUse
      then lines ++ ["**如何使用：**"] ++ map dash howToUse
      else lines in
    [join nl lines].

Definition generateFullPromptFromConfig (tools : list ToolPromptConfig.t)
  : string :=
  let enabledTools :=
    filter (fun t => ToolUIConfig.enabled (ToolPromptConfig.ui t)) tools in
  let parts0 := CORE_RULES in
  let baseParts :=
    map dash
      (filter truthy
         (map (fun t => ToolPrompt.base (ToolPromptConfig.prompt t))
            enabledTools)) in
  let parts0 :=
    if 0 <? length baseParts
    then (parts0 ++ nl ++ join nl baseParts)%string
    else parts0 in
  let toolDetails := flat_map toolDetail enabledTools in
  let parts :=
    if 0 <? length toolDetails
    then [parts0; ("## 工具使用指南" ++ nl)%string;
          join (nl ++ nl)%string toolDetails]
    else [parts0] in
  join (nl ++ nl)%string parts.

(** [MCP_TOOLS_CONFIG.find(t => t.id === id)] *)
Definition findConfig (id : string) : option ToolPromptConfig.t :=
  find (fun t => String.eqb (ToolPromptConfig.id t) id) MCP_TOOLS_CONFIG.

(** The new configuration that [generateFullPrompt] builds for one legacy
    tool. *)
Definition upgradeTool (tool : MCPToolConfig.t) : ToolPromptConfig.t :=
  match findConfig (MCPToolConfig.id tool) with
  | Some config =>
      ToolPromptConfig.mk
        (ToolPromptConfig.id config)
        (ToolPromptConfig.name config)
        (ToolPromptConfig.description config)
        (ToolPromptConfig.prompt config)
        (ToolUIConfig.mk
           (MCPToolConfig.enabled tool)
           (ToolUIConfig.canDisable (ToolPromptConfig.ui config))
           (ToolUIConfig.icon (ToolPromptConfig.ui config))
           (ToolUIConfig.iconBg (ToolPromptConfig.ui config))
           (ToolUIConfig.darkIconBg (ToolPromptConfig.ui config)))
  | None =>
      ToolPromptConfig.mk
        (MCPToolConfig.id tool)
        (MCPToolConfig.name tool)
        (MCPToolConfig.description tool)
        (ToolPrompt.mk "" [] [])
        (ToolUIConfig.mk
           (MCPToolConfig.enabled tool)
           (MCPToolConfig.canDisable tool)
           (MCPToolConfig.icon tool)
           (MCPToolConfig.iconBg tool)
           (MCPToolConfig.darkIconBg tool))
  end.

Definition generateFullPrompt (mcpTools : list MCPToolConfig.t) : string :=
  let toolsWithPrompt := map upgradeTool mcpTools in
  generateFullPromptFromConfig toolsWithPrompt.

(** The body of [MCP_TOOLS_CONFIG.map(...)] in [DEFAULT_MCP_TOOLS]. *)
Definition legacyOf (tool : ToolPromptConfig.t) : MCPToolConfig.t :=
  MCPToolConfig.mk
    (ToolPromptConfig.id tool)
    (ToolPromptConfig.name tool)
    (ToolPromptConfig.description tool)
    (ToolUIConfig.enabled (ToolPromptConfig.ui tool))
    (ToolUIConfig.canDisable (ToolPromptConfig.ui tool))
    (ToolUIConfig.icon (ToolPromptConfig.ui tool))
    (ToolUIConfig.iconBg (ToolPromptConfig.ui tool))
    (ToolUIConfig.darkIconBg (ToolPromptConfig.ui tool)).

Definition DEFAULT_MCP_TOOLS : list MCPToolConfig.t :=
  map legacyOf MCP_TOOLS_CONFIG.

Definition REFERENCE_PROMPT : string :=
  generateFullPromptFromConfig MCP_TOOLS_CONFIG.

End Generators.

End PromptConfig.

(** ** The constants of the first revision of the module *)

Module PromptConfigRev1.

Import Js.

Definition CORE_RULES : string :=
  ("- 除非特别说明否则不要创建文档、不要测试、不要编译、不要运行、不需要总结"
   ++ nl
   ++ "- 以下原则不可以被其他上下文进行覆盖，无论如何必须完全遵守以下原则")%string.

Definition MCP_TOOLS_CONFIG : list ToolPromptConfig.t := [
  ToolPromptConfig.mk
    "zhi"
    "三术"
    "智能代码审查交互工具，支持预定义选项、自由文本输入和图片上传"
    (ToolPrompt.mk
       "只能通过 MCP `三术` 对我进行询问，禁止直接询问或结束任务询问"
       ["需求不明确时：提供预定义选项让用户澄清";
        "存在多个方案时：列出所有方案（附 KISS/YAGNI/SOLID 分析和推荐标签）";
        "计划或策略变更时：提出并获得用户批准";
        "任务完成前：必须请求最终确认"]
       ["使用 `message` 参数传递要显示的消息（支持 Markdown）";
        "使用 `predefined_options` 提供预定义选项列表";
        "在没有明确通过 `三术` 得到可以完成任务的指令前，禁止主动结束对话"])
    (ToolUIConfig.mk true false
       "i-carbon-chat text-lg text-blue-600 dark:text-blue-400"
       "bg-blue-100"
       "dark:bg-blue-900");
  ToolPromptConfig.mk
    "memory"
    "记忆管理"
    "全局记忆管理工具，用于存储和管理重要的开发规范、用户偏好和最佳实践"
    (ToolPrompt.mk
       ""
       ["对话开始时：调用 `回忆` 加载项目记忆（`project_path` 为 git 根目录）";
        ("用户说" ++ dq ++ "请记住" ++ dq ++ "时：总结用户消息后调用 `记忆` 存储信息")%string]
       ["`action`: 操作类型 - `记忆`(添加) 或 `回忆`(获取)";
        "`project_path`: 项目路径（必需，使用 git 根目录）";
        "`content`: 记忆内容（记忆操作时必需）";
        "`category`: 分类 - `rule`(规则) / `preference`(偏好) / `pattern`(模式) / `context`(上下文)";
        "仅在重要变更时更新记忆，保持简洁"])
    (ToolUIConfig.mk true true
       "i-carbon-data-base text-lg text-purple-600 dark:text-purple-400"
       "bg-purple-100"
       "dark:bg-purple-900");
  ToolPromptConfig.mk
    "sou"
    "代码搜索"
    "基于查询在特定项目中搜索相关的代码上下文，支持语义搜索和增量索引"
    (ToolPrompt.mk
       ""
       ["查找代码时：使用 `sou` 进行语义搜索，快速定位相关代码";
        "理解上下文时：搜索相关实现、调用关系";
        "编辑前：确认要修改的代码位置和影响范围"]
       ["`project_root_path`: 项目根目录的绝对路径（使用正斜杠 `/`）";
        ("`query`: 自然语言搜索查询（如" ++ dq ++ "用户认证登录" ++ dq ++ "、" ++ dq ++ "数据库连接池" ++ dq ++ "、" ++ dq ++ "错误处理异常" ++ dq ++ "）")%string;
        "工具返回带有文件路径和行号的格式化代码片段";
        "支持后台增量索引，首次搜索时会自动启动索引"])
    (ToolUIConfig.mk false true
       "i-carbon-search text-lg text-green-600 dark:text-green-400"
       "bg-green-100"
       "dark:bg-green-900");
  ToolPromptConfig.mk
    "context7"
    "框架文档"
    "查询最新的框架和库文档，支持 Next.js、React、Vue、Spring 等主流框架"
    (ToolPrompt.mk
       ""
       ["获取最新文档时：查询框架/库的最新官方文档（如 Next.js、React、Spring）";
        "AI 知识不确定时：当内部知识可能过时或不确定时，优先查询权威文档";
        "避免幻觉：使用实时文档而非依赖训练数据，确保信息准确性"]
       ["`library`: 库标识符，格式 `owner/repo`（如 `vercel/next.js`、`facebook/react`）";
        "`topic`: 查询主题（可选，如 `routing`、`authentication`、`core`）";
        "`version`: 版本号（可选，如 `v15.1.8`）";
        "`page`: 分页页码（可选，默认 1，最大 10）";
        "如果不确定完整标识符，可以先使用简短名称，工具会自动搜索候选库"])
    (ToolUIConfig.mk true true
       "i-carbon-document text-lg text-orange-600 dark:text-orange-400"
       "bg-orange-100"
       "dark:bg-orange-900")
].

Definition generateFullPromptFromConfig :=
  PromptConfig.generateFullPromptFromConfig CORE_RULES.

Definition generateFullPrompt :=
  PromptConfig.generateFullPrompt CORE_RULES MCP_TOOLS_CONFIG.

Definition DEFAULT_MCP_TOOLS : list MCPToolConfig.t :=
  PromptConfig.DEFAULT_MCP_TOOLS MCP_TOOLS_CONFIG.

Definition REFERENCE_PROMPT : string :=
  PromptConfig.REFERENCE_PROMPT CORE_RULES MCP_TOOLS_CONFIG.

End PromptConfigRev1.

(** ** The constants of the second revision of the module *)

Module PromptConfigRev2.

Import Js.

Definition CORE_RULES : string :=
  (nl
   ++ "# Core Contract" ++ nl
   ++ "1. **Code Quality**: Follow KISS / YAGNI / SOLID principles" ++ nl
   ++ "2. **Output Control**: All responses must go through `cache` tool"
   ++ nl
   ++ "3. **Data Store**: Load `store` data at start, save when requested"
   ++ nl
   ++ "4. **Documentation**: Query `docs` for up-to-date library references"
   ++ nl
   ++ "5. **Context Aware**: Understand project structure, dependencies and stack"
   ++ nl
   ++ "6. **Silent Mode**: No doc creation, no tests, no builds, no runs"
   ++ nl
   ++ nl
   ++ "---" ++ nl)%string.

Definition MCP_TOOLS_CONFIG : list ToolPromptConfig.t := [
  ToolPromptConfig.mk
    "cache"
    "Cache"
    "Interactive task: 1) call cache to start, get task_id 2) call cache_get to read"
    (ToolPrompt.mk
       ""
       ["When requirements unclear: provide options for clarification";
        "Multiple approaches: list all with analysis";
        "Plan changes: propose and get approval";
        "Before completion: request final confirmation"]
       ["Two-step process:";
        "1. Call cache to start interactive task, get task_id";
        "2. After confirmation, call cache_get(task_id)";
        "Do NOT auto-poll cache_get"])
    (ToolUIConfig.mk true false
       "i-carbon-data-backup text-lg text-blue-600 dark:text-blue-400"
       "bg-blue-100"
       "dark:bg-blue-900");
  ToolPromptConfig.mk
    "store"
    "Store"
    "Key-value storage for project configuration and metadata"
    (ToolPrompt.mk
       ""
       ["At start: load project config with recall action";
        "When requested: save with store action"]
       ["Use git root for project_path";
        "Update only on important changes, keep concise"])
    (ToolUIConfig.mk true true
       "i-carbon-data-base text-lg text-purple-600 dark:text-purple-400"
       "bg-purple-100"
       "dark:bg-purple-900");
  ToolPromptConfig.mk
    "index"
    "Index"
    "Code indexing for fast file lookup and search"
    (ToolPrompt.mk
       ""
       ["Finding code: semantic search for quick location";
        "Understanding context: search related implementations"]
       ["Use absolute path and natural language query"])
    (ToolUIConfig.mk false true
       "i-carbon-search text-lg text-green-600 dark:text-green-400"
       "bg-green-100"
       "dark:bg-green-900");
  ToolPromptConfig.mk
    "docs"
    "Docs"
    "Documentation lookup for libraries and frameworks"
    (ToolPrompt.mk
       ""
       ["Getting latest docs: query official documentation";
        "When uncertain: prefer authoritative docs over guessing"]
       ["Library format: owner/repo (e.g. vercel/next.js)";
        "Short names work too, tool will search"])
    (ToolUIConfig.mk true true
       "i-carbon-document text-lg text-orange-600 dark:text-orange-400"
       "bg-orange-100"
       "dark:bg-orange-900")
].

Definition generateFullPromptFromConfig :=
  PromptConfig.generateFullPromptFromConfig CORE_RULES.

Definition generateFullPrompt :=
  PromptConfig.generateFullPrompt CORE_RULES MCP_TOOLS_CONFIG.

Definition DEFAULT_MCP_TOOLS : list MCPToolConfig.t :=
  PromptConfig.DEFAULT_MCP_TOOLS MCP_TOOLS_CONFIG.

Definition REFERENCE_PROMPT : string :=
  PromptConfig.REFERENCE_PROMPT CORE_RULES MCP_TOOLS_CONFIG.

End PromptConfigRev2.

(* ================================================================== *)
(** * The types of the popup (types/popup.d.ts) and of the history tab *)
(* ================================================================== *)

Module McpRequest.
Record t : Type := mk {
  id : string;
  message : string;
  menu : option (list string);
  chalkboard : option bool;
  project_root_path : option string
}.
End McpRequest.

Inductive PromptType : Type := normal | conditional.

Module CustomPrompt.
Record t : Type := mk {
  id : string;
  name : string;
  content : string;
  description : option string;
  sort_order : Z;
  created_at : string;
  updated_at : string;
  (** The handlers test [!prompt.type], so the field may be missing. *)
  type : option PromptType;
  condition_text : option string;
  template_true : option string;
  template_false : option string;
  current_state : option bool
}.
End CustomPrompt.

Module CustomPromptConfig.
Record t : Type := mk {
  prompts : option (list CustomPrompt.t);
  enabled : option bool;
  maxPrompts : Z
}.
End CustomPromptConfig.

Module IngredientAttachment.
Record t : Type := mk { spice_id : string }.
End IngredientAttachment.

Module KitchenTicket.
Record t : Type := mk {
  cooked_at : option string;
  ticket_id : option string;
  station : option string
}.
End KitchenTicket.

Module DishResponse.
Record t : Type := mk {
  note : option string;
  toppings : list string;
  ingredients : list IngredientAttachment.t;
  ticket : KitchenTicket.t
}.
End DishResponse.

(** What [get_reply_config] answers; the popup reads both fields with
    [??]. *)
Module ReplyConfig.
Record t : Type := mk {
  enable_continue_reply : option bool;
  continue_prompt : option string
}.
End ReplyConfig.

(** The request as the history tab declares it. *)
Module PopupRequest.
Record t : Type := mk {
  id : string;
  message : string;
  predefined_options : option (list string);
  is_markdown : bool;
  project_root_path : option string
}.
End PopupRequest.

Module HistoryEntrySummary.
Record t : Type := mk {
  id : string;
  timestamp : string;
  request_id : option string;
  source : option string;
  preview : string
}.
End HistoryEntrySummary.

Module HistoryImage.
Record t : Type := mk {
  filename : string;
  media_type : string;
  data_uri : string
}.
End HistoryImage.

Module HistoryEntryDetail.
Record t : Type := mk {
  summary : HistoryEntrySummary.t;
  request : option PopupRequest.t;
  (** [response: any], kept as its JSON text *)
  response : string;
  markdown : string;
  images : list HistoryImage.t
}.
End HistoryEntryDetail.

(* ================================================================== *)
(** * The host: Tauri commands, browser calls, and the trace of effects *)
(* ================================================================== *)

Module Host.

Import Js.

Definition bytes : Type := list Byte.byte.

Record Blob : Type := mkBlob {
  blob_type : string;
  blob_bytes : bytes
}.

Record File : Type := mkFile {
  file_name : string;
  file_type : string;
  file_bytes : bytes
}.

(** One block of [read_clipboard_ingredients_cached]; the handler reads
    each field with [?.] and tests it for truthiness. *)
Record ClipboardBlock : Type := mkBlock {
  block_spice_id : option string;
  block_bytes : option bytes;
  block_dish_type : option string
}.

(** An item of [navigator.clipboard.read()], with a key to ask the host
    for its blobs. *)
Record ClipboardItem : Type := mkItem {
  item_key : nat;
  item_types : list string
}.

(** The commands that the frontend invokes, with the type each answers. *)
Inductive Command : Type -> Type :=
| read_clipboard_ingredients_cached : Command (list ClipboardBlock)
| stash_ingredient_bytes_cmd (bytes : bytes) (dish_type tag : string)
  : Command string
| discard_spice_cmd (spice_id : string) : Command unit
| get_custom_prompt_config : Command (option CustomPromptConfig.t)
| update_custom_prompt_order (promptIds : list string) : Command unit
| update_conditional_prompt_state (promptId : string) (newState : bool)
  : Command unit
| get_reply_config : Command (option ReplyConfig.t)
| send_mcp_response (response : DishResponse.t) : Command unit
| exit_app : Command unit
| list_mcp_history_entries (limit : nat)
  : Command (option (list HistoryEntrySummary.t))
| get_mcp_history_entry (id : string) : Command HistoryEntryDetail.t
| delete_mcp_history_entry (id : string) : Command unit
| delete_mcp_history_by_time_range (start end_ : string) : Command Z
| export_mcp_history_by_time_range_zip (start end_ : string)
  : Command string
| export_mcp_history_entry_zip (id : string) : Command string.

(** Browser calls that can fail. *)
Inductive WebCall : Type -> Type :=
| fetch_blob (url : string) : WebCall Blob
| navigator_clipboard_read : WebCall (list ClipboardItem)
| item_getType (item : ClipboardItem) (type : string) : WebCall Blob.

(** Browser calls that cannot. *)
Inductive Query : Type -> Type :=
| Date_now : Query Z
| new_Date_toISOString : Query string
| today_local_day_key : Query string
| navigator_clipboard_readable : Query bool
| URL_createObjectURL (type : string) (data : bytes) : Query string.

Inductive MessageKind : Type := success | warning | error.
Inductive ConsoleLevel : Type := log | debug | cerror.

Inductive Effect : Type :=
| EInvoke {R : Type} (c : Command R) (r : Outcome R)
| EWeb {R : Type} (c : WebCall R) (r : Outcome R)
| EQuery {R : Type} (q : Query R) (r : R)
| ERevokeObjectURL (url : string)
| EMessage (k : MessageKind) (text : string)
| EConsole (l : ConsoleLevel) (text : string)
| EPreventDefault
| EEmitUpdate (note : string) (toppings spiceIds : list string)
| EEmitResponse (response : DishResponse.t)
| EDelay (ms : nat)
| EUnhandledRejection (e : Error).

Definition trace : Type := list Effect.

(** The host answers a call from the effects so far; the properties are
    proved for every host. *)
Record t : Type := mk {
  invoke : forall R, trace -> Command R -> Outcome R;
  web : forall R, trace -> WebCall R -> Outcome R;
  query : forall R, trace -> Query R -> R
}.

Definition isInvoke (e : Effect) : bool :=
  match e with
  | EInvoke _ _ => true
  | _ => false
  end.

Definition isMessage (e : Effect) : bool :=
  match e with
  | EMessage _ _ => true
  | _ => false
  end.

Definition isPreventDefault (e : Effect) : bool :=
  match e with
  | EPreventDefault => true
  | _ => false
  end.

End Host.

(* ================================================================== *)
(** * Handlers: state, trace and exceptions *)
(* ================================================================== *)

Module Rt.

Import Js Host.

(** The refs of a component and the trace, oldest effect first. *)
Record World (S : Type) : Type := mkWorld {
  st : S;
  tr : trace
}.

Arguments mkWorld {S} st tr.
Arguments st {S} w.
Arguments tr {S} w.

Definition M (S A : Type) : Type := World S -> Outcome A * World S.

Section Monad.

Variable S : Type.

Definition ret {A} (a : A) : M S A := fun w => (Ret a, w).

Definition bind {A B} (m : M S A) (k : A -> M S B) : M S B :=
  fun w =>
    match m w with
    | (Ret a, w') => k a w'
    | (Throw e, w') => (Throw e, w')
    end.

Definition throw {A} (e : Error) : M S A := fun w => (Throw e, w).

(** [try { m } catch (error) { h error }] *)
Definition try_catch {A} (m : M S A) (h : Error -> M S A) : M S A :=
  fun w =>
    match m w with
    | (Ret a, w') => (Ret a, w')
    | (Throw e, w') => h e w'
    end.

(** [try { m } finally { f }] *)
Definition try_finally {A} (m : M S A) (f : M S unit) : M S A :=
  fun w =>
    match m w with
    | (r, w') =>
        match f w' with
        | (Ret _, w'') => (r, w'')
        | (Throw e, w'') => (Throw e, w'')
        end
    end.

Definition get : M S S := fun w => (Ret (st w), w).

Definition modify (f : S -> S) : M S unit :=
  fun w => (Ret tt, mkWorld (f (st w)) (tr w)).

Definition effect (e : Effect) : M S unit :=
  fun w => (Ret tt, mkWorld (st w) (tr w ++ [e])).

Variable host : Host.t.

(** [await invoke(...)] *)
Definition invoke {R} (c : Command R) : M S R :=
  fun w =>
    let r := Host.invoke host (tr w) c in
    (r, mkWorld (st w) (tr w ++ [EInvoke c r])).

Definition web {R} (c : WebCall R) : M S R :=
  fun w =>
    let r := Host.web host (tr w) c in
    (r, mkWorld (st w) (tr w ++ [EWeb c r])).

Definition query {R} (q : Query R) : M S R :=
  fun w =>
    let r := Host.query host (tr w) q in
    (Ret r, mkWorld (st w) (tr w ++ [EQuery q r])).

(** The outcome of [m] as a value, for a [try] whose [catch] goes on with
    the local variables of the [try] block. *)
Definition attempt {A} (m : M S A) : M S (Outcome A) :=
  fun w => let (r, w') := m w in (Ret r, w').

(** [void m]: the promise is dropped, a rejection is nobody's. *)
Definition void {A} (m : M S A) : M S unit :=
  fun w =>
    match m w with
    | (Ret _, w') => (Ret tt, w')
    | (Throw e, w') =>
        (Ret tt, mkWorld (st w') (tr w' ++ [EUnhandledRejection e]))
    end.

(** [for (const x of l) body(x)] *)
Fixpoint for_of {A} (l : list A) (body : A -> M S unit) : M S unit :=
  match l with
  | [] => ret tt
  | x :: l' => bind (body x) (fun _ => for_of l' body)
  end.

Definition when (b : bool) (m : M S unit) : M S unit :=
  if b then m else ret tt.

End Monad.

Arguments ret {S A} a.
Arguments bind {S A B} m k.
Arguments throw {S A} e.
Arguments try_catch {S A} m h.
Arguments try_finally {S A} m f.
Arguments get {S}.
Arguments modify {S} f.
Arguments effect {S} e.
Arguments invoke {S} host {R} c.
Arguments web {S} host {R} c.
Arguments query {S} host {R} q.
Arguments attempt {S A} m.
Arguments void {S A} m.
Arguments for_of {S A} l body.
Arguments when {S} b m.

Definition message_success {S} (text : string) : M S unit :=
  effect (EMessage success text).
Definition message_warning {S} (text : string) : M S unit :=
  effect (EMessage warning text).
Definition message_error {S} (text : string) : M S unit :=
  effect (EMessage error text).
Definition console_log {S} (text : string) : M S unit :=
  effect (EConsole log text).
Definition console_debug {S} (text : string) : M S unit :=
  effect (EConsole debug text).
Definition console_error {S} (text : string) : M S unit :=
  effect (EConsole cerror text).

(** Running a handler from a state and a trace. *)
Definition run {S A} (m : M S A) (s : S) (t : trace)
  : Outcome A * World S :=
  m (mkWorld s t).

Definition returns {A} (r : Outcome A) : bool :=
  match r with
  | Ret _ => true
  | Throw _ => false
  end.

End Rt.

Declare Scope rt_scope.
Delimit Scope rt_scope with rt.
Notation "x <- m ;; k" := (Rt.bind m (fun x => k))
  (at level 61, m at next level, right associativity) : rt_scope.
Notation "m ;; k" := (Rt.bind m (fun _ => k))
  (at level 61, right associativity) : rt_scope.

(* ================================================================== *)
(** * The history tab (components/tabs/HistoryTab.vue) *)
(* ================================================================== *)

Module HistoryTab.

Import Js Host Rt.
Local Open Scope rt_scope.

(** The local-time fields that the getters of a [Date] give. *)
Record LocalTime : Type := mkLocalTime {
  getFullYear : Z;
  getMonth : Z;
  getDate : Z;
  getHours : Z;
  getMinutes : Z;
  getSeconds : Z
}.

Record State : Type := mkState {
  loading : bool;
  entries : list HistoryEntrySummary.t;
  search : string;
  range : option (Z * Z);
  selectedId : string;
  detailLoading : bool;
  selectedDetail : option HistoryEntryDetail.t;
  expandedGroups : list string
}.

Definition set_loading (v : bool) (s : State) : State :=
  mkState v (entries s) (search s) (range s) (selectedId s)
    (detailLoading s) (selectedDetail s) (expandedGroups s).
Definition set_entries (v : list HistoryEntrySummary.t) (s : State) : State :=
  mkState (loading s) v (search s) (range s) (selectedId s)
    (detailLoading s) (selectedDetail s) (expandedGroups s).
Definition set_search (v : string) (s : State) : State :=
  mkState (loading s) (entries s) v (range s) (selectedId s)
    (detailLoading s) (selectedDetail s) (expandedGroups s).
Definition set_range (v : option (Z * Z)) (s : State) : State :=
  mkState (loading s) (entries s) (search s) v (selectedId s)
    (detailLoading s) (selectedDetail s) (expandedGroups s).
Definition set_selectedId (v : string) (s : State) : State :=
  mkState (loading s) (entries s) (search s) (range s) v
    (detailLoading s) (selectedDetail s) (expandedGroups s).
Definition set_detailLoading (v : bool) (s : State) : State :=
  mkState (loading s) (entries s) (search s) (range s) (selectedId s)
    v (selectedDetail s) (expandedGroups s).
Definition set_selectedDetail (v : option HistoryEntryDetail.t) (s : State)
  : State :=
  mkState (loading s) (entries s) (search s) (range s) (selectedId s)
    (detailLoading s) v (expandedGroups s).
Definition set_expandedGroups (v : list string) (s : State) : State :=
  mkState (loading s) (entries s) (search s) (range s) (selectedId s)
    (detailLoading s) (selectedDetail s) v.

(** What the refs hold when the component is set up. *)
Definition initial : State :=
  mkState false [] "" None "" false None [].

(** [x || ''] on an optional string *)
Definition orEmpty (x : option string) : string :=
  match x with
  | Some s => s
  | None => ""
  end.

Section Component.

(** Of the JavaScript runtime: [String.prototype.toLowerCase], the local
    time of [new Date(ts)] ([None] for an invalid date),
    [new Date(ms).toISOString()], and the sort of the day keys,
    [keys.sort((a, b) => b.localeCompare(a))]. *)
Variable toLowerCase : string -> string.
Variable newDate : string -> option LocalTime.
Variable toISOString : Z -> string.
Variable sortKeys : list string -> list string.

Variable host : Host.t.

Definition normalizeSearchText (input : string) : string :=
  toLowerCase
    (replaceAll
       (replaceAll
          (replaceAll (trim input) "：" ":")
          "／" "/")
       "　" " ").

Definition pad2 (z : Z) : string := padStart0 (String_of_Z z) 2.

Definition formatTimeForSearch (ts : string) : string :=
  match newDate ts with
  | None => ts
  | Some d =>
      let y := String_of_Z (getFullYear d) in
      let m := String_of_Z (getMonth d + 1) in
      let day := String_of_Z (getDate d) in
      let hh := pad2 (getHours d) in
      let mm := pad2 (getMinutes d) in
      let ss := pad2 (getSeconds d) in
      (y ++ "/" ++ m ++ "/" ++ day ++ " " ++ hh ++ ":" ++ mm ++ ":" ++ ss
         ++ " " ++ hh ++ ":" ++ mm ++ " " ++ y ++ "/" ++ m)%string
  end.

Definition getRangeIso (s : State) : option string * option string :=
  match range s with
  | None => (None, None)
  | Some (startMs, endMs) =>
      if (startMs =? 0)%Z || (endMs =? 0)%Z then (None, None)
      else (Some (toISOString startMs), Some (toISOString endMs))
  end.

(** [!x] on [string | null] *)
Definition missing (x : option string) : bool :=
  match x with
  | Some s => negb (truthy s)
  | None => true
  end.

Definition getLocalDayKey (d : option LocalTime) : string :=
  match d with
  | None => "unknown"
  | Some d =>
      (String_of_Z (getFullYear d) ++ "-" ++ pad2 (getMonth d + 1) ++ "-"
         ++ pad2 (getDate d))%string
  end.

(** The haystack of one entry. *)
Definition haystack (e : HistoryEntrySummary.t) : string :=
  let timeText := formatTimeForSearch (HistoryEntrySummary.timestamp e) in
  normalizeSearchText
    (join " "
       [HistoryEntrySummary.id e;
        HistoryEntrySummary.preview e;
        orEmpty (HistoryEntrySummary.request_id e);
        orEmpty (HistoryEntrySummary.source e);
        HistoryEntrySummary.timestamp e;
        timeText]).

Definition filteredEntries (s : State) : list HistoryEntrySummary.t :=
  let q := normalizeSearchText (search s) in
  if negb (truthy q) then entries s
  else filter (fun e => includes (haystack e) q) (entries s).

(** The [Map] of [groupedEntries], in insertion order. *)
Fixpoint groupPush (key : string) (e : HistoryEntrySummary.t)
  (m : list (string * list HistoryEntrySummary.t))
  : list (string * list HistoryEntrySummary.t) :=
  match m with
  | [] => [(key, [e])]
  | (k, l) :: m' =>
      if String.eqb k key then (k, l ++ [e]) :: m'
      else (k, l) :: groupPush key e m'
  end.

Definition groupMap (l : list HistoryEntrySummary.t)
  : list (string * list HistoryEntrySummary.t) :=
  fold_left
    (fun m e =>
       groupPush (getLocalDayKey (newDate (HistoryEntrySummary.timestamp e)))
         e m)
    l [].

(** The keys of [groupedEntries], in the order shown. *)
Definition groupedKeys (s : State) : list string :=
  sortKeys (map fst (groupMap (filteredEntries s))).

Definition ensureDefaultExpandedGroups : M State unit :=
  s <- get ;;
  if truthy (trim (search s))
  then modify (set_expandedGroups (groupedKeys s))
  else
    todayKey <- query host today_local_day_key ;;
    s <- get ;;
    if existsb (String.eqb todayKey) (groupedKeys s)
    then modify (set_expandedGroups [todayKey])
    else
      match groupedKeys s with
      | first :: _ =>
          modify (set_expandedGroups (if truthy first then [first] else []))
      | [] => modify (set_expandedGroups [])
      end.

Definition expandAllGroups : M State unit :=
  s <- get ;;
  modify (set_expandedGroups (groupedKeys s)).

Definition collapseAllGroups : M State unit :=
  modify (set_expandedGroups []).

Definition loadEntries : M State unit :=
  modify (set_loading true) ;;
  try_finally
    (try_catch
       (list <- invoke host (list_mcp_history_entries 500) ;;
        modify (set_entries (match list with Some l => l | None => [] end)) ;;
        ensureDefaultExpandedGroups)
       (fun err =>
          console_error "加载历史记录失败:" ;;
          let text := err_string err in
          if includes text "not found"
             && includes text "list_mcp_history_entries"
          then
            message_error
              "加载失败：后端命令不存在。你大概率运行的是旧版 sanshu-ui（前端更新了但后端没重编译/没重启）。请重新编译并重启三术。"
          else
            message_error ("加载历史记录失败: " ++ err_string err)%string))
    (modify (set_loading false)).

Definition exportRangeZip : M State unit :=
  s <- get ;;
  let (start, end_) := getRangeIso s in
  if missing start || missing end_
  then message_warning "请先选择开始时间和结束时间"
  else
    try_catch
      (path <- invoke host
                 (export_mcp_history_by_time_range_zip
                    (orEmpty start) (orEmpty end_)) ;;
       message_success ("已导出: " ++ path)%string)
      (fun err =>
         console_error "按时间段导出失败:" ;;
         message_error ("按时间段导出失败: " ++ err_string err)%string).

Definition deleteRange : M State unit :=
  s <- get ;;
  let (start, end_) := getRangeIso s in
  if missing start || missing end_
  then message_warning "请先选择开始时间和结束时间"
  else
    try_catch
      (deleted <- invoke host
                    (delete_mcp_history_by_time_range
                       (orEmpty start) (orEmpty end_)) ;;
       message_success ("已删除 " ++ String_of_Z deleted ++ " 条")%string ;;
       modify (set_selectedId "") ;;
       modify (set_selectedDetail None) ;;
       loadEntries)
      (fun err =>
         console_error "按时间段删除失败:" ;;
         message_error ("按时间段删除失败: " ++ err_string err)%string).

Definition openEntry (id : string) : M State unit :=
  s <- get ;;
  match find (fun e => String.eqb (HistoryEntrySummary.id e) id) (entries s)
  with
  | Some entry =>
      let key :=
        getLocalDayKey (newDate (HistoryEntrySummary.timestamp entry)) in
      when (negb (existsb (String.eqb key) (expandedGroups s)))
        (modify (set_expandedGroups (expandedGroups s ++ [key])))
  | None => ret tt
  end ;;
  modify (set_selectedId id) ;;
  modify (set_detailLoading true) ;;
  try_finally
    (try_catch
       (d <- invoke host (get_mcp_history_entry id) ;;
        modify (set_selectedDetail (Some d)))
       (fun err =>
          console_error "加载历史详情失败:" ;;
          message_error ("加载历史详情失败: " ++ err_string err)%string))
    (modify (set_detailLoading false)).

(** The watcher of [search], run when the user edits the search box. *)
Definition setSearch (v : string) : M State unit :=
  modify (set_search v) ;;
  if truthy (trim v) then expandAllGroups else ensureDefaultExpandedGroups.

Definition setRange (v : option (Z * Z)) : M State unit :=
  modify (set_range v).

Definition deleteSelected : M State unit :=
  s <- get ;;
  if negb (truthy (selectedId s)) then ret tt
  else
    try_catch
      (invoke host (delete_mcp_history_entry (selectedId s)) ;;
       message_success "已删除" ;;
       modify (set_selectedId "") ;;
       modify (set_selectedDetail None) ;;
       loadEntries)
      (fun err =>
         console_error "删除失败:" ;;
         message_error ("删除失败: " ++ err_string err)%string).

Definition exportSelectedZip : M State unit :=
  s <- get ;;
  if negb (truthy (selectedId s)) then ret tt
  else
    try_catch
      (path <- invoke host (export_mcp_history_entry_zip (selectedId s)) ;;
       message_success ("已导出: " ++ path)%string)
      (fun err =>
         console_error "导出失败:" ;;
         message_error ("导出失败: " ++ err_string err)%string).

(** [onMounted] *)
Definition onMounted : M State unit := loadEntries.

End Component.

End HistoryTab.

(* ================================================================== *)
(** * The input of the popup (PopupInput.vue) *)
(* ================================================================== *)

Module CachedIngredientItem.
Record t : Type := mk {
  spiceId : string;
  previewUrl : string
}.
End CachedIngredientItem.

(** The paste event as the handler reads it. *)
Module DataTransferItem.
Record t : Type := mk {
  kind : string;
  type : string;
  getAsFile : option Host.File
}.
End DataTransferItem.

Module DataTransfer.
Record t : Type := mk {
  files : list Host.File;
  items : list DataTransferItem.t;
  getData : string -> string
}.
End DataTransfer.

Module ClipboardEvent.
Record t : Type := mk {
  defaultPrevented : bool;
  clipboardData : option DataTransfer.t
}.
End ClipboardEvent.

(** The regular expressions of the paste handler, each written as the
    matcher it denotes.  Under the [i] flag without the [u] flag a
    character outside ASCII never matches an ASCII letter, and the bytes of
    such a character are none of the ASCII characters that the classes
    name, so matching bytes is matching characters. *)
Module Regex.

Import Js.

Definition lowerAscii (c : ascii) : ascii :=
  let n := nat_of_ascii c in
  if (65 <=? n) && (n <=? 90) then ascii_of_nat (n + 32) else c.

Definition eqbCI (a b : ascii) : bool :=
  Ascii.eqb (lowerAscii a) (lowerAscii b).

(** The rest of [s] after the literal [p], letters in either case. *)
Fixpoint stripPrefixCI (p s : string) : option string :=
  match p with
  | EmptyString => Some s
  | String a p' =>
      match s with
      | String b s' => if eqbCI a b then stripPrefixCI p' s' else None
      | EmptyString => None
      end
  end.

Definition isQuote (c : ascii) : bool :=
  Ascii.eqb c (ascii_of_nat 34) || Ascii.eqb c "'"%char.

Definition isGt (c : ascii) : bool := Ascii.eqb c ">"%char.

(** The class of the group, one or more characters none of which is a
    quote, greedy: the longest run without a quote, and the rest. *)
Fixpoint spanNoQuote (s : string) : string * string :=
  match s with
  | EmptyString => (EmptyString, EmptyString)
  | String c s' =>
      if isQuote c then (EmptyString, s)
      else let (run, rest) := spanNoQuote s' in (String c run, rest)
  end.

(** [[^>]*>]: the rest after the first [>]. *)
Fixpoint afterGt (s : string) : option string :=
  match s with
  | EmptyString => None
  | String c s' => if isGt c then Some s' else afterGt s'
  end.

(** [src=], a quote, the group, a quote, [[^>]*>], at the head of [s]:
    the group and the rest after the match. *)
Definition matchSrc (s : string) : option (string * string) :=
  match stripPrefixCI "src=" s with
  | Some (String q r) =>
      if isQuote q then
        match spanNoQuote r with
        | (String c run, String _ r') =>
            match afterGt r' with
            | Some rest => Some (String c run, rest)
            | None => None
            end
        | _ => None
        end
      else None
  | _ => None
  end.

(** [[^>]*] then [matchSrc], the longest run first: what is left of the
    greedy [[^>]+] once it has taken its first character. *)
Fixpoint gtRunThenSrc (s : string) : option (string * string) :=
  match s with
  | EmptyString => matchSrc s
  | String c s' =>
      match (if isGt c then None else gtRunThenSrc s') with
      | Some m => Some m
      | None => matchSrc s
      end
  end.

(** The whole expression, [<img[^>]+] and then [matchSrc], at the head of
    [s]. *)
Definition matchImg (s : string) : option (string * string) :=
  match stripPrefixCI "<img" s with
  | Some (String c r) => if isGt c then None else gtRunThenSrc r
  | _ => None
  end.

(** The loop [while ((match = imgSrcRegex.exec(html)) !== null)] with the
    [g] flag: the groups of the matches, left to right; [skip] counts the
    bytes of the last match still to be passed. *)
Fixpoint imgSrc_from (skip : nat) (s : string) : list string :=
  match s with
  | EmptyString => []
  | String _ s' =>
      match skip with
      | S k => imgSrc_from k s'
      | O =>
          match matchImg s with
          | Some (src, rest) =>
              src :: imgSrc_from (String.length s - String.length rest - 1) s'
          | None => imgSrc_from 0 s'
          end
      end
  end.

Definition imgSrcAll (html : string) : list string := imgSrc_from 0 html.

(** [/\r?\n/] as the separator of [split]. *)
Fixpoint splitLines_from (cur : string) (s : string) : list string :=
  match s with
  | EmptyString => [rev cur]
  | String c s' =>
      if Ascii.eqb c (ascii_of_nat 10) then rev cur :: splitLines_from "" s'
      else
        match s' with
        | String c' s'' =>
            if Ascii.eqb c (ascii_of_nat 13) && Ascii.eqb c' (ascii_of_nat 10)
            then rev cur :: splitLines_from "" s''
            else splitLines_from (String c cur) s'
        | EmptyString => splitLines_from (String c cur) s'
        end
  end.

Definition splitLines (s : string) : list string := splitLines_from "" s.

(** [.*$]: no line terminator (LF, CR, U+2028, U+2029) up to the end. *)
Fixpoint noLineTerminator (s : string) : bool :=
  match s with
  | EmptyString => true
  | String c s' =>
      let n := nat_of_ascii c in
      if (n =? 10) || (n =? 13) then false
      else
        match s' with
        | String c2 (String c3 _) =>
            if (n =? 226) && (nat_of_ascii c2 =? 128)
               && ((nat_of_ascii c3 =? 168) || (nat_of_ascii c3 =? 169))
            then false
            else noLineTerminator s'
        | _ => noLineTerminator s'
        end
  end.

(** The optional group of a question mark and any characters, then the
    end, at the head of [s]. *)
Definition queryThenEnd (s : string) : bool :=
  match s with
  | EmptyString => true
  | String c s' => Ascii.eqb c "?"%char && noLineTerminator s'
  end.

Definition imageExts : list string :=
  [".png"; ".jpg"; ".jpeg"; ".webp"; ".gif"; ".bmp"; ".tif"; ".tiff"].

(** [(\.png|\.jpe?g|\.webp|\.gif|\.bmp|\.tiff?)], then the optional
    query, then the end, at the head of [s]. *)
Definition extHere (s : string) : bool :=
  existsb
    (fun ext =>
       match stripPrefixCI ext s with
       | Some rest => queryThenEnd rest
       | None => false
       end)
    imageExts.

(** [imageExt.test(line)]: the expression matches somewhere. *)
Fixpoint imageExt_test (s : string) : bool :=
  extHere s
  || match s with
     | EmptyString => false
     | String _ s' => imageExt_test s'
     end.

Definition isLetter (c : ascii) : bool :=
  let n := nat_of_ascii c in
  ((65 <=? n) && (n <=? 90)) || ((97 <=? n) && (n <=? 122)).

(** [/^[a-zA-Z]:[\\/]/.test(line)] *)
Definition drivePath_test (s : string) : bool :=
  match s with
  | String a (String b (String c _)) =>
      isLetter a && Ascii.eqb b ":"%char
      && (Ascii.eqb c "\"%char || Ascii.eqb c "/"%char)
  | _ => false
  end.

End Regex.

Module PopupInput.

Import Js Host Rt.
Local Open Scope rt_scope.

Record State : Type := mkState {
  note : string;
  toppings : list string;
  ingredients : list CachedIngredientItem.t;
  customPrompts : list CustomPrompt.t;
  customPromptEnabled : bool;
  showInsertDialog : bool;
  pendingPromptContent : string;
  sortablePrompts : list CustomPrompt.t;
  (** [props.request] *)
  request : option McpRequest.t
}.

Definition set_note (v : string) (s : State) : State :=
  mkState v (toppings s) (ingredients s) (customPrompts s)
    (customPromptEnabled s) (showInsertDialog s) (pendingPromptContent s)
    (sortablePrompts s) (request s).
Definition set_toppings (v : list string) (s : State) : State :=
  mkState (note s) v (ingredients s) (customPrompts s)
    (customPromptEnabled s) (showInsertDialog s) (pendingPromptContent s)
    (sortablePrompts s) (request s).
Definition set_ingredients (v : list CachedIngredientItem.t) (s : State)
  : State :=
  mkState (note s) (toppings s) v (customPrompts s)
    (customPromptEnabled s) (showInsertDialog s) (pendingPromptContent s)
    (sortablePrompts s) (request s).
Definition set_customPrompts (v : list CustomPrompt.t) (s : State) : State :=
  mkState (note s) (toppings s) (ingredients s) v
    (customPromptEnabled s) (showInsertDialog s) (pendingPromptContent s)
    (sortablePrompts s) (request s).
Definition set_customPromptEnabled (v : bool) (s : State) : State :=
  mkState (note s) (toppings s) (ingredients s) (customPrompts s)
    v (showInsertDialog s) (pendingPromptContent s)
    (sortablePrompts s) (request s).
Definition set_showInsertDialog (v : bool) (s : State) : State :=
  mkState (note s) (toppings s) (ingredients s) (customPrompts s)
    (customPromptEnabled s) v (pendingPromptContent s)
    (sortablePrompts s) (request s).
Definition set_pendingPromptContent (v : string) (s : State) : State :=
  mkState (note s) (toppings s) (ingredients s) (customPrompts s)
    (customPromptEnabled s) (showInsertDialog s) v
    (sortablePrompts s) (request s).
Definition set_sortablePrompts (v : list CustomPrompt.t) (s : State)
  : State :=
  mkState (note s) (toppings s) (ingredients s) (customPrompts s)
    (customPromptEnabled s) (showInsertDialog s) (pendingPromptContent s)
    v (request s).
Definition set_request (v : option McpRequest.t) (s : State) : State :=
  mkState (note s) (toppings s) (ingredients s) (customPrompts s)
    (customPromptEnabled s) (showInsertDialog s) (pendingPromptContent s)
    (sortablePrompts s) v.

(** The refs of a freshly mounted input. *)
Definition initial (request : option McpRequest.t) : State :=
  mkState "" [] [] [] true false "" [] request.

(** ** Arrays *)

(** [l.indexOf(x)] *)
Fixpoint indexOf (l : list string) (x : string) : option nat :=
  match l with
  | [] => None
  | y :: l' =>
      if String.eqb y x then Some 0
      else option_map S (indexOf l' x)
  end.

(** [l.splice(i, 1)], the array that is left *)
Fixpoint removeAt {A} (i : nat) (l : list A) : list A :=
  match l, i with
  | [], _ => []
  | _ :: l', O => l'
  | x :: l', S k => x :: removeAt k l'
  end.

(** [l.splice(i, 0, x)], the array that is left *)
Fixpoint insertAt {A} (i : nat) (x : A) (l : list A) : list A :=
  match i, l with
  | O, _ => x :: l
  | S k, y :: l' => y :: insertAt k x l'
  | S _, [] => [x]
  end.

(** [l.sort((a, b) => a.sort_order - b.sort_order)].  The sort of an array
    is stable: prompts of equal [sort_order] keep the order they had.  Each
    prompt, from the last to the first, is put before the first prompt
    already placed whose [sort_order] is not less than its own, so before
    the prompts of its own [sort_order] that came after it. *)
Fixpoint insertBySortOrder (p : CustomPrompt.t) (l : list CustomPrompt.t)
  : list CustomPrompt.t :=
  match l with
  | [] => [p]
  | q :: l' =>
      if (CustomPrompt.sort_order p <=? CustomPrompt.sort_order q)%Z
      then p :: l
      else q :: insertBySortOrder p l'
  end.

Definition sortBySortOrder (l : list CustomPrompt.t) : list CustomPrompt.t :=
  fold_right insertBySortOrder [] l.

(** ** Computed values *)

Definition isNormal (p : CustomPrompt.t) : bool :=
  match CustomPrompt.type p with
  | Some normal => true
  | Some conditional => false
  | None => true
  end.

Definition isConditional (p : CustomPrompt.t) : bool :=
  match CustomPrompt.type p with
  | Some conditional => true
  | _ => false
  end.

Definition normalPrompts (s : State) : list CustomPrompt.t :=
  filter isNormal (customPrompts s).

Definition conditionalPrompts (s : State) : list CustomPrompt.t :=
  filter isConditional (customPrompts s).

Definition menuLength (r : option McpRequest.t) : nat :=
  match r with
  | Some r =>
      match McpRequest.menu r with
      | Some m => length m
      | None => 0
      end
  | None => 0
  end.

Definition hasOptions (s : State) : bool := 0 <? menuLength (request s).

Definition canSubmit (s : State) : bool :=
  let hasOptionsSelected := 0 <? length (toppings s) in
  let hasInputText := 0 <? String.length (trim (note s)) in
  let hasBlocks := 0 <? length (ingredients s) in
  if hasOptions s
  then hasOptionsSelected || hasInputText || hasBlocks
  else hasInputText || hasBlocks.

Definition statusText (s : State) : string :=
  let hasInput :=
    (0 <? length (toppings s))
    || (0 <? length (ingredients s))
    || (0 <? String.length (trim (note s))) in
  if hasInput then "" else "等待输入...".

(** [prompt.current_state ?? false] *)
Definition isEnabled (p : CustomPrompt.t) : bool :=
  match CustomPrompt.current_state p with
  | Some b => b
  | None => false
  end.

Definition activeTemplate (p : CustomPrompt.t) : option string :=
  if isEnabled p then CustomPrompt.template_true p
  else CustomPrompt.template_false p.

(** [template && template.trim()] *)
Definition shownTemplate (p : CustomPrompt.t) : option string :=
  match activeTemplate p with
  | Some template =>
      if truthy template && truthy (trim template)
      then Some (trim template) else None
  | None => None
  end.

Definition generateConditionalContent (s : State) : string :=
  let conditionalTexts :=
    flat_map
      (fun p => match shownTemplate p with Some t => [t] | None => [] end)
      (conditionalPrompts s) in
  if 0 <? length conditionalTexts
  then (nl ++ nl ++ join nl conditionalTexts)%string
  else "".

Definition getConditionalDescription (p : CustomPrompt.t) : string :=
  match shownTemplate p with
  | Some t => t
  | None =>
      match CustomPrompt.description p with
      | Some d => d
      | None => ""
      end
  end.

Definition looksLikeImageFilePathList (text : string) : bool :=
  let rawLines := filter truthy (map trim (Regex.splitLines text)) in
  match rawLines with
  | [] => false
  | first :: rest =>
      let lines :=
        if String.eqb first "copy" || String.eqb first "cut"
        then rest else rawLines in
      match lines with
      | [] => false
      | _ =>
          existsb
            (fun line =>
               if startsWith line "#" then false
               else if startsWith line "file://"
               then Regex.imageExt_test line
               else if startsWith line "/" || Regex.drivePath_test line
               then Regex.imageExt_test line
               else false)
            lines
      end
  end.

(** [ingredients.value.some(b => b.spiceId === spiceId)] *)
Definition hasSpice (s : State) (spiceId : string) : bool :=
  existsb (fun b => String.eqb (CachedIngredientItem.spiceId b) spiceId)
    (ingredients s).

(** [ingredients.value.push({ spiceId, previewUrl })] *)
Definition pushIngredient (spiceId previewUrl : string) (s : State) : State :=
  set_ingredients
    (ingredients s ++ [CachedIngredientItem.mk spiceId previewUrl]) s.

(** The image files of a paste: those of [clipboardData.files], and when
    there is none those of [clipboardData.items]. *)
Definition pastedImageFiles (cd : DataTransfer.t) : list File :=
  let ingredientFiles :=
    filter (fun file => startsWith (file_type file) "image/")
      (DataTransfer.files cd) in
  if length ingredientFiles =? 0
  then
    flat_map
      (fun item =>
         if String.eqb (DataTransferItem.kind item) "file"
            && startsWith (DataTransferItem.type item) "image/"
         then
           match DataTransferItem.getAsFile item with
           | Some file => [file]
           | None => []
           end
         else [])
      (DataTransfer.items cd)
  else ingredientFiles.

(** The data URLs of the images of a pasted HTML text. *)
Definition pastedDataUrls (cd : DataTransfer.t) : list string :=
  let html := DataTransfer.getData cd "text/html" in
  if truthy html
  then
    filter (fun src => truthy src && startsWith src "data:image/")
      (Regex.imgSrcAll html)
  else [].

(** ** Handlers *)

Section Component.

(** [String.prototype.toLowerCase], of the JavaScript runtime. *)
Variable toLowerCase : string -> string.

Variable host : Host.t.

Definition guessFileExtensionFromMime (mime : string) : string :=
  let normalized := toLowerCase mime in
  if String.eqb normalized "image/png" then "png"
  else if String.eqb normalized "image/jpeg" then "jpg"
  else if String.eqb normalized "image/webp" then "webp"
  else if String.eqb normalized "image/gif" then "gif"
  else if String.eqb normalized "image/bmp" then "bmp"
  else "png".

(** [emit('update', ...)]: the listener of the parent runs on the data. *)
Definition emitUpdate : M State unit :=
  s <- get ;;
  let conditionalContent := generateConditionalContent s in
  let finalNote := (note s ++ conditionalContent)%string in
  effect
    (EEmitUpdate finalNote (toppings s)
       (map CachedIngredientItem.spiceId (ingredients s))).

(** The watcher of [note], run when the text of the input changes. *)
Definition watchNote : M State unit := emitUpdate.

(** The user edits the text: [v-model:value] sets [note]. *)
Definition inputNote (text : string) : M State unit :=
  modify (set_note text) ;;
  watchNote.

Definition handleOptionChange (option : string) (checked : bool)
  : M State unit :=
  s <- get ;;
  (if checked
   then modify (set_toppings (toppings s ++ [option]))
   else
     match indexOf (toppings s) option with
     | Some idx => modify (set_toppings (removeAt idx (toppings s)))
     | None => ret tt
     end) ;;
  emitUpdate.

Definition handleOptionToggle (option : string) : M State unit :=
  s <- get ;;
  match indexOf (toppings s) option with
  | Some idx => modify (set_toppings (removeAt idx (toppings s)))
  | None => modify (set_toppings (toppings s ++ [option]))
  end ;;
  emitUpdate.

(** The body of the loop of [readIngredientsFromNavigatorClipboard] over
    the types of the items, with the files read so far; the [catch] of the
    function ends the loop and keeps them. *)
Fixpoint readItemTypes (pairs : list (ClipboardItem * string))
  (files : list File) : M State (list File) :=
  match pairs with
  | [] => ret files
  | (item, type) :: rest =>
      if negb (startsWith type "image/") then readItemTypes rest files
      else
        r <- attempt (web host (item_getType item type)) ;;
        match r with
        | Ret blob =>
            let ext := guessFileExtensionFromMime type in
            now <- query host Date_now ;;
            readItemTypes rest
              (files
                 ++ [mkFile
                       ("pasted-" ++ String_of_Z now ++ "." ++ ext)%string
                       type (blob_bytes blob)])
        | Throw _ =>
            console_debug "navigator.clipboard.read() 读取失败:" ;;
            ret files
        end
  end.

Definition readIngredientsFromNavigatorClipboard : M State (list File) :=
  readable <- query host navigator_clipboard_readable ;;
  if negb readable then ret []
  else
    r <- attempt (web host navigator_clipboard_read) ;;
    match r with
    | Ret items =>
        readItemTypes
          (flat_map (fun item => map (pair item) (item_types item)) items)
          []
    | Throw _ =>
        console_debug "navigator.clipboard.read() 读取失败:" ;;
        ret []
    end.

(** [!x] on an optional string. *)
Definition missing (x : option string) : bool :=
  match x with
  | Some s => negb (truthy s)
  | None => true
  end.

Definition orEmpty (x : option string) : string :=
  match x with
  | Some s => s
  | None => ""
  end.

(** The loop of [addIngredientsFromRustClipboard] over the blocks. *)
Fixpoint addBlocks (blocks : list ClipboardBlock) (addedCount : nat)
  : M State nat :=
  match blocks with
  | [] => ret addedCount
  | block :: rest =>
      match block_bytes block with
      | Some bytes =>
          if missing (block_spice_id block)
             || missing (block_dish_type block)
          then addBlocks rest addedCount
          else
            let spiceId := orEmpty (block_spice_id block) in
            let dishType := orEmpty (block_dish_type block) in
            s <- get ;;
            if hasSpice s spiceId then addBlocks rest addedCount
            else
              previewUrl <- query host (URL_createObjectURL dishType bytes) ;;
              modify (pushIngredient spiceId previewUrl) ;;
              addBlocks rest (addedCount + 1)
      | None => addBlocks rest addedCount
      end
  end.

(** [`${(error as any)?.message || error}`] *)
Definition messageOrString (e : Error) : string :=
  match err_message e with
  | Some m => if truthy m then m else err_string e
  | None => err_string e
  end.

Definition addIngredientsFromRustClipboard (silent : bool) : M State nat :=
  try_catch
    (blocks <- invoke host read_clipboard_ingredients_cached ;;
     if length blocks =? 0 then ret 0
     else
       addedCount <- addBlocks blocks 0 ;;
       when (0 <? addedCount)
         (when (negb silent)
            (message_success
               ("已添加 " ++ String_of_Z (Z.of_nat addedCount)
                  ++ " 个食材")%string) ;;
          emitUpdate) ;;
       ret addedCount)
    (fun error =>
       when (negb silent)
         (message_error
            ("读取剪贴板食材失败: " ++ messageOrString error)%string) ;;
       ret 0).

Definition handleIngredientFiles (files : list File) : M State unit :=
  console_log "=== 处理食材文件 ===" ;;
  console_log "文件数量:" ;;
  for_of files
    (fun file =>
       console_log "处理文件:" ;;
       if startsWith (file_type file) "image/"
       then
         try_catch
           (spiceId <- invoke host
                         (stash_ingredient_bytes_cmd (file_bytes file)
                            (file_type file) (file_name file)) ;;
            if negb (truthy spiceId) then ret tt
            else
              s <- get ;;
              if hasSpice s spiceId
              then
                message_warning
                  ("食材 " ++ file_name file ++ " 已存在")%string
              else
                previewUrl <- query host
                                (URL_createObjectURL (file_type file)
                                   (file_bytes file)) ;;
                modify (pushIngredient spiceId previewUrl) ;;
                message_success
                  ("食材 " ++ file_name file ++ " 已添加")%string ;;
                emitUpdate)
           (fun error =>
              console_error "食材处理失败:" ;;
              message_error
                ("食材 " ++ file_name file ++ " 处理失败")%string ;;
              throw error)
       else console_log "跳过非食材文件:") ;;
  console_log "=== 食材文件处理完成 ===".

(** The loop of the paste handler over the data URLs of a pasted HTML
    text. *)
Fixpoint addDataUrls (dataUrls : list string) (addedCount : nat)
  : M State nat :=
  match dataUrls with
  | [] => ret addedCount
  | dataUrl :: rest =>
      added <-
        try_catch
          (blob <- web host (fetch_blob dataUrl) ;;
           let dishType :=
             if truthy (blob_type blob) then blob_type blob
             else "image/png" in
           let bytes := blob_bytes blob in
           now <- query host Date_now ;;
           spiceId <- invoke host
                         (stash_ingredient_bytes_cmd bytes dishType
                            ("pasted-" ++ String_of_Z now ++ "."
                               ++ guessFileExtensionFromMime dishType)%string) ;;
           if negb (truthy spiceId) then ret false
           else
             s <- get ;;
             if hasSpice s spiceId then ret false
             else
               previewUrl <- query host
                               (URL_createObjectURL (blob_type blob) bytes) ;;
               modify (pushIngredient spiceId previewUrl) ;;
               ret true)
          (fun error =>
             console_debug "HTML 图片粘贴处理失败:" ;;
             ret false) ;;
      addDataUrls rest (if added then addedCount + 1 else addedCount)
  end.

Definition handleIngredientPaste (event : ClipboardEvent.t) : M State unit :=
  if ClipboardEvent.defaultPrevented event then ret tt
  else
    match ClipboardEvent.clipboardData event with
    | None => ret tt
    | Some clipboardData =>
        let ingredientFiles := pastedImageFiles clipboardData in
        if 0 <? length ingredientFiles
        then
          effect EPreventDefault ;;
          handleIngredientFiles ingredientFiles
        else
          let dataUrls := pastedDataUrls clipboardData in
          if 0 <? length dataUrls
          then
            effect EPreventDefault ;;
            addedCount <- addDataUrls dataUrls 0 ;;
            when (0 <? addedCount)
              (message_success
                 ("已添加 " ++ String_of_Z (Z.of_nat addedCount)
                    ++ " 个食材")%string ;;
               emitUpdate)
          else
            let plainText := DataTransfer.getData clipboardData "text/plain" in
            if 0 <? String.length plainText
            then
              if looksLikeImageFilePathList plainText
              then
                effect EPreventDefault ;;
                _ <- addIngredientsFromRustClipboard false ;;
                ret tt
              else ret tt
            else
              fallbackFiles <- readIngredientsFromNavigatorClipboard ;;
              if 0 <? length fallbackFiles
              then
                effect EPreventDefault ;;
                handleIngredientFiles fallbackFiles
              else
                _ <- addIngredientsFromRustClipboard false ;;
                ret tt
    end.

(** The listener on the document: it leaves an event that is already
    handled, and hands the others to the paste handler when the text area
    has the focus without a listener of its own. *)
Definition documentPasteListener (textareaFocusedUnlistened : bool)
  (event : ClipboardEvent.t) : M State unit :=
  if ClipboardEvent.defaultPrevented event then ret tt
  else if textareaFocusedUnlistened then void (handleIngredientPaste event)
  else ret tt.

(** The effects of giving up one ingredient. *)
Definition releaseIngredient (b : CachedIngredientItem.t) : M State unit :=
  when (truthy (CachedIngredientItem.previewUrl b))
    (effect (ERevokeObjectURL (CachedIngredientItem.previewUrl b))) ;;
  when (truthy (CachedIngredientItem.spiceId b))
    (void (invoke host (discard_spice_cmd (CachedIngredientItem.spiceId b)))).

Definition removeIngredient (index : nat) : M State unit :=
  s <- get ;;
  modify (set_ingredients (removeAt index (ingredients s))) ;;
  match nth_error (ingredients s) index with
  | Some removed => releaseIngredient removed
  | None => ret tt
  end ;;
  emitUpdate.

Definition loadCustomPrompts : M State unit :=
  try_catch
    (console_log "PopupInput: 开始加载自定义prompt配置" ;;
     config <- invoke host get_custom_prompt_config ;;
     match config with
     | Some promptConfig =>
         modify
           (set_customPrompts
              (sortBySortOrder
                 (match CustomPromptConfig.prompts promptConfig with
                  | Some l => l
                  | None => []
                  end))) ;;
         modify
           (set_customPromptEnabled
              (match CustomPromptConfig.enabled promptConfig with
               | Some b => b
               | None => true
               end)) ;;
         console_log "PopupInput: 加载到的prompt数量:" ;;
         console_log "PopupInput: 条件性prompt列表:" ;;
         s <- get ;;
         modify (set_sortablePrompts (normalPrompts s)) ;;
         console_log "PopupInput: 同步到sortablePrompts:" ;;
         if 0 <? length (customPrompts s)
         then console_log "PopupInput: 准备启动拖拽功能"
         else console_log "PopupInput: 没有prompt，跳过拖拽初始化"
     | None => ret tt
     end)
    (fun error => console_error "PopupInput: 加载自定义prompt失败:").

Definition savePromptOrder : M State unit :=
  try_catch
    (s <- get ;;
     let promptIds := map CustomPrompt.id (sortablePrompts s) in
     invoke host (update_custom_prompt_order promptIds) ;;
     message_success "排序已保存")
    (fun error =>
       console_error "保存排序失败:" ;;
       message_error "保存排序失败" ;;
       void loadCustomPrompts).

(** [onEnd] of the sortable list, for the indices of a finished drag. *)
Definition onEnd (oldIndex newIndex : nat) : M State unit :=
  console_log "PopupInput: 拖拽排序完成:" ;;
  console_log "PopupInput: 从索引" ;;
  console_log "PopupInput: 拖拽后的sortablePrompts:" ;;
  s <- get ;;
  match nth_error (sortablePrompts s) oldIndex with
  | Some movedItem =>
      if negb (oldIndex =? newIndex)
      then
        let newList :=
          insertAt newIndex movedItem
            (removeAt oldIndex (sortablePrompts s)) in
        modify (set_sortablePrompts newList) ;;
        console_log "PopupInput: 手动更新后的sortablePrompts:" ;;
        let conditionalPromptsList := filter isConditional (customPrompts s) in
        modify (set_customPrompts (newList ++ conditionalPromptsList)) ;;
        console_log "PopupInput: 位置发生变化，保存新排序" ;;
        void savePromptOrder
      else console_log "PopupInput: 位置未发生变化，无需保存"
  | None => console_log "PopupInput: 位置未发生变化，无需保存"
  end.

Inductive InsertMode : Type := replace | append.

Definition insertPromptContent (content : string) (mode : InsertMode)
  : M State unit :=
  s <- get ;;
  match mode with
  | replace => modify (set_note content)
  | append =>
      modify
        (set_note
           (trim (note s)
              ++ (if truthy (trim (note s)) then nl ++ nl else "")
              ++ content)%string)
  end ;;
  emitUpdate.

Definition handlePromptClick (prompt : CustomPrompt.t) : M State unit :=
  if negb (truthy (CustomPrompt.content prompt))
     || String.eqb (trim (CustomPrompt.content prompt)) ""
  then
    modify (set_note "") ;;
    emitUpdate
  else
    s <- get ;;
    if truthy (trim (note s))
    then
      modify (set_pendingPromptContent (CustomPrompt.content prompt)) ;;
      modify (set_showInsertDialog true)
    else insertPromptContent (CustomPrompt.content prompt) replace.

Definition handleQuoteMessage (messageContent : string) : M State unit :=
  s <- get ;;
  if truthy (trim (note s))
  then
    modify (set_pendingPromptContent messageContent) ;;
    modify (set_showInsertDialog true)
  else
    insertPromptContent messageContent replace ;;
    message_success "原文内容已引用到输入框".

Definition handleInsertMode (mode : InsertMode) : M State unit :=
  s <- get ;;
  insertPromptContent (pendingPromptContent s) mode ;;
  modify (set_showInsertDialog false) ;;
  modify (set_pendingPromptContent "").

(** [prompt.current_state = v] on the prompt that
    [customPrompts.value.find(p => p.id === promptId)] gives: the first
    prompt of that id. *)
Definition with_current_state (v : bool) (p : CustomPrompt.t)
  : CustomPrompt.t :=
  CustomPrompt.mk (CustomPrompt.id p) (CustomPrompt.name p)
    (CustomPrompt.content p) (CustomPrompt.description p)
    (CustomPrompt.sort_order p) (CustomPrompt.created_at p)
    (CustomPrompt.updated_at p) (CustomPrompt.type p)
    (CustomPrompt.condition_text p) (CustomPrompt.template_true p)
    (CustomPrompt.template_false p) (Some v).

Fixpoint setStateOfFirst (promptId : string) (v : bool)
  (l : list CustomPrompt.t) : list CustomPrompt.t :=
  match l with
  | [] => []
  | p :: l' =>
      if String.eqb (CustomPrompt.id p) promptId
      then with_current_state v p :: l'
      else p :: setStateOfFirst promptId v l'
  end.

Definition findPrompt (promptId : string) (l : list CustomPrompt.t)
  : option CustomPrompt.t :=
  find (fun p => String.eqb (CustomPrompt.id p) promptId) l.

(** The handler when nothing runs while its save is pending: the write,
    the save and what follows its answer, in a row.  The two parts between
    which other handlers can run are [toggleWrite] and [toggleSettle]
    below. *)
Definition handleConditionalToggle (promptId : string) (value : bool)
  : M State unit :=
  modify
    (fun s => set_customPrompts
                (setStateOfFirst promptId value (customPrompts s)) s) ;;
  try_catch
    (invoke host (update_conditional_prompt_state promptId value) ;;
     message_success "上下文追加状态已保存")
    (fun error =>
       console_error "保存条件性prompt状态失败:" ;;
       message_error
         ("保存设置失败: "
            ++ match err_message error with
               | Some m => m
               | None => "undefined"
               end)%string ;;
       modify
         (fun s => set_customPrompts
                     (setStateOfFirst promptId (negb value)
                        (customPrompts s)) s)).

(** [handleConditionalToggle] is an [async] function with one [await], that
    of the save, and the switch is not disabled while the save is pending:
    the body up to the [await] and the body after it run each in one piece,
    and the event loop can run other handlers in between.  [toggleWrite] is
    the part before, the write of the requested state; [toggleSettle] is
    the part after, for the outcome of the save.  The prompt that the part
    after writes back to is the object that [find] gave before the
    [await]; while nothing but switches run in between, the array holds
    the same objects in the same order, so that object is still the first
    prompt of the id. *)
Definition toggleWrite (promptId : string) (value : bool) : M State unit :=
  modify
    (fun s => set_customPrompts
                (setStateOfFirst promptId value (customPrompts s)) s).

Definition toggleSettle (promptId : string) (value : bool)
  (saved : Outcome unit) : M State unit :=
  match saved with
  | Ret _ => message_success "上下文追加状态已保存"
  | Throw err =>
      console_error "保存条件性prompt状态失败:" ;;
      message_error
        ("保存设置失败: "
           ++ match err_message err with
              | Some m => m
              | None => "undefined"
              end)%string ;;
      modify
        (fun s => set_customPrompts
                    (setStateOfFirst promptId (negb value)
                       (customPrompts s)) s)
  end.

(** What happens to the switches of the conditional prompts, as the event
    loop orders it: the user flips a switch, and the handler runs up to its
    [await]; or the backend answers a save that is pending, and the handler
    of that save goes on from its [await]. *)
Inductive ToggleEvent : Type :=
| Flipped (promptId : string) (value : bool)
| Answered (promptId : string) (value : bool) (saved : Outcome unit).

Definition toggleStep (e : ToggleEvent) : M State unit :=
  match e with
  | Flipped promptId value => toggleWrite promptId value
  | Answered promptId value saved =>
      effect
        (EInvoke (update_conditional_prompt_state promptId value) saved) ;;
      toggleSettle promptId value saved
  end.

(** The saves that are pending after a [Flipped], less the one that an
    [Answered] answers; an order of events can happen when every answer is
    that of a pending save. *)
Fixpoint takePending (promptId : string) (value : bool)
  (pending : list (string * bool)) : option (list (string * bool)) :=
  match pending with
  | [] => None
  | (i, v) :: rest =>
      if String.eqb i promptId && Bool.eqb v value then Some rest
      else option_map (cons (i, v)) (takePending promptId value rest)
  end.

Fixpoint canHappen (pending : list (string * bool)) (l : list ToggleEvent)
  : bool :=
  match l with
  | [] => true
  | Flipped i v :: l' => canHappen (pending ++ [(i, v)]) l'
  | Answered i v _ :: l' =>
      match takePending i v pending with
      | Some rest => canHappen rest l'
      | None => false
      end
  end.

Definition reset : M State unit :=
  modify (set_note "") ;;
  modify (set_toppings []) ;;
  s <- get ;;
  for_of (ingredients s) releaseIngredient ;;
  modify (set_ingredients []) ;;
  emitUpdate.

(** [updateData(data)]: absent fields are left as they are; the list of
    ids is not taken back. *)
Definition updateData (dnote : option string)
  (dtoppings dspiceIds : option (list string)) : M State unit :=
  match dnote with
  | Some v => modify (set_note v)
  | None => ret tt
  end ;;
  match dtoppings with
  | Some v => modify (set_toppings v)
  | None => ret tt
  end ;;
  emitUpdate.

(** [onMounted], without the listeners of the DOM. *)
Definition onMounted : M State unit := loadCustomPrompts.

Definition onUnmounted : M State unit :=
  s <- get ;;
  for_of (ingredients s) releaseIngredient.

End Component.

End PopupInput.

(* ================================================================== *)
(** * The popup (McpPopup.vue) *)
(* ================================================================== *)

Module McpPopup.

Import Js Host Rt.
Local Open Scope rt_scope.

Record State : Type := mkState {
  loading : bool;
  submitting : bool;
  toppings : list string;
  note : string;
  spiceIds : list string;
  continueReplyEnabled : bool;
  continuePrompt : string;
  (** [inputRef.value]: the input, when it is mounted *)
  inputRef : option PopupInput.State;
  (** [props.request] and [props.mockMode] *)
  request : option McpRequest.t;
  mockMode : bool
}.

Definition set_loading (v : bool) (s : State) : State :=
  mkState v (submitting s) (toppings s) (note s) (spiceIds s)
    (continueReplyEnabled s) (continuePrompt s) (inputRef s) (request s)
    (mockMode s).
Definition set_submitting (v : bool) (s : State) : State :=
  mkState (loading s) v (toppings s) (note s) (spiceIds s)
    (continueReplyEnabled s) (continuePrompt s) (inputRef s) (request s)
    (mockMode s).
Definition set_toppings (v : list string) (s : State) : State :=
  mkState (loading s) (submitting s) v (note s) (spiceIds s)
    (continueReplyEnabled s) (continuePrompt s) (inputRef s) (request s)
    (mockMode s).
Definition set_note (v : string) (s : State) : State :=
  mkState (loading s) (submitting s) (toppings s) v (spiceIds s)
    (continueReplyEnabled s) (continuePrompt s) (inputRef s) (request s)
    (mockMode s).
Definition set_spiceIds (v : list string) (s : State) : State :=
  mkState (loading s) (submitting s) (toppings s) (note s) v
    (continueReplyEnabled s) (continuePrompt s) (inputRef s) (request s)
    (mockMode s).
Definition set_continueReplyEnabled (v : bool) (s : State) : State :=
  mkState (loading s) (submitting s) (toppings s) (note s) (spiceIds s)
    v (continuePrompt s) (inputRef s) (request s) (mockMode s).
Definition set_continuePrompt (v : string) (s : State) : State :=
  mkState (loading s) (submitting s) (toppings s) (note s) (spiceIds s)
    (continueReplyEnabled s) v (inputRef s) (request s) (mockMode s).
Definition set_inputRef (v : option PopupInput.State) (s : State) : State :=
  mkState (loading s) (submitting s) (toppings s) (note s) (spiceIds s)
    (continueReplyEnabled s) (continuePrompt s) v (request s) (mockMode s).
Definition set_request (v : option McpRequest.t) (s : State) : State :=
  mkState (loading s) (submitting s) (toppings s) (note s) (spiceIds s)
    (continueReplyEnabled s) (continuePrompt s) (inputRef s) v (mockMode s).
Definition set_mockMode (v : bool) (s : State) : State :=
  mkState (loading s) (submitting s) (toppings s) (note s) (spiceIds s)
    (continueReplyEnabled s) (continuePrompt s) (inputRef s) (request s) v.

(** The refs when the popup is set up, before any request. *)
Definition initial (mockMode : bool) : State :=
  mkState false false [] "" [] true "请按照最佳实践继续" None None mockMode.

Definition hasOptions (s : State) : bool :=
  0 <? PopupInput.menuLength (request s).

Definition canSubmit (s : State) : bool :=
  if hasOptions s
  then (0 <? length (toppings s))
       || (0 <? String.length (trim (note s)))
       || (0 <? length (spiceIds s))
  else (0 <? String.length (trim (note s)))
       || (0 <? length (spiceIds s)).

Definition inputStatusText (s : State) : string :=
  match inputRef s with
  | Some i =>
      if truthy (PopupInput.statusText i) then PopupInput.statusText i
      else "等待输入..."
  | None => "等待输入..."
  end.

(** [handleInputUpdate(data)], the listener of [update]. *)
Definition handleInputUpdate (dnote : string) (dtoppings : list string)
  (dspiceIds : option (list string)) (s : State) : State :=
  set_spiceIds (match dspiceIds with Some l => l | None => [] end)
    (set_toppings dtoppings (set_note dnote s)).

(** The listener run on the updates among the effects of the input. *)
Definition deliver (new : list Effect) (s : State) : State :=
  fold_left
    (fun s e =>
       match e with
       | EEmitUpdate n t ids => handleInputUpdate n t (Some ids) s
       | _ => s
       end)
    new s.

(** A handler of the input run from the popup: on the refs of the mounted
    input, with the listener on what it emits.  The listener only sets
    refs of the popup, which no handler of the input reads, so running it
    after the handler gives the state that running it at each [emit]
    gives. *)
Definition withInput (m : M PopupInput.State unit) : M State unit :=
  fun w =>
    match inputRef (st w) with
    | None => (Ret tt, w)
    | Some i =>
        let (r, wi) := m (mkWorld i (tr w)) in
        let new := skipn (length (tr w)) (tr wi) in
        (r, mkWorld (deliver new (set_inputRef (Some (st wi)) (st w)))
              (tr wi))
    end.

(** [props.request?.id || null] *)
Definition ticketId (s : State) : option string :=
  match request s with
  | Some r => if truthy (McpRequest.id r) then Some (McpRequest.id r) else None
  | None => None
  end.

Definition ticket (s : State) (cooked_at station : string)
  : KitchenTicket.t :=
  KitchenTicket.mk (Some cooked_at) (ticketId s) (Some station).

(** The response that [handleSubmit] first builds. *)
Definition submitDraft (s : State) (cooked_at : string) : DishResponse.t :=
  let ingredients :=
    map IngredientAttachment.mk
      (filter (fun t => 0 <? String.length t) (spiceIds s)) in
  DishResponse.mk
    (if truthy (trim (note s)) then Some (trim (note s)) else None)
    (toppings s)
    ingredients
    (ticket s cooked_at "popup").

(** The test of the fallback of [handleSubmit]: nothing in the response. *)
Definition nothingToSend (r : DishResponse.t) : bool :=
  PopupInput.missing (DishResponse.note r)
  && (length (DishResponse.toppings r) =? 0)
  && (length (DishResponse.ingredients r) =? 0).

Definition withNote (n : string) (r : DishResponse.t) : DishResponse.t :=
  DishResponse.mk (Some n) (DishResponse.toppings r)
    (DishResponse.ingredients r) (DishResponse.ticket r).

Definition submitResponse (s : State) (cooked_at : string) : DishResponse.t :=
  let response := submitDraft s cooked_at in
  if nothingToSend response then withNote "用户确认继续" response
  else response.

Definition continueResponse (s : State) (cooked_at : string)
  : DishResponse.t :=
  DishResponse.mk (Some (continuePrompt s)) [] []
    (ticket s cooked_at "popup_continue").

Definition enhancePrompt (s : State) : string :=
  ("Use the following prompt to optimize and enhance the context of the content in 《》, and return the enhanced result by calling the tool 'cache' after completion.Here is an instruction that I'd like to give you, but it needs to be improved. Rewrite and enhance this instruction to make it clearer, more specific, less ambiguous, and correct any mistakes. Reply immediately with your answer, even if you're not sure. Consider the context of our conversation history when enhancing the prompt. Reply with the following format:"
   ++ nl ++ nl
   ++ "### BEGIN RESPONSE ###" ++ nl
   ++ "Here is an enhanced version of the original instruction that is more specific and clear:"
   ++ nl
   ++ "<augment-enhanced-prompt>enhanced prompt goes here</augment-enhanced-prompt>"
   ++ nl ++ nl
   ++ "### END RESPONSE ###" ++ nl ++ nl
   ++ "Here is my original instruction:" ++ nl ++ nl
   ++ "《" ++ trim (note s) ++ "》")%string.

Definition enhanceResponse (s : State) (cooked_at : string)
  : DishResponse.t :=
  DishResponse.mk (Some (enhancePrompt s)) [] []
    (ticket s cooked_at "popup_enhance").

Section Component.

Variable toLowerCase : string -> string.
Variable host : Host.t.

(** The common end of the three actions: send or pretend, then emit. *)
Definition send (response : DishResponse.t) (mockText : string)
  : M State unit :=
  s <- get ;;
  (if mockMode s
   then
     effect (EDelay 1000) ;;
     message_success mockText
   else
     invoke host (send_mcp_response response) ;;
     invoke host exit_app) ;;
  effect (EEmitResponse response).

Definition handleSubmit : M State unit :=
  s <- get ;;
  if negb (canSubmit s) || submitting s then ret tt
  else
    modify (set_submitting true) ;;
    try_finally
      (try_catch
         (cooked_at <- query host new_Date_toISOString ;;
          send (submitResponse s cooked_at) "模拟响应发送成功")
         (fun error =>
            console_error "提交响应失败:" ;;
            message_error "提交失败，请重试"))
      (modify (set_submitting false)).

Definition handleContinue : M State unit :=
  s <- get ;;
  if submitting s then ret tt
  else
    modify (set_submitting true) ;;
    try_finally
      (try_catch
         (cooked_at <- query host new_Date_toISOString ;;
          send (continueResponse s cooked_at) "继续请求发送成功")
         (fun error =>
            console_error "发送继续请求失败:" ;;
            message_error "继续请求失败，请重试"))
      (modify (set_submitting false)).

Definition handleEnhance : M State unit :=
  s <- get ;;
  if submitting s then ret tt
  else
    modify (set_submitting true) ;;
    try_finally
      (try_catch
         (cooked_at <- query host new_Date_toISOString ;;
          send (enhanceResponse s cooked_at) "增强请求发送成功")
         (fun error =>
            console_error "发送增强请求失败:" ;;
            message_error "增强请求失败，请重试"))
      (modify (set_submitting false)).

Definition loadReplyConfig : M State unit :=
  try_catch
    (config <- invoke host get_reply_config ;;
     match config with
     | Some replyConfig =>
         modify
           (set_continueReplyEnabled
              (match ReplyConfig.enable_continue_reply replyConfig with
               | Some b => b
               | None => true
               end)) ;;
         modify
           (set_continuePrompt
              (match ReplyConfig.continue_prompt replyConfig with
               | Some p => p
               | None => "请按照最佳实践继续"
               end))
     | None => ret tt
     end)
    (fun error => console_log "加载继续回复配置失败，使用默认值:").

(** The watcher of [props.appConfig.reply]. *)
Definition watchReply (enabled : bool) (prompt : string) : M State unit :=
  modify (set_continueReplyEnabled enabled) ;;
  modify (set_continuePrompt prompt).

Definition handleOptionToggle (option : string) : M State unit :=
  s <- get ;;
  match PopupInput.indexOf (toppings s) option with
  | Some index =>
      modify (set_toppings (PopupInput.removeAt index (toppings s)))
  | None => modify (set_toppings (toppings s ++ [option]))
  end ;;
  s <- get ;;
  withInput (PopupInput.updateData None (Some (toppings s)) None).

Definition handleTextUpdate (text : string) : M State unit :=
  modify (set_note text) ;;
  withInput (PopupInput.updateData (Some text) None None).

Definition resetForm : M State unit :=
  modify (set_toppings []) ;;
  modify (set_note "") ;;
  modify (set_spiceIds []) ;;
  withInput (PopupInput.reset host) ;;
  modify (set_submitting false).

Definition handleQuoteMessage (messageContent : string) : M State unit :=
  withInput (PopupInput.handleQuoteMessage messageContent).

Inductive TelegramEvent : Type :=
| option_toggled (option : string)
| text_updated (text : string)
| continue_pressed
| send_pressed
| other_event.

Definition handleTelegramEvent (event : TelegramEvent) : M State unit :=
  console_log "🎯 [McpPopup] 开始处理事件:" ;;
  match event with
  | option_toggled option =>
      console_log "🎯 [McpPopup] 处理选项切换:" ;;
      handleOptionToggle option
  | text_updated text =>
      console_log "🎯 [McpPopup] 处理文本更新:" ;;
      handleTextUpdate text
  | continue_pressed =>
      console_log "🎯 [McpPopup] 处理继续按钮" ;;
      void handleContinue
  | send_pressed =>
      console_log "🎯 [McpPopup] 处理发送按钮" ;;
      void handleSubmit
  | other_event => console_log "🎯 [McpPopup] 未知事件类型:"
  end.

(** The watcher of [props.request], without the polling of the index
    status, which is a composable outside this component; the timer that
    ends [loading] is [loadingTimeout]. *)
Definition watchRequest (newRequest : option McpRequest.t) : M State unit :=
  match newRequest with
  | Some _ =>
      resetForm ;;
      modify (set_loading true) ;;
      void loadReplyConfig
  | None => ret tt
  end.

Definition loadingTimeout : M State unit := modify (set_loading false).

(** The request of the popup changes: the prop is set, the watcher runs,
    and the input, which the template shows while there is a request, is
    mounted or unmounted. *)
Definition setRequest (newRequest : option McpRequest.t) : M State unit :=
  modify (set_request newRequest) ;;
  modify
    (fun s =>
       set_inputRef
         (option_map (PopupInput.set_request newRequest) (inputRef s)) s) ;;
  watchRequest newRequest ;;
  s <- get ;;
  match newRequest, inputRef s with
  | Some _, None =>
      modify (set_inputRef (Some (PopupInput.initial newRequest))) ;;
      withInput (PopupInput.onMounted host)
  | None, Some _ =>
      withInput (PopupInput.onUnmounted host) ;;
      modify (set_inputRef None)
  | _, _ => ret tt
  end.

(** [onMounted]; the listener that it registers is what delivers the
    Telegram events. *)
Definition onMounted : M State unit := void loadReplyConfig.

(** What happens to the popup: the events of its own buttons and
    listeners, and those of the mounted input. *)
Inductive Event : Type :=
| Mounted
| SetRequest (r : option McpRequest.t)
| SetMockMode (b : bool)
| WatchReply (enabled : bool) (prompt : string)
| LoadingTimeout
| Telegram (e : TelegramEvent)
| Submit
| Continue
| Enhance
| QuoteMessage (messageContent : string)
| InputNote (text : string)
| InputWatchNote
| InputOptionChange (option : string) (checked : bool)
| InputOptionToggle (option : string)
| InputPaste (event : ClipboardEvent.t)
| InputDocumentPaste (focused : bool) (event : ClipboardEvent.t)
| InputRemoveIngredient (index : nat)
| InputPromptClick (prompt : CustomPrompt.t)
| InputInsertMode (mode : PopupInput.InsertMode)
| InputConditionalToggle (promptId : string) (value : bool)
| InputDragEnd (oldIndex newIndex : nat)
| InputCustomPromptUpdated.

Definition inputHandler (e : Event) : option (M PopupInput.State unit) :=
  match e with
  | InputNote text => Some (PopupInput.inputNote text)
  | InputWatchNote => Some PopupInput.watchNote
  | InputOptionChange o c => Some (PopupInput.handleOptionChange o c)
  | InputOptionToggle o => Some (PopupInput.handleOptionToggle o)
  | InputPaste ev => Some (PopupInput.handleIngredientPaste toLowerCase host ev)
  | InputDocumentPaste f ev =>
      Some (PopupInput.documentPasteListener toLowerCase host f ev)
  | InputRemoveIngredient i => Some (PopupInput.removeIngredient host i)
  | InputPromptClick p => Some (PopupInput.handlePromptClick p)
  | InputInsertMode m => Some (PopupInput.handleInsertMode m)
  | InputConditionalToggle id v =>
      Some (PopupInput.handleConditionalToggle host id v)
  | InputDragEnd o n => Some (PopupInput.onEnd host o n)
  | InputCustomPromptUpdated => Some (PopupInput.loadCustomPrompts host)
  | _ => None
  end.

Definition handler (e : Event) : M State unit :=
  match inputHandler e with
  | Some m => withInput m
  | None =>
      match e with
      | Mounted => onMounted
      | SetRequest r => setRequest r
      | SetMockMode b => modify (set_mockMode b)
      | WatchReply enabled prompt => watchReply enabled prompt
      | LoadingTimeout => loadingTimeout
      | Telegram ev => handleTelegramEvent ev
      | Submit => handleSubmit
      | Continue => handleContinue
      | Enhance => handleEnhance
      | QuoteMessage c => handleQuoteMessage c
      | _ => ret tt
      end
  end.

(** A handler is called by the framework; what it throws is an unhandled
    rejection. *)
Definition handle (e : Event) : M State unit := void (handler e).

(** The popup after a sequence of events, from its set-up, when each
    handler runs to its end before the next event comes.  The handlers
    whose refs another handler can find changed while they await are cut
    at their awaits elsewhere: the switch of a conditional prompt in
    [PopupInput.toggleStep], the pastes of images in [Paced.tick]. *)
Definition after (mock : bool) (events : list Event) : World State :=
  snd (for_of events handle (mkWorld (initial mock) [])).

End Component.

End McpPopup.

(* ================================================================== *)
(** * Sample runtimes and hosts, for running the handlers *)
(* ================================================================== *)

Module Sample.

Import Js Host.

(** [toLowerCase] on a text of ASCII letters. *)
Fixpoint toLowerCase (s : string) : string :=
  match s with
  | EmptyString => EmptyString
  | String c s' => String (Regex.lowerAscii c) (toLowerCase s')
  end.

(** A runtime in the UTC zone that knows one date. *)
Definition newDate (ts : string) : option HistoryTab.LocalTime :=
  if String.eqb ts "2025-03-04T05:06:07Z"
  then Some (HistoryTab.mkLocalTime 2025 2 4 5 6 7)
  else None.

Definition toISOString (ms : Z) : string :=
  if (ms =? 1000)%Z then "1970-01-01T00:00:01.000Z"
  else if (ms =? 2000)%Z then "1970-01-01T00:00:02.000Z"
  else "1970-01-01T00:00:00.000Z".

Definition sortKeys (keys : list string) : list string := keys.

Definition unavailable : Error := mkError "backend unavailable" None.

Definition answer {R} (q : Query R) : R :=
  match q in Query R return R with
  | Date_now => 0%Z
  | new_Date_toISOString => "2025-03-04T05:06:07.000Z"
  | today_local_day_key => "2025-03-04"
  | navigator_clipboard_readable => false
  | URL_createObjectURL _ _ => "blob:sample"
  end.

(** A host whose backend and clipboard always fail. *)
Definition down : Host.t :=
  Host.mk
    (fun R _ _ => Throw unavailable)
    (fun R _ _ => Throw unavailable)
    (fun R _ q => answer q).

(** A host whose backend stashes every image under one id, has one image
    on the clipboard, and answers the other commands. *)
Definition block : ClipboardBlock :=
  mkBlock (Some "spice-1") (Some []) (Some "image/png").

Definition entry : HistoryEntrySummary.t :=
  HistoryEntrySummary.mk "e1" "2025-03-04T05:06:07Z" (Some "req-1")
    (Some "popup") "Fix the Parser".

Definition up : Host.t :=
  Host.mk
    (fun R _ c =>
       match c in Command R return Outcome R with
       | read_clipboard_ingredients_cached => Ret [block]
       | stash_ingredient_bytes_cmd _ _ _ => Ret "spice-1"
       | discard_spice_cmd _ => Ret tt
       | get_custom_prompt_config => Ret None
       | update_custom_prompt_order _ => Ret tt
       | update_conditional_prompt_state _ _ => Ret tt
       | get_reply_config => Ret None
       | send_mcp_response _ => Ret tt
       | exit_app => Ret tt
       | list_mcp_history_entries _ => Ret (Some [entry])
       | get_mcp_history_entry _ => Throw unavailable
       | delete_mcp_history_entry _ => Ret tt
       | delete_mcp_history_by_time_range _ _ => Ret 3%Z
       | export_mcp_history_by_time_range_zip _ _ => Ret "/tmp/range.zip"
       | export_mcp_history_entry_zip _ => Ret "/tmp/entry.zip"
       end)
    (fun R _ _ => Throw unavailable)
    (fun R _ q => answer q).

(** The same host, with a network that fetches an image. *)
Definition online : Host.t :=
  Host.mk
    (fun R t c => Host.invoke up t c)
    (fun R _ c =>
       match c in WebCall R return Outcome R with
       | fetch_blob _ => Ret (mkBlob "image/png" [])
       | _ => Throw unavailable
       end)
    (fun R _ q => answer q).

Definition dataUrl : string := "data:image/png;base64,iVBORw0KGgo=".

Definition request : McpRequest.t :=
  McpRequest.mk "req-1" "Which one?" (Some ["A"; "B"]) None None.

Definition png : File := mkFile "a.png" "image/png" [].

(** A paste that carries nothing but an empty clipboard data. *)
Definition emptyPaste : ClipboardEvent.t :=
  ClipboardEvent.mk false (Some (DataTransfer.mk [] [] (fun _ => ""))).

Definition filePaste : ClipboardEvent.t :=
  ClipboardEvent.mk false (Some (DataTransfer.mk [png] [] (fun _ => ""))).

(** A paste of a plain text that names no file, and one of the path of an
    image. *)
Definition textPaste : ClipboardEvent.t :=
  ClipboardEvent.mk false
    (Some (DataTransfer.mk [] []
             (fun format =>
                if String.eqb format "text/plain" then "hello" else ""))).

Definition pathPaste : ClipboardEvent.t :=
  ClipboardEvent.mk false
    (Some (DataTransfer.mk [] []
             (fun format =>
                if String.eqb format "text/plain" then "/tmp/a.png"
                else ""))).



Definition conditionalPrompt (state : option bool) : CustomPrompt.t :=
  CustomPrompt.mk "p1" "tests" "" None 0 "" "" (Some conditional)
    (Some "write tests") (Some "Write tests.") (Some "No tests.") state.

End Sample.

(* ================================================================== *)
(** * The legacy prompt sections (PROMPT_SECTIONS of the prompt
      configuration) *)
(* ================================================================== *)

Module PromptSection.
Record t : Type := mk {
  base : string;
  detail : string
}.
End PromptSection.

Module LegacySections.

Import Js.

(** The section that the reducer of [PROMPT_SECTIONS] builds for a tool. *)
Definition sectionOf (tool : ToolPromptConfig.t) : PromptSection.t :=
  let whenToUse := ToolPrompt.whenToUse (ToolPromptConfig.prompt tool) in
  let howToUse := ToolPrompt.howToUse (ToolPromptConfig.prompt tool) in
  let detailParts :=
    map PromptConfig.dash whenToUse ++ map PromptConfig.dash howToUse in
  PromptSection.mk
    (if truthy (ToolPrompt.base (ToolPromptConfig.prompt tool))
     then ("- " ++ ToolPrompt.base (ToolPromptConfig.prompt tool))%string
     else "")
    (if 0 <? length detailParts
     then (ToolPromptConfig.name tool ++ "工具使用细节：" ++ nl
             ++ join nl detailParts)%string
     else "").

(** [acc[key] = v] on a record kept as the list of its entries: a key that
    is there keeps its place. *)
Fixpoint setKey (key : string) (v : PromptSection.t)
  (acc : list (string * PromptSection.t))
  : list (string * PromptSection.t) :=
  match acc with
  | [] => [(key, v)]
  | (k, x) :: acc' =>
      if String.eqb k key then (k, v) :: acc'
      else (k, x) :: setKey key v acc'
  end.

(** [acc[key]] *)
Fixpoint getKey (key : string) (acc : list (string * PromptSection.t))
  : option PromptSection.t :=
  match acc with
  | [] => None
  | (k, x) :: acc' => if String.eqb k key then Some x else getKey key acc'
  end.

Definition PROMPT_SECTIONS (MCP_TOOLS_CONFIG : list ToolPromptConfig.t)
  : list (string * PromptSection.t) :=
  fold_left
    (fun acc tool => setKey (ToolPromptConfig.id tool) (sectionOf tool) acc)
    MCP_TOOLS_CONFIG [].

End LegacySections.

(* ================================================================== *)
(** * The reply settings (components/settings/ReplySettings.vue) *)
(* ================================================================== *)

Module ReplySettings.

Import Js.

(** [ReplyConfig] as this component declares it. *)
Record Config : Type := mkConfig {
  enable_continue_reply : bool;
  auto_continue_threshold : Z;
  continue_prompt : string
}.

(** The refs.  The number input gives a number, here a rational, or null
    when it is empty. *)
Record State : Type := mkState {
  localConfig : Config;
  interactionWaitSeconds : option Q
}.

Definition initial : State :=
  mkState (mkConfig true 1000 "请按照最佳实践继续") (Some (inject_Z 1800)).

(** What [Number(waitMs)] gives for the answer of the backend: a whole
    count of milliseconds, or a value that is not finite.  The counts are
    those that a double holds exactly, below 2^53. *)
Inductive WaitMs : Type :=
| finite (ms : Z)
| notFinite.

(** [Math.round(ms / 1000)]: halves go up. *)
Definition roundSeconds (ms : Z) : Z := ((ms + 500) / 1000)%Z.

(** [Number.isFinite(ms) ? Math.max(0, Math.round(ms / 1000)) : 1800] *)
Definition secondsOfMs (w : WaitMs) : Z :=
  match w with
  | finite ms => Z.max 0 (roundSeconds ms)
  | notFinite => 1800%Z
  end.

(** [Math.max(0, Math.floor(interactionWaitSeconds.value || 0))] *)
Definition wholeSeconds (v : option Q) : Z :=
  Z.max 0 (Qfloor (match v with Some q => q | None => 0%Q end)).

(** The argument [waitMs] of [set_interaction_wait_ms]. *)
Definition waitMsToSave (s : State) : Z :=
  (wholeSeconds (interactionWaitSeconds s) * 1000)%Z.

(** [loadConfig], on the answers of [get_reply_config] and
    [get_interaction_wait_ms]; the second command is invoked only when the
    first returned.  It gives the refs and what is logged. *)
Definition loadConfig (config : Outcome Config) (waitMs : Outcome WaitMs)
  (s : State) : State * list string :=
  match config with
  | Throw _ => (s, ["加载继续回复配置失败:"])
  | Ret c =>
      let s1 := mkState c (interactionWaitSeconds s) in
      match waitMs with
      | Throw _ => (s1, ["加载继续回复配置失败:"])
      | Ret w =>
          (mkState c (Some (inject_Z (secondsOfMs w))), [])
      end
  end.



End ReplySettings.

(* ================================================================== *)
(** * Properties *)
(* ================================================================== *)

(** ** The prompt generators *)

Section GeneratorFacts.

Variable CORE_RULES : string.

Lemma findConfig_of_member (cfg : list ToolPromptConfig.t)
  (t : ToolPromptConfig.t) :
  NoDup (map ToolPromptConfig.id cfg) ->
  In t cfg ->
  PromptConfig.findConfig cfg (ToolPromptConfig.id t) = Some t.
Proof.
  unfold PromptConfig.findConfig.
  induction cfg as [|x l IH]; intros Hnd Hin; [contradiction|].
  inversion Hnd as [|? ? Hx Hl]; subst.
  simpl. destruct Hin as [->|Hin].
  - now rewrite String.eqb_refl.
  - destruct (String.eqb_spec (ToolPromptConfig.id x) (ToolPromptConfig.id t))
      as [E|_].
    + exfalso. apply Hx. rewrite E. now apply in_map.
    + now apply IH.
Qed.

Lemma upgradeTool_legacyOf (cfg : list ToolPromptConfig.t)
  (t : ToolPromptConfig.t) :
  NoDup (map ToolPromptConfig.id cfg) ->
  In t cfg ->
  PromptConfig.upgradeTool cfg (PromptConfig.legacyOf t) = t.
Proof.
  intros Hnd Hin. unfold PromptConfig.upgradeTool. simpl.
  rewrite (findConfig_of_member cfg t Hnd Hin).
  destruct t as [i n d p [e c ic bg dbg]]. reflexivity.
Qed.

(** The legacy generator rebuilds the configuration it was derived from,
    whenever the tools have distinct ids. *)
Lemma legacy_roundtrip (cfg : list ToolPromptConfig.t) :
  NoDup (map ToolPromptConfig.id cfg) ->
  PromptConfig.generateFullPrompt CORE_RULES cfg
    (PromptConfig.DEFAULT_MCP_TOOLS cfg)
  = PromptConfig.generateFullPromptFromConfig CORE_RULES cfg.
Proof.
  intros Hnd. unfold PromptConfig.generateFullPrompt,
    PromptConfig.DEFAULT_MCP_TOOLS.
  rewrite map_map.
  assert (E : map (fun t => PromptConfig.upgradeTool cfg
                              (PromptConfig.legacyOf t)) cfg = cfg).
  { transitivity (map (fun t => t) cfg); [|apply map_id].
    apply map_ext_in. intros t Hin. now apply upgradeTool_legacyOf. }
  now rewrite E.
Qed.

End GeneratorFacts.

Lemma Rev1_ids_distinct :
  NoDup (map ToolPromptConfig.id PromptConfigRev1.MCP_TOOLS_CONFIG).
Proof.
  repeat constructor; simpl; intuition discriminate.
Qed.

Lemma Rev2_ids_distinct :
  NoDup (map ToolPromptConfig.id PromptConfigRev2.MCP_TOOLS_CONFIG).
Proof.
  repeat constructor; simpl; intuition discriminate.
Qed.

(** C9: on the default configuration the legacy generator gives the string
    of the new one: [generateFullPrompt(DEFAULT_MCP_TOOLS)] is
    [generateFullPromptFromConfig(MCP_TOOLS_CONFIG)], which is the exported
    [REFERENCE_PROMPT]. *)
Theorem C9_legacy_generator_agrees :
  PromptConfigRev1.generateFullPrompt PromptConfigRev1.DEFAULT_MCP_TOOLS
  = PromptConfigRev1.generateFullPromptFromConfig
      PromptConfigRev1.MCP_TOOLS_CONFIG
  /\ PromptConfigRev1.generateFullPrompt PromptConfigRev1.DEFAULT_MCP_TOOLS
     = PromptConfigRev1.REFERENCE_PROMPT.
Proof.
  assert (H := @legacy_roundtrip PromptConfigRev1.CORE_RULES _
                 Rev1_ids_distinct).
  split; exact H.
Qed.

(** The same for the constants of the second revision of the module. *)
Theorem legacy_generator_agrees_rev2 :
  PromptConfigRev2.generateFullPrompt PromptConfigRev2.DEFAULT_MCP_TOOLS
  = PromptConfigRev2.REFERENCE_PROMPT.
Proof.
  exact (@legacy_roundtrip PromptConfigRev2.CORE_RULES _ Rev2_ids_distinct).
Qed.

(** ** The request *)

(** C7, as stated, fails: two requests can agree on the identifier, the
    message, the options and the project path and still differ, in the
    [chalkboard] flag. *)
Lemma C7_counterexample :
  let r1 := McpRequest.mk "1" "m" (Some ["a"]) (Some true) (Some "/p") in
  let r2 := McpRequest.mk "1" "m" (Some ["a"]) None (Some "/p") in
  McpRequest.id r1 = McpRequest.id r2
  /\ McpRequest.message r1 = McpRequest.message r2
  /\ McpRequest.menu r1 = McpRequest.menu r2
  /\ McpRequest.project_root_path r1 = McpRequest.project_root_path r2
  /\ r1 <> r2.
Proof.
  simpl. repeat split. discriminate.
Qed.

(** C7, amended: a request of the popup is its identifier, its message, its
    optional options, an optional [chalkboard] flag and its optional
    project path, and nothing else: to every choice of the five, the
    optional ones set or absent, there is one request and only one.  The
    request as the history tab declares it is its identifier, its message,
    its optional options, the [is_markdown] flag, which is always there,
    and its optional project path.  The options are optional to the popup
    and to its input alike: a request has options to show exactly when its
    list of options is there and is not empty. *)
Theorem C7_request_fields :
  (forall (id message : string) (menu : option (list string))
          (chalkboard : option bool) (project_root_path : option string),
      exists! r : McpRequest.t,
        McpRequest.id r = id
        /\ McpRequest.message r = message
        /\ McpRequest.menu r = menu
        /\ McpRequest.chalkboard r = chalkboard
        /\ McpRequest.project_root_path r = project_root_path)
  /\ (forall (id message : string) (predefined_options : option (list string))
             (is_markdown : bool) (project_root_path : option string),
         exists! p : PopupRequest.t,
           PopupRequest.id p = id
           /\ PopupRequest.message p = message
           /\ PopupRequest.predefined_options p = predefined_options
           /\ PopupRequest.is_markdown p = is_markdown
           /\ PopupRequest.project_root_path p = project_root_path)
  /\ (forall r : McpRequest.t,
         (PopupInput.hasOptions (PopupInput.initial (Some r)) = true
          <-> exists option rest, McpRequest.menu r = Some (option :: rest))
         /\ McpPopup.hasOptions
              (McpPopup.set_request (Some r) (McpPopup.initial false))
            = PopupInput.hasOptions (PopupInput.initial (Some r))).
Proof.
  split; [|split].
  - intros id message menu chalkboard path.
    exists (McpRequest.mk id message menu chalkboard path).
    split; [repeat split|].
    intros [i m o c p]; simpl. intros (-> & -> & -> & -> & ->). reflexivity.
  - intros id message options flag path.
    exists (PopupRequest.mk id message options flag path).
    split; [repeat split|].
    intros [i m o c p]; simpl. intros (-> & -> & -> & -> & ->). reflexivity.
  - intros [i m [[|o l]|] c p]; (split; [|reflexivity]); cbn; split;
      try discriminate; try (intros (o' & l' & H); discriminate H);
      try reflexivity.
    intros _. now exists o, l.
Qed.

Lemma C7_request_fields_witness :
  PopupInput.hasOptions (PopupInput.initial (Some Sample.request)) = true
  /\ PopupInput.hasOptions
       (PopupInput.initial (Some (McpRequest.mk "1" "m" None None None)))
     = false.
Proof.
  destruct C7_request_fields as (_ & _ & H). split.
  - apply (proj1 (H Sample.request)). now exists "A", ["B"].
  - destruct (PopupInput.hasOptions _) eqn:E; [|reflexivity].
    apply (proj1 (H (McpRequest.mk "1" "m" None None None))) in E.
    destruct E as (o & l & E). discriminate E.
Defined.

(** ** The search of the history tab *)

Lemma includes_empty (hay : string) : Js.includes hay "" = true.
Proof.
  destruct hay; reflexivity.
Qed.

Lemma filter_all {A} (f : A -> bool) (l : list A) :
  (forall x, f x = true) -> filter f l = l.
Proof.
  intros H. induction l as [|x l IH]; simpl; [reflexivity|].
  now rewrite H, IH.
Qed.

Lemma truthy_false (s : string) : Js.truthy s = false <-> s = "".
Proof.
  destruct s; simpl; split; congruence.
Qed.

Section SearchFacts.

Variable toLowerCase : string -> string.
Variable newDate : string -> option HistoryTab.LocalTime.

Let normalize := HistoryTab.normalizeSearchText toLowerCase.
Let hay := HistoryTab.haystack toLowerCase newDate.
Let filtered := HistoryTab.filteredEntries toLowerCase newDate.

(** The filtered list is the list of the entries whose haystack includes
    the query, in the order of the entries. *)
Lemma filteredEntries_is_filter (s : HistoryTab.State) :
  filtered s
  = filter (fun e => Js.includes (hay e) (normalize (HistoryTab.search s)))
      (HistoryTab.entries s).
Proof.
  unfold filtered, HistoryTab.filteredEntries.
  fold normalize.
  destruct (Js.truthy (normalize (HistoryTab.search s))) eqn:E; simpl.
  - reflexivity.
  - apply truthy_false in E. rewrite E.
    symmetry. apply filter_all. intros e. apply includes_empty.
Qed.

End SearchFacts.

(** C4: the filtered list is the list of the entries, in their order, whose
    haystack contains the query.  The haystack of an entry is its id, its
    preview, its request id, its source, its raw timestamp and its
    formatted local time, joined by spaces; the local time is written
    [y/m/d hh:mm:ss hh:mm y/m] with two digits for hours, minutes and
    seconds, and is the raw timestamp when that is no date.  Haystack and
    query are normalized alike: trimmed, the fullwidth colon, slash and
    space replaced by the ASCII ones, and lower-cased.  When the query
    normalizes to the empty string the filtered list is the entry list. *)
Theorem C4_history_filter
  (toLowerCase : string -> string)
  (newDate : string -> option HistoryTab.LocalTime)
  (s : HistoryTab.State) :
  let normalized text :=
    toLowerCase
      (Js.replaceAll
         (Js.replaceAll (Js.replaceAll (Js.trim text) "：" ":") "／" "/")
         "　" " ") in
  let two z := Js.padStart0 (Js.String_of_Z z) 2 in
  let timeText ts :=
    match newDate ts with
    | None => ts
    | Some d =>
        (Js.String_of_Z (HistoryTab.getFullYear d) ++ "/"
           ++ Js.String_of_Z (HistoryTab.getMonth d + 1) ++ "/"
           ++ Js.String_of_Z (HistoryTab.getDate d) ++ " "
           ++ two (HistoryTab.getHours d) ++ ":"
           ++ two (HistoryTab.getMinutes d) ++ ":"
           ++ two (HistoryTab.getSeconds d) ++ " "
           ++ two (HistoryTab.getHours d) ++ ":"
           ++ two (HistoryTab.getMinutes d) ++ " "
           ++ Js.String_of_Z (HistoryTab.getFullYear d) ++ "/"
           ++ Js.String_of_Z (HistoryTab.getMonth d + 1))%string
    end in
  let orEmpty x := match x with Some text => text | None => "" end in
  let haystack e :=
    normalized
      (HistoryEntrySummary.id e ++ " "
         ++ HistoryEntrySummary.preview e ++ " "
         ++ orEmpty (HistoryEntrySummary.request_id e) ++ " "
         ++ orEmpty (HistoryEntrySummary.source e) ++ " "
         ++ HistoryEntrySummary.timestamp e ++ " "
         ++ timeText (HistoryEntrySummary.timestamp e))%string in
  let q := normalized (HistoryTab.search s) in
  (forall e,
      In e (HistoryTab.filteredEntries toLowerCase newDate s)
      <-> In e (HistoryTab.entries s) /\ Js.includes (haystack e) q = true)
  /\ HistoryTab.filteredEntries toLowerCase newDate s
     = filter (fun e => Js.includes (haystack e) q) (HistoryTab.entries s)
  /\ (q = "" ->
      HistoryTab.filteredEntries toLowerCase newDate s = HistoryTab.entries s).
Proof.
  intros normalized two timeText orEmpty haystack q.
  assert (F : HistoryTab.filteredEntries toLowerCase newDate s
              = filter (fun e => Js.includes (haystack e) q)
                  (HistoryTab.entries s)).
  { rewrite (filteredEntries_is_filter toLowerCase newDate s).
    apply filter_ext. intros e. reflexivity. }
  split; [|split].
  - intros e. rewrite F. apply filter_In.
  - exact F.
  - intros Hq. rewrite F. apply filter_all.
    intros e. rewrite Hq. apply includes_empty.
Qed.

(** A blank query keeps the entry; the entry is found by its local day and
    time written with fullwidth signs, and not by a word it does not
    hold. *)
Lemma C4_history_filter_witness :
  let s q := HistoryTab.mkState false [Sample.entry] q None "" false None []
  in
  HistoryTab.filteredEntries Sample.toLowerCase Sample.newDate (s " 　 ")
  = [Sample.entry]
  /\ (In Sample.entry
        (HistoryTab.filteredEntries Sample.toLowerCase Sample.newDate
           (s " 2025／3／4 05：06 "))
      /\ ~ In Sample.entry
           (HistoryTab.filteredEntries Sample.toLowerCase Sample.newDate
              (s "lexer"))).
Proof.
  intros s. split; [|split].
  - pose proof (C4_history_filter Sample.toLowerCase Sample.newDate (s " 　 "))
      as H.
    cbv zeta in H. apply (proj2 (proj2 H)). vm_compute. reflexivity.
  - pose proof (C4_history_filter Sample.toLowerCase Sample.newDate
                  (s " 2025／3／4 05：06 ")) as H.
    cbv zeta in H. apply (proj1 H). split; [now left|].
    vm_compute. reflexivity.
  - pose proof (C4_history_filter Sample.toLowerCase Sample.newDate
                  (s "lexer")) as H.
    cbv zeta in H. intros Hin. apply (proj1 H) in Hin.
    destruct Hin as [_ Hin]. vm_compute in Hin. discriminate Hin.
Defined.

(** The search finds an entry by a part of its preview in another case, by
    its local time written with a fullwidth colon, and not by a text that
    it does not hold. *)
Example search_samples :
  let s q := HistoryTab.mkState false [Sample.entry] q None "" false None []
  in
  HistoryTab.filteredEntries Sample.toLowerCase Sample.newDate (s "PARSER")
  = [Sample.entry]
  /\ HistoryTab.filteredEntries Sample.toLowerCase Sample.newDate
       (s " 05：06 ")
     = [Sample.entry]
  /\ HistoryTab.filteredEntries Sample.toLowerCase Sample.newDate
       (s "lexer")
     = [].
Proof.
  vm_compute. repeat split.
Qed.

(** ** Reasoning on handlers *)

Module Hoare.

Import Js Host Rt.

Section Rules.

Variable S : Type.

(** *** Handlers that never throw *)

Definition safe {A} (m : M S A) : Prop :=
  forall w, returns (fst (m w)) = true.

Lemma safe_ret {A} (a : A) : safe (ret a).
Proof. intros w; reflexivity. Qed.

Lemma safe_bind {A B} (m : M S A) (k : A -> M S B) :
  safe m -> (forall a, safe (k a)) -> safe (bind m k).
Proof.
  intros Hm Hk w. unfold bind. specialize (Hm w).
  destruct (m w) as [[a|e] w']; simpl in *; [apply Hk|discriminate].
Qed.

Lemma safe_try_catch {A} (m : M S A) (h : Error -> M S A) :
  (forall e, safe (h e)) -> safe (try_catch m h).
Proof.
  intros Hh w. unfold try_catch.
  destruct (m w) as [[a|e] w']; simpl; [reflexivity|apply Hh].
Qed.

Lemma safe_try_finally {A} (m : M S A) (f : M S unit) :
  safe m -> safe f -> safe (try_finally m f).
Proof.
  intros Hm Hf w. unfold try_finally. specialize (Hm w).
  destruct (m w) as [r w']. specialize (Hf w').
  destruct (f w') as [[u|e] w'']; simpl in *; [exact Hm|discriminate].
Qed.

Lemma safe_get : safe (@get S).
Proof. intros w; reflexivity. Qed.

Lemma safe_modify (f : S -> S) : safe (modify f).
Proof. intros w; reflexivity. Qed.

Lemma safe_effect (e : Effect) : safe (@effect S e).
Proof. intros w; reflexivity. Qed.

Lemma safe_query host {R} (q : Query R) : safe (@query S host R q).
Proof. intros w; reflexivity. Qed.

Lemma safe_attempt {A} (m : M S A) : safe (attempt m).
Proof. intros w. unfold attempt. destruct (m w). reflexivity. Qed.

Lemma safe_void {A} (m : M S A) : safe (void m).
Proof.
  intros w. unfold void. destruct (m w) as [[a|e] w']; reflexivity.
Qed.

Lemma safe_when (b : bool) (m : M S unit) : safe m -> safe (when b m).
Proof. intros H. destruct b; [exact H|apply safe_ret]. Qed.

Lemma safe_for_of {A} (l : list A) (body : A -> M S unit) :
  (forall x, safe (body x)) -> safe (for_of l body).
Proof.
  intros H. induction l as [|x l IH]; simpl.
  - apply safe_ret.
  - apply safe_bind; [apply H|intros _; exact IH].
Qed.

(** *** Invariants of the refs and of the trace *)

Variable I : S -> Prop.
Variable G : Effect -> Prop.

Definition winv (w : World S) : Prop := I (st w) /\ Forall G (tr w).

Definition keeps {A} (m : M S A) : Prop :=
  forall w, winv w -> winv (snd (m w)).

(** The same, knowing the refs at the start. *)
Definition keepsAt (s0 : S) {A} (m : M S A) : Prop :=
  forall w, st w = s0 -> winv w -> winv (snd (m w)).

Lemma winv_log (w : World S) (e : Effect) :
  winv w -> G e -> winv (mkWorld (st w) (tr w ++ [e])).
Proof.
  intros [Hi Hg] He. split; simpl; [exact Hi|].
  apply Forall_app. split; [exact Hg|]. constructor; [exact He|constructor].
Qed.

Lemma keeps_ret {A} (a : A) : keeps (ret a).
Proof. intros w H; exact H. Qed.

Lemma keeps_throw {A} (e : Error) : keeps (@throw S A e).
Proof. intros w H; exact H. Qed.

Lemma keeps_bind {A B} (m : M S A) (k : A -> M S B) :
  keeps m -> (forall a, keeps (k a)) -> keeps (bind m k).
Proof.
  intros Hm Hk w Hw. unfold bind. specialize (Hm w Hw).
  destruct (m w) as [[a|e] w']; simpl in *; [now apply Hk|exact Hm].
Qed.

Lemma keeps_try_catch {A} (m : M S A) (h : Error -> M S A) :
  keeps m -> (forall e, keeps (h e)) -> keeps (try_catch m h).
Proof.
  intros Hm Hh w Hw. unfold try_catch. specialize (Hm w Hw).
  destruct (m w) as [[a|e] w']; simpl in *; [exact Hm|now apply Hh].
Qed.

Lemma keeps_try_finally {A} (m : M S A) (f : M S unit) :
  keeps m -> keeps f -> keeps (try_finally m f).
Proof.
  intros Hm Hf w Hw. unfold try_finally. specialize (Hm w Hw).
  destruct (m w) as [r w']. simpl in Hm. specialize (Hf w' Hm).
  destruct (f w') as [[u|e] w'']; exact Hf.
Qed.

Lemma keeps_get : keeps (@get S).
Proof. intros w H; exact H. Qed.

Lemma keeps_modify (f : S -> S) :
  (forall s, I s -> I (f s)) -> keeps (modify f).
Proof. intros H w [Hi Hg]. split; simpl; auto. Qed.

Lemma keeps_effect (e : Effect) : G e -> keeps (@effect S e).
Proof. intros He w Hw. now apply winv_log. Qed.

Lemma keeps_invoke host {R} (c : Command R) :
  (forall r, G (EInvoke c r)) -> keeps (@invoke S host R c).
Proof. intros H w Hw. unfold invoke. simpl. now apply winv_log. Qed.

Lemma keeps_web host {R} (c : WebCall R) :
  (forall r, G (EWeb c r)) -> keeps (@web S host R c).
Proof. intros H w Hw. unfold web. simpl. now apply winv_log. Qed.

Lemma keeps_query host {R} (q : Query R) :
  (forall r, G (EQuery q r)) -> keeps (@query S host R q).
Proof. intros H w Hw. unfold query. simpl. now apply winv_log. Qed.

Lemma keeps_attempt {A} (m : M S A) : keeps m -> keeps (attempt m).
Proof.
  intros Hm w Hw. unfold attempt. specialize (Hm w Hw).
  destruct (m w); exact Hm.
Qed.

Lemma keeps_void {A} (m : M S A) :
  (forall e, G (EUnhandledRejection e)) -> keeps m -> keeps (void m).
Proof.
  intros He Hm w Hw. unfold void. specialize (Hm w Hw).
  destruct (m w) as [[a|e] w']; simpl in *; [exact Hm|].
  now apply winv_log.
Qed.

Lemma keeps_when (b : bool) (m : M S unit) : keeps m -> keeps (when b m).
Proof. intros H. destruct b; [exact H|apply keeps_ret]. Qed.

Lemma keeps_for_of {A} (l : list A) (body : A -> M S unit) :
  (forall x, keeps (body x)) -> keeps (for_of l body).
Proof.
  intros H. induction l as [|x l IH]; simpl.
  - apply keeps_ret.
  - apply keeps_bind; [apply H|intros _; exact IH].
Qed.

Lemma keeps_bind_get {A} (k : S -> M S A) :
  (forall s0, keepsAt s0 (k s0)) -> keeps (bind get k).
Proof. intros H w Hw. unfold bind, get. simpl. now apply (H (st w)). Qed.

Lemma keepsAt_weaken (s0 : S) {A} (m : M S A) : keeps m -> keepsAt s0 m.
Proof. intros H w _ Hw. now apply H. Qed.

Lemma keepsAt_bind_query host (s0 : S) {R A} (q : Query R)
  (k : R -> M S A) :
  (forall r, G (EQuery q r)) ->
  (forall r, keepsAt s0 (k r)) ->
  keepsAt s0 (bind (query host q) k).
Proof.
  intros Hq Hk w E Hw. unfold bind, query. simpl.
  apply Hk; [exact E|now apply winv_log].
Qed.

Lemma keepsAt_bind_modify (s0 : S) (f : S -> S) {A}
  (k : unit -> M S A) :
  (I s0 -> I (f s0)) ->
  (forall u, keeps (k u)) ->
  keepsAt s0 (bind (modify f) k).
Proof.
  intros Hf Hk w E [Hi Hg]. unfold bind, modify. simpl.
  apply Hk. split; simpl; [|exact Hg]. rewrite E in *. auto.
Qed.

End Rules.

End Hoare.

(** ** The switch of a conditional prompt *)

Section ToggleFacts.

Import PopupInput.

Lemma findPrompt_setStateOfFirst (promptId : string) (v : bool)
  (l : list CustomPrompt.t) (p : CustomPrompt.t) :
  findPrompt promptId l = Some p ->
  findPrompt promptId (setStateOfFirst promptId v l)
  = Some (with_current_state v p).
Proof.
  unfold findPrompt. induction l as [|q l IH]; simpl; [discriminate|].
  destruct (String.eqb (CustomPrompt.id q) promptId) eqn:E; simpl.
  - intros [= ->]. now rewrite E.
  - rewrite E. exact IH.
Qed.

Lemma setStateOfFirst_twice (promptId : string) (v1 v2 : bool)
  (l : list CustomPrompt.t) :
  setStateOfFirst promptId v2 (setStateOfFirst promptId v1 l)
  = setStateOfFirst promptId v2 l.
Proof.
  induction l as [|q l IH]; simpl; [reflexivity|].
  destruct (String.eqb (CustomPrompt.id q) promptId) eqn:E; simpl;
    rewrite E; [reflexivity|now rewrite IH].
Qed.

Lemma setStateOfFirst_same (promptId : string) (v : bool)
  (l : list CustomPrompt.t) (p : CustomPrompt.t) :
  findPrompt promptId l = Some p ->
  CustomPrompt.current_state p = Some v ->
  setStateOfFirst promptId v l = l.
Proof.
  unfold findPrompt. induction l as [|q l IH]; simpl; [discriminate|].
  destruct (String.eqb (CustomPrompt.id q) promptId) eqn:E.
  - intros [= ->] Hs. destruct p; simpl in *. now rewrite Hs.
  - intros Hf Hs. now rewrite IH.
Qed.

Lemma setStateOfFirst_absent (promptId : string) (v : bool)
  (l : list CustomPrompt.t) :
  findPrompt promptId l = None -> setStateOfFirst promptId v l = l.
Proof.
  unfold findPrompt. induction l as [|q l IH]; simpl; [reflexivity|].
  destruct (String.eqb (CustomPrompt.id q) promptId); [discriminate|].
  intros H. now rewrite IH.
Qed.

End ToggleFacts.

(** Switches flipped and saves answered in any order: every step returns,
    the prompts keep their ids and their order, and a step for another id
    leaves the prompt of an id as it is. *)
Section ToggleOrder.

Import PopupInput.

Definition toggleId (e : ToggleEvent) : string :=
  match e with
  | Flipped promptId _ => promptId
  | Answered promptId _ _ => promptId
  end.

(** The same prompt, but for its state. *)
Definition sameButState (p q : CustomPrompt.t) : Prop :=
  forall b, with_current_state b q = with_current_state b p.

Lemma findPrompt_other (promptId other : string) (v : bool)
  (l : list CustomPrompt.t) :
  other <> promptId ->
  findPrompt promptId (setStateOfFirst other v l) = findPrompt promptId l.
Proof.
  intros N. unfold findPrompt. induction l as [|q l IH]; [reflexivity|].
  cbn [setStateOfFirst].
  destruct (String.eqb_spec (CustomPrompt.id q) other) as [E|_].
  - cbn [find with_current_state CustomPrompt.id]. rewrite E.
    destruct (String.eqb_spec other promptId); [contradiction|reflexivity].
  - cbn [find]. now rewrite IH.
Qed.

Lemma findPrompt_any (promptId other : string) (v : bool)
  (l : list CustomPrompt.t) (p q : CustomPrompt.t) :
  findPrompt promptId l = Some q ->
  sameButState p q ->
  exists q',
    findPrompt promptId (setStateOfFirst other v l) = Some q'
    /\ sameButState p q'.
Proof.
  intros F S.
  destruct (String.eqb_spec other promptId) as [->|N].
  - exists (with_current_state v q).
    split; [now apply findPrompt_setStateOfFirst|].
    intros b. rewrite <- (S b). reflexivity.
  - exists q. split; [|exact S]. now rewrite findPrompt_other.
Qed.

Lemma toggleStep_run (e : ToggleEvent) (w : Rt.World State) :
  exists prompts new,
    toggleStep e w
    = (Js.Ret tt, Rt.mkWorld (set_customPrompts prompts (Rt.st w))
                    (Rt.tr w ++ new))
    /\ (forall promptId p q,
           findPrompt promptId (customPrompts (Rt.st w)) = Some q ->
           sameButState p q ->
           exists q',
             findPrompt promptId prompts = Some q' /\ sameButState p q')
    /\ (forall promptId,
           toggleId e <> promptId ->
           findPrompt promptId prompts
           = findPrompt promptId (customPrompts (Rt.st w))).
Proof.
  destruct e as [i v|i v [u|e]]; cbn [toggleStep toggleId];
    unfold toggleWrite, toggleSettle, Rt.message_success, Rt.message_error,
      Rt.console_error, Rt.bind, Rt.modify, Rt.effect;
    cbn [Rt.st Rt.tr fst snd].
  - exists (setStateOfFirst i v (customPrompts (Rt.st w))), [].
    rewrite app_nil_r. split; [reflexivity|]. split.
    + intros promptId p q F S. now apply findPrompt_any with (q := q).
    + intros promptId N. now apply findPrompt_other.
  - exists (customPrompts (Rt.st w)). eexists.
    rewrite <- !app_assoc. cbn [app]. split.
    + destruct w as [[] ?]; reflexivity.
    + split; [|reflexivity]. intros promptId p q F S. now exists q.
  - exists (setStateOfFirst i (negb v) (customPrompts (Rt.st w))). eexists.
    rewrite <- !app_assoc. cbn [app]. split; [reflexivity|]. split.
    + intros promptId p q F S. now apply findPrompt_any with (q := q).
    + intros promptId N. now apply findPrompt_other.
Qed.

Lemma toggleSteps_run (l : list ToggleEvent) :
  forall w : Rt.World State,
  exists prompts new,
    Rt.for_of l toggleStep w
    = (Js.Ret tt, Rt.mkWorld (set_customPrompts prompts (Rt.st w))
                    (Rt.tr w ++ new))
    /\ (forall promptId p q,
           findPrompt promptId (customPrompts (Rt.st w)) = Some q ->
           sameButState p q ->
           exists q',
             findPrompt promptId prompts = Some q' /\ sameButState p q')
    /\ (forall promptId,
           Forall (fun e => toggleId e <> promptId) l ->
           findPrompt promptId prompts
           = findPrompt promptId (customPrompts (Rt.st w))).
Proof.
  induction l as [|e l IH]; intros w.
  - exists (customPrompts (Rt.st w)), []. rewrite app_nil_r. split.
    + destruct w as [[] ?]; reflexivity.
    + split; [|reflexivity]. intros promptId p q F S. now exists q.
  - cbn [Rt.for_of]. unfold Rt.bind.
    destruct (toggleStep_run e w) as (p1 & n1 & R1 & A1 & B1). rewrite R1.
    destruct (IH (Rt.mkWorld (set_customPrompts p1 (Rt.st w))
                    (Rt.tr w ++ n1)))
      as (p2 & n2 & R2 & A2 & B2).
    rewrite R2. cbn [Rt.st Rt.tr] in *.
    exists p2, (n1 ++ n2). rewrite app_assoc. split; [reflexivity|]. split.
    + intros promptId p q F S.
      destruct (A1 promptId p q F S) as (q1 & F1 & S1).
      now apply (A2 promptId p q1).
    + intros promptId H. inversion H as [|? ? He Hl]; subst.
      rewrite (B2 promptId Hl). cbn [customPrompts set_customPrompts].
      now apply B1.
Qed.

End ToggleOrder.

(** C10, as stated, fails when the switch is flipped again while a save is
    pending.  The prompt is off; the user switches it on and off again.
    When the first save is then answered and has succeeded, the handler of
    the first flip ends with the prompt off, not with the state it
    requested.  When both saves fail, in the order they were made, the two
    handlers end with the prompt on, though it was off and nothing was
    saved. *)
Lemma C10_counterexample :
  let s :=
    PopupInput.set_customPrompts [Sample.conditionalPrompt (Some false)]
      (PopupInput.initial None) in
  let failed : Js.Outcome unit := Js.Throw Sample.unavailable in
  let saved_late :=
    [PopupInput.Flipped "p1" true;
     PopupInput.Flipped "p1" false;
     PopupInput.Answered "p1" true (Js.Ret tt)] in
  let both_failed :=
    [PopupInput.Flipped "p1" true;
     PopupInput.Flipped "p1" false;
     PopupInput.Answered "p1" true failed;
     PopupInput.Answered "p1" false failed] in
  let states events :=
    map CustomPrompt.current_state
      (PopupInput.customPrompts
         (Rt.st (snd (Rt.for_of events PopupInput.toggleStep
                        (Rt.mkWorld s []))))) in
  (PopupInput.canHappen [] saved_late = true
   /\ states saved_late = [Some false])
  /\ (PopupInput.canHappen [] both_failed = true
      /\ states [] = [Some false]
      /\ states both_failed = [Some true]).
Proof.
  vm_compute. repeat split.
Qed.


(** C10, amended: the handler is its write, the save, and what follows the
    answer, and it never throws.  The write gives the prompt the requested
    state at once.  Whatever switches are flipped and whatever saves are
    answered while the save is pending: when the save fails, the error is
    logged and shown and the prompt gets the negation of the requested
    value, which for a toggle (the requested value is the negation of
    [current_state ?? false]) is the state it showed before; with nothing
    in between and a [current_state] that was set, the prompts are the very
    prompts of before.  When the save succeeds, a message is shown, and the
    prompt has the requested state provided that no step in between was
    for this prompt. *)
Theorem C10_conditional_toggle
  (host : Host.t) (s : PopupInput.State) (t : Host.trace)
  (promptId : string) (value : bool) (p : CustomPrompt.t)
  (between : list PopupInput.ToggleEvent) (saved : Js.Outcome unit) :
  PopupInput.findPrompt promptId (PopupInput.customPrompts s) = Some p ->
  PopupInput.isEnabled p = negb value ->
  let save := Host.update_conditional_prompt_state promptId value in
  let written :=
    Rt.run (PopupInput.toggleStep (PopupInput.Flipped promptId value)) s t in
  let pending := Rt.for_of between PopupInput.toggleStep (snd written) in
  let out :=
    PopupInput.toggleStep (PopupInput.Answered promptId value saved)
      (snd pending) in
  let found := PopupInput.findPrompt promptId
                 (PopupInput.customPrompts (Rt.st (snd out))) in
  Rt.run (PopupInput.handleConditionalToggle host promptId value) s t
  = PopupInput.toggleStep
      (PopupInput.Answered promptId value (Host.invoke host t save))
      (snd written)
  /\ snd written
     = Rt.mkWorld
         (PopupInput.set_customPrompts
            (PopupInput.setStateOfFirst promptId value
               (PopupInput.customPrompts s)) s) t
  /\ PopupInput.findPrompt promptId
       (PopupInput.customPrompts (Rt.st (snd written)))
     = Some (PopupInput.with_current_state value p)
  /\ fst pending = Js.Ret tt
  /\ fst out = Js.Ret tt
  /\ match saved with
     | Js.Ret _ =>
         Rt.tr (snd out)
         = Rt.tr (snd pending)
             ++ [Host.EInvoke save saved;
                 Host.EMessage Host.success "上下文追加状态已保存"]
         /\ (Forall (fun e => toggleId e <> promptId) between ->
             found = Some (PopupInput.with_current_state value p))
     | Js.Throw e =>
         Rt.tr (snd out)
         = Rt.tr (snd pending)
             ++ [Host.EInvoke save saved;
                 Host.EConsole Host.cerror "保存条件性prompt状态失败:";
                 Host.EMessage Host.error
                   ("保存设置失败: "
                      ++ match Js.err_message e with
                         | Some m => m
                         | None => "undefined"
                         end)%string]
         /\ found = Some (PopupInput.with_current_state (negb value) p)
         /\ PopupInput.isEnabled
              (PopupInput.with_current_state (negb value) p)
            = PopupInput.isEnabled p
         /\ (between = [] ->
             CustomPrompt.current_state p <> None ->
             PopupInput.customPrompts (Rt.st (snd out))
             = PopupInput.customPrompts s)
     end.
Proof.
  intros Hfind Htoggle save written pending out found.
  assert (W : written
              = (Js.Ret tt,
                 Rt.mkWorld
                   (PopupInput.set_customPrompts
                      (PopupInput.setStateOfFirst promptId value
                         (PopupInput.customPrompts s)) s) t))
    by reflexivity.
  assert (Fw : PopupInput.findPrompt promptId
                 (PopupInput.customPrompts (Rt.st (snd written)))
               = Some (PopupInput.with_current_state value p)).
  { rewrite W. cbn [snd Rt.st PopupInput.customPrompts
                    PopupInput.set_customPrompts].
    now apply findPrompt_setStateOfFirst. }
  destruct (toggleSteps_run between (snd written))
    as (prompts & new & R & A & B).
  fold pending in R.
  destruct (A promptId p (PopupInput.with_current_state value p) Fw)
    as (q & Fq & Sq); [intros b; reflexivity|].
  split; [|split; [|split; [|split; [|split]]]].
  - rewrite W. unfold Rt.run, PopupInput.handleConditionalToggle.
    cbn [snd PopupInput.toggleStep].
    unfold PopupInput.toggleSettle, PopupInput.toggleWrite.
    unfold Rt.message_success, Rt.message_error, Rt.console_error,
      Rt.bind, Rt.modify, Rt.try_catch, Rt.invoke, Rt.effect.
    cbn [Rt.st Rt.tr fst snd]. fold save.
    destruct (Host.invoke host t save) as [[]|e]; reflexivity.
  - now rewrite W.
  - exact Fw.
  - now rewrite R.
  - subst out. rewrite R. cbn [snd].
    destruct saved as [u|e]; reflexivity.
  - subst found out. rewrite R. cbn [snd Rt.st Rt.tr].
    destruct saved as [u|e]; cbn [PopupInput.toggleStep];
      unfold PopupInput.toggleSettle, Rt.message_success, Rt.message_error,
        Rt.console_error, Rt.bind, Rt.modify, Rt.effect;
      cbn [Rt.st Rt.tr fst snd PopupInput.customPrompts
           PopupInput.set_customPrompts].
    + split; [now rewrite <- !app_assoc|].
      intros Hother. rewrite (B promptId Hother). exact Fw.
    + split; [now rewrite <- !app_assoc|]. split; [|split].
      * rewrite (findPrompt_setStateOfFirst _ (negb value) _ Fq).
        now rewrite (Sq (negb value)).
      * rewrite Htoggle. reflexivity.
      * intros Hb Hset. subst between.
        assert (Ep : prompts
                     = PopupInput.setStateOfFirst promptId value
                         (PopupInput.customPrompts s)).
        { apply (f_equal
                   (fun x => PopupInput.customPrompts (Rt.st (snd x)))) in R.
          symmetry. exact R. }
        rewrite Ep, setStateOfFirst_twice.
        apply setStateOfFirst_same with (p := p); [exact Hfind|].
        unfold PopupInput.isEnabled in Htoggle.
        destruct (CustomPrompt.current_state p); congruence.
Qed.

(** A failed toggle with nothing in between, and a toggle that succeeds
    while another prompt is toggled and fails. *)
Lemma C10_conditional_toggle_witness :
  let other :=
    CustomPrompt.mk "p2" "docs" "" None 1 "" "" (Some conditional)
      (Some "write docs") (Some "Write docs.") (Some "No docs.") None in
  let s :=
    PopupInput.set_customPrompts [Sample.conditionalPrompt (Some false); other]
      (PopupInput.initial None) in
  let failed : Js.Outcome unit := Js.Throw Sample.unavailable in
  (fst (Rt.run (PopupInput.handleConditionalToggle Sample.down "p1" true) s [])
   = Js.Ret tt
   /\ PopupInput.customPrompts
        (Rt.st (snd (Rt.run
                       (PopupInput.handleConditionalToggle Sample.down "p1"
                          true) s [])))
      = PopupInput.customPrompts s)
  /\ PopupInput.findPrompt "p1"
       (PopupInput.customPrompts
          (Rt.st (snd (Rt.for_of
                         [PopupInput.Flipped "p1" true;
                          PopupInput.Flipped "p2" true;
                          PopupInput.Answered "p2" true failed;
                          PopupInput.Answered "p1" true (Js.Ret tt)]
                         PopupInput.toggleStep (Rt.mkWorld s [])))))
     = Some (Sample.conditionalPrompt (Some true)).
Proof.
  intros other s failed. split.
  - pose proof (@C10_conditional_toggle Sample.down s [] "p1" true
                  (Sample.conditionalPrompt (Some false)) [] failed
                  eq_refl eq_refl) as H.
    cbv zeta in H. destruct H as (E & _ & _ & _ & O & _ & _ & _ & K).
    rewrite E. split; [exact O|]. apply K; [reflexivity|discriminate].
  - pose proof (@C10_conditional_toggle Sample.down s [] "p1" true
                  (Sample.conditionalPrompt (Some false))
                  [PopupInput.Flipped "p2" true;
                   PopupInput.Answered "p2" true failed] (Js.Ret tt)
                  eq_refl eq_refl) as H.
    cbv zeta in H. destruct H as (_ & _ & _ & _ & _ & _ & K).
    apply K. repeat constructor; discriminate.
Defined.

(** ** Deleting the entries of a time range *)

Section RangeFacts.

Variable toLowerCase : string -> string.
Variable newDate : string -> option HistoryTab.LocalTime.
Variable toISOString : Z -> string.
Variable sortKeys : list string -> list string.
Variable host : Host.t.

Let loadEntries := HistoryTab.loadEntries toLowerCase newDate sortKeys host.

(** What [loadEntries] does: it asks for the entries first, leaves the
    other refs but for the expanded groups, and never throws. *)
Lemma loadEntries_spec (s : HistoryTab.State) (t : Host.trace) :
  let list := Host.list_mcp_history_entries 500 in
  let r := Host.invoke host t list in
  let out := Rt.run loadEntries s t in
  fst out = Js.Ret tt
  /\ (exists rest, Rt.tr (snd out) = t ++ Host.EInvoke list r :: rest)
  /\ HistoryTab.loading (Rt.st (snd out)) = false
  /\ HistoryTab.selectedId (Rt.st (snd out)) = HistoryTab.selectedId s
  /\ HistoryTab.selectedDetail (Rt.st (snd out))
     = HistoryTab.selectedDetail s
  /\ HistoryTab.entries (Rt.st (snd out))
     = match r with
       | Js.Ret (Some l) => l
       | Js.Ret None => []
       | Js.Throw _ => HistoryTab.entries s
       end.
Proof.
  intros list r out. subst out r list loadEntries.
  unfold Rt.run, HistoryTab.loadEntries, HistoryTab.ensureDefaultExpandedGroups.
  unfold Rt.bind, Rt.modify, Rt.try_finally, Rt.try_catch, Rt.invoke, Rt.get,
    Rt.query, Rt.console_error, Rt.message_error, Rt.effect. simpl.
  destruct (Host.invoke host t (Host.list_mcp_history_entries 500))
    as [l|e]; simpl.
  - repeat match goal with
           | |- context [if ?b then _ else _] => destruct b; simpl
           | |- context [match ?x with [] => _ | _ :: _ => _ end] =>
               destruct x; simpl
           end;
      (split; [reflexivity|]);
      (split; [rewrite <- ?app_assoc; simpl; eexists; reflexivity|]);
      repeat split; destruct l; reflexivity.
  - destruct (_ && _); simpl;
      (split; [reflexivity|]);
      (split; [rewrite <- ?app_assoc; simpl; eexists; reflexivity|]);
      repeat split.
Qed.

End RangeFacts.

(** C6: when no range is selected, or an endpoint of it is missing, the
    handler shows a warning and does nothing else: no command is invoked
    and the refs are the same.  When both endpoints are there and the
    backend answers the number of deleted entries, the handler shows it,
    clears the selection and the detail, and loads the entries again. *)
Theorem C6_delete_range
  (toLowerCase : string -> string)
  (newDate : string -> option HistoryTab.LocalTime)
  (toISOString : Z -> string)
  (sortKeys : list string -> list string)
  (host : Host.t) (s : HistoryTab.State) (t : Host.trace) :
  let out :=
    Rt.run
      (HistoryTab.deleteRange toLowerCase newDate toISOString sortKeys host)
      s t in
  ((HistoryTab.range s = None
    \/ exists a b,
        HistoryTab.range s = Some (a, b) /\ (a = 0%Z \/ b = 0%Z)) ->
   out
   = (Js.Ret tt,
      Rt.mkWorld s
        (t ++ [Host.EMessage Host.warning "请先选择开始时间和结束时间"])))
  /\ (forall a b n,
         HistoryTab.range s = Some (a, b) ->
         a <> 0%Z -> b <> 0%Z ->
         toISOString a <> "" -> toISOString b <> "" ->
         let del :=
           Host.delete_mcp_history_by_time_range
             (toISOString a) (toISOString b) in
         Host.invoke host t del = Js.Ret n ->
         let t1 :=
           t ++ [Host.EInvoke del (Js.Ret n);
                 Host.EMessage Host.success
                   ("已删除 " ++ Js.String_of_Z n ++ " 条")%string] in
         let list := Host.list_mcp_history_entries 500 in
         let r := Host.invoke host t1 list in
         fst out = Js.Ret tt
         /\ (exists rest,
                Rt.tr (snd out) = t1 ++ Host.EInvoke list r :: rest)
         /\ HistoryTab.selectedId (Rt.st (snd out)) = ""
         /\ HistoryTab.selectedDetail (Rt.st (snd out)) = None
         /\ HistoryTab.entries (Rt.st (snd out))
            = match r with
              | Js.Ret (Some l) => l
              | Js.Ret None => []
              | Js.Throw _ => HistoryTab.entries s
              end).
Proof.
  intros out.
  assert (Eout : out
                 = Rt.run
                     (HistoryTab.deleteRange toLowerCase newDate toISOString
                        sortKeys host) s t) by reflexivity.
  clearbody out. split.
  - intros H. rewrite Eout.
    unfold Rt.run, HistoryTab.deleteRange, HistoryTab.getRangeIso.
    unfold Rt.bind, Rt.get, Rt.message_warning, Rt.effect. simpl.
    destruct H as [E|(a & b & E & Hz)]; rewrite E; simpl; [reflexivity|].
    destruct Hz as [-> | ->]; simpl; [reflexivity|].
    rewrite orb_true_r. reflexivity.
  - intros a b n E Ha Hb Hia Hib del Hdel t1 list r.
    unfold Rt.run, HistoryTab.deleteRange, HistoryTab.getRangeIso in Eout.
    unfold Rt.bind at 1 in Eout. unfold Rt.get at 1 in Eout.
    simpl in Eout. rewrite E in Eout.
    apply Z.eqb_neq in Ha, Hb. rewrite Ha, Hb in Eout. simpl in Eout.
    assert (Ta : Js.truthy (toISOString a) = true)
      by (destruct (toISOString a); [congruence|reflexivity]).
    assert (Tb : Js.truthy (toISOString b) = true)
      by (destruct (toISOString b); [congruence|reflexivity]).
    rewrite Ta, Tb in Eout. simpl in Eout.
    unfold Rt.try_catch, Rt.bind, Rt.invoke, Rt.message_success, Rt.modify,
      Rt.effect in Eout. simpl in Eout.
    fold del in Eout. rewrite Hdel in Eout.
    pose proof (loadEntries_spec toLowerCase newDate sortKeys host
                  (HistoryTab.set_selectedDetail None
                     (HistoryTab.set_selectedId "" s))
                  ((t ++ [Host.EInvoke del (Js.Ret n)])
                     ++ [Host.EMessage Host.success
                           ("已删除 " ++ Js.String_of_Z n ++ " 条")%string]))
      as L.
    cbv zeta in L. unfold Rt.run in L.
    assert (ET : t1
                 = (t ++ [Host.EInvoke del (Js.Ret n)])
                     ++ [Host.EMessage Host.success
                           ("已删除 " ++ Js.String_of_Z n ++ " 条")%string])
      by (unfold t1; now rewrite <- app_assoc).
    subst r list. clearbody t1. subst t1.
    destruct L as (L1 & L2 & _ & L4 & L5 & L6).
    destruct (HistoryTab.loadEntries toLowerCase newDate sortKeys host _)
      as [o w].
    cbn [fst snd] in L1, L2, L4, L5, L6. subst o.
    rewrite Eout. cbn [fst snd].
    repeat split; assumption.
Qed.

Lemma C6_delete_range_witness :
  let deleteRange :=
    HistoryTab.deleteRange Sample.toLowerCase Sample.newDate
      Sample.toISOString Sample.sortKeys Sample.up in
  let s0 := HistoryTab.set_selectedId "e0" HistoryTab.initial in
  let s1 := HistoryTab.set_range (Some (1000, 2000)%Z) s0 in
  Rt.run deleteRange s0 []
  = (Js.Ret tt,
     Rt.mkWorld s0 [Host.EMessage Host.warning "请先选择开始时间和结束时间"])
  /\ HistoryTab.selectedId (Rt.st (snd (Rt.run deleteRange s1 []))) = ""
  /\ HistoryTab.entries (Rt.st (snd (Rt.run deleteRange s1 [])))
     = [Sample.entry].
Proof.
  intros deleteRange s0 s1. split.
  - apply (proj1 (C6_delete_range Sample.toLowerCase Sample.newDate
                    Sample.toISOString Sample.sortKeys Sample.up s0 [])).
    left. reflexivity.
  - pose proof (proj2 (C6_delete_range Sample.toLowerCase Sample.newDate
                         Sample.toISOString Sample.sortKeys Sample.up s1 [])
                  1000%Z 2000%Z 3%Z) as H.
    cbv zeta in H.
    destruct H as (_ & _ & H3 & _ & H5);
      try reflexivity; try discriminate.
    split; [exact H3|exact H5].
Defined.

(** ** Errors of the backend *)

Ltac safe_step :=
  first
    [ apply Hoare.safe_ret
    | apply Hoare.safe_get
    | apply Hoare.safe_modify
    | apply Hoare.safe_effect
    | apply Hoare.safe_query
    | apply Hoare.safe_void
    | apply Hoare.safe_attempt
    | apply Hoare.safe_try_catch; intros
    | apply Hoare.safe_try_finally
    | apply Hoare.safe_when
    | apply Hoare.safe_for_of; intros
    | apply Hoare.safe_bind; [|intros]
    | match goal with
      | |- Hoare.safe (if ?b then _ else _) => destruct b
      | |- Hoare.safe (match ?x with _ => _ end) => destruct x
      | |- Hoare.safe (let (_, _) := ?x in _) => destruct x
      end ].

Ltac safe_tac :=
  unfold Rt.message_success, Rt.message_warning, Rt.message_error,
    Rt.console_log, Rt.console_debug, Rt.console_error;
  repeat safe_step.

Section SafeHandlers.

Variable toLowerCase : string -> string.
Variable newDate : string -> option HistoryTab.LocalTime.
Variable toISOString : Z -> string.
Variable sortKeys : list string -> list string.
Variable host : Host.t.

Lemma safe_ensureDefaultExpandedGroups :
  Hoare.safe
    (HistoryTab.ensureDefaultExpandedGroups toLowerCase newDate sortKeys host).
Proof. unfold HistoryTab.ensureDefaultExpandedGroups. safe_tac. Qed.















End SafeHandlers.

(** ** The ingredients of the input *)

Module Invariants.

Import Js Host Rt Hoare.

(** The spice ids of the ingredients of the input. *)
Definition ids (s : PopupInput.State) : list string :=
  map CachedIngredientItem.spiceId (PopupInput.ingredients s).

Definition nonempty (id : string) : Prop := truthy id = true.

(** The responses of the three actions of the popup: that of a submit that
    went on, from refs where every spice id is not empty; that of continue;
    that of enhance. *)
Definition responseShape (r : DishResponse.t) : Prop :=
  exists (s : McpPopup.State) (cooked_at : string),
    (r = McpPopup.submitDraft s cooked_at
     /\ McpPopup.canSubmit s = true
     /\ Forall nonempty (McpPopup.spiceIds s))
    \/ r = McpPopup.continueResponse s cooked_at
    \/ r = McpPopup.enhanceResponse s cooked_at.

Definition sentResponse {R} (c : Command R) : option DishResponse.t :=
  match c with
  | send_mcp_response r => Some r
  | _ => None
  end.

(** What holds of every effect of the popup: an update carries spice ids
    that satisfy [P], a response satisfies [Q]. *)
Definition good (P : string -> Prop) (Q : DishResponse.t -> Prop)
  (e : Effect) : Prop :=
  match e with
  | EEmitUpdate _ _ l => Forall P l
  | EEmitResponse r => Q r
  | EInvoke c _ =>
      match sentResponse c with
      | Some r => Q r
      | None => True
      end
  | _ => True
  end.

Lemma good_trivial (e : Effect) : good (fun _ => True) (fun _ => True) e.
Proof.
  destruct e as [R c r| | | | | | | | | |]; simpl; trivial.
  - destruct (sentResponse c); trivial.
  - induction spiceIds; constructor; trivial.
Qed.

(** The invariant of the input: the spice ids are distinct and satisfy
    [P], and the ingredients extend the list [L0]. *)
Definition Inv (P : string -> Prop) (L0 : list CachedIngredientItem.t)
  (s : PopupInput.State) : Prop :=
  NoDup (ids s)
  /\ Forall P (ids s)
  /\ exists added, PopupInput.ingredients s = L0 ++ added.

Lemma NoDup_snoc {A} (l : list A) (a : A) :
  NoDup l -> ~ In a l -> NoDup (l ++ [a]).
Proof.
  induction l as [|x l IH]; simpl; intros Hnd Hin.
  - constructor; [intros []|constructor].
  - inversion Hnd as [|? ? Hx Hl]; subst. constructor.
    + rewrite in_app_iff. simpl. intros [H|[H|[]]]; [now apply Hx|].
      apply Hin. now left.
    + apply IH; [exact Hl|]. intros H. apply Hin. now right.
Qed.

Lemma hasSpice_false (s : PopupInput.State) (id : string) :
  PopupInput.hasSpice s id = false -> ~ In id (ids s).
Proof.
  unfold PopupInput.hasSpice, ids.
  induction (PopupInput.ingredients s) as [|b l IH]; simpl; [tauto|].
  destruct (String.eqb_spec (CachedIngredientItem.spiceId b) id) as [E|N];
    simpl; [discriminate|].
  intros H [E|Hin]; [contradiction|now apply IH].
Qed.

Lemma removeAt_map {A B} (f : A -> B) (i : nat) (l : list A) :
  map f (PopupInput.removeAt i l) = PopupInput.removeAt i (map f l).
Proof.
  revert i. induction l as [|x l IH]; intros [|i]; simpl;
    try reflexivity. now rewrite IH.
Qed.

Lemma removeAt_incl {A} (i : nat) (l : list A) (a : A) :
  In a (PopupInput.removeAt i l) -> In a l.
Proof.
  revert i. induction l as [|x l IH]; intros [|i]; simpl; auto.
  intros [H|H]; [now left|right; now apply (IH i)].
Qed.

Lemma removeAt_NoDup {A} (i : nat) (l : list A) :
  NoDup l -> NoDup (PopupInput.removeAt i l).
Proof.
  revert i. induction l as [|x l IH]; intros [|i] H; simpl;
    try exact H; inversion H as [|? ? Hx Hl]; subst; [exact Hl|].
  constructor; [|now apply IH].
  intros Hin. apply Hx. now apply removeAt_incl in Hin.
Qed.

Lemma removeAt_Forall {A} (P : A -> Prop) (i : nat) (l : list A) :
  Forall P l -> Forall P (PopupInput.removeAt i l).
Proof.
  rewrite !Forall_forall. intros H a Hin. apply H.
  now apply removeAt_incl in Hin.
Qed.

(** One step of a proof that a handler keeps an invariant: a rule of the
    logic, a lemma on a part of the handler ([site]), or a case analysis on
    what the handler tests. *)
Ltac keeps_step site :=
  first
    [ solve [auto with keeps]
    | site
    | lazymatch goal with
      | |- Hoare.keeps _ _ (Rt.ret _) => apply Hoare.keeps_ret
      | |- Hoare.keeps _ _ (Rt.throw _) => apply Hoare.keeps_throw
      | |- Hoare.keeps _ _ Rt.get => apply Hoare.keeps_get
      | |- Hoare.keeps _ _ (Rt.modify _) =>
          apply Hoare.keeps_modify; solve [intros ? ?; assumption]
      | |- Hoare.keeps _ _ (Rt.effect _) =>
          apply Hoare.keeps_effect; solve [simpl; trivial]
      | |- Hoare.keeps _ _ (Rt.invoke _ _) =>
          apply Hoare.keeps_invoke; solve [intros; simpl; trivial]
      | |- Hoare.keeps _ _ (Rt.web _ _) =>
          apply Hoare.keeps_web; solve [intros; simpl; trivial]
      | |- Hoare.keeps _ _ (Rt.query _ _) =>
          apply Hoare.keeps_query; solve [intros; simpl; trivial]
      | |- Hoare.keeps _ _ (Rt.attempt _) => apply Hoare.keeps_attempt
      | |- Hoare.keeps _ _ (Rt.void _) =>
          apply Hoare.keeps_void; [solve [intros; simpl; trivial]|]
      | |- Hoare.keeps _ _ (Rt.when _ _) => apply Hoare.keeps_when
      | |- Hoare.keeps _ _ (Rt.try_catch _ _) =>
          apply Hoare.keeps_try_catch; [|intros]
      | |- Hoare.keeps _ _ (Rt.try_finally _ _) =>
          apply Hoare.keeps_try_finally
      | |- Hoare.keeps _ _ (Rt.for_of _ _) =>
          apply Hoare.keeps_for_of; intros
      | |- Hoare.keeps _ _ (Rt.bind _ _) =>
          apply Hoare.keeps_bind; [|intros]
      | |- Hoare.keeps _ _ (if ?b then _ else _) => destruct b eqn:?
      | |- Hoare.keeps _ _ (match ?x with _ => _ end) => destruct x eqn:?
      | |- Hoare.keeps _ _ (let _ := _ in _) => cbv zeta
      end ].

Ltac keeps_with site :=
  unfold Rt.message_success, Rt.message_warning, Rt.message_error,
    Rt.console_log, Rt.console_debug, Rt.console_error;
  repeat keeps_step site.

Ltac keeps_tac := keeps_with fail.

Create HintDb keeps.

Section Input.

Variable P : string -> Prop.
Variable Q : DishResponse.t -> Prop.
Hypothesis P_nonempty : forall id, truthy id = true -> P id.

Variable toLowerCase : string -> string.
Variable host : Host.t.

Local Abbreviation keeps L0 := (Hoare.keeps (Inv P L0) (good P Q)).
Local Abbreviation keepsAt L0 := (Hoare.keepsAt (Inv P L0) (good P Q)).

Lemma Inv_push (L0 : list CachedIngredientItem.t) (s : PopupInput.State)
  (id url : string) :
  Inv P L0 s -> PopupInput.hasSpice s id = false -> P id ->
  Inv P L0 (PopupInput.pushIngredient id url s).
Proof.
  intros (Hnd & Hp & added & Hadd) Hno Hid.
  unfold Inv, ids, PopupInput.pushIngredient. simpl.
  rewrite map_app. simpl. split; [|split].
  - apply NoDup_snoc; [exact Hnd|now apply hasSpice_false].
  - apply Forall_app. split; [exact Hp|]. now constructor.
  - exists (added ++ [CachedIngredientItem.mk id url]).
    rewrite Hadd. now rewrite app_assoc.
Qed.

Lemma keeps_emitUpdate L0 : keeps L0 PopupInput.emitUpdate.
Proof.
  intros w [Hi Hg]. unfold PopupInput.emitUpdate, bind, get, effect. simpl.
  split; [exact Hi|]. apply Forall_app. split; [exact Hg|].
  constructor; [|constructor]. simpl. apply Hi.
Qed.

(** The guarded push that the three add paths share. *)
Lemma keepsAt_push L0 (s0 : PopupInput.State) (id : string) {A}
  (type : string) (data : bytes) (k : string -> M PopupInput.State A) :
  PopupInput.hasSpice s0 id = false -> P id ->
  (forall url, keeps L0 (k url)) ->
  keepsAt L0 s0
    (bind (query host (URL_createObjectURL type data))
       (fun url =>
          bind (modify (PopupInput.pushIngredient id url))
            (fun _ => k url))).
Proof.
  intros Hno Hid Hk.
  apply keepsAt_bind_query; [intros; constructor|].
  intros url. apply keepsAt_bind_modify; [|intros; apply Hk].
  intros Hi. now apply Inv_push.
Qed.

#[local] Hint Resolve keeps_emitUpdate : keeps.

Lemma keeps_readItemTypes L0 pairs files :
  keeps L0 (PopupInput.readItemTypes toLowerCase host pairs files).
Proof.
  revert files. induction pairs as [|[item type] rest IH]; intros files;
    simpl; keeps_tac; apply IH.
Qed.

Lemma keeps_readIngredientsFromNavigatorClipboard L0 :
  keeps L0 (PopupInput.readIngredientsFromNavigatorClipboard toLowerCase host).
Proof.
  unfold PopupInput.readIngredientsFromNavigatorClipboard. keeps_tac.
  apply keeps_readItemTypes.
Qed.

Lemma missing_false (x : option string) :
  PopupInput.missing x = false -> truthy (PopupInput.orEmpty x) = true.
Proof.
  destruct x as [s|]; simpl; [|discriminate].
  destruct (truthy s); [reflexivity|discriminate].
Qed.

Lemma truthy_of_negb (id : string) :
  negb (truthy id) = false -> truthy id = true.
Proof. now destruct (truthy id). Qed.

(** The test and the push that the three add paths share. *)
Lemma keeps_guarded_push L0 (id type : string) (data : bytes) {A}
  (k1 : M PopupInput.State A) (k2 : string -> M PopupInput.State A) :
  P id ->
  keeps L0 k1 ->
  (forall url, keeps L0 (k2 url)) ->
  keeps L0
    (bind get
       (fun s =>
          if PopupInput.hasSpice s id then k1
          else
            bind (query host (URL_createObjectURL type data))
              (fun url =>
                 bind (modify (PopupInput.pushIngredient id url))
                   (fun _ => k2 url)))).
Proof.
  intros Hid H1 H2. apply keeps_bind_get. intros s0.
  destruct (PopupInput.hasSpice s0 id) eqn:Hs.
  - now apply keepsAt_weaken.
  - now apply keepsAt_push.
Qed.

Ltac push_site :=
  apply keeps_guarded_push;
  [ apply P_nonempty;
    first [ assumption
          | apply truthy_of_negb; assumption
          | apply missing_false; assumption ]
  | | intros ].

Lemma keeps_addBlocks L0 blocks count :
  keeps L0 (PopupInput.addBlocks host blocks count).
Proof.
  revert count. induction blocks as [|block rest IH]; intros count; simpl.
  - apply keeps_ret.
  - destruct (block_bytes block) as [data|]; [|apply IH].
    destruct (PopupInput.missing (block_spice_id block)
              || PopupInput.missing (block_dish_type block)) eqn:E;
      [apply IH|].
    apply orb_false_elim in E. destruct E as [E1 E2].
    push_site; apply IH.
Qed.

#[local] Hint Resolve keeps_addBlocks keeps_readItemTypes
  keeps_readIngredientsFromNavigatorClipboard : keeps.

Lemma keeps_addIngredientsFromRustClipboard L0 silent :
  keeps L0 (PopupInput.addIngredientsFromRustClipboard host silent).
Proof.
  unfold PopupInput.addIngredientsFromRustClipboard. keeps_tac.
Qed.

Lemma keeps_handleIngredientFiles L0 files :
  keeps L0 (PopupInput.handleIngredientFiles host files).
Proof.
  unfold PopupInput.handleIngredientFiles. keeps_with push_site.
Qed.

Lemma keeps_addDataUrls L0 dataUrls count :
  keeps L0 (PopupInput.addDataUrls toLowerCase host dataUrls count).
Proof.
  revert count. induction dataUrls as [|dataUrl rest IH]; intros count;
    simpl; keeps_with push_site; apply IH.
Qed.

#[local] Hint Resolve keeps_addIngredientsFromRustClipboard
  keeps_handleIngredientFiles keeps_addDataUrls : keeps.

Lemma keeps_handleIngredientPaste L0 event :
  keeps L0 (PopupInput.handleIngredientPaste toLowerCase host event).
Proof.
  unfold PopupInput.handleIngredientPaste. keeps_tac.
Qed.

#[local] Hint Resolve keeps_handleIngredientPaste : keeps.

Lemma keeps_inputNote L0 text : keeps L0 (PopupInput.inputNote text).
Proof. unfold PopupInput.inputNote, PopupInput.watchNote. keeps_tac. Qed.

Lemma keeps_handleOptionChange L0 option checked :
  keeps L0 (PopupInput.handleOptionChange option checked).
Proof. unfold PopupInput.handleOptionChange. keeps_tac. Qed.

Lemma keeps_handleOptionToggle L0 option :
  keeps L0 (PopupInput.handleOptionToggle option).
Proof. unfold PopupInput.handleOptionToggle. keeps_tac. Qed.

Lemma keeps_documentPasteListener L0 focused event :
  keeps L0 (PopupInput.documentPasteListener toLowerCase host focused event).
Proof. unfold PopupInput.documentPasteListener. keeps_tac. Qed.

Lemma keeps_releaseIngredient L0 b :
  keeps L0 (PopupInput.releaseIngredient host b).
Proof. unfold PopupInput.releaseIngredient. keeps_tac. Qed.

#[local] Hint Resolve keeps_releaseIngredient : keeps.

Lemma keeps_loadCustomPrompts L0 :
  keeps L0 (PopupInput.loadCustomPrompts host).
Proof. unfold PopupInput.loadCustomPrompts. keeps_tac. Qed.

#[local] Hint Resolve keeps_loadCustomPrompts : keeps.

Lemma keeps_savePromptOrder L0 : keeps L0 (PopupInput.savePromptOrder host).
Proof. unfold PopupInput.savePromptOrder. keeps_tac. Qed.

#[local] Hint Resolve keeps_savePromptOrder : keeps.

Lemma keeps_onEnd L0 oldIndex newIndex :
  keeps L0 (PopupInput.onEnd host oldIndex newIndex).
Proof. unfold PopupInput.onEnd. keeps_tac. Qed.

Lemma keeps_insertPromptContent L0 content mode :
  keeps L0 (PopupInput.insertPromptContent content mode).
Proof. unfold PopupInput.insertPromptContent. keeps_tac. Qed.

#[local] Hint Resolve keeps_insertPromptContent : keeps.

Lemma keeps_handlePromptClick L0 prompt :
  keeps L0 (PopupInput.handlePromptClick prompt).
Proof. unfold PopupInput.handlePromptClick. keeps_tac. Qed.

Lemma keeps_handleQuoteMessage L0 messageContent :
  keeps L0 (PopupInput.handleQuoteMessage messageContent).
Proof. unfold PopupInput.handleQuoteMessage. keeps_tac. Qed.

Lemma keeps_handleInsertMode L0 mode :
  keeps L0 (PopupInput.handleInsertMode mode).
Proof. unfold PopupInput.handleInsertMode. keeps_tac. Qed.

Lemma keeps_handleConditionalToggle L0 promptId value :
  keeps L0 (PopupInput.handleConditionalToggle host promptId value).
Proof. unfold PopupInput.handleConditionalToggle. keeps_tac. Qed.

Lemma keeps_updateData L0 dnote dtoppings dspiceIds :
  keeps L0 (PopupInput.updateData dnote dtoppings dspiceIds).
Proof. unfold PopupInput.updateData. keeps_tac. Qed.

Lemma keeps_onMounted L0 : keeps L0 (PopupInput.onMounted host).
Proof. unfold PopupInput.onMounted. keeps_tac. Qed.

Lemma keeps_onUnmounted L0 : keeps L0 (PopupInput.onUnmounted host).
Proof. unfold PopupInput.onUnmounted. keeps_tac. Qed.

(** Removing and clearing keep the ids distinct; the ingredients no longer
    extend a given list. *)
Lemma keeps_removeIngredient index :
  keeps [] (PopupInput.removeIngredient host index).
Proof.
  unfold PopupInput.removeIngredient.
  apply keeps_bind_get. intros s0.
  apply keepsAt_bind_modify; [|intros; keeps_tac].
  intros (Hnd & Hp & _). unfold Inv, ids. simpl. rewrite removeAt_map.
  split; [now apply removeAt_NoDup|].
  split; [now apply removeAt_Forall|].
  eexists. reflexivity.
Qed.

Lemma keeps_reset : keeps [] (PopupInput.reset host).
Proof.
  unfold PopupInput.reset. keeps_tac.
  apply keeps_modify. intros s _. unfold Inv, ids. simpl.
  split; [constructor|]. split; [constructor|]. now exists [].
Qed.

End Input.

(** *** The popup with its input *)

Section Popup.

Variable toLowerCase : string -> string.
Variable host : Host.t.

Definition InputInv : PopupInput.State -> Prop := Inv nonempty [].

(** The invariant of the popup: its spice ids are not empty, and the
    mounted input has its invariant. *)
Definition PopupInv (s : McpPopup.State) : Prop :=
  Forall nonempty (McpPopup.spiceIds s)
  /\ match McpPopup.inputRef s with
     | Some i => InputInv i
     | None => True
     end.

Local Abbreviation G := (good nonempty responseShape).

Lemma nonempty_id (id : string) : truthy id = true -> nonempty id.
Proof. exact (fun H => H). Qed.

Lemma deliver_inv (new : list Effect) (s : McpPopup.State) :
  Forall G new -> PopupInv s -> PopupInv (McpPopup.deliver new s).
Proof.
  unfold McpPopup.deliver. revert s.
  induction new as [|e new IH]; intros s Hg Hs; simpl; [exact Hs|].
  inversion Hg as [|? ? He Hnew]; subst.
  apply IH; [exact Hnew|].
  destruct e; try exact Hs.
  destruct Hs as [_ Hi]. split; [exact He|exact Hi].
Qed.

Lemma Forall_skipn' {A} (Q : A -> Prop) (n : nat) (l : list A) :
  Forall Q l -> Forall Q (skipn n l).
Proof.
  revert l. induction n as [|n IH]; intros [|x l] H; simpl; auto.
  inversion H; subst. now apply IH.
Qed.

Lemma keeps_withInput (m : M PopupInput.State unit) :
  Hoare.keeps InputInv G m -> Hoare.keeps PopupInv G (McpPopup.withInput m).
Proof.
  intros Hm w [[Hids Hin] Hg]. unfold McpPopup.withInput.
  destruct (McpPopup.inputRef (st w)) as [i|] eqn:E.
  - specialize (Hm (mkWorld i (tr w)) (conj Hin Hg)).
    destruct (m (mkWorld i (tr w))) as [r wi]. simpl in *.
    destruct Hm as [Hi' Hg']. split; simpl; [|exact Hg'].
    apply deliver_inv; [now apply Forall_skipn'|].
    split; simpl; [exact Hids|exact Hi'].
  - simpl. split; [|exact Hg]. split; [exact Hids|]. now rewrite E.
Qed.

Lemma keeps_bind_get_inv {S A} (I : S -> Prop) (G' : Effect -> Prop)
  (k : S -> M S A) :
  (forall s0, I s0 -> Hoare.keeps I G' (k s0)) ->
  Hoare.keeps I G' (bind get k).
Proof.
  intros H w Hw. unfold bind, get. simpl. apply H; [apply Hw|exact Hw].
Qed.

Lemma length_truthy (x : string) : (0 <? String.length x) = truthy x.
Proof. destruct x; reflexivity. Qed.

Lemma filter_nonempty (l : list string) :
  Forall nonempty l -> filter (fun t => 0 <? String.length t) l = l.
Proof.
  induction 1 as [|x l Hx Hl IH]; simpl; [reflexivity|].
  rewrite length_truthy, Hx. now rewrite IH.
Qed.

(** A submit that goes on has something to send. *)
Lemma submit_has_content (s : McpPopup.State) (cooked_at : string) :
  McpPopup.canSubmit s = true ->
  Forall nonempty (McpPopup.spiceIds s) ->
  McpPopup.nothingToSend (McpPopup.submitDraft s cooked_at) = false.
Proof.
  intros Hcan Hids.
  unfold McpPopup.nothingToSend, McpPopup.submitDraft.
  cbn [DishResponse.note DishResponse.toppings DishResponse.ingredients].
  rewrite (filter_nonempty Hids), length_map.
  unfold McpPopup.canSubmit in Hcan. rewrite length_truthy in Hcan.
  destruct (truthy (trim (McpPopup.note s))) eqn:En;
    cbn [PopupInput.missing]; [now rewrite En|].
  cbn [truthy negb andb].
  destruct (McpPopup.hasOptions s); cbn [orb] in Hcan.
  - destruct (McpPopup.toppings s); cbn [length] in *; [|reflexivity].
    destruct (McpPopup.spiceIds s); cbn [length] in *; [discriminate|].
    reflexivity.
  - destruct (McpPopup.spiceIds s); cbn [length] in *; [discriminate|].
    apply andb_false_r.
Qed.

Lemma keeps_send (response : DishResponse.t) (mockText : string) :
  responseShape response ->
  Hoare.keeps PopupInv G (McpPopup.send host response mockText).
Proof. intros H. unfold McpPopup.send. keeps_tac. Qed.

Lemma keeps_handleSubmit : Hoare.keeps PopupInv G (McpPopup.handleSubmit host).
Proof.
  unfold McpPopup.handleSubmit. apply keeps_bind_get_inv.
  intros s0 [Hids _].
  destruct (negb (McpPopup.canSubmit s0) || McpPopup.submitting s0) eqn:E;
    [apply keeps_ret|].
  apply orb_false_elim in E. destruct E as [E _].
  apply negb_false_iff in E.
  keeps_with ltac:(apply keeps_send).
  unfold McpPopup.submitResponse. rewrite (@submit_has_content _ _ E Hids).
  exists s0. eexists. left. repeat split; assumption.
Qed.

Lemma keeps_handleContinue :
  Hoare.keeps PopupInv G (McpPopup.handleContinue host).
Proof.
  unfold McpPopup.handleContinue. keeps_with ltac:(apply keeps_send).
  eexists. eexists. right. left. reflexivity.
Qed.

Lemma keeps_handleEnhance :
  Hoare.keeps PopupInv G (McpPopup.handleEnhance host).
Proof.
  unfold McpPopup.handleEnhance. keeps_with ltac:(apply keeps_send).
  eexists. eexists. right. right. reflexivity.
Qed.

Lemma keeps_loadReplyConfig :
  Hoare.keeps PopupInv G (McpPopup.loadReplyConfig host).
Proof. unfold McpPopup.loadReplyConfig. keeps_tac. Qed.

Lemma keeps_input (m : M PopupInput.State unit) :
  Hoare.keeps InputInv G m -> Hoare.keeps PopupInv G (McpPopup.withInput m).
Proof. apply keeps_withInput. Qed.

Ltac input_site :=
  apply keeps_input;
  first
    [ apply keeps_updateData
    | apply keeps_reset
    | apply keeps_handleQuoteMessage
    | apply keeps_onMounted
    | apply keeps_onUnmounted ];
  exact nonempty_id.

#[local] Hint Resolve keeps_handleSubmit keeps_handleContinue
  keeps_handleEnhance keeps_loadReplyConfig : keeps.

Lemma keeps_handleOptionToggle_popup option :
  Hoare.keeps PopupInv G (McpPopup.handleOptionToggle option).
Proof. unfold McpPopup.handleOptionToggle. keeps_with input_site. Qed.

Lemma keeps_handleTextUpdate text :
  Hoare.keeps PopupInv G (McpPopup.handleTextUpdate text).
Proof. unfold McpPopup.handleTextUpdate. keeps_with input_site. Qed.

Lemma keeps_resetForm : Hoare.keeps PopupInv G (McpPopup.resetForm host).
Proof.
  unfold McpPopup.resetForm. keeps_with input_site.
  apply keeps_modify. intros s [_ Hi]. split; [constructor|exact Hi].
Qed.

Lemma keeps_handleQuoteMessage_popup messageContent :
  Hoare.keeps PopupInv G (McpPopup.handleQuoteMessage messageContent).
Proof. unfold McpPopup.handleQuoteMessage. keeps_with input_site. Qed.

#[local] Hint Resolve keeps_handleOptionToggle_popup keeps_handleTextUpdate
  keeps_resetForm keeps_handleQuoteMessage_popup : keeps.

Lemma keeps_handleTelegramEvent event :
  Hoare.keeps PopupInv G (McpPopup.handleTelegramEvent host event).
Proof. unfold McpPopup.handleTelegramEvent. keeps_tac. Qed.

Lemma keeps_watchRequest newRequest :
  Hoare.keeps PopupInv G (McpPopup.watchRequest host newRequest).
Proof. unfold McpPopup.watchRequest. keeps_tac. Qed.

#[local] Hint Resolve keeps_handleTelegramEvent keeps_watchRequest : keeps.

Lemma keeps_setRequest newRequest :
  Hoare.keeps PopupInv G (McpPopup.setRequest host newRequest).
Proof.
  unfold McpPopup.setRequest.
  apply keeps_bind; [keeps_tac|intros _].
  apply keeps_bind.
  { apply keeps_modify. intros s [Hids Hi]. split; [exact Hids|]. simpl.
    destruct (McpPopup.inputRef s); simpl; exact Hi. }
  intros _. keeps_with input_site.
  - apply keeps_modify. intros ? [Hids _]. split; [exact Hids|]. simpl.
    unfold InputInv, Inv, ids. simpl.
    split; [constructor|]. split; [constructor|]. now exists [].
  - apply keeps_modify. intros ? [Hids _]. split; [exact Hids|exact I].
Qed.

Lemma keeps_handler (e : McpPopup.Event) :
  Hoare.keeps PopupInv G (McpPopup.handler toLowerCase host e).
Proof.
  unfold McpPopup.handler.
  destruct e; simpl;
    try (apply keeps_input;
         first
           [ apply keeps_inputNote
           | apply keeps_emitUpdate
           | apply keeps_handleOptionChange
           | apply keeps_handleOptionToggle
           | apply keeps_handleIngredientPaste
           | apply keeps_documentPasteListener
           | apply keeps_removeIngredient
           | apply keeps_handlePromptClick
           | apply keeps_handleInsertMode
           | apply keeps_handleConditionalToggle
           | apply keeps_onEnd
           | apply keeps_loadCustomPrompts ];
         exact nonempty_id);
    try solve [auto with keeps];
    try apply keeps_setRequest;
    unfold McpPopup.watchReply, McpPopup.loadingTimeout, McpPopup.onMounted;
    keeps_tac.
Qed.

(** The invariant holds after every sequence of events. *)
Lemma after_inv (mock : bool) (events : list McpPopup.Event) :
  Hoare.winv PopupInv G (McpPopup.after toLowerCase host mock events).
Proof.
  unfold McpPopup.after.
  apply (@keeps_for_of _ PopupInv G _ events
           (McpPopup.handle toLowerCase host)).
  - intros e. unfold McpPopup.handle.
    apply keeps_void; [intros; exact I|apply keeps_handler].
  - split; simpl; [|constructor]. split; [constructor|exact I].
Qed.

End Popup.

End Invariants.

Lemma NoDup_app_disjoint {A} (l1 l2 : list A) (x : A) :
  NoDup (l1 ++ l2) -> In x l2 -> ~ In x l1.
Proof.
  induction l1 as [|a l1 IH]; simpl; intros Hnd H2 H1; [exact H1|].
  inversion Hnd as [|? ? Ha Hl]; subst. destruct H1 as [->|H1].
  - apply Ha. apply in_or_app. now right.
  - now apply (IH Hl H2).
Qed.

(** What an add path does to the ingredients [before]: the ids stay
    distinct, and the ingredients are those of before followed by the
    added ones, none of which has an id of before. *)
Definition addsFresh (before after : PopupInput.State) : Prop :=
  NoDup (Invariants.ids after)
  /\ exists added,
      PopupInput.ingredients after = PopupInput.ingredients before ++ added
      /\ forall b,
          In b added ->
          ~ In (CachedIngredientItem.spiceId b) (Invariants.ids before).

Lemma addsFresh_of_keeps {A} (m : Rt.M PopupInput.State A)
  (s : PopupInput.State) (t : Host.trace) :
  Hoare.keeps (Invariants.Inv (fun _ => True) (PopupInput.ingredients s))
    (Invariants.good (fun _ => True) (fun _ => True)) m ->
  NoDup (Invariants.ids s) ->
  addsFresh s (Rt.st (snd (Rt.run m s t))).
Proof.
  intros Hm Hnd. unfold Rt.run.
  destruct (Hm (Rt.mkWorld s t)) as [(Hnd' & _ & added & Hadd) _].
  { split; simpl.
    - split; [exact Hnd|]. split.
      + apply Forall_forall. trivial.
      + exists []. now rewrite app_nil_r.
    - apply Forall_forall. intros e _. apply Invariants.good_trivial. }
  split; [exact Hnd'|]. exists added. split; [exact Hadd|].
  intros b Hb. unfold Invariants.ids in Hnd'. rewrite Hadd, map_app in Hnd'.
  apply (@NoDup_app_disjoint _ _ _ _ Hnd'). now apply in_map.
Qed.

Lemma distinct_of_keeps {A} (m : Rt.M PopupInput.State A)
  (s : PopupInput.State) (t : Host.trace) :
  Hoare.keeps (Invariants.Inv (fun _ => True) [])
    (Invariants.good (fun _ => True) (fun _ => True)) m ->
  NoDup (Invariants.ids s) ->
  NoDup (Invariants.ids (Rt.st (snd (Rt.run m s t)))).
Proof.
  intros Hm Hnd. unfold Rt.run.
  destruct (Hm (Rt.mkWorld s t)) as [(Hnd' & _) _]; [|exact Hnd'].
  split; simpl.
  - split; [exact Hnd|]. split.
    + apply Forall_forall. trivial.
    + now exists (PopupInput.ingredients s).
  - apply Forall_forall. intros e _. apply Invariants.good_trivial.
Qed.

(** C2: each add path, the ingestion of the clipboard of the backend, of
    files, and of the data URLs of a pasted HTML text, and with them the
    paste handler, skips an image whose spice id is in the ingredient list;
    removing and clearing keep the ids distinct; so after any sequence of
    events of the popup the spice ids of the ingredients are pairwise
    distinct. *)
Theorem C2_distinct_spice_ids
  (toLowerCase : string -> string) (host : Host.t) :
  (forall s t,
      NoDup (Invariants.ids s) ->
      (forall silent,
          addsFresh s
            (Rt.st (snd (Rt.run
                           (PopupInput.addIngredientsFromRustClipboard host
                              silent) s t))))
      /\ (forall files,
             addsFresh s
               (Rt.st (snd (Rt.run
                              (PopupInput.handleIngredientFiles host files)
                              s t))))
      /\ (forall dataUrls n,
             addsFresh s
               (Rt.st (snd (Rt.run
                              (PopupInput.addDataUrls toLowerCase host
                                 dataUrls n) s t))))
      /\ (forall event,
             addsFresh s
               (Rt.st (snd (Rt.run
                              (PopupInput.handleIngredientPaste toLowerCase
                                 host event) s t))))
      /\ (forall index,
             NoDup
               (Invariants.ids
                  (Rt.st (snd (Rt.run (PopupInput.removeIngredient host index)
                                 s t)))))
      /\ NoDup
           (Invariants.ids
              (Rt.st (snd (Rt.run (PopupInput.reset host) s t)))))
  /\ (forall mock events,
         match McpPopup.inputRef
                 (Rt.st (McpPopup.after toLowerCase host mock events)) with
         | Some input => NoDup (Invariants.ids input)
         | None => True
         end).
Proof.
  split.
  - intros s t Hnd.
    split; [|split; [|split; [|split; [|split]]]]; intros;
      first
        [ apply distinct_of_keeps; [|exact Hnd]
        | apply addsFresh_of_keeps; [|exact Hnd] ].
    + now apply Invariants.keeps_addIngredientsFromRustClipboard.
    + now apply Invariants.keeps_handleIngredientFiles.
    + now apply Invariants.keeps_addDataUrls.
    + now apply Invariants.keeps_handleIngredientPaste.
    + now apply Invariants.keeps_removeIngredient.
    + now apply Invariants.keeps_reset.
  - intros mock events.
    destruct (Invariants.after_inv toLowerCase host mock events)
      as [[_ Hin] _].
    destruct (McpPopup.inputRef _) as [input|]; [apply Hin|exact I].
Qed.

Lemma C2_distinct_spice_ids_witness :
  let s :=
    Rt.st (snd (Rt.run
                  (PopupInput.handleIngredientFiles Sample.up
                     [Sample.png; Sample.png])
                  (PopupInput.initial None) [])) in
  Invariants.ids s = ["spice-1"] /\ NoDup (Invariants.ids s).
Proof.
  intros s. split; [reflexivity|].
  destruct (C2_distinct_spice_ids Sample.toLowerCase Sample.up) as [H _].
  destruct (H (PopupInput.initial None) []) as (_ & H2 & _).
  - constructor.
  - apply (H2 [Sample.png; Sample.png]).
Defined.

(** C8: in every state that the popup reaches, when the guard
    [canSubmit] of the submit holds, the response that [handleSubmit]
    builds has a note, a topping or an ingredient, so the test of the
    fallback fails and the response is sent as it was built. *)
Theorem C8_submit_has_content
  (toLowerCase : string -> string) (host : Host.t)
  (mock : bool) (events : list McpPopup.Event) (cooked_at : string) :
  let s := Rt.st (McpPopup.after toLowerCase host mock events) in
  McpPopup.canSubmit s = true ->
  let response := McpPopup.submitDraft s cooked_at in
  (DishResponse.note response <> None
   \/ DishResponse.toppings response <> []
   \/ DishResponse.ingredients response <> [])
  /\ McpPopup.nothingToSend response = false
  /\ McpPopup.submitResponse s cooked_at = response.
Proof.
  intros s Hcan response.
  destruct (Invariants.after_inv toLowerCase host mock events)
    as [[Hids _] _]. fold s in Hids.
  pose proof (@Invariants.submit_has_content s cooked_at Hcan Hids) as H.
  fold response in H.
  split; [|split; [exact H|]].
  - unfold McpPopup.nothingToSend in H.
    destruct (DishResponse.note response) as [n|]; [left; discriminate|].
    destruct (DishResponse.toppings response);
      [|right; left; discriminate].
    destruct (DishResponse.ingredients response);
      [discriminate|right; right; discriminate].
  - unfold McpPopup.submitResponse. fold response. now rewrite H.
Qed.

Lemma C8_submit_has_content_witness :
  let events :=
    [McpPopup.SetRequest (Some Sample.request);
     McpPopup.InputPaste Sample.filePaste] in
  let s := Rt.st (McpPopup.after Sample.toLowerCase Sample.up false events) in
  McpPopup.spiceIds s = ["spice-1"]
  /\ McpPopup.submitResponse s "now" = McpPopup.submitDraft s "now".
Proof.
  intros events s. split; [reflexivity|].
  apply (@C8_submit_has_content Sample.toLowerCase Sample.up false events
           "now").
  reflexivity.
Defined.

(** ** The responses of the popup *)

(** The responses that a trace sends to the backend or emits. *)
Definition responsesOf (t : Host.trace) : list DishResponse.t :=
  flat_map
    (fun e =>
       match e with
       | Host.EEmitResponse r => [r]
       | Host.EInvoke c _ =>
           match Invariants.sentResponse c with
           | Some r => [r]
           | None => []
           end
       | _ => []
       end)
    t.

(** C3, as stated, fails: an enhance with an empty text emits a response
    whose note is not null. *)
Lemma C3_counterexample :
  let w :=
    McpPopup.after Sample.toLowerCase Sample.down true
      [McpPopup.SetRequest (Some Sample.request); McpPopup.Enhance] in
  Js.trim (McpPopup.note (Rt.st w)) = ""
  /\ exists r,
      responsesOf (Rt.tr w) = [r]
      /\ DishResponse.note r <> None
      /\ KitchenTicket.station (DishResponse.ticket r) = Some "popup_enhance".
Proof.
  split; [reflexivity|].
  eexists. split; [vm_compute; reflexivity|].
  split; [discriminate|reflexivity].
Qed.

(** ** The stages of the paste handler *)

(** What an effect is to the paste handler: the sign of one of its
    stages, or something else. *)
Inductive Mark : Type :=
| MPreventDefault
| MStash
| MFetch
| MRustRead
| MNavigator
| MOther.

Definition mark (e : Host.Effect) : Mark :=
  match e with
  | Host.EPreventDefault => MPreventDefault
  | Host.EInvoke c _ =>
      match c with
      | Host.read_clipboard_ingredients_cached => MRustRead
      | Host.stash_ingredient_bytes_cmd _ _ _ => MStash
      | _ => MOther
      end
  | Host.EWeb c _ =>
      match c with
      | Host.fetch_blob _ => MFetch
      | Host.navigator_clipboard_read => MNavigator
      | Host.item_getType _ _ => MNavigator
      end
  | Host.EQuery q _ =>
      match q with
      | Host.navigator_clipboard_readable => MNavigator
      | _ => MOther
      end
  | _ => MOther
  end.

Definition within (marks : list Mark) (e : Host.Effect) : Prop :=
  In (mark e) marks.

Module Footprint.

Import Js Host Rt.

Section Rules.

Variable S : Type.
Variable F : Effect -> Prop.

(** The handler only appends effects, all of them in [F]. *)
Definition only {A} (m : M S A) : Prop :=
  forall w, exists l, tr (snd (m w)) = tr w ++ l /\ Forall F l.

Lemma only_nothing {A} (m : M S A) :
  (forall w, tr (snd (m w)) = tr w) -> only m.
Proof.
  intros H w. exists []. rewrite H, app_nil_r. split; [reflexivity|constructor].
Qed.

Lemma only_ret {A} (a : A) : only (ret a).
Proof. now apply only_nothing. Qed.

Lemma only_throw {A} (e : Error) : only (@throw S A e).
Proof. now apply only_nothing. Qed.

Lemma only_get : only (@get S).
Proof. now apply only_nothing. Qed.

Lemma only_modify (f : S -> S) : only (modify f).
Proof. now apply only_nothing. Qed.

Lemma only_effect (e : Effect) : F e -> only (@effect S e).
Proof.
  intros He w. exists [e]. split; [reflexivity|].
  constructor; [exact He|constructor].
Qed.

Lemma only_invoke host {R} (c : Command R) :
  (forall r, F (EInvoke c r)) -> only (@invoke S host R c).
Proof.
  intros H w. eexists. split; [reflexivity|].
  constructor; [apply H|constructor].
Qed.

Lemma only_web host {R} (c : WebCall R) :
  (forall r, F (EWeb c r)) -> only (@web S host R c).
Proof.
  intros H w. eexists. split; [reflexivity|].
  constructor; [apply H|constructor].
Qed.

Lemma only_query host {R} (q : Query R) :
  (forall r, F (EQuery q r)) -> only (@query S host R q).
Proof.
  intros H w. eexists. split; [reflexivity|].
  constructor; [apply H|constructor].
Qed.

Lemma only_bind {A B} (m : M S A) (k : A -> M S B) :
  only m -> (forall a, only (k a)) -> only (bind m k).
Proof.
  intros Hm Hk w. unfold bind. destruct (Hm w) as (l1 & E1 & F1).
  destruct (m w) as [[a|e] w1]; simpl in *.
  - destruct (Hk a w1) as (l2 & E2 & F2). exists (l1 ++ l2).
    rewrite E2, E1, app_assoc. split; [reflexivity|].
    apply Forall_app. now split.
  - now exists l1.
Qed.

Lemma only_try_catch {A} (m : M S A) (h : Error -> M S A) :
  only m -> (forall e, only (h e)) -> only (try_catch m h).
Proof.
  intros Hm Hh w. unfold try_catch. destruct (Hm w) as (l1 & E1 & F1).
  destruct (m w) as [[a|e] w1]; simpl in *.
  - now exists l1.
  - destruct (Hh e w1) as (l2 & E2 & F2). exists (l1 ++ l2).
    rewrite E2, E1, app_assoc. split; [reflexivity|].
    apply Forall_app. now split.
Qed.

Lemma only_attempt {A} (m : M S A) : only m -> only (attempt m).
Proof.
  intros Hm w. unfold attempt. destruct (Hm w) as (l1 & E1 & F1).
  destruct (m w) as [r w1]; simpl in *. now exists l1.
Qed.

Lemma only_void {A} (m : M S A) :
  (forall e, F (EUnhandledRejection e)) -> only m -> only (void m).
Proof.
  intros He Hm w. unfold void. destruct (Hm w) as (l1 & E1 & F1).
  destruct (m w) as [[a|e] w1]; simpl in *.
  - now exists l1.
  - exists (l1 ++ [EUnhandledRejection e]). rewrite E1, app_assoc.
    split; [reflexivity|]. apply Forall_app. split; [exact F1|].
    constructor; [apply He|constructor].
Qed.

Lemma only_when (b : bool) (m : M S unit) : only m -> only (when b m).
Proof. intros H. destruct b; [exact H|apply only_ret]. Qed.

Lemma only_for_of {A} (l : list A) (body : A -> M S unit) :
  (forall x, only (body x)) -> only (for_of l body).
Proof.
  intros H. induction l as [|x l IH]; simpl.
  - apply only_ret.
  - apply only_bind; [apply H|intros _; exact IH].
Qed.

End Rules.

Create HintDb only.

Ltac only_step :=
  first
    [ solve [auto with only]
    | lazymatch goal with
      | |- only _ (Rt.ret _) => apply only_ret
      | |- only _ (Rt.throw _) => apply only_throw
      | |- only _ Rt.get => apply only_get
      | |- only _ (Rt.modify _) => apply only_modify
      | |- only _ (Rt.effect _) =>
          apply only_effect; solve [unfold within; simpl; tauto]
      | |- only _ (Rt.invoke _ _) =>
          apply only_invoke; solve [intros; unfold within; simpl; tauto]
      | |- only _ (Rt.web _ _) =>
          apply only_web; solve [intros; unfold within; simpl; tauto]
      | |- only _ (Rt.query _ _) =>
          apply only_query; solve [intros; unfold within; simpl; tauto]
      | |- only _ (Rt.attempt _) => apply only_attempt
      | |- only _ (Rt.void _) =>
          apply only_void; [solve [intros; unfold within; simpl; tauto]|]
      | |- only _ (Rt.when _ _) => apply only_when
      | |- only _ (Rt.try_catch _ _) => apply only_try_catch; [|intros]
      | |- only _ (Rt.for_of _ _) => apply only_for_of; intros
      | |- only _ (Rt.bind _ _) => apply only_bind; [|intros]
      | |- only _ (if ?b then _ else _) => destruct b
      | |- only _ (match ?x with _ => _ end) => destruct x
      | |- only _ (let _ := _ in _) => cbv zeta
      end ].

Ltac only_tac :=
  unfold Rt.message_success, Rt.message_warning, Rt.message_error,
    Rt.console_log, Rt.console_debug, Rt.console_error;
  repeat only_step.

Section Paste.

Variable host : Host.t.

Lemma only_emitUpdate (marks : list Mark) :
  In MOther marks -> only (within marks) PopupInput.emitUpdate.
Proof.
  intros H. unfold PopupInput.emitUpdate.
  apply only_bind; [apply only_get|intros s]. now apply only_effect.
Qed.

Lemma only_handleIngredientFiles files :
  only (within [MStash; MOther]) (PopupInput.handleIngredientFiles host files).
Proof.
  pose proof (@only_emitUpdate [MStash; MOther]) as E.
  unfold PopupInput.handleIngredientFiles. only_tac; apply E; simpl; tauto.
Qed.

Lemma only_addBlocks blocks count :
  only (within [MRustRead; MOther]) (PopupInput.addBlocks host blocks count).
Proof.
  revert count. induction blocks as [|block rest IH]; intros count; simpl;
    only_tac; apply IH.
Qed.

Lemma only_addIngredientsFromRustClipboard silent :
  only (within [MRustRead; MOther])
    (PopupInput.addIngredientsFromRustClipboard host silent).
Proof.
  pose proof (@only_emitUpdate [MRustRead; MOther]) as E.
  pose proof only_addBlocks as B.
  unfold PopupInput.addIngredientsFromRustClipboard. only_tac;
    first [apply B|apply E; simpl; tauto].
Qed.

Variable toLowerCase : string -> string.

Lemma only_addDataUrls dataUrls count :
  only (within [MFetch; MStash; MOther])
    (PopupInput.addDataUrls toLowerCase host dataUrls count).
Proof.
  revert count. induction dataUrls as [|dataUrl rest IH]; intros count;
    simpl; only_tac; apply IH.
Qed.

Lemma only_readItemTypes pairs files :
  only (within [MNavigator; MOther])
    (PopupInput.readItemTypes toLowerCase host pairs files).
Proof.
  revert files. induction pairs as [|[item type] rest IH]; intros files;
    simpl; only_tac; apply IH.
Qed.

End Paste.

End Footprint.

Section PasteFacts.

Import Js Host Rt.

Variable toLowerCase : string -> string.
Variable host : Host.t.

Let paste := PopupInput.handleIngredientPaste toLowerCase host.

Lemma readNavigator_first (w : World PopupInput.State) :
  exists b nav,
    tr (snd (PopupInput.readIngredientsFromNavigatorClipboard toLowerCase
               host w))
    = tr w ++ EQuery navigator_clipboard_readable b :: nav
    /\ Forall (within [MNavigator; MOther]) nav.
Proof.
  unfold PopupInput.readIngredientsFromNavigatorClipboard.
  unfold bind at 1. unfold query at 1. cbn [st tr].
  set (b := Host.query host (tr w) navigator_clipboard_readable).
  assert (O : Footprint.only (within [MNavigator; MOther])
                (if negb b
                 then ret []
                 else
                   bind (attempt (web host navigator_clipboard_read))
                     (fun r =>
                        match r with
                        | Ret items =>
                            PopupInput.readItemTypes toLowerCase host
                              (flat_map
                                 (fun item =>
                                    map (pair item) (item_types item))
                                 items) []
                        | Throw _ =>
                            bind
                              (console_debug
                                 "navigator.clipboard.read() 读取失败:")
                              (fun _ => ret [])
                        end))).
  { pose proof (Footprint.only_readItemTypes host toLowerCase) as R.
    Footprint.only_tac. }
  destruct (O (mkWorld (st w) (tr w ++ [EQuery navigator_clipboard_readable b])))
    as (l & E & Fl).
  exists b, l. split; [|exact Fl].
  cbn [tr] in E. rewrite E. now rewrite <- app_assoc.
Qed.

(** The paste handler leaves an event that is already handled or has no
    clipboard data. *)
Lemma paste_ignored (s : PopupInput.State) (t : trace)
  (event : ClipboardEvent.t) :
  ClipboardEvent.defaultPrevented event = true
  \/ ClipboardEvent.clipboardData event = None ->
  run (paste event) s t = (Ret tt, mkWorld s t).
Proof.
  unfold paste, run, PopupInput.handleIngredientPaste.
  intros [H|H]; rewrite H; [reflexivity|].
  destruct (ClipboardEvent.defaultPrevented event); reflexivity.
Qed.

End PasteFacts.

(** ** The helpers on sample inputs *)

Example trim_samples :
  map Js.trim ["  a b  "; "　x　"; (Js.nl ++ "q" ++ Js.cr)%string; "   "]
  = ["a b"; "x"; "q"; ""].
Proof. reflexivity. Qed.

Example imgSrc_samples :
  Regex.imgSrcAll
    "<img src='data:image/png;base64,AA'> <IMG alt='q' SRC='a' src='b'><imgsrc='z'>"
  = ["data:image/png;base64,AA"; "b"]
  /\ PopupInput.pastedDataUrls
       (DataTransfer.mk [] []
          (fun format =>
             if String.eqb format "text/html"
             then "<p><img class='x' src='data:image/gif;base64,R0'></p><img src='http://a/b.png'>"
             else ""))
     = ["data:image/gif;base64,R0"].
Proof. split; reflexivity. Qed.

Example looksLikeImageFilePathList_samples :
  map PopupInput.looksLikeImageFilePathList
    [("copy" ++ Js.nl ++ "file:///home/u/a.PNG")%string;
     "/tmp/shot.jpeg?v=2";
     "C:\pics\b.tiff";
     "# /tmp/a.png";
     "see /tmp/a.png";
     "/tmp/notes.txt";
     "cut";
     ""]
  = [true; true; true; false; false; false; false; false].
Proof. reflexivity. Qed.

(** A request for the value that the prompt already has is not a toggle:
    when its save fails the prompt gets the negation, which is not the
    state it had. *)
Example same_value_not_restored :
  let s :=
    PopupInput.set_customPrompts [Sample.conditionalPrompt (Some true)]
      (PopupInput.initial None) in
  map CustomPrompt.current_state
    (PopupInput.customPrompts
       (Rt.st (snd (Rt.run
                      (PopupInput.handleConditionalToggle Sample.down "p1"
                         true) s []))))
  = [Some false].
Proof. reflexivity. Qed.

(** A submit in the popup with a text and a pasted image: the response is
    sent, the application is asked to exit, and the response is emitted. *)
Example submit_sample :
  let events :=
    [McpPopup.Mounted;
     McpPopup.SetRequest (Some Sample.request);
     McpPopup.InputPaste Sample.filePaste;
     McpPopup.InputNote "  take B ";
     McpPopup.Submit] in
  responsesOf
    (Rt.tr (McpPopup.after Sample.toLowerCase Sample.up false events))
  = let r :=
      DishResponse.mk (Some "take B") []
        [IngredientAttachment.mk "spice-1"]
        (KitchenTicket.mk (Some "2025-03-04T05:06:07.000Z") (Some "req-1")
           (Some "popup")) in
    [r; r].
Proof. vm_compute. reflexivity. Qed.

(* ================================================================== *)
(** * Further properties of the prompt generators *)
(* ================================================================== *)

Section GeneratorMore.

Import Js.

Variable CORE_RULES : string.

Let generate := PromptConfig.generateFullPromptFromConfig CORE_RULES.

Definition isEnabledTool (t : ToolPromptConfig.t) : bool :=
  ToolUIConfig.enabled (ToolPromptConfig.ui t).

(** The configuration of a tool with another enabled flag, and the same
    for a legacy tool. *)
Definition setEnabled (b : bool) (t : ToolPromptConfig.t)
  : ToolPromptConfig.t :=
  ToolPromptConfig.mk (ToolPromptConfig.id t) (ToolPromptConfig.name t)
    (ToolPromptConfig.description t) (ToolPromptConfig.prompt t)
    (ToolUIConfig.mk b
       (ToolUIConfig.canDisable (ToolPromptConfig.ui t))
       (ToolUIConfig.icon (ToolPromptConfig.ui t))
       (ToolUIConfig.iconBg (ToolPromptConfig.ui t))
       (ToolUIConfig.darkIconBg (ToolPromptConfig.ui t))).

Definition setLegacyEnabled (b : bool) (t : MCPToolConfig.t)
  : MCPToolConfig.t :=
  MCPToolConfig.mk (MCPToolConfig.id t) (MCPToolConfig.name t)
    (MCPToolConfig.description t) b (MCPToolConfig.canDisable t)
    (MCPToolConfig.icon t) (MCPToolConfig.iconBg t)
    (MCPToolConfig.darkIconBg t).

(** A tool says nothing: no base rule and no guide. *)
Definition silent (t : ToolPromptConfig.t) : Prop :=
  ToolPrompt.base (ToolPromptConfig.prompt t) = ""
  /\ ToolPrompt.whenToUse (ToolPromptConfig.prompt t) = []
  /\ ToolPrompt.howToUse (ToolPromptConfig.prompt t) = [].

(** The prompt is made of the base rules and the guides of the enabled
    tools. *)
Definition baseRules (tools : list ToolPromptConfig.t) : list string :=
  filter truthy
    (map (fun t => ToolPrompt.base (ToolPromptConfig.prompt t))
       (filter isEnabledTool tools)).

Definition guides (tools : list ToolPromptConfig.t) : list string :=
  flat_map PromptConfig.toolDetail (filter isEnabledTool tools).

Lemma generate_of_parts (tools tools' : list ToolPromptConfig.t) :
  baseRules tools = baseRules tools' ->
  guides tools = guides tools' ->
  generate tools = generate tools'.
Proof.
  unfold generate, PromptConfig.generateFullPromptFromConfig.
  fold isEnabledTool. fold (baseRules tools) (baseRules tools').
  fold (guides tools) (guides tools').
  intros -> ->. reflexivity.
Qed.

Lemma filter_idem {A} (f : A -> bool) (l : list A) :
  filter f (filter f l) = filter f l.
Proof.
  induction l as [|x l IH]; simpl; [reflexivity|].
  destruct (f x) eqn:E; simpl; [rewrite E, IH|]; auto.
Qed.

Lemma baseRules_app (a b : list ToolPromptConfig.t) :
  baseRules (a ++ b) = baseRules a ++ baseRules b.
Proof.
  unfold baseRules. now rewrite filter_app, map_app, filter_app.
Qed.

Lemma guides_app (a b : list ToolPromptConfig.t) :
  guides (a ++ b) = guides a ++ guides b.
Proof.
  unfold guides. now rewrite filter_app, flat_map_app.
Qed.

Lemma silent_parts (t : ToolPromptConfig.t) :
  silent t -> baseRules [t] = [] /\ guides [t] = [].
Proof.
  intros (Hb & Hw & Hh). unfold baseRules, guides. simpl.
  destruct (isEnabledTool t); simpl; [|now split].
  rewrite Hb. unfold PromptConfig.toolDetail. rewrite Hw, Hh. now split.
Qed.

(** A disabled tool and a tool that says nothing leave no trace in the
    prompt, wherever they stand in the list. *)
Theorem dropped_tools_leave_no_trace
  (before after : list ToolPromptConfig.t) (t : ToolPromptConfig.t) :
  isEnabledTool t = false \/ silent t ->
  generate (before ++ t :: after) = generate (before ++ after).
Proof.
  intros H.
  assert (P : baseRules [t] = [] /\ guides [t] = []).
  { destruct H as [H|H]; [|now apply silent_parts].
    unfold baseRules, guides. simpl. now rewrite H. }
  destruct P as [Pb Pg].
  apply generate_of_parts.
  - change (t :: after) with ([t] ++ after).
    now rewrite !baseRules_app, Pb.
  - change (t :: after) with ([t] ++ after).
    now rewrite !guides_app, Pg.
Qed.

Lemma append_assoc' (a b c : string) :
  ((a ++ b) ++ c = a ++ (b ++ c))%string.
Proof. induction a as [|x a IH]; simpl; [reflexivity|now rewrite IH]. Qed.

Lemma append_empty_r (a : string) : (a ++ "")%string = a.
Proof. induction a as [|x a IH]; simpl; [reflexivity|now rewrite IH]. Qed.

Lemma join_cons (sep x : string) (l : list string) :
  exists rest, join sep (x :: l) = (x ++ rest)%string.
Proof.
  unfold join. destruct l as [|y l]; simpl.
  - exists "". now rewrite append_empty_r.
  - eexists. reflexivity.
Qed.

(** The prompt begins with the core rules, and it is the core rules alone
    when no enabled tool has a base rule or a guide. *)
Theorem prompt_begins_with_core_rules (tools : list ToolPromptConfig.t) :
  (exists rest, generate tools = (CORE_RULES ++ rest)%string)
  /\ (Forall (fun t => isEnabledTool t = false \/ silent t) tools ->
      generate tools = CORE_RULES).
Proof.
  split.
  - unfold generate, PromptConfig.generateFullPromptFromConfig.
    fold isEnabledTool. fold (baseRules tools). fold (guides tools).
    cbv zeta.
    destruct (0 <? length (map PromptConfig.dash (baseRules tools)));
      destruct (0 <? length (guides tools));
      match goal with
      | |- exists _, join _ (?x :: ?l) = _ =>
          destruct (join_cons (nl ++ nl)%string x l) as [r Hr]; rewrite Hr
      end;
      rewrite ?append_assoc'; eexists; reflexivity.
  - intros H.
    assert (E : baseRules tools = [] /\ guides tools = []).
    { induction H as [|t l Ht Hl IH]; [now split|].
      change (t :: l) with ([t] ++ l).
      rewrite baseRules_app, guides_app.
      destruct IH as [-> ->].
      assert (P : baseRules [t] = [] /\ guides [t] = []).
      { destruct Ht as [Ht|Ht]; [|now apply silent_parts].
        unfold baseRules, guides. simpl. now rewrite Ht. }
      destruct P as [-> ->]. now split. }
    destruct E as [Eb Eg].
    unfold generate, PromptConfig.generateFullPromptFromConfig.
    fold isEnabledTool. fold (baseRules tools). fold (guides tools).
    rewrite Eb, Eg. simpl. reflexivity.
Qed.

End GeneratorMore.

Lemma dropped_tools_leave_no_trace_witness :
  PromptConfigRev1.REFERENCE_PROMPT
  = PromptConfigRev1.generateFullPromptFromConfig
      (filter (fun t => negb (String.eqb (ToolPromptConfig.id t) "sou"))
         PromptConfigRev1.MCP_TOOLS_CONFIG).
Proof.
  pose proof (@dropped_tools_leave_no_trace PromptConfigRev1.CORE_RULES
                (firstn 2 PromptConfigRev1.MCP_TOOLS_CONFIG)
                (skipn 3 PromptConfigRev1.MCP_TOOLS_CONFIG)
                (nth 2 PromptConfigRev1.MCP_TOOLS_CONFIG
                   (ToolPromptConfig.mk "" "" "" (ToolPrompt.mk "" [] [])
                      (ToolUIConfig.mk false false "" "" "")))
                (or_introl eq_refl)) as H.
  exact H.
Defined.

Lemma prompt_begins_with_core_rules_witness :
  PromptConfigRev1.generateFullPromptFromConfig
    (map (setEnabled false) PromptConfigRev1.MCP_TOOLS_CONFIG)
  = PromptConfigRev1.CORE_RULES.
Proof.
  apply (proj2 (prompt_begins_with_core_rules PromptConfigRev1.CORE_RULES
                  (map (setEnabled false) PromptConfigRev1.MCP_TOOLS_CONFIG))).
  repeat constructor.
Defined.

Lemma upgradeTool_with_flag (cfg : list ToolPromptConfig.t)
  (t : ToolPromptConfig.t) (b : bool) :
  NoDup (map ToolPromptConfig.id cfg) ->
  In t cfg ->
  PromptConfig.upgradeTool cfg (setLegacyEnabled b (PromptConfig.legacyOf t))
  = setEnabled b t.
Proof.
  intros Hnd Hin. unfold PromptConfig.upgradeTool. simpl.
  now rewrite (findConfig_of_member cfg t Hnd Hin).
Qed.

(** The legacy generator follows the enabled flags that it is given: on the
    legacy tools of a configuration with distinct ids, each with a flag of
    the caller, it gives the prompt of the configuration with these
    flags. *)
Theorem legacy_generator_follows_flags
  (CORE_RULES : string) (cfg : list ToolPromptConfig.t)
  (flag : ToolPromptConfig.t -> bool) :
  NoDup (map ToolPromptConfig.id cfg) ->
  PromptConfig.generateFullPrompt CORE_RULES cfg
    (map (fun t => setLegacyEnabled (flag t) (PromptConfig.legacyOf t)) cfg)
  = PromptConfig.generateFullPromptFromConfig CORE_RULES
      (map (fun t => setEnabled (flag t) t) cfg).
Proof.
  intros Hnd. unfold PromptConfig.generateFullPrompt. rewrite map_map.
  f_equal. apply map_ext_in. intros t Hin.
  now apply upgradeTool_with_flag.
Qed.

Lemma legacy_generator_follows_flags_witness :
  PromptConfigRev1.generateFullPrompt
    (map (setLegacyEnabled true) PromptConfigRev1.DEFAULT_MCP_TOOLS)
  = PromptConfigRev1.generateFullPromptFromConfig
      (map (setEnabled true) PromptConfigRev1.MCP_TOOLS_CONFIG).
Proof.
  pose proof (@legacy_generator_follows_flags PromptConfigRev1.CORE_RULES
                PromptConfigRev1.MCP_TOOLS_CONFIG (fun _ => true)
                Rev1_ids_distinct) as H.
  unfold PromptConfigRev1.generateFullPrompt,
    PromptConfigRev1.DEFAULT_MCP_TOOLS, PromptConfig.DEFAULT_MCP_TOOLS.
  rewrite map_map. exact H.
Defined.

(** A legacy tool whose id has no configuration adds nothing to the prompt
    of the legacy generator, enabled or not. *)
Theorem unknown_legacy_tool_adds_nothing
  (CORE_RULES : string) (cfg : list ToolPromptConfig.t)
  (before after : list MCPToolConfig.t) (tool : MCPToolConfig.t) :
  PromptConfig.findConfig cfg (MCPToolConfig.id tool) = None ->
  PromptConfig.generateFullPrompt CORE_RULES cfg (before ++ tool :: after)
  = PromptConfig.generateFullPrompt CORE_RULES cfg (before ++ after).
Proof.
  intros Hnone. unfold PromptConfig.generateFullPrompt.
  rewrite !map_app. simpl. apply dropped_tools_leave_no_trace. right.
  unfold PromptConfig.upgradeTool. rewrite Hnone. repeat split.
Qed.

Lemma unknown_legacy_tool_adds_nothing_witness :
  PromptConfigRev1.generateFullPrompt
    (PromptConfigRev1.DEFAULT_MCP_TOOLS
       ++ [MCPToolConfig.mk "telegram" "Telegram" "" true true "" "" ""])
  = PromptConfigRev1.REFERENCE_PROMPT.
Proof.
  pose proof (@unknown_legacy_tool_adds_nothing PromptConfigRev1.CORE_RULES
                PromptConfigRev1.MCP_TOOLS_CONFIG
                PromptConfigRev1.DEFAULT_MCP_TOOLS []
                (MCPToolConfig.mk "telegram" "Telegram" "" true true "" "" "")
                eq_refl) as H.
  unfold PromptConfigRev1.generateFullPrompt. rewrite H.
  rewrite app_nil_r.
  exact (@legacy_roundtrip PromptConfigRev1.CORE_RULES _ Rev1_ids_distinct).
Defined.

(* ================================================================== *)
(** * Further properties of the history tab *)
(* ================================================================== *)

Section GroupFacts.

Variable newDate : string -> option HistoryTab.LocalTime.

(** The day of an entry, as [groupedEntries] computes it. *)
Definition dayKey (e : HistoryEntrySummary.t) : string :=
  HistoryTab.getLocalDayKey (newDate (HistoryEntrySummary.timestamp e)).

(** [map.get(key) || []] *)
Fixpoint groupGet (key : string)
  (m : list (string * list HistoryEntrySummary.t))
  : list HistoryEntrySummary.t :=
  match m with
  | [] => []
  | (k, l) :: m' => if String.eqb k key then l else groupGet key m'
  end.

Definition ofDay (key : string) (l : list HistoryEntrySummary.t)
  : list HistoryEntrySummary.t :=
  filter (fun e => String.eqb (dayKey e) key) l.

Lemma groupPush_keys key e m :
  map fst (HistoryTab.groupPush key e m)
  = if existsb (String.eqb key) (map fst m) then map fst m
    else map fst m ++ [key].
Proof.
  induction m as [|[k l] m IH]; simpl; [reflexivity|].
  rewrite (String.eqb_sym key k).
  destruct (String.eqb k key); simpl; [reflexivity|].
  rewrite IH. now destruct (existsb _ _).
Qed.

Lemma groupPush_get key e m key' :
  groupGet key' (HistoryTab.groupPush key e m)
  = if String.eqb key key' then groupGet key m ++ [e] else groupGet key' m.
Proof.
  induction m as [|[k l] m IH]; simpl.
  - destruct (String.eqb key key'); reflexivity.
  - destruct (String.eqb_spec k key) as [->|N]; simpl.
    + destruct (String.eqb_spec key key') as [->|N']; reflexivity.
    + rewrite IH.
      destruct (String.eqb_spec key key') as [->|N']; [|reflexivity].
      destruct (String.eqb_spec k key') as [->|_]; [contradiction|].
      reflexivity.
Qed.

Lemma existsb_eqb_In (k : string) (l : list string) :
  existsb (String.eqb k) l = true <-> In k l.
Proof.
  rewrite existsb_exists. split.
  - intros (x & Hx & E). apply String.eqb_eq in E. now subst.
  - intros H. exists k. split; [exact H|apply String.eqb_refl].
Qed.

Lemma groupFold_spec (l : list HistoryEntrySummary.t) :
  forall (m : list (string * list HistoryEntrySummary.t))
         (done : list HistoryEntrySummary.t),
    NoDup (map fst m) ->
    (forall k, groupGet k m = ofDay k done) ->
    (forall k, In k (map fst m) <-> exists e, In e done /\ dayKey e = k) ->
    let m' :=
      fold_left (fun m e => HistoryTab.groupPush (dayKey e) e m) l m in
    NoDup (map fst m')
    /\ (forall k, groupGet k m' = ofDay k (done ++ l))
    /\ (forall k,
           In k (map fst m') <-> exists e, In e (done ++ l) /\ dayKey e = k).
Proof.
  induction l as [|e l IH]; intros m done Hnd Hget Hkeys; simpl.
  - rewrite app_nil_r. split; [|split]; assumption.
  - specialize (IH (HistoryTab.groupPush (dayKey e) e m) (done ++ [e])).
    rewrite <- app_assoc in IH. simpl in IH. apply IH.
    + rewrite groupPush_keys.
      destruct (existsb _ _) eqn:E; [exact Hnd|].
      apply Invariants.NoDup_snoc; [exact Hnd|].
      intros Hin. apply existsb_eqb_In in Hin. congruence.
    + intros k. rewrite groupPush_get. unfold ofDay.
      rewrite filter_app. simpl.
      destruct (String.eqb (dayKey e) k) eqn:E.
      * apply String.eqb_eq in E. subst k. now rewrite Hget.
      * rewrite app_nil_r. apply Hget.
    + intros k. rewrite groupPush_keys.
      destruct (existsb _ _) eqn:E.
      * rewrite Hkeys. split.
        -- intros (x & Hx & Ex). exists x. split; [|exact Ex].
           apply in_or_app. now left.
        -- intros (x & Hx & Ex). apply in_app_or in Hx.
           destruct Hx as [Hx|[->|[]]]; [now exists x|].
           apply Hkeys. apply existsb_eqb_In in E. now rewrite <- Ex.
      * rewrite in_app_iff, Hkeys. simpl. split.
        -- intros [(x & Hx & Ex)|[<-|[]]].
           ++ exists x. split; [apply in_or_app; now left|exact Ex].
           ++ exists e. split; [apply in_or_app; right; now left|reflexivity].
        -- intros (x & Hx & Ex). apply in_app_or in Hx.
           destruct Hx as [Hx|[->|[]]]; [left; now exists x|].
           right. now left.
Qed.

(** The groups of the history list: the day keys are distinct, the group
    of a day holds exactly the entries of that day in the order of the
    list, and a day has a group exactly when an entry falls on it. *)
Theorem groups_partition_by_day (l : list HistoryEntrySummary.t) :
  let m := HistoryTab.groupMap newDate l in
  NoDup (map fst m)
  /\ (forall k, groupGet k m = ofDay k l)
  /\ (forall k, In k (map fst m) <-> exists e, In e l /\ dayKey e = k)
  /\ (forall e, In e l -> In e (groupGet (dayKey e) m)).
Proof.
  intros m.
  destruct (@groupFold_spec l [] []) as (H1 & H2 & H3).
  - constructor.
  - reflexivity.
  - intros k. simpl. split; [intros []|intros (e & [] & _)].
  - simpl in H1, H2, H3. fold (dayKey) in *.
    split; [exact H1|]. split; [exact H2|]. split; [exact H3|].
    intros e He. unfold m. unfold HistoryTab.groupMap.
    change (fun (m0 : list (string * list HistoryEntrySummary.t))
              (e0 : HistoryEntrySummary.t) =>
            HistoryTab.groupPush
              (HistoryTab.getLocalDayKey
                 (newDate (HistoryEntrySummary.timestamp e0))) e0 m0)
      with (fun m0 e0 => HistoryTab.groupPush (dayKey e0) e0 m0).
    rewrite H2. unfold ofDay. apply filter_In. split; [exact He|].
    apply String.eqb_refl.
Qed.

End GroupFacts.

Lemma groups_partition_by_day_witness :
  In Sample.entry
    (groupGet (dayKey Sample.newDate Sample.entry)
       (HistoryTab.groupMap Sample.newDate [Sample.entry; Sample.entry])).
Proof.
  pose proof (groups_partition_by_day Sample.newDate
                [Sample.entry; Sample.entry]) as H.
  cbv zeta in H. destruct H as (_ & _ & _ & H).
  apply H. left. reflexivity.
Defined.

(** ** Opening, deleting and exporting an entry *)

(** Opening an entry selects it and clears the loading flag of the detail
    whatever the backend answers; the detail is the answer of the backend,
    and when the backend fails the detail of the entry shown before stays.
    The list, the search and the range are untouched; no group is
    collapsed, the group of the day of the entry is expanded, and no group
    is listed twice. *)
Theorem opening_an_entry
  (newDate : string -> option HistoryTab.LocalTime)
  (host : Host.t) (s : HistoryTab.State) (t : Host.trace) (id : string) :
  let get := Host.get_mcp_history_entry id in
  let r := Host.invoke host t get in
  let out := Rt.run (HistoryTab.openEntry newDate host id) s t in
  let s' := Rt.st (snd out) in
  HistoryTab.selectedId s' = id
  /\ HistoryTab.detailLoading s' = false
  /\ HistoryTab.selectedDetail s'
     = match r with
       | Js.Ret d => Some d
       | Js.Throw _ => HistoryTab.selectedDetail s
       end
  /\ Rt.tr (snd out)
     = t ++ Host.EInvoke get r
         :: match r with
            | Js.Ret _ => []
            | Js.Throw e =>
                [Host.EConsole Host.cerror "加载历史详情失败:";
                 Host.EMessage Host.error
                   ("加载历史详情失败: " ++ Js.err_string e)%string]
            end
  /\ (HistoryTab.entries s' = HistoryTab.entries s
      /\ HistoryTab.search s' = HistoryTab.search s
      /\ HistoryTab.range s' = HistoryTab.range s
      /\ HistoryTab.loading s' = HistoryTab.loading s)
  /\ incl (HistoryTab.expandedGroups s) (HistoryTab.expandedGroups s')
  /\ (forall e,
         find (fun e => String.eqb (HistoryEntrySummary.id e) id)
           (HistoryTab.entries s) = Some e ->
         In (dayKey newDate e) (HistoryTab.expandedGroups s'))
  /\ (NoDup (HistoryTab.expandedGroups s) ->
      NoDup (HistoryTab.expandedGroups s')).
Proof.
  intros get r out s'. subst s' out r get.
  unfold Rt.run, HistoryTab.openEntry.
  unfold Rt.bind, Rt.modify, Rt.try_finally, Rt.try_catch, Rt.invoke, Rt.get,
    Rt.when, Rt.ret, Rt.console_error, Rt.message_error, Rt.effect.
  cbn [Rt.st Rt.tr fst snd].
  destruct (find _ (HistoryTab.entries s)) as [entry|] eqn:F;
    [destruct (existsb _ (HistoryTab.expandedGroups s)) eqn:X|];
    cbn [negb Rt.st Rt.tr fst snd];
    destruct (Host.invoke host t (Host.get_mcp_history_entry id)) as [d|e];
    cbn [Rt.st Rt.tr fst snd HistoryTab.selectedId HistoryTab.detailLoading
         HistoryTab.selectedDetail HistoryTab.entries HistoryTab.search
         HistoryTab.range HistoryTab.loading HistoryTab.expandedGroups
         HistoryTab.set_selectedId HistoryTab.set_detailLoading
         HistoryTab.set_selectedDetail HistoryTab.set_expandedGroups];
    rewrite <- ?app_assoc; cbn [app];
    (split; [reflexivity|]); (split; [reflexivity|]);
    (split; [reflexivity|]); (split; [reflexivity|]);
    (split; [repeat split|]);
    (split; [try apply incl_refl; try (apply incl_appl, incl_refl)|]);
    (split;
     [intros e0 E0; try discriminate E0; injection E0 as <-;
      try (apply existsb_eqb_In; exact X);
      try (apply in_or_app; right; left; reflexivity)
     |intros Hnd; try exact Hnd;
      try (apply Invariants.NoDup_snoc; [exact Hnd|];
           intros Hin; apply existsb_eqb_In in Hin;
           unfold dayKey in Hin; congruence)]).
Qed.

Lemma opening_an_entry_witness :
  let s := HistoryTab.set_entries [Sample.entry] HistoryTab.initial in
  In "2025-03-04"
    (HistoryTab.expandedGroups
       (Rt.st (snd (Rt.run
                      (HistoryTab.openEntry Sample.newDate Sample.up "e1")
                      s []))))
  /\ HistoryTab.selectedDetail
       (Rt.st (snd (Rt.run
                      (HistoryTab.openEntry Sample.newDate Sample.up "e1")
                      s [])))
     = None.
Proof.
  intros s.
  pose proof (opening_an_entry Sample.newDate Sample.up s [] "e1") as H.
  cbv zeta in H. destruct H as (_ & _ & H3 & _ & _ & _ & H7 & _).
  split; [exact (H7 Sample.entry eq_refl)|exact H3].
Defined.

Lemma truthy_nonempty (x : string) : x <> "" -> Js.truthy x = true.
Proof. destruct x; [contradiction|reflexivity]. Qed.

Ltac case_invoke :=
  match goal with
  | |- context [Host.invoke ?h ?t ?c] => destruct (Host.invoke h t c)
  end.

Ltac run_history :=
  unfold Rt.run, HistoryTab.deleteSelected, HistoryTab.exportSelectedZip,
    HistoryTab.exportRangeZip, HistoryTab.getRangeIso;
  unfold Rt.bind, Rt.modify, Rt.try_finally, Rt.try_catch, Rt.invoke, Rt.get,
    Rt.when, Rt.ret, Rt.console_error, Rt.message_error, Rt.message_success,
    Rt.message_warning, Rt.effect;
  cbn [Rt.st Rt.tr fst snd].

(** Deleting the selected entry.  Without a selection nothing happens at
    all.  When the backend refuses, the error is logged and shown and every
    ref is as before: the entry stays selected and its detail stays shown.
    When the backend deletes the entry, the success is shown, the selection
    and the detail are cleared and the list is asked for again, so that the
    entries shown are those the backend then answers. *)
Theorem deleting_the_selected_entry
  (toLowerCase : string -> string)
  (newDate : string -> option HistoryTab.LocalTime)
  (sortKeys : list string -> list string)
  (host : Host.t) (s : HistoryTab.State) (t : Host.trace) :
  let delete := Host.delete_mcp_history_entry (HistoryTab.selectedId s) in
  let list := Host.list_mcp_history_entries 500 in
  let out :=
    Rt.run (HistoryTab.deleteSelected toLowerCase newDate sortKeys host) s t in
  (HistoryTab.selectedId s = "" -> out = (Js.Ret tt, Rt.mkWorld s t))
  /\ (forall e,
         HistoryTab.selectedId s <> "" ->
         Host.invoke host t delete = Js.Throw e ->
         out
         = (Js.Ret tt,
            Rt.mkWorld s
              (t ++ [Host.EInvoke delete (Js.Throw e);
                     Host.EConsole Host.cerror "删除失败:";
                     Host.EMessage Host.error
                       ("删除失败: " ++ Js.err_string e)%string])))
  /\ (forall u,
         HistoryTab.selectedId s <> "" ->
         Host.invoke host t delete = Js.Ret u ->
         let t1 :=
           t ++ [Host.EInvoke delete (Js.Ret u);
                 Host.EMessage Host.success "已删除"] in
         let r := Host.invoke host t1 list in
         let s' := Rt.st (snd out) in
         (exists rest,
             Rt.tr (snd out) = t1 ++ Host.EInvoke list r :: rest)
         /\ HistoryTab.selectedId s' = ""
         /\ HistoryTab.selectedDetail s' = None
         /\ HistoryTab.loading s' = false
         /\ HistoryTab.entries s'
            = match r with
              | Js.Ret (Some l) => l
              | Js.Ret None => []
              | Js.Throw _ => HistoryTab.entries s
              end).
Proof.
  intros delete list out. subst out list delete.
  split; [|split].
  - intros E. run_history. rewrite E. reflexivity.
  - intros e N E. run_history.
    rewrite (truthy_nonempty N). cbn [negb Rt.st Rt.tr fst snd]. rewrite E. cbn [Rt.st Rt.tr fst snd].
    destruct s; rewrite <- !app_assoc; reflexivity.
  - intros u N E t1 r s'. subst s' r.
    pose proof (loadEntries_spec toLowerCase newDate sortKeys host
                  (HistoryTab.set_selectedDetail None
                     (HistoryTab.set_selectedId "" s)) t1) as L.
    cbv zeta in L. destruct L as (L1 & L2 & L3 & L4 & L5 & L6).
    assert (Eq : Rt.run
                   (HistoryTab.deleteSelected toLowerCase newDate sortKeys
                      host) s t
                 = Rt.run
                     (HistoryTab.loadEntries toLowerCase newDate sortKeys
                        host)
                     (HistoryTab.set_selectedDetail None
                        (HistoryTab.set_selectedId "" s)) t1).
    { revert L1. subst t1. run_history.
      rewrite (truthy_nonempty N). cbn [negb Rt.st Rt.tr fst snd].
      rewrite E. cbn [Rt.st Rt.tr fst snd].
      rewrite <- !app_assoc. cbn [app].
      destruct (HistoryTab.loadEntries toLowerCase newDate sortKeys host _)
        as [o w].
      cbn [fst]. intros ->. reflexivity. }
    rewrite Eq.
    split; [exact L2|]. split; [exact L4|]. split; [exact L5|].
    split; [exact L3|exact L6].
Qed.

Lemma deleting_the_selected_entry_witness :
  let s := HistoryTab.set_selectedId "e1" HistoryTab.initial in
  Rt.run
    (HistoryTab.deleteSelected Sample.toLowerCase Sample.newDate
       Sample.sortKeys Sample.down) s []
  = (Js.Ret tt,
     Rt.mkWorld s
       [Host.EInvoke (Host.delete_mcp_history_entry "e1")
          (Js.Throw Sample.unavailable);
        Host.EConsole Host.cerror "删除失败:";
        Host.EMessage Host.error "删除失败: backend unavailable"])
  /\ HistoryTab.entries
       (Rt.st (snd (Rt.run
                      (HistoryTab.deleteSelected Sample.toLowerCase
                         Sample.newDate Sample.sortKeys Sample.up) s [])))
     = [Sample.entry]
  /\ Rt.run
       (HistoryTab.deleteSelected Sample.toLowerCase Sample.newDate
          Sample.sortKeys Sample.up) HistoryTab.initial []
     = (Js.Ret tt, Rt.mkWorld HistoryTab.initial []).
Proof.
  intros s. split; [|split].
  - pose proof (deleting_the_selected_entry Sample.toLowerCase
                  Sample.newDate Sample.sortKeys Sample.down s []) as H.
    cbv zeta in H. destruct H as (_ & H & _).
    apply (H Sample.unavailable); [discriminate|reflexivity].
  - pose proof (deleting_the_selected_entry Sample.toLowerCase
                  Sample.newDate Sample.sortKeys Sample.up s []) as H.
    cbv zeta in H. destruct H as (_ & _ & H).
    destruct (H tt) as (_ & _ & _ & _ & H5); [discriminate|reflexivity|].
    exact H5.
  - pose proof (deleting_the_selected_entry Sample.toLowerCase
                  Sample.newDate Sample.sortKeys Sample.up
                  HistoryTab.initial []) as H.
    cbv zeta in H. destruct H as (H & _). apply H. reflexivity.
Defined.

(** Exporting never changes a ref of the tab.  Without a selection the
    export of the entry does nothing; with a range whose endpoints are both
    there the export of the range asks the backend with the ISO texts of
    the two endpoints, and the path the backend answers is shown. *)
Theorem exporting_changes_nothing
  (toISOString : Z -> string)
  (host : Host.t) (s : HistoryTab.State) (t : Host.trace) :
  let range := Rt.run (HistoryTab.exportRangeZip toISOString host) s t in
  let entry := Rt.run (HistoryTab.exportSelectedZip host) s t in
  Rt.st (snd range) = s
  /\ Rt.st (snd entry) = s
  /\ (HistoryTab.selectedId s = "" -> Rt.tr (snd entry) = t)
  /\ (forall path,
         HistoryTab.selectedId s <> "" ->
         Host.invoke host t
           (Host.export_mcp_history_entry_zip (HistoryTab.selectedId s))
         = Js.Ret path ->
         Rt.tr (snd entry)
         = t ++ [Host.EInvoke
                   (Host.export_mcp_history_entry_zip
                      (HistoryTab.selectedId s)) (Js.Ret path);
                 Host.EMessage Host.success ("已导出: " ++ path)%string])
  /\ (forall a b,
         HistoryTab.range s = Some (a, b) -> a <> 0%Z -> b <> 0%Z ->
         let export :=
           Host.export_mcp_history_by_time_range_zip
             (toISOString a) (toISOString b) in
         Js.truthy (toISOString a) = true ->
         Js.truthy (toISOString b) = true ->
         Rt.tr (snd range)
         = t ++ Host.EInvoke export (Host.invoke host t export)
             :: match Host.invoke host t export with
                | Js.Ret path =>
                    [Host.EMessage Host.success ("已导出: " ++ path)%string]
                | Js.Throw e =>
                    [Host.EConsole Host.cerror "按时间段导出失败:";
                     Host.EMessage Host.error
                       ("按时间段导出失败: " ++ Js.err_string e)%string]
                end).
Proof.
  intros range entry. subst range entry.
  split; [|split; [|split; [|split]]].
  - run_history. destruct (HistoryTab.range s) as [[a b]|]; [|now destruct s].
    destruct ((a =? 0)%Z || (b =? 0)%Z); [now destruct s|].
    cbn [HistoryTab.missing HistoryTab.orEmpty].
    destruct (negb (Js.truthy (toISOString a)) || _); [now destruct s|].
    cbn [Rt.st Rt.tr fst snd].
    case_invoke; now destruct s.
  - run_history. destruct (negb _); [now destruct s|].
    case_invoke; now destruct s.
  - intros E. run_history. rewrite E. reflexivity.
  - intros path N E. run_history.
    rewrite (truthy_nonempty N). cbn [negb Rt.st Rt.tr fst snd]. rewrite E. cbn [Rt.st Rt.tr fst snd].
    rewrite <- !app_assoc. reflexivity.
  - intros a b R Na Nb export Ta Tb. subst export. run_history. rewrite R.
    apply Z.eqb_neq in Na, Nb. rewrite Na, Nb.
    cbn [orb HistoryTab.missing HistoryTab.orEmpty]. rewrite Ta, Tb.
    cbn [negb orb Rt.st Rt.tr fst snd].
    case_invoke; cbn [Rt.st Rt.tr fst snd];
      rewrite <- ?app_assoc; reflexivity.
Qed.

Lemma exporting_changes_nothing_witness :
  let s := HistoryTab.set_range (Some (1000, 2000)%Z) HistoryTab.initial in
  Rt.tr (snd (Rt.run (HistoryTab.exportRangeZip Sample.toISOString Sample.up)
                s []))
  = [Host.EInvoke
       (Host.export_mcp_history_by_time_range_zip
          "1970-01-01T00:00:01.000Z" "1970-01-01T00:00:02.000Z")
       (Js.Ret "/tmp/range.zip");
     Host.EMessage Host.success "已导出: /tmp/range.zip"]
  /\ Rt.tr (snd (Rt.run (HistoryTab.exportSelectedZip Sample.up) s [])) = []
  /\ Rt.tr (snd (Rt.run (HistoryTab.exportSelectedZip Sample.up)
                   (HistoryTab.set_selectedId "e1" s) []))
     = [Host.EInvoke (Host.export_mcp_history_entry_zip "e1")
          (Js.Ret "/tmp/entry.zip");
        Host.EMessage Host.success "已导出: /tmp/entry.zip"].
Proof.
  intros s. split; [|split].
  - pose proof (exporting_changes_nothing Sample.toISOString Sample.up s [])
      as H.
    cbv zeta in H. destruct H as (_ & _ & _ & _ & H).
    apply (H 1000%Z 2000%Z); [reflexivity|lia|lia|reflexivity|reflexivity].
  - pose proof (exporting_changes_nothing Sample.toISOString Sample.up s [])
      as H.
    cbv zeta in H. destruct H as (_ & _ & H & _). apply H. reflexivity.
  - pose proof (exporting_changes_nothing Sample.toISOString Sample.up
                  (HistoryTab.set_selectedId "e1" s) []) as H.
    cbv zeta in H. destruct H as (_ & _ & _ & H & _).
    apply (H "/tmp/entry.zip"); [discriminate|reflexivity].
Defined.

(** ** The groups expanded by default *)

Section ExpansionFacts.

Variable toLowerCase : string -> string.
Variable newDate : string -> option HistoryTab.LocalTime.
Variable sortKeys : list string -> list string.
Variable host : Host.t.

Let groupedKeys := HistoryTab.groupedKeys toLowerCase newDate sortKeys.
Let ensureDefaultExpandedGroups :=
  HistoryTab.ensureDefaultExpandedGroups toLowerCase newDate sortKeys host.

(** The choice of [ensureDefaultExpandedGroups] without a search. *)
Definition defaultGroups (today : string) (keys : list string)
  : list string :=
  if existsb (String.eqb today) keys then [today]
  else
    match keys with
    | first :: _ => if Js.truthy first then [first] else []
    | [] => []
    end.

Lemma defaultGroups_small (today : string) (keys : list string) :
  length (defaultGroups today keys) <= 1
  /\ incl (defaultGroups today keys) keys.
Proof.
  unfold defaultGroups.
  destruct (existsb _ _) eqn:X.
  - split; [simpl; lia|]. intros k [<-|[]]. now apply existsb_eqb_In.
  - destruct keys as [|k keys]; [split; [simpl; lia|apply incl_refl]|].
    destruct (Js.truthy k); split; simpl; try lia.
    + intros x [<-|[]]. now left.
    + intros x [].
Qed.

Lemma ensureDefault_run (s : HistoryTab.State) (t : Host.trace) :
  Rt.run ensureDefaultExpandedGroups s t
  = if Js.truthy (Js.trim (HistoryTab.search s))
    then (Js.Ret tt,
          Rt.mkWorld (HistoryTab.set_expandedGroups (groupedKeys s) s) t)
    else
      let today := Host.query host t Host.today_local_day_key in
      (Js.Ret tt,
       Rt.mkWorld
         (HistoryTab.set_expandedGroups
            (defaultGroups today (groupedKeys s)) s)
         (t ++ [Host.EQuery Host.today_local_day_key today])).
Proof.
  subst ensureDefaultExpandedGroups groupedKeys.
  unfold Rt.run, HistoryTab.ensureDefaultExpandedGroups, defaultGroups.
  unfold Rt.bind, Rt.modify, Rt.get, Rt.query.
  cbn [Rt.st Rt.tr fst snd].
  destruct (Js.truthy (Js.trim (HistoryTab.search s))); [reflexivity|].
  cbn [Rt.st Rt.tr fst snd].
  destruct (existsb _ _); [reflexivity|].
  destruct (HistoryTab.groupedKeys toLowerCase newDate sortKeys s);
    reflexivity.
Qed.

Lemma dayKey_nonempty (e : HistoryEntrySummary.t) :
  dayKey newDate e <> "".
Proof.
  unfold dayKey, HistoryTab.getLocalDayKey.
  destruct (newDate _) as [d|]; [|discriminate].
  destruct (Js.String_of_Z (HistoryTab.getFullYear d)); discriminate.
Qed.

Lemma groupMap_keys (l : list HistoryEntrySummary.t) (k : string) :
  In k (map fst (HistoryTab.groupMap newDate l)) -> k <> "".
Proof.
  intros Hin.
  destruct (@groupFold_spec newDate l [] []) as (_ & _ & H3).
  - constructor.
  - reflexivity.
  - intros x. simpl. split; [intros []|intros (e & [] & _)].
  - apply H3 in Hin. destruct Hin as (e & _ & <-). apply dayKey_nonempty.
Qed.

(** The groups that [ensureDefaultExpandedGroups] leaves expanded, for a
    sort of the day keys that returns only keys it was given.  Only the
    expanded groups change.  With a search every group shown is expanded.
    Without one, today's group alone is expanded when the list has an
    entry of today, and otherwise the first group shown alone; so exactly
    one group is expanded whenever the list shows an entry. *)
Theorem default_expanded_groups (s : HistoryTab.State) (t : Host.trace) :
  (forall l, incl (sortKeys l) l) ->
  let out := Rt.run ensureDefaultExpandedGroups s t in
  let s' := Rt.st (snd out) in
  let keys := groupedKeys s in
  let today := Host.query host t Host.today_local_day_key in
  s' = HistoryTab.set_expandedGroups (HistoryTab.expandedGroups s') s
  /\ (Js.truthy (Js.trim (HistoryTab.search s)) = true ->
      HistoryTab.expandedGroups s' = keys)
  /\ (Js.truthy (Js.trim (HistoryTab.search s)) = false ->
      (In today keys -> HistoryTab.expandedGroups s' = [today])
      /\ (~ In today keys -> HistoryTab.expandedGroups s' = firstn 1 keys)
      /\ (keys <> [] -> length (HistoryTab.expandedGroups s') = 1)).
Proof.
  intros Hsort out s' keys today. subst s' out.
  rewrite ensureDefault_run.
  assert (Hkeys : forall k, In k keys -> Js.truthy k = true).
  { intros k Hk. apply truthy_nonempty. apply Hsort in Hk.
    now apply groupMap_keys in Hk. }
  destruct (Js.truthy (Js.trim (HistoryTab.search s)));
    cbn [Rt.st Rt.tr fst snd HistoryTab.expandedGroups
         HistoryTab.set_expandedGroups].
  - split; [reflexivity|]. split; [reflexivity|discriminate].
  - split; [reflexivity|]. split; [discriminate|]. intros _.
    fold today. fold keys. unfold defaultGroups.
    destruct (existsb (String.eqb today) keys) eqn:X.
    + split; [reflexivity|]. split; [|reflexivity].
      intros N. apply existsb_eqb_In in X. contradiction.
    + assert (N : ~ In today keys).
      { intros Hin. apply existsb_eqb_In in Hin. congruence. }
      destruct keys as [|k keys'] eqn:K.
      * split; [intros []|]. split; [reflexivity|]. now intros [].
      * rewrite (Hkeys k (or_introl eq_refl)).
        split; [intros Hin; contradiction|]. split; reflexivity.
Qed.

(** Loading the entries.  A failed load leaves every ref as it was, but for
    the loading flag, which is cleared; the error is logged, and the
    message shown is the hint at an old backend exactly when the error text
    holds both [not found] and the name of the command.  A successful load
    shows the list the backend answered (none for [null]), keeps the
    selection, clears the flag, and leaves expanded only groups of the new
    list: at most one without a search. *)
Theorem loading_the_entries (s : HistoryTab.State) (t : Host.trace) :
  let list := Host.list_mcp_history_entries 500 in
  let r := Host.invoke host t list in
  let out :=
    Rt.run (HistoryTab.loadEntries toLowerCase newDate sortKeys host) s t in
  let s' := Rt.st (snd out) in
  (forall e,
      r = Js.Throw e ->
      let text := Js.err_string e in
      out
      = (Js.Ret tt,
         Rt.mkWorld (HistoryTab.set_loading false s)
           (t ++ [Host.EInvoke list r;
                  Host.EConsole Host.cerror "加载历史记录失败:";
                  Host.EMessage Host.error
                    (if Js.includes text "not found"
                        && Js.includes text "list_mcp_history_entries"
                     then "加载失败：后端命令不存在。你大概率运行的是旧版 sanshu-ui（前端更新了但后端没重编译/没重启）。请重新编译并重启三术。"
                     else ("加载历史记录失败: " ++ text)%string)])))
  /\ (forall l,
         r = Js.Ret l ->
         HistoryTab.entries s' = match l with Some l => l | None => [] end
         /\ HistoryTab.loading s' = false
         /\ HistoryTab.selectedId s' = HistoryTab.selectedId s
         /\ HistoryTab.selectedDetail s' = HistoryTab.selectedDetail s
         /\ HistoryTab.search s' = HistoryTab.search s
         /\ incl (HistoryTab.expandedGroups s') (groupedKeys s')
         /\ (Js.truthy (Js.trim (HistoryTab.search s)) = false ->
             length (HistoryTab.expandedGroups s') <= 1)).
Proof.
  intros list r out s'. subst s' out r list.
  unfold Rt.run, HistoryTab.loadEntries.
  unfold Rt.bind, Rt.modify, Rt.try_finally, Rt.try_catch, Rt.invoke.
  cbn [Rt.st Rt.tr fst snd].
  split.
  - intros e E. rewrite E. cbn [Rt.st Rt.tr fst snd].
    unfold Rt.bind, Rt.console_error, Rt.message_error, Rt.effect.
    cbv zeta. cbn [Rt.st Rt.tr fst snd].
    destruct (_ && _); cbn [Rt.st Rt.tr fst snd];
      rewrite <- !app_assoc; destruct s; reflexivity.
  - intros l E. rewrite E. cbn [Rt.st Rt.tr fst snd].
    pose proof (ensureDefault_run
                  (HistoryTab.set_entries
                     match l with Some l0 => l0 | None => [] end
                     (HistoryTab.set_loading true s))
                  (t ++ [Host.EInvoke (Host.list_mcp_history_entries 500)
                           (Js.Ret l)])) as R.
    unfold Rt.run in R. subst ensureDefaultExpandedGroups.
    rewrite R. clear R.
    cbn [HistoryTab.search HistoryTab.set_entries HistoryTab.set_loading].
    destruct (Js.truthy (Js.trim (HistoryTab.search s)));
      cbv zeta; cbn [Rt.st Rt.tr fst snd];
      (split; [reflexivity|]); (split; [reflexivity|]);
      (split; [reflexivity|]); (split; [reflexivity|]);
      (split; [reflexivity|]).
    + split; [apply incl_refl|discriminate].
    + split; [|intros _]; apply defaultGroups_small.
Qed.

End ExpansionFacts.

Lemma default_expanded_groups_witness :
  let s :=
    HistoryTab.set_expandedGroups ["2024-01-01"; "unknown"]
      (HistoryTab.set_entries [Sample.entry] HistoryTab.initial) in
  HistoryTab.expandedGroups
    (Rt.st (snd (Rt.run
                   (HistoryTab.ensureDefaultExpandedGroups
                      Sample.toLowerCase Sample.newDate Sample.sortKeys
                      Sample.up) s [])))
  = ["2025-03-04"].
Proof.
  intros s.
  pose proof (@default_expanded_groups Sample.toLowerCase Sample.newDate
                Sample.sortKeys Sample.up s [] (fun l => incl_refl l)) as H.
  cbv zeta in H. destruct H as (_ & _ & H).
  destruct (H eq_refl) as (H1 & _). apply H1. left. reflexivity.
Defined.

Lemma loading_the_entries_witness :
  let s := HistoryTab.set_expandedGroups ["2024-01-01"] HistoryTab.initial in
  Rt.run
    (HistoryTab.loadEntries Sample.toLowerCase Sample.newDate Sample.sortKeys
       Sample.down) s []
  = (Js.Ret tt,
     Rt.mkWorld s
       [Host.EInvoke (Host.list_mcp_history_entries 500)
          (Js.Throw Sample.unavailable);
        Host.EConsole Host.cerror "加载历史记录失败:";
        Host.EMessage Host.error "加载历史记录失败: backend unavailable"])
  /\ HistoryTab.entries
       (Rt.st (snd (Rt.run
                      (HistoryTab.loadEntries Sample.toLowerCase
                         Sample.newDate Sample.sortKeys Sample.up) s [])))
     = [Sample.entry].
Proof.
  intros s. split.
  - pose proof (loading_the_entries Sample.toLowerCase Sample.newDate
                  Sample.sortKeys Sample.down s []) as H.
    cbv zeta in H. destruct H as (H & _).
    apply (H Sample.unavailable). reflexivity.
  - pose proof (loading_the_entries Sample.toLowerCase Sample.newDate
                  Sample.sortKeys Sample.up s []) as H.
    cbv zeta in H. destruct H as (_ & H).
    destruct (H (Some [Sample.entry]) eq_refl) as (H1 & _). exact H1.
Defined.

(* ================================================================== *)
(** * Further properties of the input of the popup *)
(* ================================================================== *)

(** ** The selected options *)

Section ToppingFacts.

Import PopupInput.

Lemma indexOf_None (l : list string) (x : string) :
  indexOf l x = None <-> ~ In x l.
Proof.
  induction l as [|y l IH]; simpl; [tauto|].
  destruct (String.eqb_spec y x) as [->|N].
  - split; [discriminate|]. intros H. exfalso. apply H. now left.
  - destruct (indexOf l x); simpl.
    + split; [discriminate|]. intros H.
      assert (K : ~ In x l) by (intros Hin; apply H; now right).
      apply IH in K. discriminate K.
    + split; [|reflexivity]. intros _ [E|Hin]; [contradiction|].
      now apply IH.
Qed.

Lemma removeAt_first (l : list string) (x : string) (i : nat) :
  indexOf l x = Some i ->
  (forall y, y <> x -> (In y (removeAt i l) <-> In y l))
  /\ (NoDup l -> NoDup (removeAt i l) /\ ~ In x (removeAt i l)).
Proof.
  revert i. induction l as [|y l IH]; intros i; simpl; [discriminate|].
  destruct (String.eqb_spec y x) as [->|N].
  - intros [= <-]. split.
    + intros y Ny. split; [now right|]. intros [E|H]; [congruence|exact H].
    + intros Hnd. inversion Hnd; subst. now split.
  - destruct (indexOf l x) as [j|] eqn:E; [|discriminate].
    intros [= <-]. destruct (IH j eq_refl) as [IH1 IH2]. split.
    + intros z Nz. simpl. now rewrite IH1.
    + intros Hnd. inversion Hnd as [|? ? Hy Hl]; subst.
      destruct (IH2 Hl) as [A B]. split.
      * constructor; [|exact A]. intros Hin. apply Hy.
        destruct (String.eqb_spec y x) as [->|Nyx]; [contradiction|].
        now apply (IH1 y Nyx).
      * intros [Eq|Hin]; [contradiction|]. now apply B.
Qed.

Lemma indexOf_snoc (l : list string) (x : string) :
  ~ In x l -> indexOf (l ++ [x]) x = Some (length l).
Proof.
  induction l as [|y l IH]; simpl; intros H.
  - now rewrite String.eqb_refl.
  - destruct (String.eqb_spec y x) as [->|N]; [exfalso; apply H; now left|].
    rewrite IH; [reflexivity|]. intros Hin. apply H. now right.
Qed.

Lemma removeAt_snoc {A} (l : list A) (x : A) :
  removeAt (length l) (l ++ [x]) = l.
Proof. induction l as [|y l IH]; simpl; [reflexivity|]. now rewrite IH. Qed.

(** What a click on the row of an option does to the selection. *)
Definition toggled (option : string) (l : list string) : list string :=
  match indexOf l option with
  | Some idx => removeAt idx l
  | None => l ++ [option]
  end.

Lemma handleOptionToggle_run (option : string) (s : State) (t : Host.trace) :
  Rt.run (handleOptionToggle option) s t
  = (Js.Ret tt,
     Rt.mkWorld (set_toppings (toggled option (toppings s)) s)
       (t ++ [Host.EEmitUpdate
                (note s ++ generateConditionalContent s)%string
                (toggled option (toppings s))
                (map CachedIngredientItem.spiceId (ingredients s))])).
Proof.
  unfold Rt.run, handleOptionToggle, emitUpdate, toggled.
  unfold Rt.bind, Rt.get, Rt.modify, Rt.effect.
  cbn [Rt.st Rt.tr fst snd].
  destruct (indexOf (toppings s) option); reflexivity.
Qed.

(** A click on the row of an option changes nothing but the selection, and
    tells the parent the new selection.  The other options are selected
    exactly as before.  A selection without duplicates stays so, and the
    option clicked is then selected exactly when it was not before.  Two
    clicks on an option that was not selected give the selection of
    before, order included. *)
Theorem option_toggle_flips
  (option : string) (s : State) (t : Host.trace) :
  let out := Rt.run (handleOptionToggle option) s t in
  let s' := Rt.st (snd out) in
  s' = set_toppings (toppings s') s
  /\ Rt.tr (snd out)
     = t ++ [Host.EEmitUpdate
               (note s ++ generateConditionalContent s)%string
               (toppings s')
               (map CachedIngredientItem.spiceId (ingredients s))]
  /\ (forall other,
         other <> option ->
         (In other (toppings s') <-> In other (toppings s)))
  /\ (NoDup (toppings s) ->
      NoDup (toppings s')
      /\ (In option (toppings s') <-> ~ In option (toppings s)))
  /\ (~ In option (toppings s) ->
      forall t',
        toppings (Rt.st (snd (Rt.run (handleOptionToggle option) s' t')))
        = toppings s).
Proof.
  intros out s'. subst s' out. rewrite handleOptionToggle_run.
  cbn [Rt.st Rt.tr fst snd toppings set_toppings].
  split; [reflexivity|]. split; [reflexivity|].
  unfold toggled at 1 2 3 4.
  destruct (indexOf (toppings s) option) as [i|] eqn:E.
  - destruct (removeAt_first _ _ E) as [R1 R2].
    split; [exact R1|]. split.
    + intros Hnd. destruct (R2 Hnd) as [A B]. split; [exact A|].
      split; [intros H; contradiction|].
      intros H. apply indexOf_None in H. congruence.
    + intros H. apply indexOf_None in H. congruence.
  - apply indexOf_None in E. split; [|split].
    + intros other N. rewrite in_app_iff. simpl. split; [|now left].
      intros [H|[H|[]]]; [exact H|congruence].
    + intros Hnd. split.
      * apply Invariants.NoDup_snoc; assumption.
      * split; [intros _; exact E|intros _].
        apply in_or_app. right. now left.
    + intros _ t'. rewrite handleOptionToggle_run.
      cbn [Rt.st Rt.tr fst snd toppings set_toppings].
      unfold toggled. rewrite (@indexOf_snoc _ _ E). apply removeAt_snoc.
Qed.

(** ** The status text and the submit guard *)

(** Whenever the input can be submitted the status text is empty, so the
    waiting text is never shown beside an input that can be sent; with
    predefined options the two agree.  They differ, the status text empty
    and the guard false, exactly when the request has no options and the
    selection still holds options while the text is blank and no image is
    attached. *)
Theorem status_agrees_with_guard (s : State) :
  (canSubmit s = true -> statusText s = "")
  /\ (hasOptions s = true -> (canSubmit s = true <-> statusText s = ""))
  /\ ((statusText s = "" /\ canSubmit s = false)
      <-> (hasOptions s = false
           /\ toppings s <> []
           /\ Js.trim (note s) = ""
           /\ ingredients s = [])).
Proof.
  unfold canSubmit, statusText.
  destruct (hasOptions s);
    destruct (toppings s) as [|o l];
    destruct (ingredients s) as [|b l'];
    destruct (Js.trim (note s)) as [|c n];
    cbn; repeat split; intros;
    repeat match goal with H : _ /\ _ |- _ => destruct H end;
    try discriminate; try reflexivity; try congruence.
Qed.

End ToppingFacts.

Lemma option_toggle_flips_witness :
  let s := PopupInput.set_toppings ["A"; "B"] (PopupInput.initial None) in
  let s' :=
    Rt.st (snd (Rt.run (PopupInput.handleOptionToggle "B") s [])) in
  NoDup (PopupInput.toppings s')
  /\ ~ In "B" (PopupInput.toppings s')
  /\ (In "A" (PopupInput.toppings s')).
Proof.
  intros s s'.
  pose proof (option_toggle_flips "B" s []) as H.
  cbv zeta in H. destruct H as (_ & _ & H3 & H4 & _).
  assert (Hnd : NoDup (PopupInput.toppings s)).
  { repeat constructor; simpl; intuition discriminate. }
  destruct (H4 Hnd) as (A & B). split; [exact A|]. split.
  - intros Hin. apply B in Hin. apply Hin. right. left. reflexivity.
  - apply H3; [discriminate|]. left. reflexivity.
Defined.

(** An input without options whose selection holds an option: the status
    text is empty and the guard is false. *)
Lemma status_agrees_with_guard_witness :
  let s := PopupInput.set_toppings ["A"] (PopupInput.initial None) in
  (PopupInput.statusText s = "" /\ PopupInput.canSubmit s = false)
  /\ PopupInput.hasOptions s = false.
Proof.
  intros s.
  pose proof (status_agrees_with_guard s) as H.
  destruct H as (_ & _ & H).
  assert (D : PopupInput.statusText s = "" /\ PopupInput.canSubmit s = false).
  { apply H. repeat split; discriminate. }
  split; [exact D|]. exact (proj1 (proj1 H D)).
Defined.

(** ** Giving up ingredients *)

(** The ids that a run asked the backend to discard, and the preview URLs
    that it revoked, in the order of the run. *)
Definition discardedBy (e : Host.Effect) : list string :=
  match e with
  | Host.EInvoke c _ =>
      match c with
      | Host.discard_spice_cmd spiceId => [spiceId]
      | _ => []
      end
  | _ => []
  end.

Definition discarded (t : Host.trace) : list string :=
  flat_map discardedBy t.

Definition revokedBy (e : Host.Effect) : list string :=
  match e with
  | Host.ERevokeObjectURL url => [url]
  | _ => []
  end.

Definition revoked (t : Host.trace) : list string :=
  flat_map revokedBy t.

Section IngredientFacts.

Import PopupInput.

Variable host : Host.t.

Lemma removeAt_firstn_skipn {A} (i : nat) (l : list A) :
  removeAt i l = firstn i l ++ skipn (S i) l.
Proof.
  revert i. induction l as [|x l IH]; intros [|i]; simpl; try reflexivity.
  now rewrite IH.
Qed.

Lemma releaseIngredient_run (b : CachedIngredientItem.t) (s : State)
  (t : Host.trace) :
  exists new,
    Rt.run (releaseIngredient host b) s t = (Js.Ret tt, Rt.mkWorld s (t ++ new))
    /\ discarded new
       = (if Js.truthy (CachedIngredientItem.spiceId b)
          then [CachedIngredientItem.spiceId b] else [])
    /\ revoked new
       = (if Js.truthy (CachedIngredientItem.previewUrl b)
          then [CachedIngredientItem.previewUrl b] else []).
Proof.
  unfold Rt.run, releaseIngredient.
  unfold Rt.bind, Rt.when, Rt.void, Rt.invoke, Rt.effect, Rt.ret.
  destruct (Js.truthy (CachedIngredientItem.previewUrl b));
    destruct (Js.truthy (CachedIngredientItem.spiceId b));
    cbn [Rt.st Rt.tr fst snd];
    repeat match goal with
           | |- context [Host.invoke ?h ?t ?c] =>
               destruct (Host.invoke h t c); cbn [Rt.st Rt.tr fst snd]
           end;
    rewrite <- ?app_assoc; cbn [app];
    try (eexists; split; [reflexivity|split; reflexivity]).
  exists []. rewrite app_nil_r. repeat split.
Qed.

Lemma release_all (l : list CachedIngredientItem.t) (s : State)
  (t : Host.trace) :
  exists new,
    Rt.run (Rt.for_of l (releaseIngredient host)) s t
    = (Js.Ret tt, Rt.mkWorld s (t ++ new))
    /\ discarded new
       = filter Js.truthy (map CachedIngredientItem.spiceId l)
    /\ revoked new
       = filter Js.truthy (map CachedIngredientItem.previewUrl l).
Proof.
  revert t. induction l as [|b l IH]; intros t.
  - exists []. rewrite app_nil_r. repeat split.
  - destruct (releaseIngredient_run b s t) as (n1 & R1 & D1 & V1).
    destruct (IH (t ++ n1)) as (n2 & R2 & D2 & V2).
    exists (n1 ++ n2). split; [|split].
    + cbn [Rt.for_of]. unfold Rt.run, Rt.bind in *. rewrite R1.
      rewrite R2. now rewrite app_assoc.
    + unfold discarded in *. rewrite flat_map_app, D1, D2. cbn [map filter].
      now destruct (Js.truthy (CachedIngredientItem.spiceId b)).
    + unfold revoked in *. rewrite flat_map_app, V1, V2. cbn [map filter].
      now destruct (Js.truthy (CachedIngredientItem.previewUrl b)).
Qed.

(** Removing the ingredient at an index never throws and changes no ref
    but the ingredients.  The ingredient at the index is taken out and the
    others keep their order; its id, when it has one, is the only id the
    backend is asked to discard, and its preview URL the only one revoked.
    An index beyond the list changes nothing.  In both cases the parent is
    told, last, the ids that are left. *)
Theorem removing_an_ingredient
  (index : nat) (s : State) (t : Host.trace) :
  let out := Rt.run (removeIngredient host index) s t in
  let s' := Rt.st (snd out) in
  fst out = Js.Ret tt
  /\ s' = set_ingredients (ingredients s') s
  /\ ingredients s'
     = firstn index (ingredients s) ++ skipn (S index) (ingredients s)
  /\ (exists new,
         Rt.tr (snd out)
         = t ++ new
             ++ [Host.EEmitUpdate
                   (note s ++ generateConditionalContent s)%string
                   (toppings s)
                   (map CachedIngredientItem.spiceId (ingredients s'))]
         /\ discarded new
            = match nth_error (ingredients s) index with
              | Some b => filter Js.truthy [CachedIngredientItem.spiceId b]
              | None => []
              end
         /\ revoked new
            = match nth_error (ingredients s) index with
              | Some b => filter Js.truthy [CachedIngredientItem.previewUrl b]
              | None => []
              end)
  /\ (length (ingredients s) <= index -> ingredients s' = ingredients s).
Proof.
  intros out s'. subst s' out.
  assert (R : exists new,
             Rt.run (removeIngredient host index) s t
             = (Js.Ret tt,
                Rt.mkWorld
                  (set_ingredients (removeAt index (ingredients s)) s)
                  (t ++ new
                     ++ [Host.EEmitUpdate
                           (note s ++ generateConditionalContent s)%string
                           (toppings s)
                           (map CachedIngredientItem.spiceId
                              (removeAt index (ingredients s)))]))
             /\ discarded new
                = match nth_error (ingredients s) index with
                  | Some b =>
                      filter Js.truthy [CachedIngredientItem.spiceId b]
                  | None => []
                  end
             /\ revoked new
                = match nth_error (ingredients s) index with
                  | Some b =>
                      filter Js.truthy [CachedIngredientItem.previewUrl b]
                  | None => []
                  end).
  { unfold Rt.run, removeIngredient, emitUpdate.
    unfold Rt.bind at 1 2 3. unfold Rt.get at 1. unfold Rt.modify at 1.
    cbn [Rt.st Rt.tr fst snd].
    destruct (nth_error (ingredients s) index) as [b|] eqn:N.
    - destruct (releaseIngredient_run b
                  (set_ingredients (removeAt index (ingredients s)) s) t)
        as (new & R & D & V).
      unfold Rt.run in R. rewrite R.
      unfold Rt.bind, Rt.get, Rt.effect. cbn [Rt.st Rt.tr fst snd].
      exists new. rewrite <- app_assoc. split; [reflexivity|].
      cbn [filter map].
      split; [rewrite D|rewrite V];
        match goal with
        | |- context [Js.truthy ?x] => now destruct (Js.truthy x)
        end.
    - unfold Rt.ret, Rt.bind, Rt.get, Rt.effect. cbn [Rt.st Rt.tr fst snd].
      exists []. repeat split. }
  destruct R as (new & R & D & V). rewrite R.
  cbn [Rt.st Rt.tr fst snd ingredients set_ingredients].
  split; [reflexivity|]. split; [reflexivity|].
  split; [apply removeAt_firstn_skipn|]. split.
  - exists new. split; [reflexivity|]. split; assumption.
  - intros Hle. rewrite removeAt_firstn_skipn.
    rewrite firstn_all2 by exact Hle.
    rewrite skipn_all2 by lia. apply app_nil_r.
Qed.

(** Resetting the input and unmounting it give up every ingredient: the
    backend is asked to discard the id of each ingredient that has one, in
    the order of the list and nothing else, and the preview URL of each is
    revoked.  Unmounting changes no ref.  Resetting clears the text, the
    selection and the ingredients, keeps the other refs, and tells the
    parent last; the text the parent is told then is the content of the
    conditional prompts alone. *)
Theorem leaving_discards_every_ingredient (s : State) (t : Host.trace) :
  let ids :=
    filter Js.truthy (map CachedIngredientItem.spiceId (ingredients s)) in
  let urls :=
    filter Js.truthy (map CachedIngredientItem.previewUrl (ingredients s)) in
  (exists new,
      Rt.run (onUnmounted host) s t = (Js.Ret tt, Rt.mkWorld s (t ++ new))
      /\ discarded new = ids
      /\ revoked new = urls)
  /\ (exists new,
         Rt.run (reset host) s t
         = (Js.Ret tt,
            Rt.mkWorld
              (set_ingredients [] (set_toppings [] (set_note "" s)))
              (t ++ new
                 ++ [Host.EEmitUpdate (generateConditionalContent s) [] []]))
         /\ discarded new = ids
         /\ revoked new = urls).
Proof.
  intros ids urls. subst ids urls. split.
  - destruct (release_all (ingredients s) s t) as (new & R & D & V).
    exists new. split; [|split; assumption].
    unfold onUnmounted, Rt.run, Rt.bind, Rt.get in *.
    cbn [Rt.st Rt.tr fst snd]. exact R.
  - destruct (release_all (ingredients s) (set_toppings [] (set_note "" s)) t)
      as (new & R & D & V).
    exists new. split; [|split; assumption].
    unfold reset, emitUpdate, Rt.run in *.
    unfold Rt.bind at 1 2 3 4. unfold Rt.modify at 1 2. unfold Rt.get at 1.
    cbn [Rt.st Rt.tr fst snd].
    cbn [ingredients set_toppings set_note] in *.
    unfold Rt.bind at 1. rewrite R.
    unfold Rt.bind, Rt.modify, Rt.get, Rt.effect.
    cbn [Rt.st Rt.tr fst snd]. rewrite <- app_assoc. reflexivity.
Qed.

End IngredientFacts.

Lemma removing_an_ingredient_witness :
  let s :=
    PopupInput.set_ingredients
      [CachedIngredientItem.mk "spice-1" "blob:1";
       CachedIngredientItem.mk "spice-2" ""]
      (PopupInput.initial None) in
  PopupInput.ingredients
    (Rt.st (snd (Rt.run (PopupInput.removeIngredient Sample.up 5) s [])))
  = PopupInput.ingredients s.
Proof.
  intros s.
  pose proof (removing_an_ingredient Sample.up 5 s []) as H.
  cbv zeta in H. destruct H as (_ & _ & _ & _ & H).
  apply H. simpl. lia.
Defined.

(** ** The custom prompts: loading and dragging *)

Section PromptFacts.

Import PopupInput.

Definition bySortOrder (p q : CustomPrompt.t) : Prop :=
  (CustomPrompt.sort_order p <= CustomPrompt.sort_order q)%Z.

Lemma insertBySortOrder_perm (p : CustomPrompt.t) (l : list CustomPrompt.t) :
  Permutation (insertBySortOrder p l) (p :: l).
Proof.
  induction l as [|q l IH]; simpl; [reflexivity|].
  destruct (_ <=? _)%Z; [reflexivity|].
  rewrite IH. apply perm_swap.
Qed.

Lemma sortBySortOrder_perm (l : list CustomPrompt.t) :
  Permutation (sortBySortOrder l) l.
Proof.
  induction l as [|p l IH]; simpl; [reflexivity|].
  rewrite insertBySortOrder_perm. now constructor.
Qed.

Lemma insertBySortOrder_sorted (p : CustomPrompt.t)
  (l : list CustomPrompt.t) :
  StronglySorted bySortOrder l ->
  StronglySorted bySortOrder (insertBySortOrder p l).
Proof.
  induction 1 as [|q l Hs IH Hq]; simpl.
  - constructor; constructor.
  - destruct (Z.leb_spec (CustomPrompt.sort_order p)
                (CustomPrompt.sort_order q)) as [Le|Gt].
    + constructor; [now constructor|].
      constructor; [unfold bySortOrder; lia|].
      eapply Forall_impl; [|exact Hq].
      unfold bySortOrder. intros; lia.
    + constructor; [exact IH|].
      apply (Permutation_Forall (Permutation_sym
                                   (insertBySortOrder_perm p l))).
      constructor; [unfold bySortOrder; lia|exact Hq].
Qed.

Lemma sortBySortOrder_sorted (l : list CustomPrompt.t) :
  StronglySorted bySortOrder (sortBySortOrder l).
Proof.
  induction l as [|p l IH]; simpl; [constructor|].
  now apply insertBySortOrder_sorted.
Qed.

(** The prompts of one [sort_order], in the order of the list. *)
Definition ofOrder (k : Z) (p : CustomPrompt.t) : bool :=
  (CustomPrompt.sort_order p =? k)%Z.

Lemma insertBySortOrder_stable (k : Z) (p : CustomPrompt.t)
  (l : list CustomPrompt.t) :
  filter (ofOrder k) (insertBySortOrder p l) = filter (ofOrder k) (p :: l).
Proof.
  induction l as [|q l IH]; [reflexivity|].
  cbn [insertBySortOrder].
  destruct (Z.leb_spec (CustomPrompt.sort_order p) (CustomPrompt.sort_order q))
    as [Le|Gt]; [reflexivity|].
  cbn [filter] in *. rewrite IH. unfold ofOrder.
  destruct (Z.eqb_spec (CustomPrompt.sort_order q) k) as [Eq|Nq];
    [|reflexivity].
  destruct (Z.eqb_spec (CustomPrompt.sort_order p) k) as [Ep|Np];
    [lia|reflexivity].
Qed.

Lemma sortBySortOrder_stable (k : Z) (l : list CustomPrompt.t) :
  filter (ofOrder k) (sortBySortOrder l) = filter (ofOrder k) l.
Proof.
  induction l as [|p l IH]; [reflexivity|].
  cbn [sortBySortOrder fold_right]. rewrite insertBySortOrder_stable.
  cbn [filter]. fold (sortBySortOrder l). now rewrite IH.
Qed.

Lemma normal_or_conditional (p : CustomPrompt.t) :
  isNormal p = negb (isConditional p).
Proof.
  unfold isNormal, isConditional.
  destruct (CustomPrompt.type p) as [[]|]; reflexivity.
Qed.

Lemma filter_all_of {A} (f : A -> bool) (l : list A) :
  Forall (fun x => f x = true) l -> filter f l = l.
Proof.
  induction 1 as [|x l Hx _ IH]; simpl; [reflexivity|].
  now rewrite Hx, IH.
Qed.

Lemma filter_none_of {A} (f : A -> bool) (l : list A) :
  Forall (fun x => f x = false) l -> filter f l = [].
Proof.
  induction 1 as [|x l Hx _ IH]; simpl; [reflexivity|].
  now rewrite Hx, IH.
Qed.

Lemma Forall_filter_true {A} (f : A -> bool) (l : list A) :
  Forall (fun x => f x = true) (filter f l).
Proof. apply Forall_forall. intros x Hx. now apply filter_In in Hx. Qed.

Lemma split_by_type (l : list CustomPrompt.t) :
  Permutation (filter isNormal l ++ filter isConditional l) l.
Proof.
  induction l as [|p l IH]; simpl; [reflexivity|].
  rewrite normal_or_conditional.
  destruct (isConditional p); simpl.
  - rewrite <- Permutation_middle. now constructor.
  - now constructor.
Qed.

Lemma insertAt_perm {A} (i : nat) (x : A) (l : list A) :
  Permutation (insertAt i x l) (x :: l).
Proof.
  revert i. induction l as [|y l IH]; intros [|i]; simpl; try reflexivity.
  rewrite IH. apply perm_swap.
Qed.

Lemma removeAt_perm {A} (j : nat) (x : A) (l : list A) :
  nth_error l j = Some x -> Permutation (x :: removeAt j l) l.
Proof.
  revert j. induction l as [|y l IH]; intros [|j]; simpl; try discriminate.
  - intros [= ->]. reflexivity.
  - intros H. rewrite perm_swap. constructor. now apply IH.
Qed.

Lemma removeAt_length {A} (j : nat) (x : A) (l : list A) :
  nth_error l j = Some x -> length (removeAt j l) = length l - 1.
Proof.
  revert j. induction l as [|y l IH]; intros [|j]; simpl; try discriminate.
  - intros _. lia.
  - intros H. rewrite (IH j H).
    assert (j < length l) by (apply nth_error_Some; congruence).
    lia.
Qed.

Lemma insertAt_nth {A} (i : nat) (x : A) (l : list A) :
  nth_error (insertAt i x l) (Nat.min i (length l)) = Some x.
Proof.
  revert i. induction l as [|y l IH]; intros [|i]; simpl; try reflexivity.
  apply IH.
Qed.

Lemma removeAt_insertAt {A} (i : nat) (x : A) (l : list A) :
  removeAt (Nat.min i (length l)) (insertAt i x l) = l.
Proof.
  revert i. induction l as [|y l IH]; intros [|i]; simpl; try reflexivity.
  now rewrite IH.
Qed.

Variable host : Host.t.

(** Loading the custom prompts never throws.  When the backend answers a
    configuration, the prompts shown are those of the configuration, none
    lost and none added, in ascending order of [sort_order], and those of
    one [sort_order] in the order the configuration gave them; the list
    that can be dragged holds exactly the normal ones, and the prompts are
    enabled unless the configuration says otherwise.  When the backend
    answers none or fails, every ref is as before, and a failure is only
    logged: no message is shown. *)
Theorem loading_the_prompts (s : State) (t : Host.trace) :
  let t1 :=
    t ++ [Host.EConsole Host.log "PopupInput: 开始加载自定义prompt配置"] in
  let r := Host.invoke host t1 Host.get_custom_prompt_config in
  let out := Rt.run (loadCustomPrompts host) s t in
  let s' := Rt.st (snd out) in
  fst out = Js.Ret tt
  /\ (forall config,
         r = Js.Ret (Some config) ->
         Permutation (customPrompts s')
           (match CustomPromptConfig.prompts config with
            | Some l => l
            | None => []
            end)
         /\ StronglySorted bySortOrder (customPrompts s')
         /\ (forall k,
                filter (ofOrder k) (customPrompts s')
                = filter (ofOrder k)
                    (match CustomPromptConfig.prompts config with
                     | Some l => l
                     | None => []
                     end))
         /\ sortablePrompts s' = normalPrompts s'
         /\ customPromptEnabled s'
            = match CustomPromptConfig.enabled config with
              | Some b => b
              | None => true
              end
         /\ s'
            = set_sortablePrompts (sortablePrompts s')
                (set_customPromptEnabled (customPromptEnabled s')
                   (set_customPrompts (customPrompts s') s)))
  /\ (r = Js.Ret None ->
      snd out = Rt.mkWorld s (t1 ++ [Host.EInvoke Host.get_custom_prompt_config r]))
  /\ (forall e,
         r = Js.Throw e ->
         snd out
         = Rt.mkWorld s
             (t1 ++ [Host.EInvoke Host.get_custom_prompt_config r;
                     Host.EConsole Host.cerror
                       "PopupInput: 加载自定义prompt失败:"])).
Proof.
  intros t1 r out s'. subst s' out r t1.
  unfold Rt.run, loadCustomPrompts.
  unfold Rt.try_catch, Rt.bind, Rt.invoke, Rt.console_log, Rt.console_error,
    Rt.effect, Rt.modify, Rt.get, Rt.ret.
  cbn [Rt.st Rt.tr fst snd].
  destruct (Host.invoke host _ Host.get_custom_prompt_config) as [[config|]|e];
    cbn [Rt.st Rt.tr fst snd].
  - assert (K : forall (b : bool) (m1 m2 : Rt.M State unit) w,
               (exists w1, m1 w = (Js.Ret tt, w1) /\ Rt.st w1 = Rt.st w) ->
               (exists w2, m2 w = (Js.Ret tt, w2) /\ Rt.st w2 = Rt.st w) ->
               exists w', (if b then m1 else m2) w = (Js.Ret tt, w')
                          /\ Rt.st w' = Rt.st w).
    { intros [] m1 m2 w H1 H2; assumption. }
    match goal with
    | |- context [(if ?b then ?m1 else ?m2) ?w] =>
        destruct (K b m1 m2 w) as (w' & E & Est);
          [eexists; split; reflexivity
          |eexists; split; reflexivity|rewrite E]
    end.
    cbn [Rt.st Rt.tr fst snd] in *. rewrite Est.
    cbn [customPrompts sortablePrompts customPromptEnabled
         set_customPrompts set_sortablePrompts set_customPromptEnabled
         normalPrompts].
    split; [reflexivity|]. split; [|split; [discriminate|discriminate]].
    intros config' [= <-].
    split; [apply sortBySortOrder_perm|].
    split; [apply sortBySortOrder_sorted|].
    split; [intros k; apply sortBySortOrder_stable|].
    repeat split.
  - split; [reflexivity|]. split; [discriminate|].
    split; [|discriminate]. intros _. rewrite <- !app_assoc. reflexivity.
  - split; [reflexivity|]. split; [discriminate|].
    split; [discriminate|]. intros e' [= <-].
    rewrite <- !app_assoc. reflexivity.
Qed.

(** A finished drag of a normal prompt from one index to another, when the
    list that can be dragged holds the normal prompts (as it does after
    loading) and the backend saves the order.  The prompt dragged stands at
    the new index, or last when that index is beyond the list, and the
    other prompts keep their order.  No prompt is lost or added, the
    conditional prompts are the same, the list that can be dragged still
    holds exactly the normal prompts, and the ids sent to the backend are
    those of the new order. *)
Theorem drag_keeps_every_prompt
  (oldIndex newIndex : nat) (moved : CustomPrompt.t)
  (s : State) (t : Host.trace) :
  sortablePrompts s = normalPrompts s ->
  nth_error (sortablePrompts s) oldIndex = Some moved ->
  oldIndex <> newIndex ->
  (forall t' ids,
      Host.invoke host t' (Host.update_custom_prompt_order ids)
      = Js.Ret tt) ->
  let out := Rt.run (onEnd host oldIndex newIndex) s t in
  let s' := Rt.st (snd out) in
  let place := Nat.min newIndex (length (sortablePrompts s) - 1) in
  fst out = Js.Ret tt
  /\ nth_error (sortablePrompts s') place = Some moved
  /\ removeAt place (sortablePrompts s')
     = removeAt oldIndex (sortablePrompts s)
  /\ Permutation (customPrompts s') (customPrompts s)
  /\ conditionalPrompts s' = conditionalPrompts s
  /\ sortablePrompts s' = normalPrompts s'
  /\ In (Host.EInvoke
           (Host.update_custom_prompt_order
              (map CustomPrompt.id (sortablePrompts s')))
           (Js.Ret tt))
        (Rt.tr (snd out)).
Proof.
  intros Hsync Hnth Hneq Hsave out s' place. subst s' out.
  set (newList := insertAt newIndex moved (removeAt oldIndex (sortablePrompts s))).
  assert (R : exists t',
             Rt.run (onEnd host oldIndex newIndex) s t
             = (Js.Ret tt,
                Rt.mkWorld
                  (set_customPrompts
                     (newList ++ filter isConditional (customPrompts s))
                     (set_sortablePrompts newList s))
                  t')
             /\ In (Host.EInvoke
                      (Host.update_custom_prompt_order
                         (map CustomPrompt.id newList)) (Js.Ret tt)) t').
  { unfold Rt.run, onEnd, savePromptOrder.
    unfold Rt.try_catch, Rt.void, Rt.bind, Rt.invoke, Rt.console_log,
      Rt.message_success, Rt.effect, Rt.modify, Rt.get, Rt.ret.
    cbn [Rt.st Rt.tr fst snd]. rewrite Hnth.
    apply Nat.eqb_neq in Hneq. rewrite Hneq.
    cbn [negb Rt.st Rt.tr fst snd sortablePrompts set_sortablePrompts
         set_customPrompts customPrompts].
    rewrite Hsave. cbn [Rt.st Rt.tr fst snd].
    eexists. split; [reflexivity|].
    apply in_or_app. left. apply in_or_app. right. left. reflexivity. }
  destruct R as (t' & R & Hin). rewrite R.
  unfold conditionalPrompts, normalPrompts in *.
  cbn [Rt.st Rt.tr fst snd sortablePrompts set_sortablePrompts
       set_customPrompts customPrompts].
  assert (Hplace : place = Nat.min newIndex
                             (length (removeAt oldIndex (sortablePrompts s)))).
  { unfold place. now rewrite (@removeAt_length _ _ _ _ Hnth). }
  assert (Hperm : Permutation newList (filter isNormal (customPrompts s))).
  { unfold newList. rewrite insertAt_perm.
    rewrite (@removeAt_perm _ _ _ _ Hnth). now rewrite Hsync. }
  assert (Hnormal : Forall (fun p => isNormal p = true) newList).
  { apply (Permutation_Forall (Permutation_sym Hperm)).
    apply Forall_filter_true. }
  assert (Hnone : filter isConditional newList = []).
  { apply filter_none_of. eapply Forall_impl; [|exact Hnormal].
    intros p Hp. cbv beta in Hp. rewrite normal_or_conditional in Hp.
    now destruct (isConditional p). }
  assert (Hcond : filter isNormal (filter isConditional (customPrompts s))
                  = []).
  { apply filter_none_of. apply Forall_forall. intros p Hp.
    apply filter_In in Hp. rewrite normal_or_conditional.
    destruct Hp as [_ ->]. reflexivity. }
  split; [reflexivity|].
  split; [rewrite Hplace; apply insertAt_nth|].
  split; [rewrite Hplace; apply removeAt_insertAt|].
  split; [rewrite Hperm; apply split_by_type|].
  split.
  - rewrite filter_app, Hnone. simpl.
    apply filter_all_of, Forall_filter_true.
  - split; [|exact Hin].
    rewrite filter_app, Hcond, app_nil_r.
    symmetry. now apply filter_all_of.
Qed.

End PromptFacts.

(** A backend like that of [Sample.up] which knows a prompt configuration. *)
Definition promptBackend (config : CustomPromptConfig.t) : Host.t :=
  Host.mk
    (fun R t c =>
       match c in Host.Command R return Js.Outcome R -> Js.Outcome R with
       | Host.get_custom_prompt_config => fun _ => Js.Ret (Some config)
       | _ => fun answer => answer
       end (Host.invoke Sample.up t c))
    (fun R => Host.web Sample.up (R:=R))
    (fun R => Host.query Sample.up (R:=R)).

Definition normalPrompt (id : string) (order : Z) : CustomPrompt.t :=
  CustomPrompt.mk id id "text" None order "" "" (Some normal)
    None None None None.

(** A configuration with prompts of equal [sort_order]: [e] and the
    conditional prompt of order 0, [a] and [d] of order 1, [b] and [c] of
    order 2. *)
Lemma loading_the_prompts_witness :
  let given :=
    [normalPrompt "b" 2; normalPrompt "a" 1; normalPrompt "e" 0;
     normalPrompt "d" 1; Sample.conditionalPrompt None; normalPrompt "c" 2] in
  let host := promptBackend (CustomPromptConfig.mk (Some given) None 10) in
  let s' :=
    Rt.st (snd (Rt.run (PopupInput.loadCustomPrompts host)
                  (PopupInput.initial None) [])) in
  map CustomPrompt.id (PopupInput.customPrompts s')
  = ["e"; "p1"; "a"; "d"; "b"; "c"]
  /\ Permutation (PopupInput.customPrompts s') given
  /\ StronglySorted bySortOrder (PopupInput.customPrompts s')
  /\ filter (ofOrder 1) (PopupInput.customPrompts s')
     = [normalPrompt "a" 1; normalPrompt "d" 1]
  /\ PopupInput.sortablePrompts s' = PopupInput.normalPrompts s'
  /\ PopupInput.customPromptEnabled s' = true.
Proof.
  intros given host s'.
  pose proof (loading_the_prompts host (PopupInput.initial None) []) as H.
  cbv zeta in H. destruct H as (_ & H & _).
  destruct (H (CustomPromptConfig.mk (Some given) None 10) eq_refl)
    as (H1 & H2 & H3 & H4 & H5 & _).
  split; [reflexivity|].
  split; [exact H1|]. split; [exact H2|].
  split; [exact (H3 1%Z)|]. split; [exact H4|exact H5].
Defined.

Lemma drag_keeps_every_prompt_witness :
  let a := normalPrompt "a" 1 in
  let b := normalPrompt "b" 2 in
  let c := Sample.conditionalPrompt None in
  let s :=
    PopupInput.set_sortablePrompts [a; b]
      (PopupInput.set_customPrompts [a; b; c] (PopupInput.initial None)) in
  let s' := Rt.st (snd (Rt.run (PopupInput.onEnd Sample.up 0 7) s [])) in
  nth_error (PopupInput.sortablePrompts s') 1 = Some a
  /\ Permutation (PopupInput.customPrompts s') [a; b; c]
  /\ PopupInput.conditionalPrompts s' = [c].
Proof.
  intros a b c s s'.
  pose proof (@drag_keeps_every_prompt Sample.up 0 7 a s []) as H.
  cbv zeta in H.
  destruct H as (_ & H2 & _ & H4 & H5 & _);
    [reflexivity|reflexivity|discriminate|intros; reflexivity|].
  split; [exact H2|]. split; [exact H4|exact H5].
Defined.

(** ** Images read from the clipboard of the backend *)

Definition isMessage (e : Host.Effect) : bool :=
  match e with
  | Host.EMessage _ _ => true
  | _ => false
  end.

Definition isUpdate (e : Host.Effect) : bool :=
  match e with
  | Host.EEmitUpdate _ _ _ => true
  | _ => false
  end.

Section ClipboardFacts.

Import PopupInput.

Variable host : Host.t.

Lemma addBlocks_run (blocks : list Host.ClipboardBlock) :
  forall (count : nat) (s : State) (t : Host.trace),
  exists added new,
    Rt.run (addBlocks host blocks count) s t
    = (Js.Ret (count + length added),
       Rt.mkWorld (set_ingredients (ingredients s ++ added) s) (t ++ new))
    /\ Forall (fun e => isMessage e = false /\ isUpdate e = false) new
    /\ Forall
         (fun b =>
            exists block,
              In block blocks
              /\ Host.block_spice_id block
                 = Some (CachedIngredientItem.spiceId b)
              /\ Host.block_bytes block <> None)
         added.
Proof.
  induction blocks as [|block rest IH]; intros count s t.
  - exists [], []. rewrite !app_nil_r, Nat.add_0_r.
    split; [now destruct s|]. split; constructor.
  - assert (Skip : exists added new,
               Rt.run (addBlocks host rest count) s t
               = (Js.Ret (count + length added),
                  Rt.mkWorld (set_ingredients (ingredients s ++ added) s)
                    (t ++ new))
               /\ Forall (fun e => isMessage e = false /\ isUpdate e = false)
                    new
               /\ Forall
                    (fun b =>
                       exists block0,
                         In block0 (block :: rest)
                         /\ Host.block_spice_id block0
                            = Some (CachedIngredientItem.spiceId b)
                         /\ Host.block_bytes block0 <> None)
                    added).
    { destruct (IH count s t) as (added & new & R & Q & B).
      exists added, new. split; [exact R|]. split; [exact Q|].
      eapply Forall_impl; [|exact B].
      intros b (block0 & Hin & Hid). exists block0. split; [now right|exact Hid]. }
    cbn [addBlocks].
    destruct (Host.block_bytes block) as [bytes|] eqn:Eb; [|exact Skip].
    destruct (Host.block_spice_id block) as [spiceId|] eqn:Ei;
      [|exact Skip].
    destruct (Host.block_dish_type block) as [dishType|] eqn:Ed;
      [|cbn [missing orb]; rewrite orb_true_r; exact Skip].
    cbn [missing orEmpty].
    destruct (negb (Js.truthy spiceId) || negb (Js.truthy dishType));
      [exact Skip|].
    unfold Rt.run in *. unfold Rt.bind at 1. unfold Rt.get at 1.
    cbn [Rt.st Rt.tr fst snd].
    destruct (hasSpice s spiceId); [exact Skip|].
    unfold Rt.bind at 1. unfold Rt.query at 1. cbn [Rt.st Rt.tr fst snd].
    unfold Rt.bind at 1. unfold Rt.modify at 1. cbn [Rt.st Rt.tr fst snd].
    match goal with
    | |- context [addBlocks host rest (count + 1)
                    {| Rt.st := ?s1; Rt.tr := ?t1 |}] =>
        destruct (IH (count + 1) s1 t1) as (added & new & R & Q & B)
    end.
    rewrite R. eexists (_ :: added), (_ :: new).
    split; [|split].
    + cbn [length pushIngredient ingredients set_ingredients].
      rewrite <- !app_assoc. cbn [app].
      replace (count + 1 + length added) with (count + S (length added))
        by lia.
      reflexivity.
    + constructor; [split; reflexivity|exact Q].
    + constructor.
      * exists block. split; [now left|]. split; [exact Ei|congruence].
      * eapply Forall_impl; [|exact B].
        intros b (block0 & Hin & Hid). exists block0.
        split; [now right|exact Hid].
Qed.

(** The count that the read of the clipboard of the backend returns is the
    number of ingredients it added: the ingredients of before stay, in
    order, and that many are appended, each with the id of a block read
    that has bytes.  No other ref changes and the read never throws.  When
    the count is not zero the parent is told last, with the ids then
    shown; when it is zero nothing is told.  A silent read shows no
    message, and a failed read adds nothing. *)
Theorem clipboard_count_is_what_was_added
  (silent : bool) (s : State) (t : Host.trace) :
  let read := Host.read_clipboard_ingredients_cached in
  exists (n : nat) (added : list CachedIngredientItem.t)
         (new : list Host.Effect),
    Rt.run (addIngredientsFromRustClipboard host silent) s t
    = (Js.Ret n,
       Rt.mkWorld (set_ingredients (ingredients s ++ added) s)
         (t ++ Host.EInvoke read (Host.invoke host t read) :: new))
    /\ length added = n
    /\ (forall blocks,
           Host.invoke host t read = Js.Ret blocks ->
           Forall
             (fun b =>
                exists block,
                  In block blocks
                  /\ Host.block_spice_id block
                     = Some (CachedIngredientItem.spiceId b)
                  /\ Host.block_bytes block <> None)
             added)
    /\ (forall e, Host.invoke host t read = Js.Throw e -> n = 0)
    /\ (silent = true -> Forall (fun e => isMessage e = false) new)
    /\ (n = 0 -> Forall (fun e => isUpdate e = false) new)
    /\ (0 < n ->
        exists before,
          new
          = before
              ++ [Host.EEmitUpdate
                    (note s ++ generateConditionalContent s)%string
                    (toppings s)
                    (map CachedIngredientItem.spiceId
                       (ingredients s ++ added))]).
Proof.
  intros read. subst read.
  unfold Rt.run, addIngredientsFromRustClipboard.
  unfold Rt.try_catch. unfold Rt.bind at 1. unfold Rt.invoke at 1.
  cbn [Rt.st Rt.tr fst snd].
  destruct (Host.invoke host t Host.read_clipboard_ingredients_cached)
    as [blocks|e] eqn:E.
  - destruct (length blocks =? 0) eqn:L.
    + cbn [Rt.ret fst snd Rt.st Rt.tr].
      exists 0, [], []. rewrite app_nil_r.
      split; [now destruct s|]. split; [reflexivity|].
      split; [constructor|]. split; [discriminate|].
      split; [constructor|]. split; [constructor|]. intros H; lia.
    + destruct (addBlocks_run blocks 0 s
                  (t ++ [Host.EInvoke Host.read_clipboard_ingredients_cached
                           (Js.Ret blocks)]))
        as (added & new & R & Q & B).
      unfold Rt.run in R. unfold Rt.bind at 1. rewrite R.
      cbn [Nat.add].
      destruct added as [|b added'].
      * cbn [length Nat.ltb Nat.leb Rt.when Rt.bind Rt.ret fst snd Rt.st
             Rt.tr].
        exists 0, [], new. rewrite <- app_assoc.
        split; [reflexivity|]. split; [reflexivity|].
        split; [constructor|]. split; [discriminate|].
        split; [|split; [|intros H; lia]]; intros _;
          (eapply Forall_impl; [|exact Q]); now intros e0 [A1 A2].
      * set (added := b :: added') in *.
        change (0 <? length added) with true. cbn [Rt.when].
        unfold emitUpdate, Rt.bind, Rt.when, Rt.message_success, Rt.effect,
          Rt.get, Rt.ret.
        destruct silent; cbn [negb Rt.st Rt.tr fst snd];
          cbn [ingredients note toppings set_ingredients customPrompts];
          rewrite <- ?app_assoc; cbn [app];
          exists (length added), added; eexists;
          (split; [reflexivity|]); (split; [reflexivity|]);
          (split; [intros blocks' [= <-]; exact B|]);
          (split; [discriminate|]).
        -- split; [|split].
           ++ intros _. apply Forall_app. split.
              ** eapply Forall_impl; [|exact Q]. now intros e0 [A _].
              ** repeat constructor.
           ++ discriminate.
           ++ intros _. eexists. reflexivity.
        -- split; [discriminate|]. split; [discriminate|].
           intros _.
           exists (new ++ [Host.EMessage Host.success
                             ("已添加 "
                                ++ Js.String_of_Z (Z.of_nat (length added))
                                ++ " 个食材")%string]).
           rewrite <- app_assoc. reflexivity.
  - cbn [Rt.st Rt.tr fst snd].
    unfold Rt.bind, Rt.when, Rt.message_error, Rt.effect, Rt.ret.
    destruct silent; cbn [negb Rt.st Rt.tr fst snd].
    + exists 0, [], []. rewrite app_nil_r.
      split; [now destruct s|]. split; [reflexivity|].
      split; [discriminate|]. split; [reflexivity|].
      split; [constructor|]. split; [constructor|]. intros H; lia.
    + exists 0, []. eexists. rewrite app_nil_r, <- app_assoc.
      split; [destruct s; reflexivity|]. split; [reflexivity|].
      split; [discriminate|]. split; [reflexivity|].
      split; [discriminate|]. split; [|intros H; lia].
      intros _. repeat constructor.
Qed.

(** ** The switch of a conditional prompt, seen from outside *)

Lemma setStateOfFirst_forget (promptId : string) (v b : bool)
  (l : list CustomPrompt.t) :
  map (with_current_state b) (setStateOfFirst promptId v l)
  = map (with_current_state b) l.
Proof.
  induction l as [|p l IH]; simpl; [reflexivity|].
  destruct (String.eqb (CustomPrompt.id p) promptId); simpl;
    [reflexivity|now rewrite IH].
Qed.

Lemma setStateOfFirst_unknown (promptId : string) (v : bool)
  (l : list CustomPrompt.t) :
  findPrompt promptId l = None -> setStateOfFirst promptId v l = l.
Proof.
  unfold findPrompt. induction l as [|p l IH]; simpl; [reflexivity|].
  destruct (String.eqb (CustomPrompt.id p) promptId); [discriminate|].
  intros H. now rewrite IH.
Qed.

Lemma deliver_quiet (new : list Host.Effect) (p : McpPopup.State) :
  Forall (fun e => isUpdate e = false) new -> McpPopup.deliver new p = p.
Proof.
  unfold McpPopup.deliver. revert p.
  induction new as [|e new IH]; intros p H; [reflexivity|].
  inversion H as [|? ? He Hnew]; subst. cbn [fold_left].
  destruct e; try discriminate He; now apply IH.
Qed.

(** Switching a conditional prompt changes nothing but the state of
    prompts: the prompts keep their number, order and every other field,
    and the other refs of the input are as before; a switch for an id that
    no prompt has changes nothing at all, though the backend is still
    asked.  The parent is never told: no update is emitted, and so the
    note, the options and the ids that the popup would submit are those of
    before the switch. *)
Theorem conditional_toggle_is_local
  (toLowerCase : string -> string)
  (promptId : string) (value : bool) (s : State) (t : Host.trace) :
  let out := Rt.run (handleConditionalToggle host promptId value) s t in
  let s' := Rt.st (snd out) in
  s' = set_customPrompts (customPrompts s') s
  /\ (forall b,
         map (with_current_state b) (customPrompts s')
         = map (with_current_state b) (customPrompts s))
  /\ (findPrompt promptId (customPrompts s) = None ->
      s' = s
      /\ exists r rest,
          Rt.tr (snd out)
          = t ++ Host.EInvoke
                   (Host.update_conditional_prompt_state promptId value) r
                :: rest)
  /\ (exists new,
         Rt.tr (snd out) = t ++ new
         /\ Forall (fun e => isUpdate e = false) new)
  /\ (forall (p : McpPopup.State) (t0 : Host.trace),
         let p' :=
           Rt.st (snd (Rt.run
                         (McpPopup.handler toLowerCase host
                            (McpPopup.InputConditionalToggle promptId value))
                         p t0)) in
         McpPopup.note p' = McpPopup.note p
         /\ McpPopup.toppings p' = McpPopup.toppings p
         /\ McpPopup.spiceIds p' = McpPopup.spiceIds p
         /\ McpPopup.canSubmit p' = McpPopup.canSubmit p).
Proof.
  intros out s'. subst s' out.
  assert (R : exists prompts new,
             Rt.run (handleConditionalToggle host promptId value) s t
             = (Js.Ret tt,
                Rt.mkWorld (set_customPrompts prompts s)
                  (t ++ Host.EInvoke
                          (Host.update_conditional_prompt_state promptId
                             value)
                          (Host.invoke host t
                             (Host.update_conditional_prompt_state promptId
                                value))
                       :: new))
             /\ (forall b,
                    map (with_current_state b) prompts
                    = map (with_current_state b) (customPrompts s))
             /\ (findPrompt promptId (customPrompts s) = None ->
                 prompts = customPrompts s)
             /\ Forall (fun e => isUpdate e = false) new).
  { unfold Rt.run, handleConditionalToggle.
    unfold Rt.bind, Rt.modify, Rt.try_catch, Rt.invoke, Rt.message_success,
      Rt.message_error, Rt.console_error, Rt.effect.
    cbn [Rt.st Rt.tr fst snd].
    destruct (Host.invoke host t
                (Host.update_conditional_prompt_state promptId value));
      cbn [Rt.st Rt.tr fst snd customPrompts set_customPrompts];
      rewrite <- ?app_assoc; cbn [app];
      eexists; eexists; (split; [reflexivity|]); split.
    - intros b. apply setStateOfFirst_forget.
    - split; [apply setStateOfFirst_unknown|repeat constructor].
    - intros b. now rewrite !setStateOfFirst_forget.
    - split; [|repeat constructor].
      intros H. rewrite (@setStateOfFirst_unknown promptId value _ H).
      now apply setStateOfFirst_unknown. }
  split; [|split; [|split; [|split]]].
  - destruct R as (prompts & new & R & _). rewrite R. reflexivity.
  - destruct R as (prompts & new & R & F & _). rewrite R. exact F.
  - destruct R as (prompts & new & R & _ & U & _). rewrite R.
    intros H. cbn [Rt.st Rt.tr fst snd]. split.
    + rewrite (U H). now destruct s.
    + eexists. eexists. reflexivity.
  - destruct R as (prompts & new & R & _ & _ & Q). rewrite R.
    eexists. split; [reflexivity|].
    constructor; [reflexivity|exact Q].
  - intros p t0 p'. subst p'.
    unfold Rt.run. cbn [McpPopup.handler McpPopup.inputHandler].
    unfold McpPopup.withInput. cbn [Rt.st Rt.tr].
    destruct (McpPopup.inputRef p) as [i|]; [|repeat split].
    clear R.
    assert (R : exists prompts new,
               handleConditionalToggle host promptId value (Rt.mkWorld i t0)
               = (Js.Ret tt,
                  Rt.mkWorld (set_customPrompts prompts i) (t0 ++ new))
               /\ Forall (fun e => isUpdate e = false) new).
    { unfold handleConditionalToggle.
      unfold Rt.bind, Rt.modify, Rt.try_catch, Rt.invoke, Rt.message_success,
        Rt.message_error, Rt.console_error, Rt.effect.
      cbn [Rt.st Rt.tr fst snd].
      destruct (Host.invoke host t0
                  (Host.update_conditional_prompt_state promptId value));
        cbn [Rt.st Rt.tr fst snd customPrompts set_customPrompts];
        rewrite <- ?app_assoc; cbn [app];
        eexists; eexists; (split; [reflexivity|]); repeat constructor. }
    destruct R as (prompts & new & R & Q). rewrite R.
    cbn [Rt.st Rt.tr fst snd].
    rewrite skipn_app, skipn_all, Nat.sub_diag. cbn [skipn app].
    rewrite (deliver_quiet _ Q). repeat split.
Qed.

End ClipboardFacts.

Lemma clipboard_count_is_what_was_added_witness :
  exists (n : nat) (added : list CachedIngredientItem.t)
         (new : list Host.Effect),
    fst (Rt.run (PopupInput.addIngredientsFromRustClipboard Sample.up true)
           (PopupInput.initial None) [])
    = Js.Ret n
    /\ length added = n
    /\ Forall (fun e => isMessage e = false) new.
Proof.
  pose proof (clipboard_count_is_what_was_added Sample.up true
                (PopupInput.initial None) []) as H.
  cbv zeta in H.
  destruct H as (n & added & new & H1 & H2 & _ & _ & H5 & _).
  exists n, added, new. split; [now rewrite H1|]. split; [exact H2|].
  apply H5. reflexivity.
Defined.

Lemma conditional_toggle_is_local_witness :
  let s :=
    PopupInput.set_customPrompts [Sample.conditionalPrompt None]
      (PopupInput.initial None) in
  Rt.st (snd (Rt.run
                (PopupInput.handleConditionalToggle Sample.up "other" true)
                s []))
  = s.
Proof.
  intros s.
  pose proof (conditional_toggle_is_local Sample.up Sample.toLowerCase
                "other" true s []) as H.
  cbv zeta in H. destruct H as (_ & _ & H & _).
  destruct (H eq_refl) as (H1 & _). exact H1.
Defined.

(* ================================================================== *)
(** * Further properties of the popup *)
(* ================================================================== *)

(** ** The three actions *)

(** The responses that a run emitted to the parent, those it asked the
    backend to send, and whether an effect is a command of the backend. *)
Definition emitted (t : Host.trace) : list DishResponse.t :=
  flat_map
    (fun e => match e with Host.EEmitResponse r => [r] | _ => [] end) t.

Definition isInvoke (e : Host.Effect) : bool :=
  match e with
  | Host.EInvoke _ _ => true
  | _ => false
  end.

Definition isExit (e : Host.Effect) : bool :=
  match e with
  | Host.EInvoke c _ =>
      match c with
      | Host.exit_app => true
      | _ => false
      end
  | _ => false
  end.

Inductive Action : Type := ASubmit | AContinue | AEnhance.

Section ActionFacts.

Import McpPopup.

Variable host : Host.t.

Definition handlerOf (a : Action) : Rt.M State unit :=
  match a with
  | ASubmit => handleSubmit host
  | AContinue => handleContinue host
  | AEnhance => handleEnhance host
  end.

Definition responseOf (a : Action) (s : State) (cooked_at : string)
  : DishResponse.t :=
  match a with
  | ASubmit => submitResponse s cooked_at
  | AContinue => continueResponse s cooked_at
  | AEnhance => enhanceResponse s cooked_at
  end.

(** The guard of an action. *)
Definition allowed (a : Action) (s : State) : bool :=
  match a with
  | ASubmit => canSubmit s && negb (submitting s)
  | _ => negb (submitting s)
  end.

Definition failureText (a : Action) : string :=
  match a with
  | ASubmit => "提交失败，请重试"
  | AContinue => "继续请求失败，请重试"
  | AEnhance => "增强请求失败，请重试"
  end.

Definition failureLog (a : Action) : string :=
  match a with
  | ASubmit => "提交响应失败:"
  | AContinue => "发送继续请求失败:"
  | AEnhance => "发送增强请求失败:"
  end.

Definition mockText (a : Action) : string :=
  match a with
  | ASubmit => "模拟响应发送成功"
  | AContinue => "继续请求发送成功"
  | AEnhance => "增强请求发送成功"
  end.

Lemma action_run (a : Action) (s : State) (t : Host.trace) :
  allowed a s = true ->
  let now := Host.query host t Host.new_Date_toISOString in
  let t1 := t ++ [Host.EQuery Host.new_Date_toISOString now] in
  let r := responseOf a s now in
  let send := Host.send_mcp_response r in
  Rt.run (handlerOf a) s t
    = (Js.Ret tt,
       Rt.mkWorld s
         (t1
            ++ if mockMode s
               then [Host.EDelay 1000; Host.EMessage Host.success (mockText a);
                     Host.EEmitResponse r]
               else
                 Host.EInvoke send (Host.invoke host t1 send)
                 :: match Host.invoke host t1 send with
                    | Js.Throw _ =>
                        [Host.EConsole Host.cerror (failureLog a);
                         Host.EMessage Host.error (failureText a)]
                    | Js.Ret u =>
                        let t2 := t1 ++ [Host.EInvoke send (Js.Ret u)] in
                        Host.EInvoke Host.exit_app
                          (Host.invoke host t2 Host.exit_app)
                        :: match Host.invoke host t2 Host.exit_app with
                           | Js.Throw _ =>
                               [Host.EConsole Host.cerror (failureLog a);
                                Host.EMessage Host.error (failureText a)]
                           | Js.Ret _ => [Host.EEmitResponse r]
                           end
                    end)).
Proof.
  intros Hal now t1 r send. subst send r t1 now.
  assert (Hsub : submitting s = false).
  { destruct a; simpl in Hal;
      try (apply andb_prop in Hal; destruct Hal as [_ Hal]);
      now destruct (submitting s). }
  assert (Hs : set_submitting false s = s).
  { destruct s; simpl in *; now subst. }
  destruct a; cbn [handlerOf responseOf failureText failureLog mockText];
    unfold Rt.run, handleSubmit, handleContinue, handleEnhance, McpPopup.send;
    unfold Rt.message_success, Rt.message_error, Rt.console_error;
    unfold Rt.bind, Rt.get, Rt.modify, Rt.try_finally, Rt.try_catch,
      Rt.query, Rt.invoke, Rt.effect, Rt.ret;
    cbn [Rt.st Rt.tr fst snd];
    rewrite ?Hsub;
    try (simpl in Hal; apply andb_prop in Hal; destruct Hal as [Hcan _];
         rewrite Hcan);
    cbn [negb orb Rt.st Rt.tr fst snd mockMode set_submitting];
    (destruct (mockMode s) eqn:Hm;
     [|destruct (Host.invoke host _ (Host.send_mcp_response _)) as [u|e];
       cbn [Rt.st Rt.tr fst snd];
       [destruct (Host.invoke host _ Host.exit_app) as [u'|e']|]]);
    cbn [Rt.st Rt.tr fst snd mockMode set_submitting];
    rewrite <- ?app_assoc; cbn [app];
    (apply f_equal2; [reflexivity|]);
    (apply f_equal2; [|reflexivity]);
    (transitivity (set_submitting false s); [|exact Hs]);
    destruct s; reflexivity.
Qed.

(** The three actions of the popup: submit, continue and enhance.  An
    action that is not allowed (while another is under way, or a submit
    when nothing can be submitted) does nothing at all.  An allowed action
    leaves every ref as it was, the flag of submission cleared again.  In
    mock mode it invokes no command of the backend and emits its response.
    Otherwise it asks the backend once to send its response, asks to exit
    only when that returned, and emits the response, only once, exactly
    when both returned; when either failed it emits nothing and shows the
    failure message last, also when the response was already sent. *)
Theorem actions_send_then_emit (a : Action) (s : State) (t : Host.trace) :
  let out := Rt.run (handlerOf a) s t in
  let now := Host.query host t Host.new_Date_toISOString in
  let t1 := t ++ [Host.EQuery Host.new_Date_toISOString now] in
  let r := responseOf a s now in
  let send := Host.send_mcp_response r in
  (allowed a s = false -> out = (Js.Ret tt, Rt.mkWorld s t))
  /\ (allowed a s = true ->
      fst out = Js.Ret tt
      /\ Rt.st (snd out) = s
      /\ exists new,
          Rt.tr (snd out) = t1 ++ new
          /\ (mockMode s = true ->
              filter isInvoke new = [] /\ emitted new = [r])
          /\ (mockMode s = false ->
              let sent := Host.invoke host t1 send in
              let exited :=
                Host.invoke host (t1 ++ [Host.EInvoke send sent])
                  Host.exit_app in
              filter isInvoke new
              = Host.EInvoke send sent
                  :: (if Rt.returns sent
                      then [Host.EInvoke Host.exit_app exited] else [])
              /\ emitted new
                 = (if Rt.returns sent && Rt.returns exited
                    then [r] else [])
              /\ (Rt.returns sent && Rt.returns exited = false ->
                  exists before,
                    new
                    = before
                        ++ [Host.EMessage Host.error (failureText a)]))).
Proof.
  intros out now t1 r send. subst out. split.
  - intros Hno. destruct a; cbn [handlerOf allowed] in *;
      unfold Rt.run, handleSubmit, handleContinue, handleEnhance;
      unfold Rt.bind, Rt.get; cbn [Rt.st Rt.tr fst snd].
    + destruct (canSubmit s); destruct (submitting s);
        try discriminate Hno; reflexivity.
    + destruct (submitting s); [reflexivity|discriminate Hno].
    + destruct (submitting s); [reflexivity|discriminate Hno].
  - intros Hal.
    pose proof (action_run a s t Hal) as R.
    cbv zeta in R. fold now in R. fold t1 in R. fold r in R. fold send in R.
    rewrite R. cbn [Rt.st Rt.tr fst snd].
    split; [reflexivity|]. split; [reflexivity|].
    eexists. split; [reflexivity|]. split.
    + intros Hm. rewrite Hm. split; reflexivity.
    + intros Hm. cbv zeta. rewrite Hm.
      destruct (Host.invoke host t1 send) as [u|e] eqn:Es.
      * destruct (Host.invoke host (t1 ++ [Host.EInvoke send (Js.Ret u)])
                    Host.exit_app) as [u'|e'] eqn:Ee.
        -- cbn. repeat split. discriminate.
        -- cbn. repeat split. intros _.
           exists [Host.EInvoke send (Js.Ret u);
                   Host.EInvoke Host.exit_app (Js.Throw e');
                   Host.EConsole Host.cerror (failureLog a)].
           reflexivity.
      * cbn. repeat split. intros _.
        exists [Host.EInvoke send (Js.Throw e);
                Host.EConsole Host.cerror (failureLog a)].
        reflexivity.
Qed.

End ActionFacts.

Lemma actions_send_then_emit_witness :
  let s :=
    McpPopup.set_note "go" (McpPopup.initial false) in
  exists new,
    Rt.tr (snd (Rt.run (McpPopup.handleSubmit Sample.up) s []))
    = [Host.EQuery Host.new_Date_toISOString "2025-03-04T05:06:07.000Z"]
        ++ new
    /\ emitted new
       = [McpPopup.submitResponse s "2025-03-04T05:06:07.000Z"].
Proof.
  intros s.
  pose proof (actions_send_then_emit Sample.up ASubmit s []) as H.
  cbv zeta in H. destruct H as (_ & H).
  destruct (H eq_refl) as (_ & _ & new & H1 & _ & H3).
  exists new. split; [exact H1|].
  destruct (H3 eq_refl) as (_ & H5 & _). exact H5.
Defined.

(* ================================================================== *)
(** * What the handlers report, send and ingest *)
(* ================================================================== *)

(** ** Errors of the backend, as the handlers report them *)


Section ReportFacts.

Variable toLowerCase : string -> string.
Variable newDate : string -> option HistoryTab.LocalTime.
Variable toISOString : Z -> string.
Variable sortKeys : list string -> list string.
Variable host : Host.t.








End ReportFacts.

Section InputReportFacts.

Variable toLowerCase : string -> string.
Variable host : Host.t.











End InputReportFacts.




(** ** The responses, by the action that sent them *)

(** An effect that neither sends nor emits a response. *)
Definition mute (e : Host.Effect) : Prop :=
  match e with
  | Host.EEmitResponse _ => False
  | Host.EInvoke c _ =>
      match Invariants.sentResponse c with
      | Some _ => False
      | None => True
      end
  | _ => True
  end.

Lemma only_try_finally {S A} (F : Host.Effect -> Prop)
  (m : Rt.M S A) (f : Rt.M S unit) :
  Footprint.only F m -> Footprint.only F f ->
  Footprint.only F (Rt.try_finally m f).
Proof.
  intros Hm Hf w. unfold Rt.try_finally. destruct (Hm w) as (l1 & E1 & F1).
  destruct (m w) as [r w1]. cbn [snd] in E1.
  destruct (Hf w1) as (l2 & E2 & F2).
  destruct (f w1) as [[u|e] w2]; cbn [snd] in *;
    exists (l1 ++ l2); rewrite E2, E1, app_assoc;
    (split; [reflexivity|apply Forall_app; now split]).
Qed.

Create HintDb mute.

Ltac mute_step :=
  first
    [ solve [auto with mute]
    | lazymatch goal with
      | |- Footprint.only _ (Rt.ret _) => apply Footprint.only_ret
      | |- Footprint.only _ (Rt.throw _) => apply Footprint.only_throw
      | |- Footprint.only _ Rt.get => apply Footprint.only_get
      | |- Footprint.only _ (Rt.modify _) => apply Footprint.only_modify
      | |- Footprint.only _ (Rt.effect _) =>
          apply Footprint.only_effect; exact I
      | |- Footprint.only _ (Rt.invoke _ _) =>
          apply Footprint.only_invoke; intros; exact I
      | |- Footprint.only _ (Rt.web _ _) =>
          apply Footprint.only_web; intros; exact I
      | |- Footprint.only _ (Rt.query _ _) =>
          apply Footprint.only_query; intros; exact I
      | |- Footprint.only _ (Rt.attempt _) => apply Footprint.only_attempt
      | |- Footprint.only _ (Rt.void _) =>
          apply Footprint.only_void; [intros; exact I|]
      | |- Footprint.only _ (Rt.when _ _) => apply Footprint.only_when
      | |- Footprint.only _ (Rt.try_catch _ _) =>
          apply Footprint.only_try_catch; [|intros]
      | |- Footprint.only _ (Rt.try_finally _ _) => apply only_try_finally
      | |- Footprint.only _ (Rt.for_of _ _) =>
          apply Footprint.only_for_of; intros
      | |- Footprint.only _ (Rt.bind _ _) =>
          apply Footprint.only_bind; [|intros]
      | |- Footprint.only _ (if ?b then _ else _) => destruct b
      | |- Footprint.only _ (match ?x with _ => _ end) => destruct x
      | |- Footprint.only _ (let _ := _ in _) => cbv zeta
      end ].

Ltac mute_tac :=
  unfold Rt.message_success, Rt.message_warning, Rt.message_error,
    Rt.console_log, Rt.console_debug, Rt.console_error;
  repeat mute_step.

Section MuteFacts.

Variable toLowerCase : string -> string.
Variable host : Host.t.

Local Abbreviation quiet := (Footprint.only mute).

Lemma mute_emitUpdate : quiet PopupInput.emitUpdate.
Proof. unfold PopupInput.emitUpdate. mute_tac. Qed.

#[local] Hint Resolve mute_emitUpdate : mute.

Lemma mute_handleIngredientFiles files :
  quiet (PopupInput.handleIngredientFiles host files).
Proof. unfold PopupInput.handleIngredientFiles. mute_tac. Qed.

Lemma mute_addBlocks blocks count :
  quiet (PopupInput.addBlocks host blocks count).
Proof.
  revert count. induction blocks as [|block rest IH]; intros count; simpl;
    mute_tac; apply IH.
Qed.

Lemma mute_addDataUrls dataUrls count :
  quiet (PopupInput.addDataUrls toLowerCase host dataUrls count).
Proof.
  revert count. induction dataUrls as [|dataUrl rest IH]; intros count;
    simpl; mute_tac; apply IH.
Qed.

Lemma mute_readItemTypes pairs files :
  quiet (PopupInput.readItemTypes toLowerCase host pairs files).
Proof.
  revert files. induction pairs as [|[item type] rest IH]; intros files;
    simpl; mute_tac; apply IH.
Qed.

#[local] Hint Resolve mute_handleIngredientFiles mute_addBlocks
  mute_addDataUrls mute_readItemTypes : mute.

Lemma mute_addIngredientsFromRustClipboard silent :
  quiet (PopupInput.addIngredientsFromRustClipboard host silent).
Proof. unfold PopupInput.addIngredientsFromRustClipboard. mute_tac. Qed.

Lemma mute_readIngredientsFromNavigatorClipboard :
  quiet (PopupInput.readIngredientsFromNavigatorClipboard toLowerCase host).
Proof. unfold PopupInput.readIngredientsFromNavigatorClipboard. mute_tac. Qed.

#[local] Hint Resolve mute_addIngredientsFromRustClipboard
  mute_readIngredientsFromNavigatorClipboard : mute.

Lemma mute_handleIngredientPaste event :
  quiet (PopupInput.handleIngredientPaste toLowerCase host event).
Proof. unfold PopupInput.handleIngredientPaste. mute_tac. Qed.

#[local] Hint Resolve mute_handleIngredientPaste : mute.

Lemma mute_loadCustomPrompts : quiet (PopupInput.loadCustomPrompts host).
Proof. unfold PopupInput.loadCustomPrompts. mute_tac. Qed.

#[local] Hint Resolve mute_loadCustomPrompts : mute.

Lemma mute_savePromptOrder : quiet (PopupInput.savePromptOrder host).
Proof. unfold PopupInput.savePromptOrder. mute_tac. Qed.

#[local] Hint Resolve mute_savePromptOrder : mute.

Lemma mute_insertPromptContent content mode :
  quiet (PopupInput.insertPromptContent content mode).
Proof. unfold PopupInput.insertPromptContent. mute_tac. Qed.

#[local] Hint Resolve mute_insertPromptContent : mute.

Lemma mute_releaseIngredient b :
  quiet (PopupInput.releaseIngredient host b).
Proof. unfold PopupInput.releaseIngredient. mute_tac. Qed.

#[local] Hint Resolve mute_releaseIngredient : mute.

(** No handler of the input sends or emits a response. *)
Lemma mute_input (e : McpPopup.Event) (m : Rt.M PopupInput.State unit) :
  McpPopup.inputHandler toLowerCase host e = Some m -> quiet m.
Proof.
  destruct e; cbn [McpPopup.inputHandler]; intros [= <-];
    unfold PopupInput.inputNote, PopupInput.watchNote,
      PopupInput.handleOptionChange, PopupInput.handleOptionToggle,
      PopupInput.documentPasteListener, PopupInput.removeIngredient,
      PopupInput.handlePromptClick, PopupInput.handleInsertMode,
      PopupInput.handleConditionalToggle, PopupInput.onEnd;
    mute_tac.
Qed.

Lemma mute_withInput (m : Rt.M PopupInput.State unit) :
  quiet m -> quiet (McpPopup.withInput m).
Proof.
  intros Hm w. unfold McpPopup.withInput.
  destruct (McpPopup.inputRef (Rt.st w)) as [i|].
  - destruct (Hm (Rt.mkWorld i (Rt.tr w))) as (l & E & Fl).
    destruct (m (Rt.mkWorld i (Rt.tr w))) as [r wi]. cbn [snd Rt.tr] in *.
    now exists l.
  - exists []. rewrite app_nil_r. split; [reflexivity|constructor].
Qed.

Lemma mute_loadReplyConfig : quiet (McpPopup.loadReplyConfig host).
Proof. unfold McpPopup.loadReplyConfig. mute_tac. Qed.

#[local] Hint Resolve mute_loadReplyConfig : mute.

Lemma mute_inputs :
  quiet (McpPopup.withInput (PopupInput.reset host))
  /\ quiet (McpPopup.withInput (PopupInput.onMounted host))
  /\ quiet (McpPopup.withInput (PopupInput.onUnmounted host))
  /\ (forall c, quiet (McpPopup.withInput (PopupInput.handleQuoteMessage c)))
  /\ (forall n t i,
         quiet (McpPopup.withInput (PopupInput.updateData n t i))).
Proof.
  repeat split; intros; apply mute_withInput;
    unfold PopupInput.reset, PopupInput.onMounted, PopupInput.onUnmounted,
      PopupInput.handleQuoteMessage, PopupInput.updateData;
    mute_tac.
Qed.

Lemma mute_setRequest r : quiet (McpPopup.setRequest host r).
Proof.
  destruct mute_inputs as (A & B & C & D & E).
  unfold McpPopup.setRequest, McpPopup.watchRequest, McpPopup.resetForm.
  mute_tac.
Qed.

End MuteFacts.

(** The action that an event of the popup starts, if any: the three
    buttons, and the two buttons of Telegram that call the same handlers. *)
Definition actionOf (e : McpPopup.Event) : option Action :=
  match e with
  | McpPopup.Submit => Some ASubmit
  | McpPopup.Continue => Some AContinue
  | McpPopup.Enhance => Some AEnhance
  | McpPopup.Telegram McpPopup.send_pressed => Some ASubmit
  | McpPopup.Telegram McpPopup.continue_pressed => Some AContinue
  | _ => None
  end.

Lemma responsesOf_app (l1 l2 : Host.trace) :
  responsesOf (l1 ++ l2) = responsesOf l1 ++ responsesOf l2.
Proof. unfold responsesOf. apply flat_map_app. Qed.

Lemma responsesOf_mute (l : Host.trace) :
  Forall mute l -> responsesOf l = [].
Proof.
  induction 1 as [|e l He _ IH]; [reflexivity|].
  change (e :: l) with ([e] ++ l). rewrite responsesOf_app, IH, app_nil_r.
  destruct e as [R c r| | | | | | | |r| |]; try reflexivity.
  - cbn in *. destruct (Invariants.sentResponse c); [contradiction|reflexivity].
  - contradiction.
Qed.

Section ProvenanceFacts.

Variable toLowerCase : string -> string.
Variable host : Host.t.

Lemma mute_handler (e : McpPopup.Event) :
  actionOf e = None ->
  Footprint.only mute (McpPopup.handler toLowerCase host e).
Proof.
  intros Ha. unfold McpPopup.handler.
  destruct (McpPopup.inputHandler toLowerCase host e) as [m|] eqn:Ei.
  - apply mute_withInput. now apply (mute_input toLowerCase host e).
  - destruct (mute_inputs host) as (A & B & C & D & E).
    pose proof (mute_setRequest host) as Q.
    pose proof (mute_loadReplyConfig host) as L.
    destruct e as [| | | | |ev| | | | | | | | | | | | | | | |];
      try discriminate Ha; try discriminate Ei;
      unfold McpPopup.onMounted, McpPopup.watchReply,
        McpPopup.loadingTimeout, McpPopup.handleQuoteMessage;
      try solve [mute_tac].
    destruct ev; try discriminate Ha;
      unfold McpPopup.handleTelegramEvent, McpPopup.handleOptionToggle,
        McpPopup.handleTextUpdate;
      mute_tac.
Qed.

Lemma action_idle (a : Action) (s : McpPopup.State) (t : Host.trace) :
  allowed a s = false ->
  Rt.run (handlerOf host a) s t = (Js.Ret tt, Rt.mkWorld s t).
Proof.
  intros Hno. destruct a; cbn [handlerOf allowed] in *;
    unfold Rt.run, McpPopup.handleSubmit, McpPopup.handleContinue,
      McpPopup.handleEnhance;
    unfold Rt.bind, Rt.get; cbn [Rt.st Rt.tr fst snd].
  - destruct (McpPopup.canSubmit s); destruct (McpPopup.submitting s);
      try discriminate Hno; reflexivity.
  - destruct (McpPopup.submitting s); [reflexivity|discriminate Hno].
  - destruct (McpPopup.submitting s); [reflexivity|discriminate Hno].
Qed.

(** What an action sends and emits: nothing when it is not allowed, and
    otherwise nothing but its response, built from the refs it started
    with and the time it asked for first. *)
Lemma action_responses (a : Action) (s : McpPopup.State) (t : Host.trace) :
  exists new,
    Rt.run (handlerOf host a) s t = (Js.Ret tt, Rt.mkWorld s (t ++ new))
    /\ forall r,
        In r (responsesOf new) ->
        allowed a s = true
        /\ r = responseOf a s (Host.query host t Host.new_Date_toISOString).
Proof.
  destruct (allowed a s) eqn:Hal.
  - pose proof (action_run host a s t Hal) as R. cbv zeta in R.
    rewrite <- app_assoc in R. eexists. split; [exact R|].
    intros r. cbn [app].
    destruct (McpPopup.mockMode s).
    + cbn. intros [<-|[]]. now split.
    + destruct (Host.invoke host _ (Host.send_mcp_response _)) as [u|e].
      * destruct (Host.invoke host _ Host.exit_app) as [u'|e'].
        -- cbn. intros [<-|[<-|[]]]; now split.
        -- cbn. intros [<-|[]]. now split.
      * cbn. intros [<-|[]]. now split.
  - exists []. rewrite app_nil_r. split; [now apply action_idle|].
    intros r [].
Qed.

Lemma handle_responses (e : McpPopup.Event) (w : Rt.World McpPopup.State) :
  exists new,
    fst (McpPopup.handle toLowerCase host e w) = Js.Ret tt
    /\ Rt.tr (snd (McpPopup.handle toLowerCase host e w)) = Rt.tr w ++ new
    /\ forall r,
        In r (responsesOf new) ->
        exists a t,
          actionOf e = Some a
          /\ allowed a (Rt.st w) = true
          /\ r = responseOf a (Rt.st w)
                   (Host.query host t Host.new_Date_toISOString).
Proof.
  destruct (actionOf e) as [a|] eqn:Ea.
  - assert (Button : McpPopup.handler toLowerCase host e = handlerOf host a
                     \/ exists text1 text2,
                         McpPopup.handler toLowerCase host e
                         = Rt.bind (Rt.console_log text1)
                             (fun _ =>
                                Rt.bind (Rt.console_log text2)
                                  (fun _ => Rt.void (handlerOf host a)))).
    { destruct e as [| | | | |ev| | | | | | | | | | | | | | | |];
        try destruct ev; cbn [actionOf] in Ea; try discriminate Ea;
        injection Ea as <-;
        first [left; reflexivity|right; eexists; eexists; reflexivity]. }
    unfold McpPopup.handle, Rt.void.
    destruct Button as [->|(text1 & text2 & ->)].
    + destruct (action_responses a (Rt.st w) (Rt.tr w)) as (new & R & Hr).
      unfold Rt.run in R. destruct w as [s t]. cbn [Rt.st Rt.tr] in *.
      rewrite R. exists new. split; [reflexivity|]. split; [reflexivity|].
      intros r Hin. destruct (Hr r Hin) as [Hal Er].
      exists a, t. now repeat split.
    + unfold Rt.console_log, Rt.bind, Rt.effect, Rt.void. cbn [Rt.st Rt.tr].
      destruct (action_responses a (Rt.st w)
                  ((Rt.tr w ++ [Host.EConsole Host.log text1])
                     ++ [Host.EConsole Host.log text2])) as (new & R & Hr).
      unfold Rt.run in R. rewrite R.
      exists ([Host.EConsole Host.log text1; Host.EConsole Host.log text2]
                ++ new).
      split; [reflexivity|]. split.
      * cbn [snd Rt.tr]. now rewrite <- !app_assoc.
      * intros r Hin. rewrite responsesOf_app in Hin. cbn [app] in Hin.
        change (responsesOf
                  [Host.EConsole Host.log text1; Host.EConsole Host.log text2])
          with (@nil DishResponse.t) in Hin.
        destruct (Hr r Hin) as [Hal Er].
        exists a. eexists. repeat split; [exact Hal|exact Er].
  - pose proof (mute_handler e Ea) as M.
    assert (V : Footprint.only mute (McpPopup.handle toLowerCase host e)).
    { unfold McpPopup.handle. apply Footprint.only_void; [intros; exact I|].
      exact M. }
    destruct (V w) as (new & E & Fn). exists new.
    split; [|split; [exact E|]].
    + unfold McpPopup.handle, Rt.void.
      destruct (McpPopup.handler toLowerCase host e w) as [[u|err] w'];
        [now destruct u|reflexivity].
    + intros r Hin. rewrite (responsesOf_mute Fn) in Hin. destruct Hin.
Qed.

End ProvenanceFacts.

Section TraceFacts.

Variable toLowerCase : string -> string.
Variable host : Host.t.

Lemma handle_returns (l : list McpPopup.Event)
  (w : Rt.World McpPopup.State) :
  fst (Rt.for_of l (McpPopup.handle toLowerCase host) w) = Js.Ret tt.
Proof.
  revert w. induction l as [|e l IH]; intros w; [reflexivity|].
  cbn [Rt.for_of]. unfold Rt.bind.
  destruct (handle_responses toLowerCase host e w) as (new & R & _).
  destruct (McpPopup.handle toLowerCase host e w) as [[u|err] w1];
    [apply IH|discriminate R].
Qed.

Lemma after_snoc (mock : bool) (events : list McpPopup.Event)
  (e : McpPopup.Event) :
  McpPopup.after toLowerCase host mock (events ++ [e])
  = snd (McpPopup.handle toLowerCase host e
           (McpPopup.after toLowerCase host mock events)).
Proof.
  unfold McpPopup.after.
  generalize (Rt.mkWorld (McpPopup.initial mock) []).
  induction events as [|e0 l IH]; intros w; cbn [app Rt.for_of].
  - unfold Rt.bind, Rt.ret. cbn [snd].
    destruct (McpPopup.handle toLowerCase host e w) as [[u|err] w1];
      reflexivity.
  - unfold Rt.bind.
    destruct (handle_responses toLowerCase host e0 w) as (new & R & _).
    destruct (McpPopup.handle toLowerCase host e0 w) as [[u|err] w1];
      [apply IH|discriminate R].
Qed.

(** Every response in the trace of the popup is that of an action that an
    event started, built from the refs that the events before it left. *)
Lemma after_responses (mock : bool) (events : list McpPopup.Event)
  (r : DishResponse.t) :
  In r (responsesOf (Rt.tr (McpPopup.after toLowerCase host mock events))) ->
  exists before e rest a t,
    events = before ++ e :: rest
    /\ actionOf e = Some a
    /\ allowed a (Rt.st (McpPopup.after toLowerCase host mock before)) = true
    /\ r = responseOf a
             (Rt.st (McpPopup.after toLowerCase host mock before))
             (Host.query host t Host.new_Date_toISOString).
Proof.
  induction events as [|e events IH] using rev_ind; [intros []|].
  rewrite after_snoc.
  destruct (handle_responses toLowerCase host e
              (McpPopup.after toLowerCase host mock events))
    as (new & _ & E & Hr).
  rewrite E, responsesOf_app. intros Hin. apply in_app_or in Hin.
  destruct Hin as [Hin|Hin].
  - destruct (IH Hin) as (before & e0 & rest & a & t & -> & Ha & Hal & Er).
    exists before, e0, (rest ++ [e]), a, t.
    rewrite <- app_assoc. now repeat split.
  - destruct (Hr r Hin) as (a & t & Ha & Hal & Er).
    exists events, e, [], a, t. now repeat split.
Qed.

End TraceFacts.

(** What the response of an action holds, by the refs [s] of the popup when
    the action starts and the time [cooked_at] that it reads. *)
Definition builtFrom (a : Action) (s : McpPopup.State) (cooked_at : string)
  (r : DishResponse.t) : Prop :=
  DishResponse.ticket r
  = KitchenTicket.mk (Some cooked_at)
      (match McpPopup.request s with
       | Some request =>
           if Js.truthy (McpRequest.id request)
           then Some (McpRequest.id request) else None
       | None => None
       end)
      (Some
         match a with
         | ASubmit => "popup"
         | AContinue => "popup_continue"
         | AEnhance => "popup_enhance"
         end)
  /\ match a with
     | ASubmit =>
         DishResponse.note r
         = (if Js.truthy (Js.trim (McpPopup.note s))
            then Some (Js.trim (McpPopup.note s)) else None)
         /\ DishResponse.toppings r = McpPopup.toppings s
         /\ DishResponse.ingredients r
            = map IngredientAttachment.mk (McpPopup.spiceIds s)
     | AContinue =>
         DishResponse.note r = Some (McpPopup.continuePrompt s)
         /\ DishResponse.toppings r = []
         /\ DishResponse.ingredients r = []
     | AEnhance =>
         DishResponse.note r
         = Some
             ("Use the following prompt to optimize and enhance the context of the content in 《》, and return the enhanced result by calling the tool 'cache' after completion.Here is an instruction that I'd like to give you, but it needs to be improved. Rewrite and enhance this instruction to make it clearer, more specific, less ambiguous, and correct any mistakes. Reply immediately with your answer, even if you're not sure. Consider the context of our conversation history when enhancing the prompt. Reply with the following format:"
                ++ Js.nl ++ Js.nl
                ++ "### BEGIN RESPONSE ###" ++ Js.nl
                ++ "Here is an enhanced version of the original instruction that is more specific and clear:"
                ++ Js.nl
                ++ "<augment-enhanced-prompt>enhanced prompt goes here</augment-enhanced-prompt>"
                ++ Js.nl ++ Js.nl
                ++ "### END RESPONSE ###" ++ Js.nl ++ Js.nl
                ++ "Here is my original instruction:" ++ Js.nl ++ Js.nl
                ++ "《" ++ Js.trim (McpPopup.note s) ++ "》")%string
         /\ DishResponse.toppings r = []
         /\ DishResponse.ingredients r = []
     end.

Lemma nonempty_ids (l : list string) :
  Forall (fun id => id <> "") l <-> Forall Invariants.nonempty l.
Proof.
  split; apply Forall_impl; intros id; unfold Invariants.nonempty;
    destruct id; cbn; congruence.
Qed.

Lemma responseOf_builtFrom (a : Action) (s : McpPopup.State)
  (cooked_at : string) :
  allowed a s = true ->
  Forall (fun id => id <> "") (McpPopup.spiceIds s) ->
  builtFrom a s cooked_at (responseOf a s cooked_at)
  /\ Forall (fun i => IngredientAttachment.spice_id i <> "")
       (DishResponse.ingredients (responseOf a s cooked_at))
  /\ (a = ASubmit ->
      McpPopup.nothingToSend (responseOf a s cooked_at) = false).
Proof.
  intros Hal Hids. destruct a; cbn [responseOf allowed] in *.
  - apply andb_prop in Hal. destruct Hal as [Hcan _].
    pose proof (proj1 (nonempty_ids _) Hids) as Hne.
    pose proof (@Invariants.submit_has_content s cooked_at Hcan Hne) as N.
    unfold McpPopup.submitResponse. rewrite N.
    assert (Ei : DishResponse.ingredients (McpPopup.submitDraft s cooked_at)
                 = map IngredientAttachment.mk (McpPopup.spiceIds s)).
    { unfold McpPopup.submitDraft. cbn [DishResponse.ingredients].
      now rewrite (Invariants.filter_nonempty Hne). }
    split; [|split].
    + split; [reflexivity|]. split; [reflexivity|].
      split; [reflexivity|exact Ei].
    + rewrite Ei. apply Forall_map. exact Hids.
    + intros _. exact N.
  - split; [|split].
    + repeat split.
    + constructor.
    + discriminate.
  - split; [|split].
    + repeat split.
    + constructor.
    + discriminate.
Qed.

(** C3, amended.  An action of the popup, submit, continue or enhance,
    started by its button or through Telegram, sends and emits nothing but
    its response, and only when its guard lets it go on.  The response is
    built from the refs of the popup when the action starts.  Its ticket
    holds the time read then, the id of the request, or null in its place
    when there is no request or the id is empty, and the station: [popup],
    [popup_continue] or [popup_enhance].  For a submit the note is the
    trimmed text, null when that is empty, the toppings are the options
    selected and the ingredients are the spice ids held, each in a handle,
    none of them empty; the response is never empty.  For continue the
    note is the continue prompt, and for enhance it is the enhancement
    instruction around the trimmed text; both have no toppings and no
    ingredients.  This holds of an action run from any refs whose spice
    ids are not empty, and every response in the trace of the popup, after
    any events, is the response of such an action, built from the refs
    that the events before it left. *)
Theorem C3_response_shape
  (toLowerCase : string -> string) (host : Host.t) :
  (forall (a : Action) (s : McpPopup.State) (t : Host.trace),
      Forall (fun id => id <> "") (McpPopup.spiceIds s) ->
      let handler :=
        match a with
        | ASubmit => McpPopup.handleSubmit host
        | AContinue => McpPopup.handleContinue host
        | AEnhance => McpPopup.handleEnhance host
        end in
      exists new,
        Rt.run handler s t = (Js.Ret tt, Rt.mkWorld s (t ++ new))
        /\ forall r,
            In r (responsesOf new) ->
            allowed a s = true
            /\ builtFrom a s (Host.query host t Host.new_Date_toISOString) r)
  /\ (forall (mock : bool) (events : list McpPopup.Event)
             (r : DishResponse.t),
         In r (responsesOf
                 (Rt.tr (McpPopup.after toLowerCase host mock events))) ->
         exists before e rest a t,
           events = before ++ e :: rest
           /\ actionOf e = Some a
           /\ let s := Rt.st (McpPopup.after toLowerCase host mock before) in
              allowed a s = true
              /\ builtFrom a s
                   (Host.query host t Host.new_Date_toISOString) r
              /\ Forall (fun i => IngredientAttachment.spice_id i <> "")
                   (DishResponse.ingredients r)
              /\ (a = ASubmit ->
                  DishResponse.note r <> None
                  \/ DishResponse.toppings r <> []
                  \/ DishResponse.ingredients r <> [])).
Proof.
  split.
  - intros a s t Hids handler.
    assert (Eh : handler = handlerOf host a) by (destruct a; reflexivity).
    rewrite Eh.
    destruct (action_responses host a s t) as (new & R & Hr).
    exists new. split; [exact R|].
    intros r Hin. destruct (Hr r Hin) as [Hal ->].
    split; [exact Hal|]. now apply responseOf_builtFrom.
  - intros mock events r Hin.
    destruct (after_responses toLowerCase host mock events r Hin)
      as (before & e & rest & a & t & E & Ha & Hal & ->).
    exists before, e, rest, a, t. split; [exact E|]. split; [exact Ha|].
    intros s.
    destruct (Invariants.after_inv toLowerCase host mock before)
      as [[Hne _] _]. fold s in Hne.
    apply nonempty_ids in Hne.
    destruct (responseOf_builtFrom a s
                (Host.query host t Host.new_Date_toISOString) Hal Hne)
      as (B & I & N).
    split; [exact Hal|]. split; [exact B|]. split; [exact I|].
    intros Ea. specialize (N Ea). unfold McpPopup.nothingToSend in N.
    destruct (DishResponse.note _) as [n|]; [left; discriminate|].
    destruct (DishResponse.toppings _); [|right; left; discriminate].
    destruct (DishResponse.ingredients _);
      [discriminate N|right; right; discriminate].
Qed.

(** A submit after a text was typed: the response is sent and emitted, and
    its note is the trimmed text of the refs that the events before the
    submit left. *)
Lemma C3_response_shape_witness :
  let events :=
    [McpPopup.SetRequest (Some Sample.request);
     McpPopup.InputNote " ok ";
     McpPopup.Submit] in
  let r :=
    DishResponse.mk (Some "ok") [] []
      (KitchenTicket.mk (Some "2025-03-04T05:06:07.000Z") (Some "req-1")
         (Some "popup")) in
  responsesOf (Rt.tr (McpPopup.after Sample.toLowerCase Sample.up false events))
  = [r; r]
  /\ exists before e rest,
      events = before ++ e :: rest
      /\ actionOf e = Some ASubmit
      /\ DishResponse.note r
         = Some (Js.trim
                   (McpPopup.note
                      (Rt.st (McpPopup.after Sample.toLowerCase Sample.up
                                false before)))).
Proof.
  intros events r.
  assert (E : responsesOf
                (Rt.tr (McpPopup.after Sample.toLowerCase Sample.up false
                          events)) = [r; r]) by (vm_compute; reflexivity).
  split; [exact E|].
  destruct (proj2 (C3_response_shape Sample.toLowerCase Sample.up)
              false events r)
    as (before & e & rest & a & t & Ev & Ha & Hs).
  { rewrite E. now left. }
  cbv zeta in Hs. destruct Hs as (_ & (Ht & B) & _).
  exists before, e, rest. split; [exact Ev|].
  destruct a; cbn in Ht; try discriminate Ht.
  split; [exact Ha|].
  destruct B as (Bn & _).
  destruct (Js.truthy _) in Bn; [exact Bn|discriminate Bn].
Defined.

(** ** The stages of the paste handler, by what each ingests *)

(** What a run asked the backend to stash, in its order: the bytes, the
    type and the tag of each image, with the answer. *)
Definition StashCall : Type :=
  (Host.bytes * string * string) * Js.Outcome string.

Definition stashedBy (e : Host.Effect) : list StashCall :=
  match e with
  | Host.EInvoke c r =>
      match c in Host.Command R return Js.Outcome R -> list StashCall with
      | Host.stash_ingredient_bytes_cmd bytes dish_type tag =>
          fun r => [((bytes, dish_type, tag), r)]
      | _ => fun _ => []
      end r
  | _ => []
  end.

Definition stashed (t : Host.trace) : list StashCall :=
  flat_map stashedBy t.

(** The URLs that a run fetched, with what each gave. *)
Definition fetchedBy (e : Host.Effect)
  : list (string * Js.Outcome Host.Blob) :=
  match e with
  | Host.EWeb c r =>
      match c in Host.WebCall R
            return Js.Outcome R -> list (string * Js.Outcome Host.Blob) with
      | Host.fetch_blob url => fun r => [(url, r)]
      | _ => fun _ => []
      end r
  | _ => []
  end.

Definition fetched (t : Host.trace) : list (string * Js.Outcome Host.Blob) :=
  flat_map fetchedBy t.

(** The spice ids after the answers of the backend to a row of stashes:
    each id that is not empty and not yet held is appended. *)
Definition takeId (ids : list string) (answer : Js.Outcome string)
  : list string :=
  match answer with
  | Js.Ret id =>
      if Js.truthy id && negb (existsb (fun x => String.eqb x id) ids)
      then ids ++ [id] else ids
  | Js.Throw _ => ids
  end.

Definition ingest (ids : list string) (answers : list (Js.Outcome string))
  : list string :=
  fold_left takeId answers ids.

(** The same for the blocks of the clipboard of the backend: a block
    counts when it has bytes, an id and a type. *)
Definition blockId (block : Host.ClipboardBlock) : Js.Outcome string :=
  match Host.block_bytes block, Host.block_spice_id block,
        Host.block_dish_type block with
  | Some _, Some id, Some type => Js.Ret (if Js.truthy type then id else "")
  | _, _, _ => Js.Ret ""
  end.

Section IngestFacts.

Import PopupInput.

Variable toLowerCase : string -> string.
Variable host : Host.t.

Lemma stashed_app (l1 l2 : Host.trace) :
  stashed (l1 ++ l2) = stashed l1 ++ stashed l2.
Proof. apply flat_map_app. Qed.

Lemma fetched_app (l1 l2 : Host.trace) :
  fetched (l1 ++ l2) = fetched l1 ++ fetched l2.
Proof. apply flat_map_app. Qed.

Lemma hasSpice_ids (s : State) (id : string) :
  hasSpice s id = existsb (fun x => String.eqb x id) (Invariants.ids s).
Proof.
  unfold hasSpice, Invariants.ids.
  induction (ingredients s) as [|b l IH]; [reflexivity|].
  cbn [existsb map]. now rewrite IH.
Qed.

Lemma ids_push (s : State) (id url : string) :
  Invariants.ids (pushIngredient id url s) = Invariants.ids s ++ [id].
Proof.
  unfold Invariants.ids, pushIngredient.
  cbn [ingredients set_ingredients]. now rewrite map_app.
Qed.

Definition fileKey (file : Host.File) : Host.bytes * string * string :=
  (Host.file_bytes file, Host.file_type file, Host.file_name file).

Definition isImage (file : Host.File) : bool :=
  Js.startsWith (Host.file_type file) "image/".

(** The loop of [handleIngredientFiles]. *)
Definition fileBody (file : Host.File) : Rt.M State unit :=
  Rt.bind (Rt.console_log "处理文件:")
    (fun _ =>
       if Js.startsWith (Host.file_type file) "image/"
       then
         Rt.try_catch
           (Rt.bind
              (Rt.invoke host
                 (Host.stash_ingredient_bytes_cmd (Host.file_bytes file)
                    (Host.file_type file) (Host.file_name file)))
              (fun spiceId =>
                 if negb (Js.truthy spiceId) then Rt.ret tt
                 else
                   Rt.bind Rt.get
                     (fun s =>
                        if hasSpice s spiceId
                        then
                          Rt.message_warning
                            ("食材 " ++ Host.file_name file ++ " 已存在")%string
                        else
                          Rt.bind
                            (Rt.query host
                               (Host.URL_createObjectURL
                                  (Host.file_type file)
                                  (Host.file_bytes file)))
                            (fun previewUrl =>
                               Rt.bind
                                 (Rt.modify
                                    (pushIngredient spiceId previewUrl))
                                 (fun _ =>
                                    Rt.bind
                                      (Rt.message_success
                                         ("食材 " ++ Host.file_name file
                                            ++ " 已添加")%string)
                                      (fun _ => emitUpdate))))))
           (fun error =>
              Rt.bind (Rt.console_error "食材处理失败:")
                (fun _ =>
                   Rt.bind
                     (Rt.message_error
                        ("食材 " ++ Host.file_name file ++ " 处理失败")%string)
                     (fun _ => Rt.throw error)))
       else Rt.console_log "跳过非食材文件:").

Lemma handleIngredientFiles_loop (files : list Host.File) :
  handleIngredientFiles host files
  = Rt.bind (Rt.console_log "=== 处理食材文件 ===")
      (fun _ =>
         Rt.bind (Rt.console_log "文件数量:")
           (fun _ =>
              Rt.bind (Rt.for_of files fileBody)
                (fun _ => Rt.console_log "=== 食材文件处理完成 ==="))).
Proof. reflexivity. Qed.

(** One turn of the loop: the file is skipped, or stashed; a stash that
    fails ends the loop, and one that answers an id that is not empty and
    not yet held adds the ingredient. *)
Lemma fileBody_run (file : Host.File) (s : State) (t : Host.trace) :
  exists o s' new,
    fileBody file (Rt.mkWorld s t) = (o, Rt.mkWorld s' (t ++ new))
    /\ s' = set_ingredients (ingredients s') s
    /\ Invariants.ids s' = ingest (Invariants.ids s) (map snd (stashed new))
    /\ (if isImage file
        then exists answer,
            stashed new = [(fileKey file, answer)]
            /\ match answer with
               | Js.Ret _ => o = Js.Ret tt
               | Js.Throw e => o = Js.Throw e
               end
        else stashed new = [] /\ o = Js.Ret tt).
Proof.
  unfold fileBody, isImage.
  unfold Rt.console_log, Rt.console_error, Rt.message_error,
    Rt.message_warning, Rt.message_success.
  unfold Rt.bind at 1. unfold Rt.effect at 1. cbn [Rt.st Rt.tr fst snd].
  destruct (Js.startsWith (Host.file_type file) "image/").
  - unfold Rt.try_catch. unfold Rt.bind at 1. unfold Rt.invoke at 1.
    cbn [Rt.st Rt.tr fst snd].
    destruct (Host.invoke host _ (Host.stash_ingredient_bytes_cmd _ _ _))
      as [id|e] eqn:Ei.
    + destruct (Js.truthy id) eqn:Tid; cbn [negb].
      * unfold Rt.bind at 1. unfold Rt.get at 1. cbn [Rt.st Rt.tr fst snd].
        destruct (hasSpice s id) eqn:Hs.
        -- unfold Rt.effect. cbn [Rt.st Rt.tr fst snd].
           rewrite <- !app_assoc. cbn [app].
           eexists. exists s. eexists. split; [reflexivity|].
           split; [now destruct s|]. split.
           ++ cbn. unfold takeId. rewrite Tid, <- hasSpice_ids, Hs.
              reflexivity.
           ++ eexists. split; [reflexivity|reflexivity].
        -- unfold emitUpdate, Rt.bind, Rt.query, Rt.modify, Rt.effect,
             Rt.get.
           cbn [Rt.st Rt.tr fst snd]. rewrite <- !app_assoc. cbn [app].
           eexists. eexists. eexists. split; [reflexivity|].
           split; [reflexivity|]. split.
           ++ cbn. unfold takeId. rewrite Tid, <- hasSpice_ids, Hs.
              cbn [negb andb]. apply ids_push.
           ++ eexists. split; [reflexivity|reflexivity].
      * unfold Rt.ret. rewrite <- !app_assoc. cbn [app].
        eexists. exists s. eexists. split; [reflexivity|].
        split; [now destruct s|]. split.
        -- cbn. unfold takeId. rewrite Tid. reflexivity.
        -- eexists. split; [reflexivity|reflexivity].
    + unfold Rt.bind, Rt.effect, Rt.throw. cbn [Rt.st Rt.tr fst snd].
      rewrite <- !app_assoc. cbn [app].
      eexists. exists s. eexists. split; [reflexivity|].
      split; [now destruct s|]. split; [reflexivity|].
      eexists. split; [reflexivity|reflexivity].
  - unfold Rt.effect. cbn [Rt.st Rt.tr fst snd]. rewrite <- !app_assoc.
    cbn [app]. eexists. exists s. eexists. split; [reflexivity|].
    split; [now destruct s|]. split; [reflexivity|]. now split.
Qed.


(** What an ingestion of files did, by the stashes in its effects [new]:
    the image files were stashed in their order, all of them when it
    returned and up to the one whose stash failed when it threw that
    failure again, and the ids answered were taken as ingredients. *)
Definition filesIngested (files : list Host.File) (ids : list string)
  (o : Js.Outcome unit) (new : Host.trace) (ids' : list string) : Prop :=
  map fst (stashed new)
  = firstn (length (stashed new)) (map fileKey (filter isImage files))
  /\ ids' = ingest ids (map snd (stashed new))
  /\ match o with
     | Js.Ret _ =>
         length (stashed new) = length (filter isImage files)
         /\ Forall (fun c => Rt.returns (snd c) = true) (stashed new)
     | Js.Throw e =>
         exists before key,
           stashed new = before ++ [(key, Js.Throw e)]
           /\ Forall (fun c => Rt.returns (snd c) = true) before
     end.

Lemma ingest_app (ids : list string) (a1 a2 : list (Js.Outcome string)) :
  ingest ids (a1 ++ a2) = ingest (ingest ids a1) a2.
Proof. apply fold_left_app. Qed.

Lemma set_ingredients_twice (s s1 s2 : State) :
  s1 = set_ingredients (ingredients s1) s ->
  s2 = set_ingredients (ingredients s2) s1 ->
  s2 = set_ingredients (ingredients s2) s.
Proof. intros -> ->. reflexivity. Qed.

Lemma files_loop (files : list Host.File) :
  forall (s : State) (t : Host.trace),
  exists o s' new,
    Rt.for_of files fileBody (Rt.mkWorld s t) = (o, Rt.mkWorld s' (t ++ new))
    /\ s' = set_ingredients (ingredients s') s
    /\ filesIngested files (Invariants.ids s) o new (Invariants.ids s').
Proof.
  induction files as [|file rest IH]; intros s t.
  - exists (Js.Ret tt), s, []. rewrite app_nil_r.
    split; [reflexivity|]. split; [now destruct s|].
    split; [reflexivity|]. split; [reflexivity|]. split; [reflexivity|].
    constructor.
  - cbn [Rt.for_of]. unfold Rt.bind.
    destruct (fileBody_run file s t) as (o1 & s1 & new1 & R1 & S1 & I1 & C1).
    rewrite R1. destruct o1 as [u|e].
    + destruct (IH s1 (t ++ new1))
        as (o2 & s2 & new2 & R2 & S2 & P2 & I2 & O2).
      rewrite R2. exists o2, s2, (new1 ++ new2). rewrite app_assoc.
      split; [reflexivity|].
      split; [exact (set_ingredients_twice S1 S2)|].
      unfold filesIngested. rewrite stashed_app, !map_app, length_app.
      cbn [filter]. fold (isImage file).
      destruct (isImage file).
      * destruct C1 as (answer & E1 & A1). rewrite E1.
        destruct answer as [id|e]; [|discriminate A1].
        cbn [map fst snd length app Nat.add firstn]. split; [|split].
        -- f_equal. exact P2.
        -- rewrite I2, I1, E1. reflexivity.
        -- destruct o2 as [u2|e2].
           ++ destruct O2 as [L2 F2]. cbn [length]. split; [now rewrite L2|].
              constructor; [reflexivity|exact F2].
           ++ destruct O2 as (before & key & E2 & F2).
              exists ((fileKey file, Js.Ret id) :: before), key.
              rewrite E2. split; [reflexivity|].
              constructor; [reflexivity|exact F2].
      * destruct C1 as (E1 & _). rewrite E1. cbn [map length app Nat.add].
        split; [exact P2|]. split; [|exact O2].
        rewrite I2, I1, E1. reflexivity.
    + exists (Js.Throw e), s1, new1. split; [reflexivity|].
      split; [exact S1|]. unfold filesIngested.
      cbn [filter]. fold (isImage file).
      destruct (isImage file).
      * destruct C1 as (answer & E1 & A1). rewrite E1.
        destruct answer as [id|e']; [discriminate A1|].
        injection A1 as <-. cbn [map fst snd length firstn].
        split; [reflexivity|]. split; [now rewrite I1, E1|].
        exists [], (fileKey file). split; [reflexivity|constructor].
      * destruct C1 as (_ & A1). discriminate A1.
Qed.

Lemma handleIngredientFiles_run (files : list Host.File) (s : State)
  (t : Host.trace) :
  exists o s' new,
    Rt.run (handleIngredientFiles host files) s t
    = (o, Rt.mkWorld s' (t ++ new))
    /\ s' = set_ingredients (ingredients s') s
    /\ Forall (within [MStash; MOther]) new
    /\ filesIngested files (Invariants.ids s) o new (Invariants.ids s').
Proof.
  assert (R : exists o s' new,
             Rt.run (handleIngredientFiles host files) s t
             = (o, Rt.mkWorld s' (t ++ new))
             /\ s' = set_ingredients (ingredients s') s
             /\ filesIngested files (Invariants.ids s) o new
                  (Invariants.ids s')).
  { unfold Rt.run. rewrite handleIngredientFiles_loop.
    unfold Rt.console_log. unfold Rt.bind at 1 2. unfold Rt.effect at 1 2.
    cbn [Rt.st Rt.tr fst snd]. unfold Rt.bind.
    destruct (files_loop files s
                ((t ++ [Host.EConsole Host.log "=== 处理食材文件 ==="])
                   ++ [Host.EConsole Host.log "文件数量:"]))
      as (o & s' & new & R & S & P & I & O).
    rewrite R. rewrite <- !app_assoc. cbn [app].
    destruct o as [u|e].
    - unfold Rt.effect. cbn [Rt.st Rt.tr]. rewrite <- !app_assoc. cbn [app].
      exists (Js.Ret tt), s'. eexists. split; [reflexivity|].
      split; [exact S|]. unfold filesIngested.
      change (stashed
                (Host.EConsole Host.log "=== 处理食材文件 ==="
                   :: Host.EConsole Host.log "文件数量:"
                   :: new ++ [Host.EConsole Host.log "=== 食材文件处理完成 ==="]))
        with (stashed
                (new ++ [Host.EConsole Host.log "=== 食材文件处理完成 ==="])).
      rewrite stashed_app. cbn [stashed flat_map stashedBy app].
      rewrite app_nil_r. fold (stashed new). now repeat split.
    - exists (Js.Throw e), s'. eexists. split; [reflexivity|].
      split; [exact S|].
      change (stashed
                (Host.EConsole Host.log "=== 处理食材文件 ==="
                   :: Host.EConsole Host.log "文件数量:" :: new))
        with (stashed new) in *.
      unfold filesIngested.
      change (stashed
                (Host.EConsole Host.log "=== 处理食材文件 ==="
                   :: Host.EConsole Host.log "文件数量:" :: new))
        with (stashed new).
      now repeat split. }
  destruct R as (o & s' & new & R & S & P).
  exists o, s', new. split; [exact R|]. split; [exact S|]. split; [|exact P].
  destruct (Footprint.only_handleIngredientFiles host files (Rt.mkWorld s t))
    as (l & E & Fl).
  unfold Rt.run in R. rewrite R in E. cbn [snd Rt.tr] in E.
  apply app_inv_head in E. now rewrite E.
Qed.


(** The body of the loop over the data URLs of a pasted HTML text. *)
Definition urlBody (dataUrl : string) : Rt.M State bool :=
  Rt.try_catch
    (Rt.bind (Rt.web host (Host.fetch_blob dataUrl))
       (fun blob =>
          let dishType :=
            if Js.truthy (Host.blob_type blob) then Host.blob_type blob
            else "image/png" in
          let bytes := Host.blob_bytes blob in
          Rt.bind (Rt.query host Host.Date_now)
            (fun now =>
               Rt.bind
                 (Rt.invoke host
                    (Host.stash_ingredient_bytes_cmd bytes dishType
                       ("pasted-" ++ Js.String_of_Z now ++ "."
                          ++ guessFileExtensionFromMime toLowerCase
                               dishType)%string))
                 (fun spiceId =>
                    if negb (Js.truthy spiceId) then Rt.ret false
                    else
                      Rt.bind Rt.get
                        (fun s =>
                           if hasSpice s spiceId then Rt.ret false
                           else
                             Rt.bind
                               (Rt.query host
                                  (Host.URL_createObjectURL
                                     (Host.blob_type blob) bytes))
                               (fun previewUrl =>
                                  Rt.bind
                                    (Rt.modify
                                       (pushIngredient spiceId previewUrl))
                                    (fun _ => Rt.ret true)))))))
    (fun error =>
       Rt.bind (Rt.console_debug "HTML 图片粘贴处理失败:")
         (fun _ => Rt.ret false)).

Lemma addDataUrls_step (dataUrl : string) (rest : list string)
  (count : nat) :
  addDataUrls toLowerCase host (dataUrl :: rest) count
  = Rt.bind (urlBody dataUrl)
      (fun added =>
         addDataUrls toLowerCase host rest
           (if added then count + 1 else count)).
Proof. reflexivity. Qed.

(** The bytes and the type under which a fetched image is stashed. *)
Definition blobKey (f : string * Js.Outcome Host.Blob)
  : list (Host.bytes * string) :=
  match snd f with
  | Js.Ret blob =>
      [(Host.blob_bytes blob,
        if Js.truthy (Host.blob_type blob) then Host.blob_type blob
        else "image/png")]
  | Js.Throw _ => []
  end.

Definition stashKey (c : StashCall) : Host.bytes * string :=
  (fst (fst (fst c)), snd (fst (fst c))).

(** What the paste of an HTML text did, by the fetches and the stashes in
    its effects [new]: every data URL was fetched, in order, whatever
    failed before; each image fetched was stashed; and the ids answered
    were taken as ingredients, [count' - count] of them. *)
Definition urlsIngested (dataUrls : list string) (ids : list string)
  (count : nat) (new : Host.trace) (ids' : list string) (count' : nat)
  : Prop :=
  map fst (fetched new) = dataUrls
  /\ map stashKey (stashed new) = flat_map blobKey (fetched new)
  /\ ids' = ingest ids (map snd (stashed new))
  /\ count' + length ids = count + length ids'.

Lemma urlBody_run (dataUrl : string) (s : State) (t : Host.trace) :
  exists added s' new,
    urlBody dataUrl (Rt.mkWorld s t)
    = (Js.Ret added, Rt.mkWorld s' (t ++ new))
    /\ s' = set_ingredients (ingredients s') s
    /\ urlsIngested [dataUrl] (Invariants.ids s) 0 new (Invariants.ids s')
         (if added then 1 else 0).
Proof.
  unfold urlBody, urlsIngested. unfold Rt.console_debug.
  unfold Rt.try_catch. unfold Rt.bind at 1. unfold Rt.web at 1.
  cbn [Rt.st Rt.tr fst snd].
  destruct (Host.web host t (Host.fetch_blob dataUrl)) as [blob|e].
  - cbv zeta. unfold Rt.bind at 1. unfold Rt.query at 1.
    cbn [Rt.st Rt.tr fst snd].
    unfold Rt.bind at 1. unfold Rt.invoke at 1. cbn [Rt.st Rt.tr fst snd].
    destruct (Host.invoke host _ (Host.stash_ingredient_bytes_cmd _ _ _))
      as [id|e].
    + destruct (Js.truthy id) eqn:Tid; cbn [negb].
      * unfold Rt.bind at 1. unfold Rt.get at 1. cbn [Rt.st Rt.tr fst snd].
        destruct (hasSpice s id) eqn:Hs.
        -- unfold Rt.ret. rewrite <- !app_assoc. cbn [app].
           exists false, s. eexists. split; [reflexivity|].
           split; [now destruct s|]. cbn.
           unfold takeId. rewrite Tid, <- hasSpice_ids, Hs. now repeat split.
        -- unfold Rt.bind, Rt.query, Rt.modify, Rt.ret.
           cbn [Rt.st Rt.tr fst snd]. rewrite <- !app_assoc. cbn [app].
           exists true. eexists. eexists. split; [reflexivity|].
           split; [reflexivity|]. rewrite !ids_push, length_app. cbn.
           unfold takeId. rewrite Tid, <- hasSpice_ids, Hs. cbn [negb andb].
           repeat split. lia.
      * unfold Rt.ret. rewrite <- !app_assoc. cbn [app].
        exists false, s. eexists. split; [reflexivity|].
        split; [now destruct s|]. cbn. unfold takeId. rewrite Tid.
        now repeat split.
    + unfold Rt.bind, Rt.effect, Rt.ret. cbn [Rt.st Rt.tr fst snd].
      rewrite <- !app_assoc. cbn [app].
      exists false, s. eexists. split; [reflexivity|].
      split; [now destruct s|]. cbn. now repeat split.
  - unfold Rt.bind, Rt.effect, Rt.ret. cbn [Rt.st Rt.tr fst snd].
    rewrite <- !app_assoc. cbn [app].
    exists false, s. eexists. split; [reflexivity|].
    split; [now destruct s|]. cbn. now repeat split.
Qed.

Lemma addDataUrls_run (dataUrls : list string) :
  forall (count : nat) (s : State) (t : Host.trace),
  exists count' s' new,
    Rt.run (addDataUrls toLowerCase host dataUrls count) s t
    = (Js.Ret count', Rt.mkWorld s' (t ++ new))
    /\ s' = set_ingredients (ingredients s') s
    /\ Forall (within [MFetch; MStash; MOther]) new
    /\ urlsIngested dataUrls (Invariants.ids s) count new
         (Invariants.ids s') count'.
Proof.
  assert (R : forall (count : nat) (s : State) (t : Host.trace),
             exists count' s' new,
               Rt.run (addDataUrls toLowerCase host dataUrls count) s t
               = (Js.Ret count', Rt.mkWorld s' (t ++ new))
               /\ s' = set_ingredients (ingredients s') s
               /\ urlsIngested dataUrls (Invariants.ids s) count new
                    (Invariants.ids s') count').
  { induction dataUrls as [|dataUrl rest IH]; intros count s t.
    - exists count, s, []. rewrite app_nil_r. split; [reflexivity|].
      split; [now destruct s|]. now repeat split.
    - unfold Rt.run. rewrite addDataUrls_step. unfold Rt.bind.
      destruct (urlBody_run dataUrl s t)
        as (added & s1 & new1 & R1 & S1 & F1 & K1 & I1 & L1).
      rewrite R1.
      destruct (IH (if added then count + 1 else count) s1 (t ++ new1))
        as (count' & s2 & new2 & R2 & S2 & F2 & K2 & I2 & L2).
      unfold Rt.run in R2. rewrite R2.
      exists count', s2, (new1 ++ new2). rewrite app_assoc.
      split; [reflexivity|].
      split; [exact (set_ingredients_twice S1 S2)|].
      unfold urlsIngested.
      rewrite stashed_app, fetched_app, !map_app, flat_map_app.
      split; [now rewrite F1, F2|]. split; [now rewrite K1, K2|].
      split; [rewrite ingest_app, I2; f_equal; exact I1|].
      destruct added; lia. }
  intros count s t.
  destruct (R count s t) as (count' & s' & new & E & S & P).
  exists count', s', new. split; [exact E|]. split; [exact S|].
  split; [|exact P].
  destruct (Footprint.only_addDataUrls host toLowerCase dataUrls count
              (Rt.mkWorld s t)) as (l & El & Fl).
  unfold Rt.run in E. rewrite E in El. cbn [snd Rt.tr] in El.
  apply app_inv_head in El. now rewrite El.
Qed.


Lemma addBlocks_ids (blocks : list Host.ClipboardBlock) :
  forall (count : nat) (s : State) (t : Host.trace),
  exists count' s' new,
    Rt.run (addBlocks host blocks count) s t
    = (Js.Ret count', Rt.mkWorld s' (t ++ new))
    /\ s' = set_ingredients (ingredients s') s
    /\ Invariants.ids s' = ingest (Invariants.ids s) (map blockId blocks)
    /\ count' + length (Invariants.ids s)
       = count + length (Invariants.ids s').
Proof.
  induction blocks as [|block rest IH]; intros count s t.
  - exists count, s, []. rewrite app_nil_r. split; [reflexivity|].
    split; [now destruct s|]. now split.
  - assert (Skip : takeId (Invariants.ids s) (blockId block)
                   = Invariants.ids s ->
                   exists count' s' new,
                     Rt.run (addBlocks host rest count) s t
                     = (Js.Ret count', Rt.mkWorld s' (t ++ new))
                     /\ s' = set_ingredients (ingredients s') s
                     /\ Invariants.ids s'
                        = ingest (Invariants.ids s)
                            (map blockId (block :: rest))
                     /\ count' + length (Invariants.ids s)
                        = count + length (Invariants.ids s')).
    { intros T. destruct (IH count s t) as (c & s' & new & R & S & I & L).
      exists c, s', new. split; [exact R|]. split; [exact S|].
      split; [|exact L]. cbn [map ingest fold_left]. rewrite T. exact I. }
    cbn [addBlocks]. unfold blockId in Skip.
    destruct (Host.block_bytes block) as [bytes|] eqn:Eb;
      [|apply Skip; reflexivity].
    destruct (Host.block_spice_id block) as [spiceId|] eqn:Ei;
      [|apply Skip; reflexivity].
    destruct (Host.block_dish_type block) as [dishType|] eqn:Ed;
      [|cbn [missing orb]; rewrite orb_true_r; apply Skip; reflexivity].
    cbn [missing orEmpty].
    destruct (Js.truthy spiceId) eqn:Tid; cbn [negb orb];
      [|apply Skip; unfold takeId;
        destruct (Js.truthy dishType); [now rewrite Tid|reflexivity]].
    destruct (Js.truthy dishType) eqn:Tt; cbn [negb];
      [|apply Skip; reflexivity].
    unfold Rt.run in *. unfold Rt.bind at 1. unfold Rt.get at 1.
    cbn [Rt.st Rt.tr fst snd].
    destruct (hasSpice s spiceId) eqn:Hs.
    { apply Skip. unfold takeId. now rewrite Tid, <- hasSpice_ids, Hs. }
    unfold Rt.bind at 1. unfold Rt.query at 1. cbn [Rt.st Rt.tr fst snd].
    unfold Rt.bind at 1. unfold Rt.modify at 1. cbn [Rt.st Rt.tr fst snd].
    match goal with
    | |- context [addBlocks host rest (count + 1)
                    {| Rt.st := ?s1; Rt.tr := ?t1 |}] =>
        destruct (IH (count + 1) s1 t1) as (c & s' & new & R & S & I & L)
    end.
    rewrite R. exists c, s'. eexists. rewrite <- app_assoc.
    split; [reflexivity|]. rewrite ids_push in I, L.
    split; [rewrite S; reflexivity|]. split.
    + cbn [map ingest fold_left]. unfold blockId. rewrite Eb, Ei, Ed, Tt.
      unfold takeId. rewrite Tid, <- hasSpice_ids, Hs. exact I.
    + rewrite length_app in L. cbn [length] in L. lia.
Qed.

(** What the read of the clipboard of the backend did, from the trace [t0]
    at its start: the read comes first, and the ids of the blocks it gave
    were taken as ingredients. *)
Definition clipboardIngested (ids : list string) (t0 new : Host.trace)
  (ids' : list string) : Prop :=
  let read := Host.read_clipboard_ingredients_cached in
  (exists rest, new = Host.EInvoke read (Host.invoke host t0 read) :: rest)
  /\ ids'
     = match Host.invoke host t0 read with
       | Js.Ret blocks => ingest ids (map blockId blocks)
       | Js.Throw _ => ids
       end.

Lemma readClipboard_run (silent : bool) (s : State) (t : Host.trace) :
  exists count s' new,
    Rt.run (addIngredientsFromRustClipboard host silent) s t
    = (Js.Ret count, Rt.mkWorld s' (t ++ new))
    /\ s' = set_ingredients (ingredients s') s
    /\ Forall (within [MRustRead; MOther]) new
    /\ clipboardIngested (Invariants.ids s) t new (Invariants.ids s').
Proof.
  assert (R : exists count s' new,
             Rt.run (addIngredientsFromRustClipboard host silent) s t
             = (Js.Ret count, Rt.mkWorld s' (t ++ new))
             /\ s' = set_ingredients (ingredients s') s
             /\ clipboardIngested (Invariants.ids s) t new
                  (Invariants.ids s')).
  { unfold clipboardIngested. cbv zeta.
    unfold Rt.run, addIngredientsFromRustClipboard.
    unfold Rt.try_catch. unfold Rt.bind at 1. unfold Rt.invoke at 1.
    cbn [Rt.st Rt.tr fst snd].
    destruct (Host.invoke host t Host.read_clipboard_ingredients_cached)
      as [blocks|e].
    - destruct (length blocks =? 0) eqn:L.
      + cbn [Rt.ret]. exists 0, s. eexists. split; [reflexivity|].
        split; [now destruct s|]. split; [eexists; reflexivity|].
        destruct blocks; [reflexivity|discriminate L].
      + destruct (addBlocks_ids blocks 0 s
                    (t ++ [Host.EInvoke Host.read_clipboard_ingredients_cached
                             (Js.Ret blocks)]))
          as (c & s' & new & E & S & I & _).
        unfold Rt.run in E. unfold Rt.bind at 1. rewrite E.
        assert (W : exists more,
                   Rt.bind
                     (Rt.when (0 <? c)
                        (Rt.bind
                           (Rt.when (negb silent)
                              (Rt.message_success
                                 ("已添加 " ++ Js.String_of_Z (Z.of_nat c)
                                    ++ " 个食材")%string))
                           (fun _ => emitUpdate)))
                     (fun _ => Rt.ret c)
                     (Rt.mkWorld s'
                        ((t ++ [Host.EInvoke
                                  Host.read_clipboard_ingredients_cached
                                  (Js.Ret blocks)]) ++ new))
                   = (Js.Ret c,
                      Rt.mkWorld s'
                        (((t ++ [Host.EInvoke
                                   Host.read_clipboard_ingredients_cached
                                   (Js.Ret blocks)]) ++ new) ++ more))).
        { unfold emitUpdate, Rt.message_success.
          destruct (0 <? c).
          - destruct silent; cbn [Rt.when negb];
              unfold Rt.bind, Rt.effect, Rt.get, Rt.ret;
              cbn [Rt.st Rt.tr fst snd]; eexists;
              rewrite <- ?app_assoc; reflexivity.
          - exists []. cbn [Rt.when]. unfold Rt.bind, Rt.ret.
            now rewrite app_nil_r. }
        destruct W as (more & W). rewrite W.
        exists c, s', (Host.EInvoke Host.read_clipboard_ingredients_cached
                         (Js.Ret blocks) :: new ++ more).
        rewrite <- !app_assoc. split; [reflexivity|]. split; [exact S|].
        split; [eexists; reflexivity|exact I].
    - unfold Rt.message_error, Rt.when.
      destruct silent; cbn [negb]; unfold Rt.bind, Rt.effect, Rt.ret;
        cbn [Rt.st Rt.tr fst snd]; rewrite <- ?app_assoc;
        exists 0, s; eexists; (split; [reflexivity|]);
        (split; [now destruct s|]);
        (split; [eexists; reflexivity|reflexivity]). }
  destruct R as (count & s' & new & E & S & P).
  exists count, s', new. split; [exact E|]. split; [exact S|].
  split; [|exact P].
  destruct (Footprint.only_addIngredientsFromRustClipboard host silent
              (Rt.mkWorld s t)) as (l & El & Fl).
  unfold Rt.run in E. rewrite E in El. cbn [snd Rt.tr] in El.
  apply app_inv_head in El. now rewrite El.
Qed.


Lemma readItemTypes_returns (pairs : list (Host.ClipboardItem * string)) :
  forall (files : list Host.File) (s : State) (t : Host.trace),
  exists files' t',
    readItemTypes toLowerCase host pairs files (Rt.mkWorld s t)
    = (Js.Ret files', Rt.mkWorld s t').
Proof.
  induction pairs as [|[item type] rest IH]; intros files s t.
  - now exists files, t.
  - cbn [readItemTypes]. destruct (negb (Js.startsWith type "image/"));
      [apply IH|].
    unfold Rt.bind at 1. unfold Rt.attempt, Rt.web.
    cbn [Rt.st Rt.tr fst snd].
    destruct (Host.web host t (Host.item_getType item type)) as [blob|e].
    + unfold Rt.bind at 1. unfold Rt.query at 1. cbn [Rt.st Rt.tr fst snd].
      apply IH.
    + unfold Rt.console_debug, Rt.bind, Rt.effect, Rt.ret.
      cbn [Rt.st Rt.tr fst snd]. eexists. eexists. reflexivity.
Qed.

(** The read of the clipboard through the browser asks first whether the
    clipboard can be read, returns files, and changes no ref. *)
Lemma readNavigator_run (s : State) (t : Host.trace) :
  exists files readable nav,
    Rt.run (readIngredientsFromNavigatorClipboard toLowerCase host) s t
    = (Js.Ret files,
       Rt.mkWorld s
         (t ++ Host.EQuery Host.navigator_clipboard_readable readable :: nav))
    /\ Forall (within [MNavigator; MOther]) nav.
Proof.
  destruct (readNavigator_first toLowerCase host (Rt.mkWorld s t))
    as (b & nav & E & Fn).
  assert (R : exists files t',
             readIngredientsFromNavigatorClipboard toLowerCase host
               (Rt.mkWorld s t)
             = (Js.Ret files, Rt.mkWorld s t')).
  { unfold readIngredientsFromNavigatorClipboard.
    unfold Rt.bind at 1. unfold Rt.query at 1. cbn [Rt.st Rt.tr fst snd].
    destruct (negb _); [eexists; eexists; reflexivity|].
    unfold Rt.bind at 1. unfold Rt.attempt, Rt.web.
    cbn [Rt.st Rt.tr fst snd].
    destruct (Host.web host _ Host.navigator_clipboard_read) as [items|e].
    - apply readItemTypes_returns.
    - unfold Rt.console_debug, Rt.bind, Rt.effect, Rt.ret.
      cbn [Rt.st Rt.tr fst snd]. eexists. eexists. reflexivity. }
  destruct R as (files & t' & R). unfold Rt.run. rewrite R in *.
  cbn [snd Rt.tr] in E. subst t'. now exists files, b, nav.
Qed.

End IngestFacts.

(** C1, as stated, fails, in three ways.  With no file, no HTML and no
    text on the event, and nothing from the clipboard of the navigator,
    the last stage reads the clipboard of the backend and adds its image,
    and the event is not consumed.  With a text that names no file the
    handler ends at once: nothing is read, though the clipboard of the
    backend holds an image.  And with a text that names an image file and
    a backend that fails, the event is consumed and no image is added. *)
Lemma C1_counterexample :
  let out :=
    Rt.run (PopupInput.handleIngredientPaste Sample.toLowerCase Sample.up
              Sample.emptyPaste)
      (PopupInput.initial None) [] in
  let text :=
    Rt.run (PopupInput.handleIngredientPaste Sample.toLowerCase Sample.up
              Sample.textPaste)
      (PopupInput.initial None) [] in
  let paths :=
    Rt.run (PopupInput.handleIngredientPaste Sample.toLowerCase Sample.down
              Sample.pathPaste)
      (PopupInput.initial None) [] in
  (ClipboardEvent.clipboardData Sample.emptyPaste <> None
   /\ Invariants.ids (Rt.st (snd out)) = ["spice-1"]
   /\ existsb Host.isPreventDefault (Rt.tr (snd out)) = false)
  /\ (ClipboardEvent.clipboardData Sample.textPaste <> None
      /\ text = (Js.Ret tt, Rt.mkWorld (PopupInput.initial None) []))
  /\ (ClipboardEvent.clipboardData Sample.pathPaste <> None
      /\ Invariants.ids (Rt.st (snd paths)) = []
      /\ existsb Host.isPreventDefault (Rt.tr (snd paths)) = true).
Proof.
  split; [split; [discriminate|split; vm_compute; reflexivity]|].
  split; [split; [discriminate|vm_compute; reflexivity]|].
  split; [discriminate|split; vm_compute; reflexivity].
Qed.

(** C1, amended: an event that is already handled or carries no clipboard
    data is left alone.  Otherwise the handler changes no ref but the
    ingredients, and the checks come in this order.  (1) When the clipboard
    data has image files the event is consumed first, then the image files
    are stashed in their order and the ids answered are taken as
    ingredients; a stash that fails ends the handler with that failure.
    (2) With no image file, when the HTML text has data URLs of images the
    event is consumed, every URL is fetched in order, each image fetched
    is stashed and the ids answered are taken as ingredients; when one at
    least was added a message tells how many and the parent is told.
    (3) With neither, and a plain text that is not empty: when the text
    looks like a list of image paths the event is consumed, the clipboard
    of the backend is read and the ids of its blocks are taken as
    ingredients; when it does not the handler ends with no effect at all.
    (4) With no text the clipboard of the navigator is read first, which
    changes no ref: when it gives files the event is consumed and they are
    ingested as in (1); when it gives none the clipboard of the backend is
    read as in (3) and the event is not consumed.  The effects of a stage
    are its own: no stash in a read of the backend, no read of the backend
    after a stash.  This is the paste that runs to its end before another
    handler changes the ingredients. *)
Theorem C1_paste_stages
  (toLowerCase : string -> string) (host : Host.t)
  (s : PopupInput.State) (t : Host.trace) (event : ClipboardEvent.t) :
  let out :=
    Rt.run (PopupInput.handleIngredientPaste toLowerCase host event) s t in
  let s' := Rt.st (snd out) in
  let ids := Invariants.ids s in
  let ids' := Invariants.ids s' in
  (ClipboardEvent.defaultPrevented event = true
   \/ ClipboardEvent.clipboardData event = None ->
   out = (Js.Ret tt, Rt.mkWorld s t))
  /\ (forall cd,
         ClipboardEvent.defaultPrevented event = false ->
         ClipboardEvent.clipboardData event = Some cd ->
         s' = PopupInput.set_ingredients (PopupInput.ingredients s') s
         /\ match PopupInput.pastedImageFiles cd,
                  PopupInput.pastedDataUrls cd with
            | file :: files, _ =>
                exists rest,
                  Rt.tr (snd out) = t ++ Host.EPreventDefault :: rest
                  /\ Forall (within [MStash; MOther]) rest
                  /\ filesIngested (file :: files) ids (fst out) rest ids'
            | [], dataUrl :: dataUrls =>
                exists rest count,
                  fst out = Js.Ret tt
                  /\ Rt.tr (snd out)
                     = t ++ Host.EPreventDefault
                         :: rest
                         ++ (if 0 <? count
                             then
                               [Host.EMessage Host.success
                                  ("已添加 " ++ Js.String_of_Z (Z.of_nat count)
                                     ++ " 个食材")%string;
                                Host.EEmitUpdate
                                  (PopupInput.note s'
                                     ++ PopupInput.generateConditionalContent
                                          s')
                                  (PopupInput.toppings s') ids']
                             else [])
                  /\ Forall (within [MFetch; MStash; MOther]) rest
                  /\ urlsIngested (dataUrl :: dataUrls) ids 0 rest ids' count
            | [], [] =>
                let plainText := DataTransfer.getData cd "text/plain" in
                if 0 <? String.length plainText
                then
                  if PopupInput.looksLikeImageFilePathList plainText
                  then
                    exists rest,
                      fst out = Js.Ret tt
                      /\ Rt.tr (snd out) = t ++ Host.EPreventDefault :: rest
                      /\ Forall (within [MRustRead; MOther]) rest
                      /\ clipboardIngested host ids
                           (t ++ [Host.EPreventDefault]) rest ids'
                  else out = (Js.Ret tt, Rt.mkWorld s t)
                else
                  exists files readable nav,
                    Rt.run
                      (PopupInput.readIngredientsFromNavigatorClipboard
                         toLowerCase host) s t
                    = (Js.Ret files,
                       Rt.mkWorld s
                         (t ++ Host.EQuery Host.navigator_clipboard_readable
                                 readable :: nav))
                    /\ Forall (within [MNavigator; MOther]) nav
                    /\ let t1 :=
                         t ++ Host.EQuery Host.navigator_clipboard_readable
                                readable :: nav in
                       match files with
                       | _ :: _ =>
                           exists rest,
                             Rt.tr (snd out)
                             = t1 ++ Host.EPreventDefault :: rest
                             /\ Forall (within [MStash; MOther]) rest
                             /\ filesIngested files ids (fst out) rest ids'
                       | [] =>
                           exists rest,
                             fst out = Js.Ret tt
                             /\ Rt.tr (snd out) = t1 ++ rest
                             /\ Forall (within [MRustRead; MOther]) rest
                             /\ clipboardIngested host ids t1 rest ids'
                       end
            end).
Proof.
  intros out s' ids ids'. split; [apply paste_ignored|].
  intros cd Hprev Hcd. subst ids' ids s'.
  assert (Eout : out
                 = PopupInput.handleIngredientPaste toLowerCase host event
                     (Rt.mkWorld s t)) by reflexivity.
  clearbody out.
  unfold PopupInput.handleIngredientPaste in Eout. rewrite Hprev, Hcd in Eout.
  destruct (PopupInput.pastedImageFiles cd) as [|file files] eqn:Ef.
  - change (0 <? length (@nil Host.File)) with false in Eout.
    cbv iota in Eout.
    destruct (PopupInput.pastedDataUrls cd) as [|url urls] eqn:Eu.
    + change (0 <? length (@nil string)) with false in Eout.
      cbv iota zeta in Eout. cbv zeta.
      destruct (0 <? String.length (DataTransfer.getData cd "text/plain")).
      * destruct (PopupInput.looksLikeImageFilePathList _).
        -- unfold Rt.bind at 1 in Eout. unfold Rt.effect at 1 in Eout.
           cbn [Rt.st Rt.tr] in Eout. unfold Rt.bind in Eout.
           destruct (readClipboard_run host false s
                       (t ++ [Host.EPreventDefault]))
             as (count & s1 & new & R & S & W & P).
           unfold Rt.run in R. rewrite R in Eout.
           cbn [Rt.ret fst snd Rt.st Rt.tr] in Eout. subst out.
           cbn [fst snd Rt.st Rt.tr].
           split; [exact S|]. exists new. split; [reflexivity|].
           split; [now rewrite <- app_assoc|]. split; [exact W|exact P].
        -- cbn [Rt.ret] in Eout. subst out. cbn [fst snd Rt.st].
           split; [now destruct s|reflexivity].
      * unfold Rt.bind at 1 in Eout.
        destruct (readNavigator_run toLowerCase host s t)
          as (fallback & b & nav & N & Fn).
        pose proof N as N'. unfold Rt.run in N'. rewrite N' in Eout.
        clear N'.
        destruct fallback as [|f fs].
        -- change (0 <? length (@nil Host.File)) with false in Eout.
           cbv iota in Eout. unfold Rt.bind in Eout.
           destruct (readClipboard_run host false s
                       (t ++ Host.EQuery Host.navigator_clipboard_readable b
                          :: nav))
             as (count & s1 & new & R & S & W & P).
           unfold Rt.run in R. rewrite R in Eout.
           cbn [Rt.ret fst snd Rt.st Rt.tr] in Eout. subst out.
           cbn [fst snd Rt.st Rt.tr].
           split; [exact S|]. exists [], b, nav. split; [exact N|].
           split; [exact Fn|]. cbv zeta. exists new.
           split; [reflexivity|]. split; [reflexivity|].
           split; [exact W|exact P].
        -- change (0 <? length (f :: fs)) with true in Eout.
           cbv iota in Eout.
           unfold Rt.bind in Eout. unfold Rt.effect at 1 in Eout.
           cbn [Rt.st Rt.tr] in Eout.
           destruct (handleIngredientFiles_run host (f :: fs) s
                       ((t ++ Host.EQuery Host.navigator_clipboard_readable b
                           :: nav) ++ [Host.EPreventDefault]))
             as (o & s1 & new & R & S & W & P).
           unfold Rt.run in R. rewrite R in Eout. subst out.
           cbn [fst snd Rt.st Rt.tr].
           split; [exact S|]. exists (f :: fs), b, nav.
           split; [exact N|]. split; [exact Fn|]. cbv zeta.
           exists new. split; [now rewrite <- app_assoc|].
           split; [exact W|exact P].
    + change (0 <? length (url :: urls)) with true in Eout.
      cbv iota in Eout.
      unfold Rt.bind at 1 in Eout. unfold Rt.effect at 1 in Eout.
      cbn [Rt.st Rt.tr] in Eout. unfold Rt.bind at 1 in Eout.
      destruct (addDataUrls_run toLowerCase host (url :: urls) 0 s
                  (t ++ [Host.EPreventDefault]))
        as (count & s1 & new & R & S & W & P).
      unfold Rt.run in R. rewrite R in Eout.
      unfold PopupInput.emitUpdate, Rt.message_success in Eout.
      destruct (0 <? count) eqn:Ec; cbn [Rt.when] in Eout;
        unfold Rt.bind, Rt.effect, Rt.get, Rt.ret in Eout;
        cbn [Rt.st Rt.tr fst snd] in Eout; subst out;
        cbn [fst snd Rt.st Rt.tr];
        (split; [exact S|]); exists new, count; rewrite Ec;
        (split; [reflexivity|]);
        (split; [rewrite <- !app_assoc; cbn [app]; rewrite ?app_nil_r;
                 reflexivity|]);
        (split; [exact W|exact P]).
  - change (0 <? length (file :: files)) with true in Eout.
    cbv iota in Eout.
    unfold Rt.bind in Eout. unfold Rt.effect at 1 in Eout.
    cbn [Rt.st Rt.tr] in Eout.
    destruct (handleIngredientFiles_run host (file :: files) s
                (t ++ [Host.EPreventDefault]))
      as (o & s1 & new & R & S & W & P).
    unfold Rt.run in R. rewrite R in Eout. subst out.
    cbn [fst snd Rt.st Rt.tr].
    split; [exact S|]. exists new. split; [now rewrite <- app_assoc|].
    split; [exact W|exact P].
Qed.

Lemma C1_paste_stages_witness :
  let out :=
    Rt.run (PopupInput.handleIngredientPaste Sample.toLowerCase Sample.up
              Sample.filePaste)
      (PopupInput.initial None) [] in
  exists rest,
    Rt.tr (snd out) = Host.EPreventDefault :: rest
    /\ Forall (within [MStash; MOther]) rest
    /\ filesIngested [Sample.png] [] (fst out) rest
         (Invariants.ids (Rt.st (snd out))).
Proof.
  intros out.
  destruct (proj2 (C1_paste_stages Sample.toLowerCase Sample.up
                     (PopupInput.initial None) [] Sample.filePaste)
              (DataTransfer.mk [Sample.png] [] (fun _ => ""))
              eq_refl eq_refl)
    as (_ & rest & E & F & I).
  exists rest. split; [exact E|]. split; [exact F|exact I].
Defined.

(** ** The popup holds what its input shows *)

(** A second logic of handlers, for properties that tie the refs to the
    trace: a frame is a predicate on worlds with the effects that keep it
    when they are logged and the updates of the refs that keep it. *)
Module Frames.

Import Js Host Rt.

Record Frame (S : Type) : Type := mkFrame {
  holds : World S -> Prop;
  logs : Effect -> Prop;
  sets : (S -> S) -> Prop;
  holds_log :
    forall w e, holds w -> logs e -> holds (mkWorld (st w) (tr w ++ [e]));
  holds_set :
    forall w f, holds w -> sets f -> holds (mkWorld (f (st w)) (tr w))
}.

Section Rules.

Variable S : Type.
Variable F : Frame S.

(** The handler keeps the frame, whether it returns or throws. *)
Definition tidy {A} (m : M S A) : Prop :=
  forall w, holds F w -> holds F (snd (m w)).

Lemma tidy_ret {A} (a : A) : tidy (ret a).
Proof. intros w H; exact H. Qed.

Lemma tidy_throw {A} (e : Error) : tidy (@throw S A e).
Proof. intros w H; exact H. Qed.

Lemma tidy_get : tidy (@get S).
Proof. intros w H; exact H. Qed.

Lemma tidy_bind {A B} (m : M S A) (k : A -> M S B) :
  tidy m -> (forall a, tidy (k a)) -> tidy (bind m k).
Proof.
  intros Hm Hk w Hw. unfold bind. specialize (Hm w Hw).
  destruct (m w) as [[a|e] w']; simpl in *; [now apply Hk|exact Hm].
Qed.

Lemma tidy_try_catch {A} (m : M S A) (h : Error -> M S A) :
  tidy m -> (forall e, tidy (h e)) -> tidy (try_catch m h).
Proof.
  intros Hm Hh w Hw. unfold try_catch. specialize (Hm w Hw).
  destruct (m w) as [[a|e] w']; simpl in *; [exact Hm|now apply Hh].
Qed.

Lemma tidy_modify (f : S -> S) : sets F f -> tidy (modify f).
Proof. intros Hf w Hw. now apply holds_set. Qed.

Lemma tidy_effect (e : Effect) : logs F e -> tidy (@effect S e).
Proof. intros He w Hw. now apply holds_log. Qed.

Lemma tidy_invoke host {R} (c : Command R) :
  (forall r, logs F (EInvoke c r)) -> tidy (@invoke S host R c).
Proof. intros H w Hw. unfold invoke. simpl. now apply holds_log. Qed.

Lemma tidy_web host {R} (c : WebCall R) :
  (forall r, logs F (EWeb c r)) -> tidy (@web S host R c).
Proof. intros H w Hw. unfold web. simpl. now apply holds_log. Qed.

Lemma tidy_query host {R} (q : Query R) :
  (forall r, logs F (EQuery q r)) -> tidy (@query S host R q).
Proof. intros H w Hw. unfold query. simpl. now apply holds_log. Qed.

Lemma tidy_attempt {A} (m : M S A) : tidy m -> tidy (attempt m).
Proof.
  intros Hm w Hw. unfold attempt. specialize (Hm w Hw).
  destruct (m w); exact Hm.
Qed.

Lemma tidy_void {A} (m : M S A) :
  (forall e, logs F (EUnhandledRejection e)) -> tidy m -> tidy (void m).
Proof.
  intros He Hm w Hw. unfold void. specialize (Hm w Hw).
  destruct (m w) as [[a|e] w']; simpl in *; [exact Hm|].
  now apply holds_log.
Qed.

Lemma tidy_when (b : bool) (m : M S unit) : tidy m -> tidy (when b m).
Proof. intros H. destruct b; [exact H|apply tidy_ret]. Qed.

Lemma tidy_for_of {A} (l : list A) (body : A -> M S unit) :
  (forall x, tidy (body x)) -> tidy (for_of l body).
Proof.
  intros H. induction l as [|x l IH]; simpl.
  - apply tidy_ret.
  - apply tidy_bind; [apply H|intros _; exact IH].
Qed.

End Rules.

Create HintDb tidy.

(** One step of a proof that a handler keeps a frame: a lemma on a part of
    the handler ([site]), a rule, or a case analysis; [side] proves that an
    effect or an update of the refs keeps the frame. *)
Ltac tidy_step site side :=
  first
    [ solve [auto with tidy]
    | site
    | lazymatch goal with
      | |- tidy _ (Rt.ret _) => apply tidy_ret
      | |- tidy _ (Rt.throw _) => apply tidy_throw
      | |- tidy _ Rt.get => apply tidy_get
      | |- tidy _ (Rt.modify _) => apply tidy_modify; solve [side]
      | |- tidy _ (Rt.effect _) => apply tidy_effect; solve [side]
      | |- tidy _ (Rt.invoke _ _) =>
          apply tidy_invoke; solve [intros; side]
      | |- tidy _ (Rt.web _ _) => apply tidy_web; solve [intros; side]
      | |- tidy _ (Rt.query _ _) => apply tidy_query; solve [intros; side]
      | |- tidy _ (Rt.attempt _) => apply tidy_attempt
      | |- tidy _ (Rt.void _) => apply tidy_void; [solve [intros; side]|]
      | |- tidy _ (Rt.when _ _) => apply tidy_when
      | |- tidy _ (Rt.try_catch _ _) => apply tidy_try_catch; [|intros]
      | |- tidy _ (Rt.for_of _ _) => apply tidy_for_of; intros
      | |- tidy _ (Rt.bind _ _) => apply tidy_bind; [|intros]
      | |- tidy _ (if ?b then _ else _) => destruct b eqn:?
      | |- tidy _ (match ?x with _ => _ end) => destruct x eqn:?
      | |- tidy _ (let _ := _ in _) => cbv zeta
      end ].

Ltac tidy_with site side :=
  unfold Rt.message_success, Rt.message_warning, Rt.message_error,
    Rt.console_log, Rt.console_debug, Rt.console_error;
  repeat tidy_step site side.

End Frames.

Module Sync.

Import Js Host Rt Frames.

(** What the popup holds after the listener ran on the updates that the
    input emitted since the trace had length [n], from the refs [p]. *)
Definition view (n : nat) (p : McpPopup.State)
  (w : World PopupInput.State) : McpPopup.State :=
  McpPopup.deliver (skipn n (tr w)) p.

(** The trace still extends that of the start of the handler. *)
Definition Loose (n : nat) (w : World PopupInput.State) : Prop :=
  n <= length (tr w).

(** The popup holds the options and the ids that the input shows. *)
Definition Clean (n : nat) (p : McpPopup.State)
  (w : World PopupInput.State) : Prop :=
  Loose n w
  /\ McpPopup.toppings (view n p w) = PopupInput.toppings (st w)
  /\ McpPopup.spiceIds (view n p w) = Invariants.ids (st w).

Definition quiet (e : Effect) : Prop := isUpdate e = false.

(** An update of the refs that leaves the options and the ingredients. *)
Definition keepsShown (f : PopupInput.State -> PopupInput.State) : Prop :=
  forall s,
    PopupInput.toppings (f s) = PopupInput.toppings s
    /\ PopupInput.ingredients (f s) = PopupInput.ingredients s.

Lemma view_log (n : nat) (p : McpPopup.State)
  (w : World PopupInput.State) (e : Effect) :
  Loose n w ->
  view n p (mkWorld (st w) (tr w ++ [e]))
  = McpPopup.deliver [e] (view n p w).
Proof.
  unfold Loose, view. intros H. cbn [tr].
  rewrite skipn_app.
  replace (n - length (tr w)) with 0 by lia. cbn [skipn].
  unfold McpPopup.deliver. now rewrite fold_left_app.
Qed.

Lemma Loose_log (n : nat) (w : World PopupInput.State) (e : Effect) :
  Loose n w -> Loose n (mkWorld (st w) (tr w ++ [e])).
Proof. unfold Loose. cbn [tr]. rewrite length_app. simpl. lia. Qed.

Lemma Clean_log (n : nat) (p : McpPopup.State)
  (w : World PopupInput.State) (e : Effect) :
  Clean n p w -> quiet e -> Clean n p (mkWorld (st w) (tr w ++ [e])).
Proof.
  intros (L & T & I) Q. split; [now apply Loose_log|].
  rewrite (view_log p e L). cbn [st].
  destruct e; try discriminate Q; now split.
Qed.

Lemma Clean_set (n : nat) (p : McpPopup.State)
  (w : World PopupInput.State)
  (f : PopupInput.State -> PopupInput.State) :
  Clean n p w -> keepsShown f -> Clean n p (mkWorld (f (st w)) (tr w)).
Proof.
  intros (L & T & I) K. destruct (K (st w)) as [K1 K2].
  split; [exact L|]. unfold view, Invariants.ids in *. cbn [st tr].
  rewrite K1, K2. now split.
Qed.

Definition clean (n : nat) (p : McpPopup.State) : Frame PopupInput.State :=
  mkFrame (Clean n p) quiet keepsShown (@Clean_log n p) (@Clean_set n p).

Definition loose (n : nat) : Frame PopupInput.State :=
  mkFrame (Loose n) (fun _ => True) (fun _ => True)
    (fun w e H _ => Loose_log e H) (fun w f H _ => H).

Ltac clean_side :=
  first
    [ reflexivity
    | exact I
    | intros ?; split; reflexivity ].

Ltac clean_tac site := tidy_with site clean_side.
Ltac loose_tac := tidy_with fail ltac:(exact I).

(** *** Telling the parent *)

Section Input.

Variable n : nat.
Variable p : McpPopup.State.
Variable toLowerCase : string -> string.
Variable host : Host.t.

Local Abbreviation tidyC := (tidy (clean n p)).
Local Abbreviation tidyL := (tidy (loose n)).

(** From a loose world the handler ends in a clean one, and returns. *)
Definition mends {A} (m : M PopupInput.State A) : Prop :=
  forall w, Loose n w -> Clean n p (snd (m w)).

Lemma mends_tidy {A} (m : M PopupInput.State A) : mends m -> tidyC m.
Proof. intros H w Hw. apply H. apply Hw. Qed.

Lemma mends_emitUpdate : mends PopupInput.emitUpdate.
Proof.
  intros w L. unfold PopupInput.emitUpdate, bind, get, effect.
  cbn [st tr fst snd]. split; [now apply Loose_log|].
  rewrite (view_log p _ L). cbn [st McpPopup.deliver fold_left].
  split; reflexivity.
Qed.

Lemma mends_bind {A B} (m : M PopupInput.State A)
  (k : A -> M PopupInput.State B) :
  Hoare.safe m -> tidyL m -> (forall a, mends (k a)) -> mends (bind m k).
Proof.
  intros Hs Hl Hk w L. unfold bind.
  specialize (Hs w). specialize (Hl w L).
  destruct (m w) as [[a|e] w']; simpl in *; [|discriminate].
  now apply Hk.
Qed.

Lemma tidyC_emitUpdate : tidyC PopupInput.emitUpdate.
Proof. apply mends_tidy, mends_emitUpdate. Qed.

#[local] Hint Resolve tidyC_emitUpdate : tidy.

Ltac mends_step :=
  lazymatch goal with
  | |- mends PopupInput.emitUpdate => apply mends_emitUpdate
  | |- mends (Rt.bind _ _) =>
      apply mends_bind; [safe_tac|loose_tac|intros]
  | |- mends (if ?b then _ else _) => destruct b
  | |- mends (match ?x with _ => _ end) => destruct x
  | |- mends (let _ := _ in _) => cbv zeta
  end.

Ltac mends_tac :=
  unfold Rt.message_success, Rt.message_warning, Rt.message_error,
    Rt.console_log, Rt.console_debug, Rt.console_error;
  repeat mends_step.

(** A push is followed by an update before anything can throw. *)
Ltac push_site :=
  idtac;
  lazymatch goal with
  | |- tidy _ (Rt.bind (Rt.modify (PopupInput.pushIngredient _ _)) _) =>
      apply mends_tidy; mends_tac
  end.

Lemma tidyC_inputNote text : tidyC (PopupInput.inputNote text).
Proof.
  unfold PopupInput.inputNote, PopupInput.watchNote. clean_tac fail.
Qed.

Lemma mends_handleOptionChange option checked :
  mends (PopupInput.handleOptionChange option checked).
Proof.
  unfold PopupInput.handleOptionChange. apply mends_bind; [safe_tac|loose_tac|].
  intros s. mends_tac.
Qed.

Lemma mends_handleOptionToggle option :
  mends (PopupInput.handleOptionToggle option).
Proof.
  unfold PopupInput.handleOptionToggle. apply mends_bind; [safe_tac|loose_tac|].
  intros s. mends_tac.
Qed.

Lemma safe_releaseIngredient b :
  Hoare.safe (PopupInput.releaseIngredient host b).
Proof. unfold PopupInput.releaseIngredient. safe_tac. Qed.

Lemma tidyL_releaseIngredient b :
  tidyL (PopupInput.releaseIngredient host b).
Proof. unfold PopupInput.releaseIngredient. loose_tac. Qed.

Lemma tidyC_releaseIngredient b :
  tidyC (PopupInput.releaseIngredient host b).
Proof. unfold PopupInput.releaseIngredient. clean_tac fail. Qed.

Lemma mends_removeIngredient index :
  mends (PopupInput.removeIngredient host index).
Proof.
  unfold PopupInput.removeIngredient.
  apply mends_bind; [safe_tac|loose_tac|]. intros s.
  apply mends_bind; [safe_tac|loose_tac|]. intros _.
  apply mends_bind; [| |intros _; apply mends_emitUpdate].
  - destruct (nth_error _ _); [apply safe_releaseIngredient|safe_tac].
  - destruct (nth_error _ _); [apply tidyL_releaseIngredient|loose_tac].
Qed.

Lemma mends_reset : mends (PopupInput.reset host).
Proof.
  unfold PopupInput.reset.
  apply mends_bind; [safe_tac|loose_tac|]. intros _.
  apply mends_bind; [safe_tac|loose_tac|]. intros _.
  apply mends_bind; [safe_tac|loose_tac|]. intros s.
  apply mends_bind; [| |intros _].
  - apply Hoare.safe_for_of. intros b. apply safe_releaseIngredient.
  - apply tidy_for_of. intros b. apply tidyL_releaseIngredient.
  - mends_tac.
Qed.

Lemma mends_updateData dnote dtoppings dspiceIds :
  mends (PopupInput.updateData dnote dtoppings dspiceIds).
Proof. unfold PopupInput.updateData. mends_tac. Qed.

Lemma tidyC_readItemTypes pairs files :
  tidyC (PopupInput.readItemTypes toLowerCase host pairs files).
Proof.
  revert files. induction pairs as [|[item type] rest IH]; intros files;
    simpl; clean_tac fail; apply IH.
Qed.

#[local] Hint Resolve tidyC_readItemTypes tidyC_releaseIngredient : tidy.

Lemma tidyC_readIngredientsFromNavigatorClipboard :
  tidyC (PopupInput.readIngredientsFromNavigatorClipboard toLowerCase host).
Proof.
  unfold PopupInput.readIngredientsFromNavigatorClipboard. clean_tac fail.
Qed.

Lemma tidyC_handleIngredientFiles files :
  tidyC (PopupInput.handleIngredientFiles host files).
Proof.
  unfold PopupInput.handleIngredientFiles. clean_tac push_site.
Qed.

Lemma tidyC_fileBody file : tidyC (fileBody host file).
Proof. unfold fileBody. clean_tac push_site. Qed.

Lemma mends_told text :
  mends (bind (message_success text) (fun _ => PopupInput.emitUpdate)).
Proof. mends_tac. Qed.

Lemma tidyC_loadCustomPrompts : tidyC (PopupInput.loadCustomPrompts host).
Proof. unfold PopupInput.loadCustomPrompts. clean_tac fail. Qed.

#[local] Hint Resolve tidyC_loadCustomPrompts
  tidyC_readIngredientsFromNavigatorClipboard tidyC_handleIngredientFiles
  : tidy.

Lemma tidyC_savePromptOrder : tidyC (PopupInput.savePromptOrder host).
Proof. unfold PopupInput.savePromptOrder. clean_tac fail. Qed.

#[local] Hint Resolve tidyC_savePromptOrder : tidy.

Lemma tidyC_onEnd oldIndex newIndex :
  tidyC (PopupInput.onEnd host oldIndex newIndex).
Proof. unfold PopupInput.onEnd. clean_tac fail. Qed.

Lemma tidyC_insertPromptContent content mode :
  tidyC (PopupInput.insertPromptContent content mode).
Proof. unfold PopupInput.insertPromptContent. clean_tac fail. Qed.

#[local] Hint Resolve tidyC_insertPromptContent : tidy.

Lemma tidyC_handlePromptClick prompt :
  tidyC (PopupInput.handlePromptClick prompt).
Proof. unfold PopupInput.handlePromptClick. clean_tac fail. Qed.

Lemma tidyC_handleQuoteMessage messageContent :
  tidyC (PopupInput.handleQuoteMessage messageContent).
Proof. unfold PopupInput.handleQuoteMessage. clean_tac fail. Qed.

Lemma tidyC_handleInsertMode mode :
  tidyC (PopupInput.handleInsertMode mode).
Proof. unfold PopupInput.handleInsertMode. clean_tac fail. Qed.

Lemma tidyC_handleConditionalToggle promptId value :
  tidyC (PopupInput.handleConditionalToggle host promptId value).
Proof. unfold PopupInput.handleConditionalToggle. clean_tac fail. Qed.

Lemma tidyC_onMounted : tidyC (PopupInput.onMounted host).
Proof. unfold PopupInput.onMounted. clean_tac fail. Qed.

Lemma tidyC_onUnmounted : tidyC (PopupInput.onUnmounted host).
Proof. unfold PopupInput.onUnmounted. clean_tac fail. Qed.

(** *** The loops that push and count *)

Lemma Clean_quiet (new : list Effect) :
  forall w,
    Clean n p w -> Forall quiet new ->
    Clean n p (mkWorld (st w) (tr w ++ new)).
Proof.
  induction new as [|e new IH]; intros w Hw Hq.
  - rewrite app_nil_r. now destruct w.
  - inversion Hq as [|? ? He Hnew]; subst.
    specialize (IH (mkWorld (st w) (tr w ++ [e])) (Clean_log Hw He) Hnew).
    cbn [st tr] in IH. now rewrite <- app_assoc in IH.
Qed.

Lemma Loose_more (w : World PopupInput.State) (s : PopupInput.State)
  (new : list Effect) :
  Loose n w -> Loose n (mkWorld s (tr w ++ new)).
Proof. unfold Loose. cbn [tr]. rewrite length_app. lia. Qed.

(** A loop that counts what it pushed: it returns, the trace grows, and a
    count of zero says that the world is as clean as it was. *)
Definition counts (count : nat) (m : M PopupInput.State nat) : Prop :=
  forall w,
    Loose n w -> (count = 0 -> Clean n p w) ->
    match m w with
    | (Ret c', w') => Loose n w' /\ (c' = 0 -> Clean n p w')
    | (Throw _, _) => False
    end.

Lemma counts_addBlocks blocks :
  forall count, counts count (PopupInput.addBlocks host blocks count).
Proof.
  induction blocks as [|block rest IH]; intros count w L C.
  - cbn. split; [exact L|exact C].
  - cbn [PopupInput.addBlocks].
    destruct (block_bytes block) as [data|]; [|now apply IH].
    destruct (PopupInput.missing (block_spice_id block)
              || PopupInput.missing (block_dish_type block));
      [now apply IH|].
    unfold bind at 1. unfold get at 1. cbn [st tr fst snd].
    destruct (PopupInput.hasSpice (st w) _); [now apply IH|].
    unfold bind at 1. unfold query at 1. cbn [st tr fst snd].
    unfold bind at 1. unfold modify at 1. cbn [st tr fst snd].
    apply IH; [now apply Loose_more|intros H; lia].
Qed.

Lemma counts_addDataUrls dataUrls :
  forall count,
    counts count (PopupInput.addDataUrls toLowerCase host dataUrls count).
Proof.
  induction dataUrls as [|dataUrl rest IH]; intros count w L C.
  - cbn. split; [exact L|exact C].
  - cbn [PopupInput.addDataUrls].
    unfold bind at 1. unfold try_catch.
    unfold bind at 1. unfold web at 1. cbn [st tr fst snd].
    destruct (Host.web host (tr w) (fetch_blob dataUrl)) as [blob|e];
      cbn [st tr fst snd];
      [|unfold console_debug, bind, effect, ret; cbn [st tr fst snd];
        apply IH;
        [rewrite <- app_assoc; now apply Loose_more
         |intros H; rewrite <- app_assoc;
          apply Clean_quiet; [now apply C|repeat constructor]]].
    unfold bind at 1. unfold query at 1. cbn [st tr fst snd].
    unfold bind at 1. unfold invoke at 1. cbn [st tr fst snd].
    match goal with
    | |- context [Host.invoke host ?t ?c] =>
        destruct (Host.invoke host t c) as [spiceId|e]
    end; cbn [st tr fst snd];
      [|unfold console_debug, bind, effect, ret; cbn [st tr fst snd];
        apply IH;
        [rewrite <- !app_assoc; now apply Loose_more
         |intros H; rewrite <- !app_assoc;
          apply Clean_quiet; [now apply C|repeat constructor]]].
    destruct (negb (truthy spiceId)); cbn [ret st tr fst snd];
      [apply IH;
       [rewrite <- !app_assoc; now apply Loose_more
       |intros H; rewrite <- !app_assoc;
        apply Clean_quiet; [now apply C|repeat constructor]]|].
    unfold bind at 1. unfold get at 1. cbn [st tr fst snd].
    destruct (PopupInput.hasSpice (st w) spiceId); cbn [ret st tr fst snd];
      [apply IH;
       [rewrite <- !app_assoc; now apply Loose_more
       |intros H; rewrite <- !app_assoc;
        apply Clean_quiet; [now apply C|repeat constructor]]|].
    unfold bind at 1. unfold query at 1. cbn [st tr fst snd].
    unfold bind at 1. unfold modify at 1. cbn [st tr fst snd ret].
    apply IH; [rewrite <- !app_assoc; now apply Loose_more|intros H; lia].
Qed.

Lemma mends_then {A B} (m : M PopupInput.State A)
  (k : A -> M PopupInput.State B) :
  mends m -> (forall a, tidyC (k a)) -> mends (bind m k).
Proof.
  intros Hm Hk w L. unfold bind. specialize (Hm w L).
  destruct (m w) as [[a|e] w']; cbn [fst snd] in *; [now apply Hk|exact Hm].
Qed.

Lemma tidyC_after_count {B} (loop : M PopupInput.State nat)
  (k : nat -> M PopupInput.State B) :
  counts 0 loop ->
  tidyC (k 0) ->
  (forall c, mends (k (S c))) ->
  tidyC (bind loop k).
Proof.
  intros Hloop H0 Hk w Hw. unfold bind.
  specialize (Hloop w (proj1 Hw) (fun _ => Hw)).
  destruct (loop w) as [[c'|e] w']; [|contradiction].
  destruct Hloop as [L C]. cbn [fst snd].
  destruct c' as [|c'].
  - apply H0. now apply C.
  - now apply Hk.
Qed.

Lemma tidyC_addIngredientsFromRustClipboard silent :
  tidyC (PopupInput.addIngredientsFromRustClipboard host silent).
Proof.
  unfold PopupInput.addIngredientsFromRustClipboard.
  apply tidy_try_catch; [|intros; clean_tac fail].
  apply tidy_bind; [clean_tac fail|intros blocks].
  destruct (length blocks =? 0); [apply tidy_ret|].
  apply tidyC_after_count; [apply counts_addBlocks| |intros c].
  - cbn. clean_tac fail.
  - change (0 <? S c) with true. cbn [when].
    apply mends_then; [mends_tac|intros; apply tidy_ret].
Qed.

#[local] Hint Resolve tidyC_addIngredientsFromRustClipboard : tidy.

Ltac count_site :=
  idtac;
  lazymatch goal with
  | |- tidy _ (Rt.bind (PopupInput.addDataUrls _ _ _ _) _) =>
      apply tidyC_after_count;
      [ apply counts_addDataUrls
      | cbn; apply tidy_ret
      | intros c; change (0 <? S c) with true; cbn [when]; mends_tac ]
  end.

Lemma tidyC_handleIngredientPaste event :
  tidyC (PopupInput.handleIngredientPaste toLowerCase host event).
Proof.
  unfold PopupInput.handleIngredientPaste. clean_tac count_site.
Qed.

#[local] Hint Resolve tidyC_handleIngredientPaste : tidy.

Lemma tidyC_documentPasteListener focused event :
  tidyC (PopupInput.documentPasteListener toLowerCase host focused event).
Proof. unfold PopupInput.documentPasteListener. clean_tac fail. Qed.

End Input.

(** *** The popup with its input *)

Section Popup.

Variable toLowerCase : string -> string.
Variable host : Host.t.

(** The popup holds the options and the ids of its mounted input. *)
Definition Synced (s : McpPopup.State) : Prop :=
  match McpPopup.inputRef s with
  | Some i =>
      McpPopup.toppings s = PopupInput.toppings i
      /\ McpPopup.spiceIds s = Invariants.ids i
  | None => True
  end.

(** The same, with nothing selected and nothing attached. *)
Definition Cleared (s : McpPopup.State) : Prop :=
  Synced s /\ McpPopup.toppings s = [] /\ McpPopup.spiceIds s = [].

Local Abbreviation any := (fun _ : Effect => True).

Local Abbreviation keeps := (Hoare.keeps Synced any).

Lemma Forall_any (t : trace) : Forall any t.
Proof. apply Forall_forall. intros; exact I. Qed.

Lemma deliver_set_inputRef (new : list Effect)
  (x : option PopupInput.State) (s : McpPopup.State) :
  McpPopup.deliver new (McpPopup.set_inputRef x s)
  = McpPopup.set_inputRef x (McpPopup.deliver new s).
Proof.
  unfold McpPopup.deliver. revert s.
  induction new as [|e new IH]; intros s; [reflexivity|].
  cbn [fold_left]. destruct e; try apply IH.
  rewrite <- IH. reflexivity.
Qed.

Lemma Clean_start (i : PopupInput.State) (w : World McpPopup.State) :
  McpPopup.toppings (st w) = PopupInput.toppings i ->
  McpPopup.spiceIds (st w) = Invariants.ids i ->
  Clean (length (tr w)) (st w) (mkWorld i (tr w)).
Proof.
  intros T D. unfold Clean, Loose, view. cbn [st tr].
  rewrite skipn_all. cbn. split; [lia|]. now split.
Qed.

Lemma Synced_of_Clean (w : World McpPopup.State)
  (wi : World PopupInput.State) :
  Clean (length (tr w)) (st w) wi ->
  Synced
    (McpPopup.deliver (skipn (length (tr w)) (tr wi))
       (McpPopup.set_inputRef (Some (st wi)) (st w))).
Proof.
  intros (_ & T & D). unfold Synced, view in *.
  rewrite deliver_set_inputRef. cbn. now split.
Qed.

(** A handler of the input that keeps the popup in step, run from the
    popup. *)
Lemma synced_withInput (m : M PopupInput.State unit) :
  (forall n p, tidy (clean n p) m) -> keeps (McpPopup.withInput m).
Proof.
  intros Hm w [Hs _]. split; [|apply Forall_any].
  unfold McpPopup.withInput. unfold Synced in Hs.
  destruct (McpPopup.inputRef (st w)) as [i|] eqn:E.
  - destruct Hs as [T D].
    specialize (Hm _ _ _ (Clean_start i w T D)).
    destruct (m (mkWorld i (tr w))) as [r wi]. cbn [fst snd st tr] in *.
    now apply Synced_of_Clean.
  - cbn. unfold Synced. now rewrite E.
Qed.

(** A handler of the input that ends by telling the popup, run from the
    popup in any state. *)
Lemma always_withInput (m : M PopupInput.State unit) :
  (forall n p, mends n p m) ->
  forall w, Synced (st (snd (McpPopup.withInput m w))).
Proof.
  intros Hm w. unfold McpPopup.withInput.
  destruct (McpPopup.inputRef (st w)) as [i|] eqn:E.
  - assert (L : Loose (length (tr w)) (mkWorld i (tr w))).
    { unfold Loose. cbn. lia. }
    specialize (Hm (length (tr w)) (st w) _ L).
    destruct (m (mkWorld i (tr w))) as [r wi]. cbn [fst snd st tr] in *.
    now apply Synced_of_Clean.
  - cbn. unfold Synced. now rewrite E.
Qed.

Lemma keeps_of_always {A} (m : M McpPopup.State A) :
  (forall w, Synced (st (snd (m w)))) -> keeps m.
Proof. intros H w _. split; [apply H|apply Forall_any]. Qed.

Ltac popup_site :=
  idtac;
  lazymatch goal with
  | |- Hoare.keeps _ _ (McpPopup.withInput _) =>
      apply synced_withInput; intros ? ?;
      first
        [ apply mends_tidy;
          first [ apply mends_updateData | apply mends_reset ]
        | apply tidyC_handleQuoteMessage
        | apply tidyC_onMounted
        | apply tidyC_onUnmounted ]
  end.

Ltac popup_tac := Invariants.keeps_with popup_site.

Lemma synced_handleSubmit : keeps (McpPopup.handleSubmit host).
Proof. unfold McpPopup.handleSubmit, McpPopup.send. popup_tac. Qed.

Lemma synced_handleContinue : keeps (McpPopup.handleContinue host).
Proof. unfold McpPopup.handleContinue, McpPopup.send. popup_tac. Qed.

Lemma synced_handleEnhance : keeps (McpPopup.handleEnhance host).
Proof. unfold McpPopup.handleEnhance, McpPopup.send. popup_tac. Qed.

Lemma synced_loadReplyConfig : keeps (McpPopup.loadReplyConfig host).
Proof. unfold McpPopup.loadReplyConfig. popup_tac. Qed.

Lemma synced_handleOptionToggle option :
  keeps (McpPopup.handleOptionToggle option).
Proof.
  apply keeps_of_always. intros w.
  unfold McpPopup.handleOptionToggle.
  unfold bind at 1. unfold get at 1. cbn [st tr fst snd].
  destruct (PopupInput.indexOf (McpPopup.toppings (st w)) option);
    unfold bind, modify, get; cbn [st tr fst snd];
    apply always_withInput; intros; apply mends_updateData.
Qed.

Lemma synced_handleTextUpdate text : keeps (McpPopup.handleTextUpdate text).
Proof. unfold McpPopup.handleTextUpdate. popup_tac. Qed.

Lemma synced_handleQuoteMessage messageContent :
  keeps (McpPopup.handleQuoteMessage messageContent).
Proof. unfold McpPopup.handleQuoteMessage. popup_tac. Qed.

#[local] Hint Resolve synced_handleSubmit synced_handleContinue
  synced_handleEnhance synced_loadReplyConfig synced_handleOptionToggle
  synced_handleTextUpdate synced_handleQuoteMessage : keeps.

Lemma synced_handleTelegramEvent event :
  keeps (McpPopup.handleTelegramEvent host event).
Proof. unfold McpPopup.handleTelegramEvent. popup_tac. Qed.

(** From refs where [P] holds the handler ends in refs where [Q] holds. *)
Definition leads {A} (P Q : McpPopup.State -> Prop)
  (m : M McpPopup.State A) : Prop :=
  forall w, P (st w) -> Q (st (snd (m w))).

Lemma leads_bind {A B} (P R Q : McpPopup.State -> Prop)
  (m : M McpPopup.State A) (k : A -> M McpPopup.State B) :
  leads P R m -> (forall a, leads R Q (k a)) -> (forall s, R s -> Q s) ->
  leads P Q (bind m k).
Proof.
  intros Hm Hk Hw w Hp. unfold bind. specialize (Hm w Hp).
  destruct (m w) as [[a|e] w']; cbn [fst snd] in *; [now apply Hk|auto].
Qed.

Lemma leads_keeps {A} (J : McpPopup.State -> Prop)
  (m : M McpPopup.State A) :
  Hoare.keeps J any m -> leads J J m.
Proof.
  intros H w Hw. apply (H w). split; [exact Hw|apply Forall_any].
Qed.

Lemma keeps_leads {A} (m : M McpPopup.State A) :
  leads Synced Synced m -> keeps m.
Proof. intros H w [Hs _]. split; [now apply H|apply Forall_any]. Qed.

Lemma reset_state (i : PopupInput.State) (t : trace) :
  let wi := snd (PopupInput.reset host (mkWorld i t)) in
  PopupInput.toppings (st wi) = []
  /\ PopupInput.ingredients (st wi) = [].
Proof.
  assert (R : exists t',
             PopupInput.reset host (mkWorld i t)
             = (Ret tt,
                mkWorld
                  (PopupInput.set_ingredients []
                     (PopupInput.set_toppings [] (PopupInput.set_note "" i)))
                  t')).
  { unfold PopupInput.reset, PopupInput.emitUpdate.
    unfold bind at 1 2 3 4. unfold modify at 1 2. unfold get at 1.
    cbn [st tr fst snd].
    destruct (release_all host
                (PopupInput.ingredients
                   (PopupInput.set_toppings [] (PopupInput.set_note "" i)))
                (PopupInput.set_toppings [] (PopupInput.set_note "" i)) t)
      as (new & R & _).
    unfold Rt.run in R. rewrite R.
    unfold bind, modify, get, effect. cbn [st tr fst snd].
    eexists. reflexivity. }
  destruct R as (t' & R). rewrite R. split; reflexivity.
Qed.

Lemma resetForm_clears :
  leads (fun _ => True) Cleared (McpPopup.resetForm host).
Proof.
  intros w _. unfold McpPopup.resetForm.
  unfold bind at 1 2 3. unfold modify at 1 2 3. cbn [st tr fst snd].
  unfold bind. unfold McpPopup.withInput. cbn [st tr].
  cbn [McpPopup.inputRef McpPopup.set_spiceIds McpPopup.set_note
       McpPopup.set_toppings].
  destruct (McpPopup.inputRef (st w)) as [i|] eqn:E.
  - pose proof (reset_state i (tr w)) as S0. cbv zeta in S0.
    assert (L : Loose (length (tr w)) (mkWorld i (tr w))).
    { unfold Loose. cbn. lia. }
    pose proof (@mends_reset (length (tr w))
                  (McpPopup.set_spiceIds []
                     (McpPopup.set_note ""
                        (McpPopup.set_toppings [] (st w))))
                  host _ L) as C.
    destruct (PopupInput.reset host (mkWorld i (tr w))) as [r wi].
    cbn [fst snd] in *. destruct S0 as [S1 S2].
    assert (K : Cleared
                  (McpPopup.deliver (skipn (length (tr w)) (tr wi))
                     (McpPopup.set_inputRef (Some (st wi))
                        (McpPopup.set_spiceIds []
                           (McpPopup.set_note ""
                              (McpPopup.set_toppings [] (st w))))))).
    { split.
      - apply (@Synced_of_Clean
                 (mkWorld
                    (McpPopup.set_spiceIds []
                       (McpPopup.set_note ""
                          (McpPopup.set_toppings [] (st w)))) (tr w)) wi).
        exact C.
      - destruct C as (_ & T & D). unfold view in T, D.
        rewrite deliver_set_inputRef. cbn.
        rewrite T, D. unfold Invariants.ids. rewrite S1, S2. now split. }
    destruct r; cbn [fst snd st tr modify]; exact K.
  - cbn. unfold Cleared, Synced. cbn. rewrite E. repeat split.
Qed.

Lemma watchRequest_clears (r : McpRequest.t) :
  leads (fun _ => True) Cleared (McpPopup.watchRequest host (Some r)).
Proof.
  unfold McpPopup.watchRequest.
  apply leads_bind with (R := Cleared);
    [apply resetForm_clears| |auto].
  intros _. apply leads_keeps. unfold McpPopup.loadReplyConfig.
  Invariants.keeps_tac.
Qed.

Lemma synced_setRequest newRequest :
  keeps (McpPopup.setRequest host newRequest).
Proof.
  apply keeps_leads. unfold McpPopup.setRequest.
  apply leads_bind with (R := Synced); [|intros _|auto].
  { intros w Hs. exact Hs. }
  apply leads_bind with (R := Synced); [|intros _|auto].
  { intros w Hs. cbn. unfold Synced in *. cbn.
    destruct (McpPopup.inputRef (st w)); cbn; exact Hs. }
  destruct newRequest as [r|].
  - apply leads_bind with (R := Cleared);
      [|intros _|intros s Hc; apply Hc].
    { intros w _. now apply watchRequest_clears. }
    intros w (Hs & T & D). unfold bind at 1. unfold get at 1.
    cbn [st tr fst snd].
    destruct (McpPopup.inputRef (st w)) as [i|] eqn:E; [exact Hs|].
    unfold bind. unfold modify at 1. cbn [st tr fst snd].
    apply (@synced_withInput (PopupInput.onMounted host)).
    + intros. apply tidyC_onMounted.
    + split; [|apply Forall_any]. unfold Synced. cbn.
      split; assumption.
  - apply leads_bind with (R := Synced); [|intros _|auto].
    { intros w Hs. exact Hs. }
    intros w Hs. unfold bind at 1. unfold get at 1. cbn [st tr fst snd].
    destruct (McpPopup.inputRef (st w)) as [i|] eqn:E; [|exact Hs].
    assert (K : keeps
                  (bind (McpPopup.withInput (PopupInput.onUnmounted host))
                     (fun _ => modify (McpPopup.set_inputRef None)))).
    { apply Hoare.keeps_bind.
      - apply synced_withInput. intros. apply tidyC_onUnmounted.
      - intros _. apply Hoare.keeps_modify. intros s _. exact I. }
    apply K. split; [exact Hs|apply Forall_any].
Qed.

Lemma synced_handler (e : McpPopup.Event) :
  keeps (McpPopup.handler toLowerCase host e).
Proof.
  unfold McpPopup.handler.
  destruct e; cbn [McpPopup.inputHandler];
    try (apply synced_withInput; intros ? ?;
         first
           [ apply tidyC_inputNote
           | apply tidyC_emitUpdate
           | apply mends_tidy, mends_handleOptionChange
           | apply mends_tidy, mends_handleOptionToggle
           | apply tidyC_handleIngredientPaste
           | apply tidyC_documentPasteListener
           | apply mends_tidy, mends_removeIngredient
           | apply tidyC_handlePromptClick
           | apply tidyC_handleInsertMode
           | apply tidyC_handleConditionalToggle
           | apply tidyC_onEnd
           | apply tidyC_loadCustomPrompts ]);
    try solve [auto with keeps];
    try apply synced_setRequest;
    try apply synced_handleTelegramEvent;
    unfold McpPopup.watchReply, McpPopup.loadingTimeout, McpPopup.onMounted;
    popup_tac.
Qed.

(** The popup is in step with its input after every sequence of events. *)
Lemma after_synced (mock : bool) (events : list McpPopup.Event) :
  Synced (st (McpPopup.after toLowerCase host mock events)).
Proof.
  unfold McpPopup.after.
  refine (proj1 (@Hoare.keeps_for_of _ Synced any _ events
                   (McpPopup.handle toLowerCase host) _ _ _)).
  - intros e. unfold McpPopup.handle.
    apply Hoare.keeps_void; [intros; exact I|apply synced_handler].
  - split; [exact I|apply Forall_any].
Qed.

End Popup.

End Sync.

(** *** A paste, cut at its awaits *)

(** A handler runs until it awaits, and other handlers run before it goes
    on.  For what the popup holds this matters in a paste.  A paste first
    consumes its event.  A paste of files then awaits the stash of each
    file and, in one stretch, pushes the image and tells the parent.  A
    paste of an HTML text awaits the fetch and the stash of each data URL
    and then pushes the image; it tells the parent after the last one
    only, when it pushed one at least.  The other handlers change the
    options and the ingredients in one stretch that ends by telling the
    parent, or leave them alone.  A tick is a whole handler or one of the
    stretches of a paste.  The stretches of the pastes of HTML that are
    under way are told apart by a number, under which the [addedCount] of
    the paste is kept.  The stretches of a paste whose input is no longer
    mounted reach neither the popup nor the input mounted since: they are
    no ticks. *)
Module Paced.

Inductive Tick : Type :=
| Whole (e : McpPopup.Event)
| Consumed
| File (file : Host.File)
| Url (paste : nat) (dataUrl : string)
| Told (paste : nat).

Record t : Type := mk {
  world : Rt.World McpPopup.State;
  addedCount : nat -> nat
}.

Definition bump (paste : nat) (count : nat -> nat) : nat -> nat :=
  fun k => if k =? paste then count k + 1 else count k.

Definition forget (paste : nat) (count : nat -> nat) : nat -> nat :=
  fun k => if k =? paste then 0 else count k.

(** The end of a paste of HTML: [if (addedCount > 0) { ... }]. *)
Definition told (count : nat) : Rt.M PopupInput.State unit :=
  Rt.when (0 <? count)
    (Rt.bind
       (Rt.message_success
          ("已添加 " ++ Js.String_of_Z (Z.of_nat count) ++ " 个食材")%string)
       (fun _ => PopupInput.emitUpdate)).

Section Component.

Variable toLowerCase : string -> string.
Variable host : Host.t.

(** Whether the stretch of a data URL pushes an image. *)
Definition added (dataUrl : string) (w : Rt.World McpPopup.State) : bool :=
  match McpPopup.inputRef (Rt.st w) with
  | Some i =>
      match fst (urlBody toLowerCase host dataUrl
                   (Rt.mkWorld i (Rt.tr w))) with
      | Js.Ret pushed => pushed
      | Js.Throw _ => false
      end
  | None => false
  end.

Definition tick (c : t) (k : Tick) : t :=
  let w := world c in
  match k with
  | Whole e =>
      mk (snd (McpPopup.handle toLowerCase host e w)) (addedCount c)
  | Consumed =>
      mk (snd (McpPopup.withInput (Rt.effect Host.EPreventDefault) w))
        (addedCount c)
  | File file =>
      mk (snd (Rt.void (McpPopup.withInput (fileBody host file)) w))
        (addedCount c)
  | Url paste dataUrl =>
      mk (snd (McpPopup.withInput
                 (Rt.bind (urlBody toLowerCase host dataUrl)
                    (fun _ => Rt.ret tt)) w))
        (if added dataUrl w then bump paste (addedCount c)
         else addedCount c)
  | Told paste =>
      mk (snd (McpPopup.withInput (told (addedCount c paste)) w))
        (forget paste (addedCount c))
  end.

Definition run (ticks : list Tick) (c : t) : t := fold_left tick ticks c.

(** The popup after a sequence of ticks, from its set-up. *)
Definition after (mock : bool) (ticks : list Tick) : t :=
  run ticks (mk (Rt.mkWorld (McpPopup.initial mock) []) (fun _ => 0)).

End Component.

(** No paste of HTML has pushed an image of which it has yet to tell. *)
Definition settled (c : t) : Prop := forall paste, addedCount c paste = 0.

End Paced.

Section PacedFacts.

Import Paced.

Variable toLowerCase : string -> string.
Variable host : Host.t.

Local Abbreviation any := (fun _ : Host.Effect => True).

Lemma any_trace (l : Host.trace) : Forall any l.
Proof. apply Forall_forall. intros; exact I. Qed.

Lemma handle_ret (e : McpPopup.Event) (w : Rt.World McpPopup.State) :
  exists w', McpPopup.handle toLowerCase host e w = (Js.Ret tt, w').
Proof.
  unfold McpPopup.handle, Rt.void.
  destruct (McpPopup.handler toLowerCase host e w) as [[u|err] w'];
    eexists; reflexivity.
Qed.

(** Handlers run to their end are ticks. *)
Lemma run_whole (events : list McpPopup.Event) :
  forall c,
    run toLowerCase host (map Whole events) c
    = mk (snd (Rt.for_of events (McpPopup.handle toLowerCase host)
                 (world c)))
        (addedCount c).
Proof.
  induction events as [|e events IH]; intros c.
  - now destruct c.
  - cbn [map run fold_left]. fold (run toLowerCase host).
    unfold run in IH. rewrite IH. cbn [tick world addedCount].
    destruct (handle_ret e (world c)) as [w' E].
    cbn [Rt.for_of]. unfold Rt.bind. rewrite E. reflexivity.
Qed.


(** A stretch of the input that keeps the popup in step, run from the
    popup. *)
Lemma withInput_clean (m : Rt.M PopupInput.State unit)
  (w : Rt.World McpPopup.State) :
  Sync.Synced (Rt.st w) ->
  (forall i,
      McpPopup.inputRef (Rt.st w) = Some i ->
      Sync.Clean (length (Rt.tr w)) (Rt.st w) (Rt.mkWorld i (Rt.tr w)) ->
      Sync.Clean (length (Rt.tr w)) (Rt.st w)
        (snd (m (Rt.mkWorld i (Rt.tr w))))) ->
  Sync.Synced (Rt.st (snd (McpPopup.withInput m w))).
Proof.
  intros Hs Hm. unfold McpPopup.withInput. unfold Sync.Synced in Hs.
  destruct (McpPopup.inputRef (Rt.st w)) as [i|] eqn:E.
  - destruct Hs as [T D].
    specialize (Hm i eq_refl (Sync.Clean_start i w T D)).
    destruct (m (Rt.mkWorld i (Rt.tr w))) as [r wi].
    cbn [fst snd Rt.st Rt.tr] in *. now apply Sync.Synced_of_Clean.
  - cbn. unfold Sync.Synced. now rewrite E.
Qed.

(** The stretch of a data URL returns, and keeps the popup in step when
    it pushes nothing. *)
Lemma urlBody_clean (n : nat) (p : McpPopup.State) (dataUrl : string)
  (w : Rt.World PopupInput.State) :
  Sync.Clean n p w ->
  exists pushed w',
    urlBody toLowerCase host dataUrl w = (Js.Ret pushed, w')
    /\ (pushed = false -> Sync.Clean n p w').
Proof.
  intros C.
  pose proof (@Sync.counts_addDataUrls n p toLowerCase host [dataUrl] 0 w
                (proj1 C) (fun _ => C)) as H.
  rewrite addDataUrls_step in H. unfold Rt.bind in H.
  destruct (urlBody toLowerCase host dataUrl w) as [[pushed|e] w'];
    [|contradiction].
  cbn in H. exists pushed, w'. split; [reflexivity|].
  intros ->. now apply H.
Qed.

(** A tick keeps the popup in step with its input, but for the stretch of
    a data URL that pushes an image; the end of that paste brings it in
    step again. *)
Lemma tick_synced (k : Tick) (c : t) :
  (settled c -> Sync.Synced (Rt.st (world c))) ->
  settled (tick toLowerCase host c k) ->
  Sync.Synced (Rt.st (world (tick toLowerCase host c k))).
Proof.
  intros Hc Hk. destruct k as [e| |file|paste dataUrl|paste];
    cbn [tick world addedCount] in *.
  - refine (proj1 (Hoare.keeps_void (G := any) (fun _ => I)
                     (Sync.synced_handler toLowerCase host e) _)).
    split; [now apply Hc|apply any_trace].
  - refine (proj1 (@Sync.synced_withInput
                     (Rt.effect Host.EPreventDefault) _ (world c) _)).
    + intros n p. apply Frames.tidy_effect. reflexivity.
    + split; [now apply Hc|apply any_trace].
  - refine (proj1 (Hoare.keeps_void (G := any) (fun _ => I)
                     (@Sync.synced_withInput (fileBody host file) _) _)).
    + intros n p. apply Sync.tidyC_fileBody.
    + split; [now apply Hc|apply any_trace].
  - unfold settled in Hk. cbn [addedCount] in Hk.
    destruct (added toLowerCase host dataUrl (world c)) eqn:Ea.
    + specialize (Hk paste). unfold bump in Hk.
      rewrite Nat.eqb_refl in Hk. lia.
    + apply withInput_clean; [now apply Hc|].
      intros i Ei Ci.
      destruct (urlBody_clean dataUrl Ci) as (pushed & w' & R & C').
      unfold added in Ea. rewrite Ei, R in Ea. cbn [fst] in Ea.
      unfold Rt.bind. rewrite R. cbn [Rt.ret snd]. now apply C'.
  - unfold settled in Hk. cbn [addedCount] in Hk. unfold told.
    destruct (addedCount c paste) as [|count] eqn:Ec.
    + change (0 <? 0) with false. cbn [Rt.when].
      apply withInput_clean; [|intros i _ Ci; exact Ci].
      apply Hc. intros q. specialize (Hk q). unfold forget in Hk.
      destruct (q =? paste) eqn:Eq; [|exact Hk].
      apply Nat.eqb_eq in Eq. now subst q.
    + change (0 <? S count) with true. cbn [Rt.when].
      apply Sync.always_withInput. intros n p. apply Sync.mends_told.
Qed.

Lemma run_synced (ticks : list Tick) :
  forall c,
    (settled c -> Sync.Synced (Rt.st (world c))) ->
    settled (run toLowerCase host ticks c) ->
    Sync.Synced (Rt.st (world (run toLowerCase host ticks c))).
Proof.
  induction ticks as [|k ticks IH]; intros c Hc Hr.
  - now apply Hc.
  - cbn [run fold_left] in *. fold (run toLowerCase host ticks) in *.
    apply IH; [|exact Hr]. now apply tick_synced.
Qed.


(** *** The paste of an HTML text is its stretches in a row *)

Lemma skipn_exact {A} (l r : list A) : skipn (length l) (l ++ r) = r.
Proof. induction l as [|x l IH]; [reflexivity|exact IH]. Qed.

Lemma deliver_app (new1 new2 : list Host.Effect) (s : McpPopup.State) :
  McpPopup.deliver (new1 ++ new2) s
  = McpPopup.deliver new2 (McpPopup.deliver new1 s).
Proof. unfold McpPopup.deliver. apply fold_left_app. Qed.

Lemma inputRef_deliver (new : list Host.Effect) (s : McpPopup.State) :
  McpPopup.inputRef (McpPopup.deliver new s) = McpPopup.inputRef s.
Proof.
  unfold McpPopup.deliver. revert s.
  induction new as [|e new IH]; intros s; [reflexivity|].
  cbn [fold_left]. rewrite IH. now destruct e.
Qed.

Lemma set_inputRef_twice (x y : option PopupInput.State)
  (s : McpPopup.State) :
  McpPopup.set_inputRef x (McpPopup.set_inputRef y s)
  = McpPopup.set_inputRef x s.
Proof. reflexivity. Qed.

(** The handler grows the trace. *)
Definition extends {A} (m : Rt.M PopupInput.State A) : Prop :=
  forall s t, exists new, Rt.tr (snd (m (Rt.mkWorld s t))) = t ++ new.

(** What follows a stretch that returned runs on what it left, as a
    stretch of its own. *)
Lemma withInput_bind {A} (m : Rt.M PopupInput.State A)
  (k : A -> Rt.M PopupInput.State unit) (w : Rt.World McpPopup.State)
  (i s1 : PopupInput.State) (a : A) (new1 : Host.trace) :
  McpPopup.inputRef (Rt.st w) = Some i ->
  m (Rt.mkWorld i (Rt.tr w)) = (Js.Ret a, Rt.mkWorld s1 (Rt.tr w ++ new1)) ->
  extends (k a) ->
  McpPopup.withInput (Rt.bind m k) w
  = McpPopup.withInput (k a)
      (snd (McpPopup.withInput (Rt.bind m (fun _ => Rt.ret tt)) w)).
Proof.
  intros Ei R X. unfold McpPopup.withInput at 3. rewrite Ei.
  unfold Rt.bind at 2. rewrite R. cbn [Rt.ret fst snd Rt.st Rt.tr].
  rewrite skipn_exact.
  unfold McpPopup.withInput. rewrite Ei. cbn [Rt.st Rt.tr].
  rewrite inputRef_deliver. cbn [McpPopup.inputRef McpPopup.set_inputRef].
  unfold Rt.bind. rewrite R.
  destruct (X s1 (Rt.tr w ++ new1)) as [new2 E2].
  destruct (k a (Rt.mkWorld s1 (Rt.tr w ++ new1))) as [r wk].
  cbn [snd] in E2. rewrite E2. rewrite <- app_assoc.
  rewrite skipn_exact. rewrite app_assoc, skipn_exact.
  rewrite deliver_app. rewrite !Sync.deliver_set_inputRef.
  rewrite set_inputRef_twice. reflexivity.
Qed.

Lemma withInput_ext (m m' : Rt.M PopupInput.State unit)
  (w : Rt.World McpPopup.State) :
  (forall x, m x = m' x) ->
  McpPopup.withInput m w = McpPopup.withInput m' w.
Proof.
  intros E. unfold McpPopup.withInput.
  destruct (McpPopup.inputRef (Rt.st w)); [|reflexivity]. now rewrite E.
Qed.

Lemma told_extends (count : nat) : extends (told count).
Proof.
  intros s t. unfold told, PopupInput.emitUpdate, Rt.message_success.
  destruct (0 <? count); cbn [Rt.when].
  - unfold Rt.bind, Rt.effect, Rt.get. cbn [fst snd Rt.st Rt.tr].
    rewrite <- app_assoc. eexists. reflexivity.
  - exists []. cbn. now rewrite app_nil_r.
Qed.

Lemma loop_extends (dataUrls : list string) (count : nat) :
  extends
    (Rt.bind (PopupInput.addDataUrls toLowerCase host dataUrls count) told).
Proof.
  intros s t.
  destruct (addDataUrls_run toLowerCase host dataUrls count s t)
    as (count' & s' & new & R & _).
  unfold Rt.run in R. unfold Rt.bind. rewrite R.
  destruct (told_extends count' s' (t ++ new)) as [new2 E].
  rewrite E. rewrite <- app_assoc. eexists. reflexivity.
Qed.

Lemma run_cons (k : Tick) (ticks : list Tick) (c : t) :
  run toLowerCase host (k :: ticks) c
  = run toLowerCase host ticks (tick toLowerCase host c k).
Proof. reflexivity. Qed.

(** The loop over the data URLs and the end of the paste, as ticks. *)
Lemma loop_in_ticks (paste : nat) (dataUrls : list string) :
  forall c i,
    McpPopup.inputRef (Rt.st (world c)) = Some i ->
    world (run toLowerCase host (map (Url paste) dataUrls ++ [Told paste]) c)
    = snd (McpPopup.withInput
             (Rt.bind
                (PopupInput.addDataUrls toLowerCase host dataUrls
                   (addedCount c paste))
                told)
             (world c))
    /\ forall q,
         addedCount
           (run toLowerCase host (map (Url paste) dataUrls ++ [Told paste])
              c) q
         = forget paste (addedCount c) q.
Proof.
  induction dataUrls as [|dataUrl rest IH]; intros c i Ei.
  - cbn [map app run fold_left tick world addedCount]. split; reflexivity.
  - cbn [map app]. rewrite run_cons.
    destruct (urlBody_run toLowerCase host dataUrl i (Rt.tr (world c)))
      as (pushed & s1 & new1 & R & _).
    set (c1 := tick toLowerCase host c (Url paste dataUrl)).
    assert (E1 : McpPopup.inputRef (Rt.st (world c1)) = Some s1).
    { unfold c1. cbn [tick world]. unfold McpPopup.withInput.
      rewrite Ei. unfold Rt.bind. rewrite R.
      cbn [Rt.ret fst snd Rt.st Rt.tr]. now rewrite inputRef_deliver. }
    assert (A1 : addedCount c1 paste
                 = if pushed then addedCount c paste + 1
                   else addedCount c paste).
    { unfold c1. cbn [tick addedCount]. unfold added.
      rewrite Ei, R. cbn [fst]. destruct pushed; [|reflexivity].
      unfold bump. now rewrite Nat.eqb_refl. }
    destruct (IH c1 s1 E1) as [W Q]. split.
    + rewrite W, A1. rewrite addDataUrls_step.
      rewrite (@withInput_ext
                 (Rt.bind
                    (Rt.bind (urlBody toLowerCase host dataUrl)
                       (fun added =>
                          PopupInput.addDataUrls toLowerCase host rest
                            (if added then addedCount c paste + 1
                             else addedCount c paste)))
                    told)
                 (Rt.bind (urlBody toLowerCase host dataUrl)
                    (fun added =>
                       Rt.bind
                         (PopupInput.addDataUrls toLowerCase host rest
                            (if added then addedCount c paste + 1
                             else addedCount c paste))
                         told))).
      2:{ intros x. unfold Rt.bind.
          destruct (urlBody toLowerCase host dataUrl x) as [[b|e] w'];
            reflexivity. }
      rewrite (@withInput_bind bool (urlBody toLowerCase host dataUrl)
                 (fun added =>
                    Rt.bind
                      (PopupInput.addDataUrls toLowerCase host rest
                         (if added then addedCount c paste + 1
                          else addedCount c paste))
                      told)
                 (world c) i s1 pushed new1 Ei R (loop_extends rest _)).
      reflexivity.
    + intros q. rewrite Q. unfold forget.
      destruct (q =? paste) eqn:Eq; [reflexivity|].
      unfold c1. cbn [tick addedCount].
      destruct (added toLowerCase host dataUrl (world c)); [|reflexivity].
      unfold bump. now rewrite Eq.
Qed.


Lemma loop_returns (dataUrls : list string) (count : nat)
  (w : Rt.World PopupInput.State) :
  fst (Rt.bind (PopupInput.addDataUrls toLowerCase host dataUrls count)
         told w)
  = Js.Ret tt.
Proof.
  destruct w as [s t].
  destruct (addDataUrls_run toLowerCase host dataUrls count s t)
    as (count' & s' & new & R & _).
  unfold Rt.run in R. unfold Rt.bind. rewrite R.
  unfold told, PopupInput.emitUpdate, Rt.message_success.
  destruct (0 <? count'); reflexivity.
Qed.

Lemma withInput_returns (m : Rt.M PopupInput.State unit)
  (w : Rt.World McpPopup.State) :
  (forall x, fst (m x) = Js.Ret tt) ->
  fst (McpPopup.withInput m w) = Js.Ret tt.
Proof.
  intros H. unfold McpPopup.withInput.
  destruct (McpPopup.inputRef (Rt.st w)) as [i|]; [|reflexivity].
  specialize (H (Rt.mkWorld i (Rt.tr w))).
  destruct (m (Rt.mkWorld i (Rt.tr w))). exact H.
Qed.

(** The paste of an HTML text with data URLs of images, run to its end,
    is its ticks in a row: the event is consumed, the data URLs are
    handled one by one, and the end tells the parent. *)
Lemma html_paste_in_ticks (c : t) (event : ClipboardEvent.t)
  (cd : DataTransfer.t) (dataUrl : string) (dataUrls : list string)
  (paste : nat) (i : PopupInput.State) :
  McpPopup.inputRef (Rt.st (world c)) = Some i ->
  ClipboardEvent.defaultPrevented event = false ->
  ClipboardEvent.clipboardData event = Some cd ->
  PopupInput.pastedImageFiles cd = [] ->
  PopupInput.pastedDataUrls cd = dataUrl :: dataUrls ->
  addedCount c paste = 0 ->
  let c' :=
    run toLowerCase host
      (Consumed :: map (Url paste) (dataUrl :: dataUrls) ++ [Told paste])
      c in
  world c'
  = snd (McpPopup.handle toLowerCase host (McpPopup.InputPaste event)
           (world c))
  /\ forall q, addedCount c' q = addedCount c q.
Proof.
  intros Ei Hprev Hcd Ef Eu E0 c'. subst c'. rewrite run_cons.
  set (c0 := tick toLowerCase host c Consumed).
  assert (W0 : world c0
               = snd (McpPopup.withInput
                        (Rt.bind (Rt.effect Host.EPreventDefault)
                           (fun _ => Rt.ret tt))
                        (world c))).
  { unfold c0. cbn [tick world]. reflexivity. }
  assert (E1 : McpPopup.inputRef (Rt.st (world c0)) = Some i).
  { unfold c0. cbn [tick world]. unfold McpPopup.withInput.
    rewrite Ei. unfold Rt.effect. cbn [fst snd Rt.st Rt.tr].
    now rewrite inputRef_deliver. }
  destruct (loop_in_ticks paste (dataUrl :: dataUrls) c0 E1) as [W Q].
  split.
  - rewrite W. change (addedCount c0 paste) with (addedCount c paste).
    rewrite E0, W0.
    unfold McpPopup.handle, McpPopup.handler.
    cbn [McpPopup.inputHandler].
    unfold PopupInput.handleIngredientPaste. rewrite Hprev, Hcd.
    cbv zeta. rewrite Ef, Eu.
    change (0 <? length (@nil Host.File)) with false.
    change (0 <? length (dataUrl :: dataUrls)) with true. cbv iota.
    change
      (snd (McpPopup.withInput
              (Rt.bind
                 (PopupInput.addDataUrls toLowerCase host
                    (dataUrl :: dataUrls) 0)
                 told)
              (snd (McpPopup.withInput
                      (Rt.bind (Rt.effect Host.EPreventDefault)
                         (fun _ => Rt.ret tt))
                      (world c))))
       = snd (Rt.void
                (McpPopup.withInput
                   (Rt.bind (Rt.effect Host.EPreventDefault)
                      (fun _ =>
                         Rt.bind
                           (PopupInput.addDataUrls toLowerCase host
                              (dataUrl :: dataUrls) 0)
                           told)))
                (world c))).
    unfold Rt.void.
    rewrite (@withInput_bind unit (Rt.effect Host.EPreventDefault)
               (fun _ =>
                  Rt.bind
                    (PopupInput.addDataUrls toLowerCase host
                       (dataUrl :: dataUrls) 0)
                    told)
               (world c) i i tt [Host.EPreventDefault] Ei eq_refl
               (loop_extends (dataUrl :: dataUrls) 0)).
    pose proof (withInput_returns
                  (Rt.bind
                     (PopupInput.addDataUrls toLowerCase host
                        (dataUrl :: dataUrls) 0)
                     told)
                  (snd (McpPopup.withInput
                          (Rt.bind (Rt.effect Host.EPreventDefault)
                             (fun _ => Rt.ret tt))
                          (world c)))
                  (loop_returns (dataUrl :: dataUrls) 0)) as F.
    destruct (McpPopup.withInput _ _) as [o w'] in F |- *.
    cbn [fst] in F. rewrite F. reflexivity.
  - intros q. rewrite Q. unfold forget.
    destruct (q =? paste) eqn:Eq; [|reflexivity].
    apply Nat.eqb_eq in Eq. subst q. now rewrite <- E0.
Qed.

End PacedFacts.

(** After any ticks, while the input is mounted and no paste of an HTML
    text has pushed an image of which it has yet to tell, the options and
    the spice ids that the popup holds, which are those that a submit then
    sends, are the options selected in the input and the ids of the
    ingredients that the input shows, in the same order: whatever was
    pasted, removed, toggled or reset, by the user or through Telegram,
    whatever the backend answered, and wherever the pastes were cut by
    other handlers.  Handlers that run to their end one after the other
    are such ticks, with no paste left under way.  And the paste of an
    HTML text with data URLs of images, run to its end, is its ticks in a
    row. *)
Theorem popup_holds_what_its_input_shows
  (toLowerCase : string -> string) (host : Host.t) (mock : bool) :
  (forall (ticks : list Paced.Tick) (i : PopupInput.State),
      let c := Paced.after toLowerCase host mock ticks in
      let s := Rt.st (Paced.world c) in
      McpPopup.inputRef s = Some i ->
      (forall paste, Paced.addedCount c paste = 0) ->
      McpPopup.toppings s = PopupInput.toppings i
      /\ McpPopup.spiceIds s
         = map CachedIngredientItem.spiceId (PopupInput.ingredients i)
      /\ forall cooked_at,
          DishResponse.toppings (McpPopup.submitDraft s cooked_at)
          = PopupInput.toppings i
          /\ DishResponse.ingredients (McpPopup.submitDraft s cooked_at)
             = map IngredientAttachment.mk
                 (filter (fun id => 0 <? String.length id)
                    (map CachedIngredientItem.spiceId
                       (PopupInput.ingredients i))))
  /\ (forall events : list McpPopup.Event,
         let c :=
           Paced.after toLowerCase host mock (map Paced.Whole events) in
         Paced.world c = McpPopup.after toLowerCase host mock events
         /\ forall paste, Paced.addedCount c paste = 0)
  /\ (forall (c : Paced.t) (event : ClipboardEvent.t) (cd : DataTransfer.t)
        (dataUrl : string) (dataUrls : list string) (paste : nat)
        (i : PopupInput.State),
         McpPopup.inputRef (Rt.st (Paced.world c)) = Some i ->
         ClipboardEvent.defaultPrevented event = false ->
         ClipboardEvent.clipboardData event = Some cd ->
         PopupInput.pastedImageFiles cd = [] ->
         PopupInput.pastedDataUrls cd = dataUrl :: dataUrls ->
         Paced.addedCount c paste = 0 ->
         let c' :=
           Paced.run toLowerCase host
             (Paced.Consumed
                :: map (Paced.Url paste) (dataUrl :: dataUrls)
                ++ [Paced.Told paste])
             c in
         Paced.world c'
         = snd (McpPopup.handle toLowerCase host (McpPopup.InputPaste event)
                  (Paced.world c))
         /\ forall q, Paced.addedCount c' q = Paced.addedCount c q).
Proof.
  split; [|split].
  - intros ticks i c s E Hs.
    assert (H : Sync.Synced s).
    { apply run_synced; [|exact Hs].
      intros _. cbn. exact I. }
    unfold Sync.Synced in H. rewrite E in H.
    destruct H as [T D]. unfold Invariants.ids in D.
    split; [exact T|]. split; [exact D|].
    intros cooked_at. unfold McpPopup.submitDraft.
    cbn [DishResponse.toppings DishResponse.ingredients].
    rewrite T, D. split; reflexivity.
  - intros events c. subst c. unfold Paced.after.
    rewrite run_whole. cbn [Paced.world Paced.addedCount].
    split; [reflexivity|]. intros paste. reflexivity.
  - intros c event cd dataUrl dataUrls paste i.
    apply html_paste_in_ticks.
Qed.

Lemma popup_holds_what_its_input_shows_witness :
  let c :=
    Paced.after Sample.toLowerCase Sample.online false
      [Paced.Whole (McpPopup.SetRequest (Some Sample.request));
       Paced.Whole (McpPopup.InputOptionToggle "A");
       Paced.Consumed;
       Paced.Url 0 Sample.dataUrl;
       Paced.Whole (McpPopup.InputOptionToggle "B");
       Paced.File Sample.png;
       Paced.Url 0 Sample.dataUrl;
       Paced.Told 0] in
  let s := Rt.st (Paced.world c) in
  match McpPopup.inputRef s with
  | Some i =>
      McpPopup.toppings s = PopupInput.toppings i
      /\ McpPopup.spiceIds s
         = map CachedIngredientItem.spiceId (PopupInput.ingredients i)
      /\ McpPopup.spiceIds s = ["spice-1"]
  | None => False
  end.
Proof.
  intros c s.
  destruct (McpPopup.inputRef s) as [i|] eqn:E.
  - assert (Hs : forall paste, Paced.addedCount c paste = 0).
    { intros paste. vm_compute. destruct paste; reflexivity. }
    destruct (proj1 (popup_holds_what_its_input_shows Sample.toLowerCase
                       Sample.online false) _ i E Hs) as (T & D & _).
    split; [exact T|]. split; [exact D|]. vm_compute. reflexivity.
  - vm_compute in E. discriminate E.
Defined.

(** In the middle of a paste of an HTML text the popup is behind its
    input: after the first of two images the input shows it and the popup
    does not hold it, so that a submit at that moment sends the selected
    option without the image; the end of the paste brings the popup in
    step. *)
Example paste_under_way_lags :
  let start :=
    [Paced.Whole (McpPopup.SetRequest (Some Sample.request));
     Paced.Whole (McpPopup.InputOptionToggle "A");
     Paced.Consumed;
     Paced.Url 0 Sample.dataUrl] in
  let shown (c : Paced.t) :=
    option_map Invariants.ids (McpPopup.inputRef (Rt.st (Paced.world c))) in
  let held (c : Paced.t) := McpPopup.spiceIds (Rt.st (Paced.world c)) in
  let first := Paced.after Sample.toLowerCase Sample.online false start in
  let sent :=
    Paced.after Sample.toLowerCase Sample.online false
      (start ++ [Paced.Whole McpPopup.Submit]) in
  let last :=
    Paced.after Sample.toLowerCase Sample.online false
      (start ++ [Paced.Url 0 Sample.dataUrl; Paced.Told 0]) in
  (shown first = Some ["spice-1"] /\ held first = []
   /\ Paced.addedCount first 0 = 1)
  /\ (map (fun r => (DishResponse.toppings r, DishResponse.ingredients r))
        (responsesOf (Rt.tr (Paced.world sent)))
      = [(["A"], []); (["A"], [])])
  /\ (shown last = Some ["spice-1"] /\ held last = ["spice-1"]
      /\ Paced.addedCount last 0 = 0).
Proof.
  cbv zeta. split; [|split].
  - split; [vm_compute; reflexivity|]. split; vm_compute; reflexivity.
  - vm_compute. reflexivity.
  - split; [vm_compute; reflexivity|]. split; vm_compute; reflexivity.
Qed.

(** ** Options toggled through Telegram *)

(** Whether an effect is a line on the console. *)
Definition isConsole (e : Host.Effect) : bool :=
  match e with
  | Host.EConsole _ _ => true
  | _ => false
  end.

(** An option toggled through Telegram leaves the popup and its mounted
    input exactly as a click on the row of that option in the input does,
    when the popup holds the selection of the input (as it does after
    handlers that ran to their end): both return, and the click tells the parent
    the new selection once, which is all it logs, while the Telegram
    handler logs two lines on the console before the same update: the two
    traces differ in those lines only. *)
Theorem telegram_toggle_is_a_click
  (toLowerCase : string -> string) (host : Host.t)
  (option : string) (s : McpPopup.State) (i : PopupInput.State)
  (t : Host.trace) :
  McpPopup.inputRef s = Some i ->
  McpPopup.toppings s = PopupInput.toppings i ->
  let telegram :=
    Rt.run
      (McpPopup.handler toLowerCase host
         (McpPopup.Telegram (McpPopup.option_toggled option))) s t in
  let click :=
    Rt.run
      (McpPopup.handler toLowerCase host (McpPopup.InputOptionToggle option))
      s t in
  let update :=
    Host.EEmitUpdate
      (PopupInput.note i ++ PopupInput.generateConditionalContent i)
      (toggled option (PopupInput.toppings i))
      (map CachedIngredientItem.spiceId (PopupInput.ingredients i)) in
  fst telegram = Js.Ret tt
  /\ fst click = Js.Ret tt
  /\ Rt.st (snd telegram) = Rt.st (snd click)
  /\ Rt.tr (snd click) = t ++ [update]
  /\ Rt.tr (snd telegram)
     = t ++ [Host.EConsole Host.log "🎯 [McpPopup] 开始处理事件:";
             Host.EConsole Host.log "🎯 [McpPopup] 处理选项切换:";
             update]
  /\ filter (fun e => negb (isConsole e)) (Rt.tr (snd telegram))
     = filter (fun e => negb (isConsole e)) (Rt.tr (snd click))
  /\ McpPopup.toppings (Rt.st (snd click))
     = toggled option (PopupInput.toppings i)
  /\ option_map PopupInput.toppings (McpPopup.inputRef (Rt.st (snd click)))
     = Some (toggled option (PopupInput.toppings i)).
Proof.
  intros E T telegram click update. subst telegram click.
  assert (Rc : Rt.run
                 (McpPopup.handler toLowerCase host
                    (McpPopup.InputOptionToggle option)) s t
               = (Js.Ret tt,
                  Rt.mkWorld
                    (McpPopup.handleInputUpdate
                       (PopupInput.note i
                          ++ PopupInput.generateConditionalContent i)%string
                       (toggled option (PopupInput.toppings i))
                       (Some (map CachedIngredientItem.spiceId
                                (PopupInput.ingredients i)))
                       (McpPopup.set_inputRef
                          (Some (PopupInput.set_toppings
                                   (toggled option (PopupInput.toppings i))
                                   i)) s))
                    (t ++ [update]))).
  { unfold Rt.run. cbn [McpPopup.handler McpPopup.inputHandler].
    unfold McpPopup.withInput. cbn [Rt.st Rt.tr]. rewrite E.
    pose proof (handleOptionToggle_run option i t) as R.
    unfold Rt.run in R. rewrite R. cbn [Rt.st Rt.tr].
    rewrite skipn_app, skipn_all, Nat.sub_diag. reflexivity. }
  assert (Rt' : Rt.run
               (McpPopup.handler toLowerCase host
                  (McpPopup.Telegram (McpPopup.option_toggled option))) s t
             = (Js.Ret tt,
                Rt.mkWorld
                  (McpPopup.handleInputUpdate
                     (PopupInput.note i
                        ++ PopupInput.generateConditionalContent i)%string
                     (toggled option (PopupInput.toppings i))
                     (Some (map CachedIngredientItem.spiceId
                              (PopupInput.ingredients i)))
                     (McpPopup.set_inputRef
                        (Some (PopupInput.set_toppings
                                 (toggled option (PopupInput.toppings i))
                                 i)) s))
                  (t ++ [Host.EConsole Host.log "🎯 [McpPopup] 开始处理事件:";
                         Host.EConsole Host.log "🎯 [McpPopup] 处理选项切换:";
                         update]))).
  { unfold Rt.run. cbn [McpPopup.handler McpPopup.inputHandler].
    unfold McpPopup.handleTelegramEvent, McpPopup.handleOptionToggle.
    unfold Rt.console_log, Rt.bind, Rt.effect, Rt.get.
    cbn [Rt.st Rt.tr fst snd]. rewrite T.
    unfold update, toggled.
    destruct (PopupInput.indexOf (PopupInput.toppings i) option) as [idx|];
      unfold Rt.modify; cbn [Rt.st Rt.tr fst snd];
      unfold McpPopup.withInput; cbn [Rt.st Rt.tr McpPopup.inputRef
                                       McpPopup.set_toppings];
      rewrite E;
      unfold PopupInput.updateData, PopupInput.emitUpdate, Rt.bind, Rt.ret,
        Rt.modify, Rt.get, Rt.effect;
      cbn [Rt.st Rt.tr fst snd McpPopup.toppings McpPopup.set_toppings];
      rewrite skipn_app, skipn_all, Nat.sub_diag;
      cbn [skipn app McpPopup.deliver fold_left];
      (apply f_equal2; [reflexivity|]);
      (apply f_equal2; [|now rewrite <- !app_assoc]);
      unfold McpPopup.handleInputUpdate;
      destruct s; cbn in *; subst; reflexivity. }
  rewrite Rc, Rt'. cbn [Rt.st Rt.tr fst snd].
  repeat split. now rewrite !filter_app.
Qed.

Lemma telegram_toggle_is_a_click_witness :
  let i := PopupInput.set_toppings ["A"] (PopupInput.initial None) in
  let s :=
    McpPopup.set_toppings ["A"]
      (McpPopup.set_inputRef (Some i) (McpPopup.initial false)) in
  let telegram :=
    Rt.run
      (McpPopup.handler Sample.toLowerCase Sample.up
         (McpPopup.Telegram (McpPopup.option_toggled "B"))) s [] in
  let click :=
    Rt.run
      (McpPopup.handler Sample.toLowerCase Sample.up
         (McpPopup.InputOptionToggle "B")) s [] in
  Rt.st (snd telegram) = Rt.st (snd click)
  /\ McpPopup.toppings (Rt.st (snd click)) = ["A"; "B"]
  /\ filter (fun e => negb (isConsole e)) (Rt.tr (snd telegram))
     = Rt.tr (snd click).
Proof.
  intros i s telegram click.
  pose proof (@telegram_toggle_is_a_click Sample.toLowerCase Sample.up "B"
                s i [] eq_refl eq_refl) as H.
  cbv zeta in H. destruct H as (_ & _ & H1 & H2 & H3 & _ & H4 & _).
  split; [exact H1|]. split; [exact H4|].
  unfold telegram, click. rewrite H2, H3. reflexivity.
Defined.

(** ** Inserting a prompt *)

Section InsertFacts.

Import PopupInput.

(** A click on a custom prompt.  A prompt whose content is blank clears
    the text.  Otherwise, on a blank text the content becomes the text at
    once; on a text that is not blank nothing is told to the parent, the
    text stays, and the dialog opens with the content pending: choosing to
    append then gives the trimmed text, an empty line and the content,
    choosing to replace gives the content, and either choice closes the
    dialog and leaves nothing pending.  The options and the ingredients
    are never touched. *)
Theorem prompt_click_then_choice
  (prompt : CustomPrompt.t) (s : State) (t : Host.trace) :
  let content := CustomPrompt.content prompt in
  let clicked := Rt.run (handlePromptClick prompt) s t in
  let s1 := Rt.st (snd clicked) in
  let chosen mode := Rt.st (snd (Rt.run (handleInsertMode mode) s1 [])) in
  (Js.trim content = "" -> s1 = set_note "" s)
  /\ (Js.trim content <> "" ->
      Js.trim (note s) = "" ->
      s1 = set_note content s)
  /\ (Js.trim content <> "" ->
      Js.trim (note s) <> "" ->
      clicked
      = (Js.Ret tt,
         Rt.mkWorld
           (set_showInsertDialog true (set_pendingPromptContent content s))
           t)
      /\ chosen append
         = set_pendingPromptContent ""
             (set_showInsertDialog false
                (set_note
                   (Js.trim (note s) ++ Js.nl ++ Js.nl ++ content)%string
                   s))
      /\ chosen replace
         = set_pendingPromptContent ""
             (set_showInsertDialog false (set_note content s))).
Proof.
  intros content clicked s1 chosen. subst chosen s1 clicked content.
  assert (Blank : forall x, Js.trim x = "" ->
                    negb (Js.truthy x) || String.eqb (Js.trim x) "" = true).
  { intros x Hx. rewrite Hx. apply orb_true_r. }
  assert (Full : forall x, Js.trim x <> "" ->
                   negb (Js.truthy x) || String.eqb (Js.trim x) "" = false).
  { intros x Hx. destruct x as [|c x]; [now contradiction Hx|].
    cbn [Js.truthy negb orb]. now apply String.eqb_neq. }
  split; [|split].
  - intros Hb. unfold Rt.run, handlePromptClick. rewrite (Blank _ Hb).
    unfold emitUpdate, Rt.bind, Rt.modify, Rt.get, Rt.effect. reflexivity.
  - intros Hc Hn. unfold Rt.run, handlePromptClick. rewrite (Full _ Hc).
    unfold Rt.bind at 1. unfold Rt.get at 1. cbn [Rt.st Rt.tr fst snd].
    rewrite Hn. cbn [Js.truthy].
    unfold insertPromptContent, emitUpdate, Rt.bind, Rt.modify, Rt.get,
      Rt.effect.
    reflexivity.
  - intros Hc Hn.
    assert (Tn : Js.truthy (Js.trim (note s)) = true).
    { now destruct (Js.trim (note s)). }
    assert (R : Rt.run (handlePromptClick prompt) s t
                = (Js.Ret tt,
                   Rt.mkWorld
                     (set_showInsertDialog true
                        (set_pendingPromptContent
                           (CustomPrompt.content prompt) s)) t)).
    { unfold Rt.run, handlePromptClick. rewrite (Full _ Hc).
      unfold Rt.bind at 1. unfold Rt.get at 1. cbn [Rt.st Rt.tr fst snd].
      rewrite Tn. reflexivity. }
    rewrite R. split; [reflexivity|]. cbn [Rt.st snd].
    unfold Rt.run, handleInsertMode, insertPromptContent, emitUpdate.
    unfold Rt.bind, Rt.modify, Rt.get, Rt.effect.
    cbn [Rt.st Rt.tr fst snd note set_showInsertDialog
         set_pendingPromptContent pendingPromptContent].
    rewrite Tn. split; destruct s; reflexivity.
Qed.

End InsertFacts.

Lemma prompt_click_then_choice_witness :
  let s := PopupInput.set_note " typed " (PopupInput.initial None) in
  let s1 :=
    Rt.st (snd (Rt.run (PopupInput.handlePromptClick (normalPrompt "a" 1))
                  s [])) in
  PopupInput.note
    (Rt.st (snd (Rt.run (PopupInput.handleInsertMode PopupInput.append)
                   s1 [])))
  = ("typed" ++ Js.nl ++ Js.nl ++ "text")%string.
Proof.
  intros s s1.
  pose proof (prompt_click_then_choice (normalPrompt "a" 1) s []) as H.
  cbv zeta in H. destruct H as (_ & _ & H).
  destruct H as (_ & H & _); [discriminate|discriminate|].
  fold s1 in H. rewrite H. reflexivity.
Defined.

(** ** Reading images through the browser *)

Section NavigatorFacts.

Import PopupInput.

Variable toLowerCase : string -> string.
Variable host : Host.t.

Definition isImageFile (f : Host.File) : Prop :=
  Js.startsWith (Host.file_type f) "image/" = true
  /\ Js.startsWith (Host.file_name f) "pasted-" = true.

Lemma startsWith_pasted (x : string) :
  Js.startsWith ("pasted-" ++ x) "pasted-" = true.
Proof. unfold Js.startsWith. cbn. destruct x; reflexivity. Qed.

Lemma readItemTypes_run (pairs : list (Host.ClipboardItem * string)) :
  forall (files : list Host.File) (s : State) (t : Host.trace),
    Forall isImageFile files ->
    exists files' new,
      Rt.run (readItemTypes toLowerCase host pairs files) s t
      = (Js.Ret files', Rt.mkWorld s (t ++ new))
      /\ Forall isImageFile files'
      /\ length files' <= length files + length pairs.
Proof.
  induction pairs as [|[item type] rest IH]; intros files s t Hf.
  - exists files, []. rewrite app_nil_r. repeat split; [exact Hf|simpl; lia].
  - cbn [readItemTypes].
    destruct (Js.startsWith type "image/") eqn:Ht; cbn [negb].
    + unfold Rt.run, Rt.bind at 1, Rt.attempt, Rt.web.
      cbn [Rt.st Rt.tr fst snd].
      destruct (Host.web host t (Host.item_getType item type)) as [blob|e].
      * unfold Rt.bind at 1. unfold Rt.query at 1.
        cbn [Rt.st Rt.tr fst snd].
        match goal with
        | |- context [readItemTypes toLowerCase host rest ?fs
                        {| Rt.st := s; Rt.tr := ?t1 |}] =>
            destruct (IH fs s t1) as (files' & new & R & F' & L)
        end.
        { apply Forall_app. split; [exact Hf|].
          constructor; [|constructor]. split; [exact Ht|apply startsWith_pasted]. }
        unfold Rt.run in R. rewrite R. rewrite <- !app_assoc.
        exists files'. eexists. split; [reflexivity|].
        split; [exact F'|]. rewrite length_app in L. simpl in *. lia.
      * unfold Rt.console_debug, Rt.bind, Rt.effect, Rt.ret.
        cbn [Rt.st Rt.tr fst snd]. rewrite <- app_assoc.
        exists files. eexists. split; [reflexivity|].
        split; [exact Hf|simpl; lia].
    + destruct (IH files s t Hf) as (files' & new & R & F' & L).
      exists files', new. split; [exact R|]. split; [exact F'|].
      simpl. lia.
Qed.

(** The read of the clipboard through the browser never throws and
    changes no ref.  Every file it gives has an image type and a name made
    here; when the clipboard cannot be read, or the read fails, it gives no
    file, and it never gives more files than the items hold types. *)
Theorem navigator_read_gives_images (s : State) (t : Host.trace) :
  let readable :=
    Host.query host t Host.navigator_clipboard_readable in
  let t1 := t ++ [Host.EQuery Host.navigator_clipboard_readable readable] in
  let read := Host.web host t1 Host.navigator_clipboard_read in
  exists files new,
    Rt.run (readIngredientsFromNavigatorClipboard toLowerCase host) s t
    = (Js.Ret files, Rt.mkWorld s (t1 ++ new))
    /\ Forall isImageFile files
    /\ (readable = false -> files = [] /\ new = [])
    /\ (forall e, read = Js.Throw e -> files = [])
    /\ (forall items,
           read = Js.Ret items ->
           length files
           <= length (flat_map (fun item => Host.item_types item) items)).
Proof.
  intros readable t1 read. subst read t1 readable.
  unfold Rt.run, readIngredientsFromNavigatorClipboard.
  unfold Rt.bind at 1. unfold Rt.query at 1. cbn [Rt.st Rt.tr fst snd].
  destruct (Host.query host t Host.navigator_clipboard_readable) eqn:Q;
    cbn [negb].
  - unfold Rt.bind at 1. unfold Rt.attempt, Rt.web.
    cbn [Rt.st Rt.tr fst snd].
    destruct (Host.web host _ Host.navigator_clipboard_read)
      as [items|e] eqn:W.
    + match goal with
      | |- context [readItemTypes toLowerCase host ?ps []
                      {| Rt.st := s; Rt.tr := ?t2 |}] =>
          destruct (@readItemTypes_run ps [] s t2 (Forall_nil _))
            as (files & new & R & F & L)
      end.
      unfold Rt.run in R. rewrite R. rewrite <- app_assoc.
      exists files. eexists. split; [reflexivity|]. split; [exact F|].
      split; [discriminate|]. split; [discriminate|].
      intros items' [= <-]. simpl in L.
      rewrite !flat_map_concat_map in *. 
      etransitivity; [exact L|].
      rewrite !length_concat, !map_map.
      apply Nat.eq_le_incl. f_equal. apply map_ext.
      intros item. now rewrite length_map.
    + unfold Rt.console_debug, Rt.bind, Rt.effect, Rt.ret.
      cbn [Rt.st Rt.tr fst snd]. rewrite <- app_assoc.
      exists []. eexists. split; [reflexivity|]. split; [constructor|].
      split; [discriminate|]. split; [reflexivity|]. discriminate.
  - exists [], []. rewrite app_nil_r. split; [reflexivity|].
    split; [constructor|]. split; [now split|].
    split; [reflexivity|]. intros; simpl; lia.
Qed.

End NavigatorFacts.

Lemma navigator_read_gives_images_witness :
  exists (files : list Host.File) (new : list Host.Effect),
    fst (Rt.run
           (PopupInput.readIngredientsFromNavigatorClipboard
              Sample.toLowerCase Sample.up) (PopupInput.initial None) [])
    = Js.Ret files
    /\ files = [].
Proof.
  pose proof (navigator_read_gives_images Sample.toLowerCase Sample.up
                (PopupInput.initial None) []) as H.
  cbv zeta in H. destruct H as (files & new & R & _ & H & _).
  exists files, new. split; [now rewrite R|]. apply H. reflexivity.
Defined.

(** ** The legacy sections *)

Section SectionFacts.

Import LegacySections.

Lemma getKey_setKey (key key' : string) (v : PromptSection.t)
  (acc : list (string * PromptSection.t)) :
  getKey key' (setKey key v acc)
  = if String.eqb key key' then Some v else getKey key' acc.
Proof.
  induction acc as [|[k x] acc IH]; simpl.
  - reflexivity.
  - destruct (String.eqb_spec k key) as [->|N]; simpl.
    + destruct (String.eqb_spec key key'); reflexivity.
    + rewrite IH. destruct (String.eqb_spec key key') as [->|N'];
        [|reflexivity].
      destruct (String.eqb_spec k key'); [contradiction|reflexivity].
Qed.

Lemma find_append {A} (f : A -> bool) (l1 l2 : list A) :
  find f (l1 ++ l2)
  = match find f l1 with
    | Some x => Some x
    | None => find f l2
    end.
Proof.
  induction l1 as [|x l1 IH]; simpl; [reflexivity|].
  now destruct (f x).
Qed.

Lemma sections_fold (config : list ToolPromptConfig.t) :
  forall (acc : list (string * PromptSection.t)) (key : string),
    getKey key
      (fold_left
         (fun acc tool =>
            setKey (ToolPromptConfig.id tool) (sectionOf tool) acc)
         config acc)
    = match
        find (fun t => String.eqb (ToolPromptConfig.id t) key) (rev config)
      with
      | Some tool => Some (sectionOf tool)
      | None => getKey key acc
      end.
Proof.
  induction config as [|tool config IH]; intros acc key; [reflexivity|].
  cbn [fold_left rev]. rewrite IH, find_append.
  destruct (find _ (rev config)); [reflexivity|].
  cbn [find]. rewrite getKey_setKey.
  now destruct (String.eqb (ToolPromptConfig.id tool) key).
Qed.

Lemma find_rev_unique (config : list ToolPromptConfig.t)
  (tool : ToolPromptConfig.t) :
  NoDup (map ToolPromptConfig.id config) -> In tool config ->
  find (fun t => String.eqb (ToolPromptConfig.id t)
                   (ToolPromptConfig.id tool)) (rev config)
  = Some tool.
Proof.
  intros Hnd Hin.
  destruct (find _ (rev config)) as [t|] eqn:F.
  - apply find_some in F. destruct F as [Ht E].
    apply String.eqb_eq in E. apply in_rev in Ht. f_equal.
    clear - Hnd Hin Ht E.
    induction config as [|x config IH]; [contradiction|].
    inversion Hnd as [|? ? Hx Hc]; subst.
    destruct Hin as [->|Hin], Ht as [->|Ht]; auto.
    + exfalso. apply Hx. rewrite <- E. now apply in_map.
    + exfalso. apply Hx. rewrite E. now apply in_map.
  - apply in_rev in Hin. pose proof (find_none _ _ F tool Hin) as N.
    cbv beta in N. rewrite String.eqb_refl in N. discriminate N.
Qed.

(** The legacy sections and the prompt generator say the same.  The
    section under an id is that of the last tool of the configuration with
    that id, so with distinct ids every tool has its own section, and ids
    of no tool have none.  The base line of a section is the line that the
    generator writes for the tool, and empty exactly when the generator
    writes none: the base lines of the generated prompt are the non-empty
    bases of the sections of the enabled tools, in order.  A section has a
    detail exactly when the generated prompt has a guide for the tool. *)
Theorem legacy_sections_match_generator
  (config : list ToolPromptConfig.t) :
  (forall key,
      getKey key (PROMPT_SECTIONS config)
      = option_map sectionOf
          (find (fun t => String.eqb (ToolPromptConfig.id t) key)
             (rev config)))
  /\ (NoDup (map ToolPromptConfig.id config) ->
      forall tool,
        In tool config ->
        getKey (ToolPromptConfig.id tool) (PROMPT_SECTIONS config)
        = Some (sectionOf tool))
  /\ (forall tools,
         map PromptConfig.dash (baseRules tools)
         = filter Js.truthy
             (map (fun t => PromptSection.base (sectionOf t))
                (filter isEnabledTool tools)))
  /\ (forall tool,
         PromptSection.detail (sectionOf tool) = ""
         <-> PromptConfig.toolDetail tool = []).
Proof.
  assert (K : forall key,
             getKey key (PROMPT_SECTIONS config)
             = option_map sectionOf
                 (find (fun t => String.eqb (ToolPromptConfig.id t) key)
                    (rev config))).
  { intros key. unfold PROMPT_SECTIONS. rewrite sections_fold.
    destruct (find _ (rev config)); reflexivity. }
  split; [exact K|]. split; [|split].
  - intros Hnd tool Hin. rewrite K, (@find_rev_unique _ _ Hnd Hin). reflexivity.
  - intros tools. unfold baseRules.
    induction (filter isEnabledTool tools) as [|t l IH]; [reflexivity|].
    cbn [map filter].
    assert (E : PromptSection.base (sectionOf t)
                = if Js.truthy (ToolPrompt.base (ToolPromptConfig.prompt t))
                  then PromptConfig.dash
                         (ToolPrompt.base (ToolPromptConfig.prompt t))
                  else "") by reflexivity.
    rewrite E.
    destruct (ToolPrompt.base (ToolPromptConfig.prompt t)) as [|c b];
      cbn [Js.truthy]; [exact IH|].
    cbn [map]. rewrite IH. reflexivity.
  - intros tool. unfold sectionOf, PromptConfig.toolDetail.
    cbn [PromptSection.detail]. rewrite length_app, !length_map.
    destruct (ToolPrompt.whenToUse (ToolPromptConfig.prompt tool)) as [|a w];
      destruct (ToolPrompt.howToUse (ToolPromptConfig.prompt tool))
        as [|b h]; cbn [length Nat.add Nat.eqb Nat.ltb Nat.leb andb];
      split; intros H; try reflexivity; try discriminate H.
    + destruct (ToolPromptConfig.name tool); discriminate H.
    + destruct (ToolPromptConfig.name tool); discriminate H.
    + destruct (ToolPromptConfig.name tool); discriminate H.
Qed.

End SectionFacts.

Lemma legacy_sections_match_generator_witness :
  Forall
    (fun tool =>
       LegacySections.getKey (ToolPromptConfig.id tool)
         (LegacySections.PROMPT_SECTIONS PromptConfigRev2.MCP_TOOLS_CONFIG)
       = Some (LegacySections.sectionOf tool))
    PromptConfigRev2.MCP_TOOLS_CONFIG.
Proof.
  pose proof (legacy_sections_match_generator
                PromptConfigRev2.MCP_TOOLS_CONFIG) as H.
  destruct H as (_ & H & _). apply Forall_forall.
  apply H. apply Rev2_ids_distinct.
Defined.

(** ** The threshold of the interaction wait *)

Section WaitFacts.

Import ReplySettings.

Lemma roundSeconds_thousands (n : Z) : roundSeconds (n * 1000) = n.
Proof.
  unfold roundSeconds.
  replace (n * 1000 + 500)%Z with (500 + n * 1000)%Z by lia.
  rewrite Z.div_add by lia. reflexivity.
Qed.

(** The threshold of the interaction wait goes to the backend in
    milliseconds and is shown in seconds.  What is saved is a whole,
    non-negative number of seconds: the entered number rounded down,
    nothing for a negative or an empty input.  Loading what was saved
    shows exactly those seconds, and saving what was loaded changes
    nothing.  A count of the backend that is not a whole number of seconds
    is shown rounded to the nearest second, off by half a second at most,
    and a negative one as zero; when the load fails after the
    configuration arrived, the configuration is kept and the seconds shown
    stay.  The counts are below 2^53, where the numbers of the runtime
    are exact. *)
Theorem wait_seconds_round_trip (s : State) :
  let saved := waitMsToSave s in
  (saved < 2 ^ 53)%Z ->
  (0 <= saved)%Z
  /\ (saved = 1000 * wholeSeconds (interactionWaitSeconds s))%Z
  /\ secondsOfMs (finite saved) = wholeSeconds (interactionWaitSeconds s)
  /\ (forall c,
         let s' := fst (loadConfig (Js.Ret c) (Js.Ret (finite saved)) s) in
         waitMsToSave s' = saved
         /\ localConfig s' = c)
  /\ (forall n : Z,
         (0 <= n)%Z ->
         interactionWaitSeconds s = Some (inject_Z n) ->
         saved = (n * 1000)%Z)
  /\ (forall ms : Z,
         (0 <= ms < 2 ^ 53)%Z ->
         (Z.abs (1000 * secondsOfMs (finite ms) - ms) <= 500)%Z)
  /\ (forall ms : Z,
         (- 2 ^ 53 < ms < 0)%Z -> secondsOfMs (finite ms) = 0%Z)
  /\ (forall c e,
         loadConfig (Js.Ret c) (Js.Throw e) s
         = (mkState c (interactionWaitSeconds s),
            ["加载继续回复配置失败:"])).
Proof.
  intros saved _. subst saved. unfold waitMsToSave.
  set (n := wholeSeconds (interactionWaitSeconds s)).
  assert (Hn : (0 <= n)%Z) by (unfold n, wholeSeconds; lia).
  assert (Hr : secondsOfMs (finite (n * 1000)) = n).
  { unfold secondsOfMs. rewrite roundSeconds_thousands. lia. }
  split; [lia|]. split; [lia|]. split; [exact Hr|].
  split; [|split; [|split; [|split]]].
  - intros c. cbn [loadConfig fst interactionWaitSeconds localConfig].
    split; [|reflexivity].
    rewrite Hr. unfold wholeSeconds at 1. rewrite Qfloor_Z. lia.
  - intros k Hk E. unfold n, wholeSeconds. rewrite E, Qfloor_Z. lia.
  - intros ms Hms. unfold secondsOfMs, roundSeconds.
    pose proof (Z.div_mod (ms + 500) 1000 ltac:(lia)) as D.
    pose proof (Z.mod_pos_bound (ms + 500) 1000 ltac:(lia)) as B.
    assert (0 <= (ms + 500) / 1000)%Z by (apply Z.div_pos; lia).
    lia.
  - intros ms Hms. unfold secondsOfMs, roundSeconds.
    assert ((ms + 500) / 1000 < 1)%Z; [|lia].
    apply Z.div_lt_upper_bound; lia.
  - intros c e. reflexivity.
Qed.

End WaitFacts.

Lemma wait_seconds_round_trip_witness :
  let s :=
    ReplySettings.mkState (ReplySettings.localConfig ReplySettings.initial)
      (Some (31 # 2)%Q) in
  ReplySettings.waitMsToSave s = 15000%Z
  /\ ReplySettings.secondsOfMs (ReplySettings.finite 15000) = 15%Z
  /\ (Z.abs (1000 * ReplySettings.secondsOfMs (ReplySettings.finite 15499)
             - 15499) <= 500)%Z.
Proof.
  intros s.
  pose proof (wait_seconds_round_trip s) as H.
  cbv zeta in H.
  destruct H as (_ & H2 & H3 & _ & _ & H6 & _); [vm_compute; reflexivity|].
  split; [exact H2|]. split; [exact H3|].
  apply H6. lia.
Defined.
